(** * AWACS controller (awacs.py): a shallow embedding and its properties

    The controller keeps a world model of the entities reported by a
    telemetry feed, answers radio-style text commands and emits the two
    unsolicited calls MERGED and DEFEND.

    Python floats are read as real numbers: the arithmetic of the source is
    kept operation by operation, its rounding error is not; [float(s)] of a
    string of digits is the number the digits spell, which is what the
    float holds below 2^53.  Python dictionaries keep insertion order and
    are association lists.  Python sets are duplicate-free lists: the order
    of the list stands for one iteration order of the set, which the
    language does not fix, so the statements below speak of membership, and
    of the lines printed for the members of a set up to their order. *)

From Stdlib Require Import Reals Lra Lia ZArith List String Ascii Bool Relations Permutation.
From Stdlib Require Import Zfloor DecimalString.
Import ListNotations.

(** ** Numbers as Python computes with them *)

Module PyNum.
Local Open Scope R_scope.

Definition Rltb (x y : R) : bool := if Rlt_dec x y then true else false.
Definition Rleb (x y : R) : bool := if Rle_dec x y then true else false.
Definition Reqb (x y : R) : bool := if Req_dec_T x y then true else false.

(** [int(x)] on a float: truncation toward zero. *)
Definition py_int (x : R) : Z := if Rle_dec 0 x then Zfloor x else Zceil x.

(** [round(x)] on a float: the nearest integer, a tie goes to the even one. *)
Definition py_round (x : R) : Z :=
  let f := Zfloor x in
  let d := x - IZR f in
  if Rlt_dec d (1/2) then f
  else if Rlt_dec (1/2) d then (f + 1)%Z
  else if Z.even f then f else (f + 1)%Z.

(** [x % m] and [x // m] on floats: the remainder has the sign of [m]. *)
Definition py_floordiv (x m : R) : R := IZR (Zfloor (x / m)).
Definition py_fmod (x m : R) : R := x - m * IZR (Zfloor (x / m)).

(** [math.degrees], [math.radians], [math.hypot], [math.atan2 y x]. *)
Definition degrees (a : R) : R := a * (180 / PI).
Definition radians (d : R) : R := d * (PI / 180).
Definition hypot (x y : R) : R := sqrt (x * x + y * y).
Definition atan2 (y x : R) : R :=
  if Rlt_dec 0 x then atan (y / x)
  else if Rlt_dec x 0 then
    (if Rle_dec 0 y then atan (y / x) + PI else atan (y / x) - PI)
  else if Rlt_dec 0 y then PI / 2
  else if Rlt_dec y 0 then - (PI / 2)
  else 0.

(** [sum], [min] and [max] of a list of floats ([min] and [max] are only
    called on non-empty lists). *)
Definition py_sum (l : list R) : R := fold_left Rplus l 0.
Definition py_min (x : R) (l : list R) : R := fold_left Rmin l x.
Definition py_max (x : R) (l : list R) : R := fold_left Rmax l x.

(** Truthiness of a float: [x or d]. *)
Definition float_or (x : option R) (d : R) : R :=
  match x with
  | Some r => if Req_dec_T r 0 then d else r
  | None => d
  end.

End PyNum.

(** ** Strings as Python handles them (ASCII) *)

Module PyStr.
Local Open Scope string_scope.

Definition is_digit (c : ascii) : bool :=
  let n := nat_of_ascii c in (48 <=? n)%nat && (n <=? 57)%nat.
Definition is_upper (c : ascii) : bool :=
  let n := nat_of_ascii c in (65 <=? n)%nat && (n <=? 90)%nat.
Definition is_lower (c : ascii) : bool :=
  let n := nat_of_ascii c in (97 <=? n)%nat && (n <=? 122)%nat.
Definition is_alpha (c : ascii) : bool := is_upper c || is_lower c.
(** [str.isspace] on the ASCII range: TAB..CR, FS..US and the blank. *)
Definition is_space (c : ascii) : bool :=
  let n := nat_of_ascii c in
  ((9 <=? n)%nat && (n <=? 13)%nat) || ((28 <=? n)%nat && (n <=? 32)%nat).

Definition lower_char (c : ascii) : ascii :=
  if is_upper c then ascii_of_nat (nat_of_ascii c + 32) else c.

Fixpoint lower (s : string) : string :=
  match s with
  | EmptyString => EmptyString
  | String c r => String (lower_char c) (lower r)
  end.

Definition startswith (s p : string) : bool := String.prefix p s.

(** [needle in hay]. *)
Fixpoint contains (needle hay : string) : bool :=
  String.prefix needle hay ||
  match hay with
  | EmptyString => false
  | String _ r => contains needle r
  end.

Fixpoint all_chars (p : ascii -> bool) (s : string) : bool :=
  match s with
  | EmptyString => true
  | String c r => p c && all_chars p r
  end.

Fixpoint lstrip_by (p : ascii -> bool) (s : string) : string :=
  match s with
  | EmptyString => EmptyString
  | String c r => if p c then lstrip_by p r else s
  end.

Fixpoint rev_str (s acc : string) : string :=
  match s with
  | EmptyString => acc
  | String c r => rev_str r (String c acc)
  end.

Definition rstrip_by (p : ascii -> bool) (s : string) : string :=
  rev_str (lstrip_by p (rev_str s "")) "".

(** [s.strip()] and [s.strip(chars)]. *)
Definition strip (s : string) : string := rstrip_by is_space (lstrip_by is_space s).
Definition mem_char (cs : string) (c : ascii) : bool :=
  existsb (Ascii.eqb c) (list_ascii_of_string cs).
Definition strip_chars (cs s : string) : string :=
  rstrip_by (mem_char cs) (lstrip_by (mem_char cs) s).

Definition replace_char_none (x : ascii) (s : string) : string :=
  string_of_list_ascii (filter (fun c => negb (Ascii.eqb c x)) (list_ascii_of_string s)).

Fixpoint join (sep : string) (l : list string) : string :=
  match l with
  | [] => ""
  | [x] => x
  | x :: r => x ++ sep ++ join sep r
  end.

Definition nonempty (s : string) : bool :=
  match s with EmptyString => false | _ => true end.

(** [str(n)] for an integer. *)
Definition str_of_nat (n : nat) : string := NilZero.string_of_uint (Nat.to_uint n).
Definition str_of_Z (z : Z) : string :=
  if (z <? 0)%Z then "-" ++ str_of_nat (Z.abs_nat z) else str_of_nat (Z.abs_nat z).

Fixpoint zeros (n : nat) : string :=
  match n with O => "" | S k => String "0" (zeros k) end.

(** [f"{z:03d}"]: zero padding to width 3, the sign counts for the width. *)
Definition fmt_03d (z : Z) : string :=
  let d := str_of_nat (Z.abs_nat z) in
  if (z <? 0)%Z then "-" ++ zeros (2 - String.length d) ++ d
  else zeros (3 - String.length d) ++ d.

(** [f"{z:,}"]: groups of three digits from the right. *)
Fixpoint group3 (digits : list ascii) (n : nat) : list ascii :=
  match digits with
  | [] => []
  | c :: r =>
      if ((0 <? n)%nat && (Nat.eqb (Nat.modulo (List.length digits) 3) 0))%bool
      then ","%char :: c :: group3 r (S n)
      else c :: group3 r (S n)
  end.
Definition fmt_comma (z : Z) : string :=
  let d := string_of_list_ascii (group3 (list_ascii_of_string (str_of_nat (Z.abs_nat z))) 0) in
  if (z <? 0)%Z then "-" ++ d else d.

End PyStr.

(** ** The patterns of [re] that the source uses

    A backtracking matcher with the priorities of Python's engine: the
    alternatives of [a|b] in order, greedy repetition longest first, lazy
    repetition shortest first.  Repetition is only ever applied to one
    character class in the source. *)

Module Re.

Inductive t :=
| Eps
| Chr (p : ascii -> bool)
| Seq (a b : t)
| Alt (a b : t)
| Star (p : ascii -> bool)
| StarLazy (p : ascii -> bool)
| Grp (n : nat) (a : t)
| Eos.

Definition caps := list (nat * string).

Fixpoint star_greedy {X : Type} (p : ascii -> bool) (s : list ascii)
    (k : list ascii -> option X) : option X :=
  match s with
  | c :: r =>
      if p c then match star_greedy p r k with Some x => Some x | None => k s end
      else k s
  | [] => k s
  end.

Fixpoint star_lazy {X : Type} (p : ascii -> bool) (s : list ascii)
    (k : list ascii -> option X) : option X :=
  match k s with
  | Some x => Some x
  | None =>
      match s with
      | c :: r => if p c then star_lazy p r k else None
      | [] => None
      end
  end.

(** The text between two positions of the subject, both given as the rest
    of the subject from there. *)
Definition consumed (s s' : list ascii) : string :=
  string_of_list_ascii (firstn (List.length s - List.length s') s).

Definition newline : ascii := ascii_of_nat 10.

Fixpoint run {X : Type} (r : t) (s : list ascii) (c : caps)
    (k : list ascii -> caps -> option X) : option X :=
  match r with
  | Eps => k s c
  | Chr p => match s with
             | ch :: s' => if p ch then k s' c else None
             | [] => None
             end
  | Seq a b => run a s c (fun s' c' => run b s' c' k)
  | Alt a b => match run a s c k with
               | Some x => Some x
               | None => run b s c k
               end
  | Star p => star_greedy p s (fun s' => k s' c)
  | StarLazy p => star_lazy p s (fun s' => k s' c)
  | Grp n a => run a s c (fun s' c' => k s' ((n, consumed s s') :: c'))
  | Eos => match s with
           | [] => k s c
           | [ch] => if Ascii.eqb ch newline then k s c else None
           | _ => None
           end
  end.

(** A match: the groups, the text before the match and the rest after it. *)
Module Match.
Record t := mk { groups : caps; before : string; rest : string }.
End Match.

(** [re.match(r, s)]. *)
Definition match_ (r : t) (s : string) : option Match.t :=
  run r (list_ascii_of_string s) []
    (fun s' c => Some (Match.mk c "" (string_of_list_ascii s'))).

(** [re.search(r, s)]: the leftmost start that matches. *)
Fixpoint search_from (r : t) (pre : list ascii) (s : list ascii) : option Match.t :=
  match run r s []
          (fun s' c => Some (Match.mk c (string_of_list_ascii (rev pre))
                               (string_of_list_ascii s'))) with
  | Some m => Some m
  | None => match s with
            | ch :: s' => search_from r (ch :: pre) s'
            | [] => None
            end
  end.
Definition search (r : t) (s : string) : option Match.t :=
  search_from r [] (list_ascii_of_string s).

(** [m.group(n)]. *)
Fixpoint group_in (c : caps) (n : nat) : option string :=
  match c with
  | [] => None
  | (i, x) :: r => if Nat.eqb i n then Some x else group_in r n
  end.
Definition group (m : Match.t) (n : nat) : option string := group_in (Match.groups m) n.

(** Pattern pieces. *)
Definition ch (x : ascii) : t := Chr (Ascii.eqb x).
(** A character under [re.I]. *)
Definition chi (x : ascii) : t := Chr (fun c => Ascii.eqb (PyStr.lower_char c) x).
Fixpoint lit_with (f : ascii -> t) (s : string) : t :=
  match s with
  | EmptyString => Eps
  | String c EmptyString => f c
  | String c r => Seq (f c) (lit_with f r)
  end.
Definition lit (s : string) : t := lit_with ch s.
Definition liti (s : string) : t := lit_with chi s.
Definition opt (a : t) : t := Alt a Eps.
Definition plus (p : ascii -> bool) : t := Seq (Chr p) (Star p).
Definition plus_lazy (p : ascii -> bool) : t := Seq (Chr p) (StarLazy p).
Fixpoint seqs (l : list t) : t :=
  match l with
  | [] => Eps
  | [a] => a
  | a :: r => Seq a (seqs r)
  end.
Definition digit : t := Chr PyStr.is_digit.
Definition ws : t := Star PyStr.is_space.        (* \s* *)
Definition ws1 : t := plus PyStr.is_space.       (* \s+ *)
Definition dot (c : ascii) : bool := negb (Ascii.eqb c newline).
Definition d_1_2 : t := Seq digit (opt digit).               (* \d{1,2} *)
Definition d_1_3 : t := Seq digit (opt (Seq digit (opt digit))). (* \d{1,3} *)
Definition d_2_3 : t := Seq digit (Seq digit (opt digit)).   (* \d{2,3} *)
(** The class [[a-z0-9_\-]]. *)
Definition word_char (c : ascii) : bool :=
  PyStr.is_lower c || PyStr.is_digit c || Ascii.eqb c "_" || Ascii.eqb c "-".

End Re.

(** ** Dictionaries (insertion ordered) and sets *)

Module Dict.
Section Ops.
Context {V : Type}.

Definition t := list (string * V).

Fixpoint get (d : list (string * V)) (k : string) : option V :=
  match d with
  | [] => None
  | (k', v) :: r => if String.eqb k k' then Some v else get r k
  end.

Definition mem (d : list (string * V)) (k : string) : bool :=
  match get d k with Some _ => true | None => false end.

(** [d[k] = v]: an existing key keeps its place, a new one goes last. *)
Fixpoint set (d : list (string * V)) (k : string) (v : V) : list (string * V) :=
  match d with
  | [] => [(k, v)]
  | (k', v') :: r => if String.eqb k k' then (k, v) :: r else (k', v') :: set r k v
  end.

(** [d.pop(k, None)]. *)
Definition pop (d : list (string * V)) (k : string) : list (string * V) :=
  filter (fun kv => negb (String.eqb k (fst kv))) d.

Definition keys (d : list (string * V)) : list string := map fst d.
Definition values (d : list (string * V)) : list V := map snd d.

End Ops.
Arguments t : clear implicits.
End Dict.

Module PySet.

Definition t := list string.
Definition mem (s : t) (x : string) : bool := existsb (String.eqb x) s.
Definition add (s : t) (x : string) : t := if mem s x then s else s ++ [x].
Definition discard (s : t) (x : string) : t := filter (fun y => negb (String.eqb x y)) s.
Definition union (a b : t) : t := fold_left add b a.

End PySet.

(** ** The decoded telemetry objects *)

(** Modelled from the spec: the transform sub-record of an update
    ([acmi_parse] is not part of the sources).  Every field is optional;
    [None] stands for an attribute that is absent or [None]. *)
Module Transform.
Record t := mk {
  U : option R;
  V : option R;
  Longitude : option R;
  Latitude : option R;
  Altitude : option R;
  Heading : option R
}.
End Transform.

(** Modelled from the spec: [ACMIObject] of [acmi_parse]: an identifier, a
    property bag of optional text fields and the optional transform.  The
    attribute [T] is always there (its value may be [None]), an instance is
    truthy, and text fields hold ASCII strings. *)
Module ACMIObject.
Record t := mk {
  object_id : string;
  Type_ : option string;
  Name : option string;
  Coalition : option string;
  Color : option string;
  Callsign : option string;
  Pilot : option string;
  Group : option string;
  Unit : option string;
  T : option Transform.t
}.
End ACMIObject.

(** [getattr(o, field, "") or ""]. *)
Definition str_or_empty (s : option string) : string :=
  match s with Some x => x | None => ""%string end.

(** [getattr(o.T, field, None)]. *)
Definition T_attr (f : Transform.t -> option R) (o : ACMIObject.t) : option R :=
  match ACMIObject.T o with Some tr => f tr | None => None end.

(** ** Constants *)

Section Constants.
Local Open Scope R_scope.
Local Open Scope string_scope.

Definition EARTH_M_PER_NM : R := 1852.0.
Definition M_TO_FT : R := 3.280839895.

Definition BLUE_HINTS : list string :=
  ["Allies"; "Blue"; "NATO"; "USA"; "USAF"; "USN"; "USMC"; "U.S."; "United States";
   "ROK"; "Training"; "Allied"; "Player"; "Friendly"].
Definition RED_HINTS : list string :=
  ["Enemies"; "Red"; "OPFOR"; "Aggressor"; "DPRK"; "Russia"; "China"; "Serbia";
   "Hostile"; "Adversary"].
Definition TANKER_HINTS : list string :=
  ["KC-135"; "KC135"; "KC-10"; "KC10"; "KC-46"; "KC46"; "Tanker"; "Texaco"; "Shell"; "Arco"].
Definition MISSILE_HINTS : list string :=
  ["AIM-"; "R-"; "AA-"; "AMRAAM"; "Sparrow"; "Sidewinder"; "Adder"; "Alamo"; "Archer";
   "Vympel"; "PL-"; "SD-"; "Meteor"; "Fox"].

Definition HOT_MAX : R := 45.
Definition BEAM_MIN : R := 70.
Definition BEAM_MAX : R := 110.
Definition COLD_MIN : R := 135.

Definition MERGED_NM : R := 3.0.
Definition MISSILE_ALERT_MAX_RANGE_NM : R := 30.0.

End Constants.

(** ** Sanitizer *)

Section Sanitizer.
Import PyStr.
Local Open Scope string_scope.

(** The class [[^,|]]. *)
Definition not_sep (c : ascii) : bool :=
  negb (Ascii.eqb c ",") && negb (Ascii.eqb c "|").

Fixpoint list_prefix (p : string) (l : list ascii) : bool :=
  match p, l with
  | EmptyString, _ => true
  | String a p', b :: l' => Ascii.eqb a b && list_prefix p' l'
  | String _ _, [] => false
  end.

(** [[^,|]+(?=Name=)] at the start of [l]: the length of the longest run of
    the class, of at least one character, that has "Name=" after it. *)
Fixpoint glue_run (l : list ascii) : option nat :=
  match l with
  | c :: r =>
      if not_sep c then
        match glue_run r with
        | Some n => Some (S n)
        | None => if list_prefix "Name=" r then Some 1%nat else None
        end
      else None
  | [] => None
  end.

(** [(Health=[^,|]+)(?=Name=)] at the start of [l]: the length of the match. *)
Definition glue_match (l : list ascii) : option nat :=
  if list_prefix "Health=" l
  then match glue_run (skipn 7 l) with
       | Some n => Some (7 + n)%nat
       | None => None
       end
  else None.

(** [_GLUE_FIX.sub(r'\1|', line)]: the matches from left to right, each
    starting where the one before ended or later; [skip] counts what is left
    of the match that is being copied. *)
Fixpoint glue_sub (l : list ascii) (skip : nat) : list ascii :=
  match l with
  | [] => []
  | c :: r =>
      let n := match skip with
               | O => match glue_match l with Some n => n | None => O end
               | _ => skip
               end in
      match n with
      | O => c :: glue_sub r 0
      | 1%nat => c :: "|"%char :: glue_sub r 0
      | S m => c :: glue_sub r m
      end
  end.

(** Only fix the known Tacview glue: "Health=...Name=". *)
Definition sanitize_glued_props (line : string) : string :=
  string_of_list_ascii (glue_sub (list_ascii_of_string line) 0).

End Sanitizer.

(** ** Math helpers *)

Section MathHelpers.
Import PyNum PyStr.
Local Open Scope R_scope.
Local Open Scope string_scope.

Definition norm_head (h : option R) : option R :=
  match h with
  | None => None
  | Some x => Some (py_fmod (py_fmod x 360 + 360) 360)
  end.

Definition bearing_deg (dx dy : R) : R :=
  let ang := degrees (atan2 dx dy) in
  py_fmod (ang + 360.0) 360.0.

Definition brg_rng_from_xy (ou ov tu tv : R) : Z * R :=
  let dx := tu - ou in
  let dy := tv - ov in
  let brg := bearing_deg dx dy in
  let rng_nm := hypot dx dy / EARTH_M_PER_NM in
  ((py_round brg mod 360)%Z, rng_nm).

Definition bulls_to_uv (bu bv brg_deg rng_nm : R) : R * R :=
  let r := radians brg_deg in
  let du := sin r * (rng_nm * EARTH_M_PER_NM) in
  let dv := cos r * (rng_nm * EARTH_M_PER_NM) in
  (bu + du, bv + dv).

Definition angels_from_meters (m : option R) : option Z :=
  match m with
  | None => None
  | Some x => Some (py_round ((x * M_TO_FT) / 1000.0))
  end.

(** Enemy altitude formatting: FL at or above 18,000 ft, else "XX,XXX FT". *)
Definition threat_alt_phrase (alt_m : option R) : string :=
  match alt_m with
  | None => "ALT UNKNOWN"
  | Some a =>
      let ft := a * M_TO_FT in
      if Rleb 18000 ft then "FL" ++ str_of_Z (py_round (ft / 100.0))
      else
        let ft_int := (py_round (ft / 100.0) * 100)%Z in
        fmt_comma ft_int ++ " FT"
  end.

Definition dirs : list string :=
  ["north"; "northeast"; "east"; "southeast"; "south"; "southwest"; "west"; "northwest"].

Definition dir_word_from_heading (hdg : option R) : option string :=
  match hdg with
  | None => None
  | Some h =>
      let idx := (py_int (py_floordiv (py_fmod h 360 + 22.5) 45) mod 8)%Z in
      Some (nth (Z.to_nat idx) dirs "")
  end.

Definition aspect_word (hdg brg_from_fighter : option R) : string :=
  match hdg, brg_from_fighter with
  | Some h, Some b =>
      let diff := Rabs (py_fmod (h - b + 540) 360 - 180) in
      if Rleb BEAM_MIN diff && Rleb diff BEAM_MAX then
        strip ("beam " ++ str_or_empty (dir_word_from_heading hdg))
      else if Rltb diff HOT_MAX then "HOT"
      else if Rltb COLD_MIN diff then "COLD"
      else strip ("flank " ++ str_or_empty (dir_word_from_heading hdg))
  | _, _ => "UNK"
  end.

End MathHelpers.

(** ** Object helpers *)

Section ObjectHelpers.
Import PyNum PyStr.
Local Open Scope R_scope.
Local Open Scope string_scope.

Inductive xy_mode := uv | ll.

(** [x not in (None, 0.0)]. *)
Definition not_none_or_zero (x : option R) : bool :=
  match x with
  | None => false
  | Some r => if Req_dec_T r 0 then false else true
  end.

Definition get_xy_mode (obj : ACMIObject.t) : option (xy_mode * R * R) :=
  match ACMIObject.T obj with
  | None => None
  | Some T =>
      let u := Transform.U T in
      let v := Transform.V T in
      if not_none_or_zero u || not_none_or_zero v then
        Some (uv, float_or u 0.0, float_or v 0.0)
      else
        match Transform.Longitude T, Transform.Latitude T with
        | Some lon, Some lat => Some (ll, lon, lat)
        | _, _ => None
        end
  end.

Definition uv_of (obj : ACMIObject.t) : option (R * R) :=
  match get_xy_mode obj with
  | Some (uv, x, y) => Some (x, y)
  | _ => None
  end.

(** [[^a-z0-9]] removed from the lowered text. *)
Definition _norm (s : string) : string :=
  string_of_list_ascii
    (filter (fun c => is_lower c || is_digit c) (list_ascii_of_string (lower s))).

(** The class [[\s\-_]]. *)
Definition is_sep (c : ascii) : bool :=
  is_space c || Ascii.eqb c "-" || Ascii.eqb c "_".

(** [\d-\d$]. *)
Definition re_digit_dash_digit : Re.t :=
  Re.seqs [Re.digit; Re.ch "-"; Re.digit; Re.Eos].

(** [^([A-Za-z]+)[\s\-_]*?(\d)\s*[-]?\s*(\d)\s*$]. *)
Definition re_name_two_digits : Re.t :=
  Re.seqs [Re.Grp 1 (Re.plus is_alpha); Re.StarLazy is_sep; Re.Grp 2 Re.digit; Re.ws;
           Re.opt (Re.ch "-"); Re.ws; Re.Grp 3 Re.digit; Re.ws; Re.Eos].

(** [^([A-Za-z]+)[\s\-_]*?(\d)\s*$]. *)
Definition re_name_one_digit : Re.t :=
  Re.seqs [Re.Grp 1 (Re.plus is_alpha); Re.StarLazy is_sep; Re.Grp 2 Re.digit; Re.ws; Re.Eos].

(** [^(?:[A-Z]{1,3}-)?[A-Za-z0-9\-]+$]. *)
Definition _airframe_looks_generic_re : Re.t :=
  Re.seqs [Re.opt (Re.seqs [Re.Chr is_upper;
                            Re.opt (Re.Seq (Re.Chr is_upper) (Re.opt (Re.Chr is_upper)));
                            Re.ch "-"]);
           Re.plus (fun c => is_alpha c || is_digit c || Ascii.eqb c "-"); Re.Eos].

Definition grp (m : Re.Match.t) (n : nat) : string := str_or_empty (Re.group m n).

(** 'Warhawk52' becomes 'Warhawk 5-2', 'Warhawk 1-1' is kept. *)
Definition _pilot_to_callsign (p : string) : option string :=
  if negb (nonempty p) then None
  else
    let p := strip p in
    match Re.search re_digit_dash_digit p with
    | Some _ => Some p
    | None =>
        match Re.match_ re_name_two_digits p with
        | Some m => Some (grp m 1 ++ " " ++ grp m 2 ++ "-" ++ grp m 3)
        | None =>
            match Re.match_ re_name_one_digit p with
            | Some m => Some (grp m 1 ++ " " ++ grp m 2)
            | None => Some p
            end
        end
    end.

(** [v and str(v).strip()], then the stripped text. *)
Definition stripped_nonempty (v : option string) : option string :=
  match v with
  | Some s => if nonempty s && nonempty (strip s) then Some (strip s) else None
  | None => None
  end.

(** Best-effort human label for a Blue fighter. *)
Definition friendly_label (o : ACMIObject.t) : string :=
  match stripped_nonempty (ACMIObject.Callsign o) with
  | Some cs => cs
  | None =>
      let lbl := match ACMIObject.Pilot o with
                 | Some pilot => if nonempty pilot then _pilot_to_callsign pilot else None
                 | None => None
                 end in
      match lbl with
      | Some (String c r) => String c r
      | _ =>
          match stripped_nonempty (ACMIObject.Group o) with
          | Some g => g
          | None =>
              match stripped_nonempty (ACMIObject.Unit o) with
              | Some g => g
              | None =>
                  match stripped_nonempty (ACMIObject.Name o) with
                  | Some s =>
                      if (match Re.match_ _airframe_looks_generic_re s with
                          | Some _ => true
                          | None => false
                          end) &&
                         existsb (fun x => contains x s)
                           ["F-"; "MiG"; "Su-"; "KC-"; "B-"; "C-"; "Mirage"; "J-"; "PL-"]
                      then "Fighter" else s
                  | None => "Fighter"
                  end
              end
          end
      end
  end.

End ObjectHelpers.

(** ** World state *)

Module TrackWrap.
Record t := mk {
  obj : ACMIObject.t;
  home_uv : option (R * R);
  last_u : option R;
  last_v : option R;
  last_t : option R;
  spd_mps : R
}.
End TrackWrap.

Module CAPSite.
Record t := mk {
  name : string;
  center_uv : R * R;
  radius_nm : R;
  alt_lo_ft : R;
  alt_hi_ft : R;
  assigned_ids : PySet.t
}.
End CAPSite.

Module PushPlan.
Record t := mk {
  active : bool;
  brg : option Z;
  rng : option Z;
  target_uv : option (R * R);
  exec_time : option R;
  created_at : option R
}.
End PushPlan.

Module WorldState.
Record t := mk {
  time : R;
  objects : Dict.t ACMIObject.t;
  tracks : Dict.t TrackWrap.t;
  last_seen : Dict.t R;
  bullseye_by_coal : Dict.t string;
  global_props : Dict.t string;
  ttl : R;
  missiles : Dict.t ACMIObject.t;
  missile_alerted_ids : PySet.t;
  cap_sites : Dict.t CAPSite.t;
  push_plan : PushPlan.t
}.
End WorldState.

Section WorldStateOps.
Import PyNum PyStr.
Local Open Scope R_scope.
Local Open Scope string_scope.

(** Attribute assignment, one function per field that the source assigns. *)
Definition with_time (ws : WorldState.t) (x : R) : WorldState.t :=
  WorldState.mk x (WorldState.objects ws) (WorldState.tracks ws) (WorldState.last_seen ws)
    (WorldState.bullseye_by_coal ws) (WorldState.global_props ws) (WorldState.ttl ws)
    (WorldState.missiles ws) (WorldState.missile_alerted_ids ws) (WorldState.cap_sites ws)
    (WorldState.push_plan ws).
Definition with_objects (ws : WorldState.t) (x : Dict.t ACMIObject.t) : WorldState.t :=
  WorldState.mk (WorldState.time ws) x (WorldState.tracks ws) (WorldState.last_seen ws)
    (WorldState.bullseye_by_coal ws) (WorldState.global_props ws) (WorldState.ttl ws)
    (WorldState.missiles ws) (WorldState.missile_alerted_ids ws) (WorldState.cap_sites ws)
    (WorldState.push_plan ws).
Definition with_tracks (ws : WorldState.t) (x : Dict.t TrackWrap.t) : WorldState.t :=
  WorldState.mk (WorldState.time ws) (WorldState.objects ws) x (WorldState.last_seen ws)
    (WorldState.bullseye_by_coal ws) (WorldState.global_props ws) (WorldState.ttl ws)
    (WorldState.missiles ws) (WorldState.missile_alerted_ids ws) (WorldState.cap_sites ws)
    (WorldState.push_plan ws).
Definition with_last_seen (ws : WorldState.t) (x : Dict.t R) : WorldState.t :=
  WorldState.mk (WorldState.time ws) (WorldState.objects ws) (WorldState.tracks ws) x
    (WorldState.bullseye_by_coal ws) (WorldState.global_props ws) (WorldState.ttl ws)
    (WorldState.missiles ws) (WorldState.missile_alerted_ids ws) (WorldState.cap_sites ws)
    (WorldState.push_plan ws).
Definition with_bullseye_by_coal (ws : WorldState.t) (x : Dict.t string) : WorldState.t :=
  WorldState.mk (WorldState.time ws) (WorldState.objects ws) (WorldState.tracks ws)
    (WorldState.last_seen ws) x (WorldState.global_props ws) (WorldState.ttl ws)
    (WorldState.missiles ws) (WorldState.missile_alerted_ids ws) (WorldState.cap_sites ws)
    (WorldState.push_plan ws).
Definition with_global_props (ws : WorldState.t) (x : Dict.t string) : WorldState.t :=
  WorldState.mk (WorldState.time ws) (WorldState.objects ws) (WorldState.tracks ws)
    (WorldState.last_seen ws) (WorldState.bullseye_by_coal ws) x (WorldState.ttl ws)
    (WorldState.missiles ws) (WorldState.missile_alerted_ids ws) (WorldState.cap_sites ws)
    (WorldState.push_plan ws).
Definition with_missiles (ws : WorldState.t) (x : Dict.t ACMIObject.t) : WorldState.t :=
  WorldState.mk (WorldState.time ws) (WorldState.objects ws) (WorldState.tracks ws)
    (WorldState.last_seen ws) (WorldState.bullseye_by_coal ws) (WorldState.global_props ws)
    (WorldState.ttl ws) x (WorldState.missile_alerted_ids ws) (WorldState.cap_sites ws)
    (WorldState.push_plan ws).
Definition with_cap_sites (ws : WorldState.t) (x : Dict.t CAPSite.t) : WorldState.t :=
  WorldState.mk (WorldState.time ws) (WorldState.objects ws) (WorldState.tracks ws)
    (WorldState.last_seen ws) (WorldState.bullseye_by_coal ws) (WorldState.global_props ws)
    (WorldState.ttl ws) (WorldState.missiles ws) (WorldState.missile_alerted_ids ws) x
    (WorldState.push_plan ws).
Definition with_push_plan (ws : WorldState.t) (x : PushPlan.t) : WorldState.t :=
  WorldState.mk (WorldState.time ws) (WorldState.objects ws) (WorldState.tracks ws)
    (WorldState.last_seen ws) (WorldState.bullseye_by_coal ws) (WorldState.global_props ws)
    (WorldState.ttl ws) (WorldState.missiles ws) (WorldState.missile_alerted_ids ws)
    (WorldState.cap_sites ws) x.

Definition with_assigned_ids (cap : CAPSite.t) (x : PySet.t) : CAPSite.t :=
  CAPSite.mk (CAPSite.name cap) (CAPSite.center_uv cap) (CAPSite.radius_nm cap)
    (CAPSite.alt_lo_ft cap) (CAPSite.alt_hi_ft cap) x.

Definition with_obj (tr : TrackWrap.t) (x : ACMIObject.t) : TrackWrap.t :=
  TrackWrap.mk x (TrackWrap.home_uv tr) (TrackWrap.last_u tr) (TrackWrap.last_v tr)
    (TrackWrap.last_t tr) (TrackWrap.spd_mps tr).
Definition with_home_uv (tr : TrackWrap.t) (x : option (R * R)) : TrackWrap.t :=
  TrackWrap.mk (TrackWrap.obj tr) x (TrackWrap.last_u tr) (TrackWrap.last_v tr)
    (TrackWrap.last_t tr) (TrackWrap.spd_mps tr).

(** [TrackWrap.__init__]. *)
Definition TrackWrap_init (obj : ACMIObject.t) : TrackWrap.t :=
  TrackWrap.mk obj None (T_attr Transform.U obj) (T_attr Transform.V obj) None 0.0.

Definition update_speed (tr : TrackWrap.t) (now : R) : TrackWrap.t :=
  match ACMIObject.T (TrackWrap.obj tr) with
  | None => tr
  | Some T =>
      match TrackWrap.last_t tr with
      | None =>
          TrackWrap.mk (TrackWrap.obj tr) (TrackWrap.home_uv tr)
            (Transform.U T) (Transform.V T) (Some now) (TrackWrap.spd_mps tr)
      | Some lt =>
          match Transform.U T, Transform.V T, TrackWrap.last_u tr, TrackWrap.last_v tr with
          | Some u, Some v, Some lu, Some lv =>
              let dt := Rmax 1e-6 (now - lt) in
              TrackWrap.mk (TrackWrap.obj tr) (TrackWrap.home_uv tr)
                (Some u) (Some v) (Some now) (hypot ((u - lu) / dt) ((v - lv) / dt))
          | _, _, _, _ => tr
          end
      end
  end.

(** [CAPSite.__init__]. *)
Definition CAPSite_init (name : string) (center_uv : R * R)
    (radius_nm alt_lo_ft alt_hi_ft : R) : CAPSite.t :=
  CAPSite.mk name center_uv radius_nm alt_lo_ft alt_hi_ft [].

(** [PushPlan.__init__]. *)
Definition PushPlan_init : PushPlan.t :=
  PushPlan.mk false None None None None None.

(** [WorldState.__init__]. *)
Definition WorldState_init : WorldState.t :=
  WorldState.mk 0.0 [] [] [] [] [] 10.0 [] [] [] PushPlan_init.

Inductive Coal := Blue | Red | Unknown.

Definition Coal_eqb (a b : Coal) : bool :=
  match a, b with
  | Blue, Blue | Red, Red | Unknown, Unknown => true
  | _, _ => false
  end.

Definition coalition_of (o : ACMIObject.t) : Coal :=
  let c := str_or_empty (ACMIObject.Coalition o) in
  if existsb (fun tag => contains tag c) BLUE_HINTS then Blue
  else if existsb (fun tag => contains tag c) RED_HINTS then Red
  else
    let color := lower (str_or_empty (ACMIObject.Color o)) in
    if existsb (String.eqb color) ["blue"; "lightblue"; "cyan"; "turquoise"] then Blue
    else if existsb (String.eqb color) ["red"; "orange"; "maroon"] then Red
    else
      let nm := str_or_empty (ACMIObject.Name o) in
      if existsb (fun h => contains h nm) TANKER_HINTS then Blue
      else Unknown.

(** The test shared by [upsert] and [_check_missile_birth]. *)
Definition is_missile (obj : ACMIObject.t) : bool :=
  let t := str_or_empty (ACMIObject.Type_ obj) in
  (contains "Weapon" t && (contains "Missile" t || contains "Guided" t))
  || existsb (fun h => contains h (str_or_empty (ACMIObject.Name obj))) MISSILE_HINTS.

(** The home-plate block of [upsert]: the first low-speed, low-altitude fix. *)
Definition learn_home (tr : TrackWrap.t) (obj : ACMIObject.t) : TrackWrap.t :=
  match TrackWrap.home_uv tr, T_attr Transform.U obj, T_attr Transform.V obj,
        T_attr Transform.Altitude obj with
  | None, Some u, Some v, Some alt =>
      let kts := float_or (Some (TrackWrap.spd_mps tr)) 0.0 * 1.943844492 in
      if Rltb kts 60 && (Rltb alt 300.0 || negb (Reqb alt alt))
      then with_home_uv tr (Some (u, v))
      else tr
  | _, _, _, _ => tr
  end.

Definition upsert (ws : WorldState.t) (obj : ACMIObject.t) (now : R) : WorldState.t :=
  let oid := ACMIObject.object_id obj in
  let ws := with_objects ws (Dict.set (WorldState.objects ws) oid obj) in
  let ws := with_last_seen ws (Dict.set (WorldState.last_seen ws) oid now) in
  let ws :=
    match Dict.get (WorldState.tracks ws) oid with
    | None => with_tracks ws (Dict.set (WorldState.tracks ws) oid (TrackWrap_init obj))
    | Some tr => with_tracks ws (Dict.set (WorldState.tracks ws) oid (with_obj tr obj))
    end in
  let t := str_or_empty (ACMIObject.Type_ obj) in
  let ws :=
    if contains "Navaid+Static+Bullseye" t || contains "Navaid+Bullseye" t then
      let coal := match ACMIObject.Coalition obj with
                  | Some c => if nonempty c then c else "Unknown"
                  | None => "Unknown"
                  end in
      with_bullseye_by_coal ws (Dict.set (WorldState.bullseye_by_coal ws) coal oid)
    else ws in
  let ws :=
    if contains "Air" t then
      match Dict.get (WorldState.tracks ws) oid with
      | Some tr => with_tracks ws (Dict.set (WorldState.tracks ws) oid (learn_home tr obj))
      | None => ws
      end
    else ws in
  if is_missile obj then with_missiles ws (Dict.set (WorldState.missiles ws) oid obj)
  else ws.

Definition remove (ws : WorldState.t) (oid : string) : WorldState.t :=
  let ws := with_objects ws (Dict.pop (WorldState.objects ws) oid) in
  let ws := with_tracks ws (Dict.pop (WorldState.tracks ws) oid) in
  let ws := with_last_seen ws (Dict.pop (WorldState.last_seen ws) oid) in
  let ws := with_missiles ws (Dict.pop (WorldState.missiles ws) oid) in
  let ws := with_bullseye_by_coal ws
    (fold_left (fun d kv => if String.eqb (snd kv) oid then Dict.pop d (fst kv) else d)
       (WorldState.bullseye_by_coal ws) (WorldState.bullseye_by_coal ws)) in
  with_cap_sites ws
    (map (fun kc =>
            let cap := snd kc in
            if PySet.mem (CAPSite.assigned_ids cap) oid
            then (fst kc, with_assigned_ids cap (PySet.discard (CAPSite.assigned_ids cap) oid))
            else kc)
       (WorldState.cap_sites ws)).

Definition cull_stale (ws : WorldState.t) (now : R) : WorldState.t :=
  fold_left
    (fun ws kv => if Rltb (WorldState.ttl ws) (now - snd kv) then remove ws (fst kv) else ws)
    (WorldState.last_seen ws) ws.

Definition get_air (ws : WorldState.t) : list ACMIObject.t :=
  filter (fun o => contains "Air" (str_or_empty (ACMIObject.Type_ o)))
    (Dict.values (WorldState.objects ws)).

Definition blues (ws : WorldState.t) : list ACMIObject.t :=
  filter (fun o => Coal_eqb (coalition_of o) Blue) (get_air ws).
Definition reds (ws : WorldState.t) : list ACMIObject.t :=
  filter (fun o => Coal_eqb (coalition_of o) Red) (get_air ws).
Definition unks (ws : WorldState.t) : list ACMIObject.t :=
  filter (fun o => Coal_eqb (coalition_of o) Unknown) (get_air ws).

Fixpoint first_some {A B : Type} (f : A -> option B) (l : list A) : option B :=
  match l with
  | [] => None
  | x :: r => match f x with Some y => Some y | None => first_some f r end
  end.

Definition find_bull (ws : WorldState.t) : option ACMIObject.t :=
  match first_some
          (fun pref =>
             match Dict.get (WorldState.bullseye_by_coal ws) pref with
             | Some oid => if nonempty oid then Dict.get (WorldState.objects ws) oid else None
             | None => None
             end)
          ["Allies"; "Blue"; "ROK"; "NATO"; "Training"; "USA"; "U.S."] with
  | Some o => Some o
  | None =>
      match first_some (fun oid => Dict.get (WorldState.objects ws) oid)
              (Dict.values (WorldState.bullseye_by_coal ws)) with
      | Some o => Some o
      | None => hd_error (blues ws)
      end
  end.

Definition nearest_tanker (ws : WorldState.t) : option ACMIObject.t :=
  hd_error
    (filter (fun o => existsb (fun h => contains h (str_or_empty (ACMIObject.Name o))) TANKER_HINTS)
       (blues ws)).

End WorldStateOps.

(** ** Grouping and picture *)

Module Item.
Record t := mk {
  o : ACMIObject.t;
  u : R;
  v : R;
  alt_ft : option R
}.
End Item.

Inductive Ident := Hostile | Friendly | Bandit | Bogey.

Module Summary.
Record t := mk {
  size : nat;
  brg : Z;
  rng_nm : R;
  lo_ang : option Z;
  hi_ang : option Z;
  aspect : string;
  id : Ident;
  centroid_uv : R * R
}.
End Summary.

Section Grouping.
Import PyNum PyStr.
Local Open Scope R_scope.
Local Open Scope string_scope.

(** The list [items] that [group_contacts] builds first: the contacts with a
    planar position. *)
Definition item_of (o : ACMIObject.t) : option Item.t :=
  match get_xy_mode o with
  | Some (uv, x, y) =>
      Some (Item.mk o x y
              (match T_attr Transform.Altitude o with
               | Some alt_m => Some (alt_m * M_TO_FT)
               | None => None
               end))
  | _ => None
  end.

Fixpoint items_of (contacts : list ACMIObject.t) : list Item.t :=
  match contacts with
  | [] => []
  | o :: r => match item_of o with
              | Some it => it :: items_of r
              | None => items_of r
              end
  end.

Definition close (rng_nm alt_ft : R) (a b : Item.t) : bool :=
  let dr_nm := hypot (Item.u a - Item.u b) (Item.v a - Item.v b) / EARTH_M_PER_NM in
  let dz_ft := Rabs (float_or (Item.alt_ft a) 0 - float_or (Item.alt_ft b) 0) in
  Rleb dr_nm rng_nm && Rleb dz_ft alt_ft.

Definition in_set (s : list nat) (i : nat) : bool := existsb (Nat.eqb i) s.

Section Cluster.
Variables (rng_nm alt_ft : R) (items : list Item.t).

(** [any(close(items[j], items[k]) for k in list(cluster))]. *)
Definition close_to_cluster (cluster : list nat) (j : nat) : bool :=
  match nth_error items j with
  | Some a =>
      existsb (fun k => match nth_error items k with
                        | Some b => close rng_nm alt_ft a b
                        | None => false
                        end) cluster
  | None => false
  end.

(** One run of the [for j in range(len(items))] loop: the cluster as it
    grows and the flag [changed]. *)
Definition pass_step (st : list nat * bool) (j : nat) : list nat * bool :=
  let (cluster, changed) := st in
  if in_set cluster j then st
  else if close_to_cluster cluster j then ((cluster ++ [j])%list, true)
  else st.

Definition pass (cluster : list nat) : list nat * bool :=
  fold_left pass_step (seq 0 (List.length items)) (cluster, false).

(** [while changed]: at most [fuel] runs of the inner loop. *)
Fixpoint grow (fuel : nat) (cluster : list nat) : list nat :=
  match fuel with
  | O => cluster
  | S f =>
      let (cluster', changed) := pass cluster in
      if changed then grow f cluster' else cluster'
  end.

(** [[items[k] for k in sorted(cluster)]]. *)
Definition members (cluster : list nat) : list Item.t :=
  flat_map (fun k => if in_set cluster k
                     then match nth_error items k with Some it => [it] | None => [] end
                     else [])
    (seq 0 (List.length items)).

(** The outer loop: the clusters found so far (as index sets) and [used]. *)
Definition outer_step (st : list (list nat) * list nat) (i : nat)
  : list (list nat) * list nat :=
  let (groups, used) := st in
  if in_set used i then st
  else
    let cluster := grow (S (List.length items)) [i] in
    ((groups ++ [cluster])%list, (used ++ cluster)%list).

Definition clusters : list (list nat) :=
  fst (fold_left outer_step (seq 0 (List.length items)) ([], [])).

End Cluster.

Definition group_contacts (contacts : list ACMIObject.t) (rng_nm alt_ft : R)
  : list (list Item.t) :=
  let items := items_of contacts in
  map (members items) (clusters rng_nm alt_ft items).

Definition Ident_eqb (a b : Ident) : bool :=
  match a, b with
  | Hostile, Hostile | Friendly, Friendly | Bandit, Bandit | Bogey, Bogey => true
  | _, _ => false
  end.

(** [id_counts[ident] += 1] on an insertion-ordered dictionary. *)
Fixpoint count_ident (d : list (Ident * nat)) (i : Ident) : list (Ident * nat) :=
  match d with
  | [] => [(i, 1%nat)]
  | (j, n) :: r => if Ident_eqb i j then (j, S n) :: r else (j, n) :: count_ident r i
  end.

(** [max(d.items(), key=lambda kv: kv[1])[0]]: the first entry with the
    largest count. *)
Fixpoint max_ident (best : Ident * nat) (d : list (Ident * nat)) : Ident :=
  match d with
  | [] => fst best
  | kv :: r => if (snd best <? snd kv)%nat then max_ident kv r else max_ident best r
  end.

Definition ident_of (weapons_free : bool) (coal : Coal) : Ident :=
  if weapons_free && Coal_eqb coal Red then Hostile
  else if Coal_eqb coal Blue then Friendly
  else if Coal_eqb coal Red then Bandit
  else Bogey.

Definition filter_some {A : Type} (l : list (option A)) : list A :=
  flat_map (fun x => match x with Some a => [a] | None => [] end) l.

Definition summarize_group (bull_uv : R * R) (weapons_free : bool) (g : list Item.t)
  : Summary.t :=
  let size := List.length g in
  let cu := py_sum (map Item.u g) / INR size in
  let cv := py_sum (map Item.v g) / INR size in
  let (brg, rng_nm) := brg_rng_from_xy (fst bull_uv) (snd bull_uv) cu cv in
  let alts := filter_some (map Item.alt_ft g) in
  let (lo_ang, hi_ang) :=
    match alts with
    | [] => (None, None)
    | a :: r => (Some (py_round (py_min a r / 1000.0)), Some (py_round (py_max a r / 1000.0)))
    end in
  let id_counts :=
    fold_left (fun d it => count_ident d (ident_of weapons_free (coalition_of (Item.o it)))) g [] in
  let hdgs := filter_some (map (fun it => norm_head (T_attr Transform.Heading (Item.o it))) g) in
  let ident := match id_counts with
               | [] => Bogey
               | kv :: r => max_ident kv r
               end in
  let avg_hdg := match hdgs with
                 | [] => None
                 | _ => Some (py_sum hdgs / INR (List.length hdgs))
                 end in
  let asp := aspect_word avg_hdg (Some (IZR brg)) in
  Summary.mk size brg rng_nm lo_ang hi_ang asp ident (cu, cv).

(** [list.sort(key=...)] is stable: an element goes behind the ones whose
    key is not larger. *)
Fixpoint insert_by_rng (s : Summary.t) (l : list Summary.t) : list Summary.t :=
  match l with
  | [] => [s]
  | x :: r => if Rltb (Summary.rng_nm s) (Summary.rng_nm x) then s :: l
              else x :: insert_by_rng s r
  end.

Definition sort_by_rng (l : list Summary.t) : list Summary.t :=
  fold_left (fun acc s => insert_by_rng s acc) l [].

Definition summarize_groups (groups : list (list Item.t)) (bull_uv : R * R)
    (weapons_free : bool) : list Summary.t :=
  sort_by_rng (map (summarize_group bull_uv weapons_free) groups).

Definition size_word (n : nat) : string :=
  match n with
  | 1 => "single"
  | 2 => "two-ship"
  | 3 => "three-ship"
  | 4 => "four-ship"
  | _ => str_of_nat n ++ "-ship"
  end%nat.

Definition Ident_lower (i : Ident) : string :=
  match i with
  | Hostile => "hostile"
  | Friendly => "friendly"
  | Bandit => "bandit"
  | Bogey => "bogey"
  end.

Definition labels : list string :=
  ["Nearest group"; "Second group"; "Third group"; "Fourth group"; "Fifth group"].

Definition picture_part (label : string) (g : Summary.t) : string :=
  let sz := size_word (Summary.size g) in
  let heavy := if (3 <=? Summary.size g)%nat then " HEAVY" else "" in
  let ang := match Summary.lo_ang g, Summary.hi_ang g with
             | Some lo, Some hi =>
                 if (lo =? hi)%Z then "angels " ++ str_of_Z lo
                 else "angels " ++ str_of_Z lo ++ "-" ++ str_of_Z hi
             | _, _ => "angels UNK"
             end in
  label ++ " BULLS " ++ fmt_03d (Summary.brg g) ++ " for "
    ++ str_of_Z (py_round (Summary.rng_nm g)) ++ ", " ++ sz ++ heavy ++ ", "
    ++ Ident_lower (Summary.id g) ++ ", " ++ ang ++ ", " ++ Summary.aspect g ++ ". ".

Fixpoint zip_with {A B C : Type} (f : A -> B -> C) (a : list A) (b : list B) : list C :=
  match a, b with
  | x :: r, y :: s => f x y :: zip_with f r s
  | _, _ => []
  end.

Definition format_picture (summaries : list Summary.t) : string :=
  let interest :=
    filter (fun s => match Summary.id s with
                     | Bogey | Bandit | Hostile => true
                     | Friendly => false
                     end) summaries in
  match interest with
  | [] => "PICTURE: CLEAN."
  | _ =>
      let n := List.length interest in
      let lead := match n with
                  | 1 => "single group"
                  | 2 => "two groups"
                  | 3 => "three groups"
                  | _ => str_of_nat n ++ " groups"
                  end%nat in
      let parts := ("PICTURE: " ++ lead ++ ". ") :: zip_with picture_part labels interest in
      strip (String.concat "" parts)
  end.

End Grouping.

(** ** Fighter-centric operations *)

Section FighterOps.
Import PyNum PyStr.
Local Open Scope R_scope.
Local Open Scope string_scope.

Definition truthy_str (v : option string) : list string :=
  match v with
  | Some s => if nonempty s then [s] else []
  | None => []
  end.

Definition find_callsign (objects : list ACMIObject.t) (callsign_substr : option string)
  : option ACMIObject.t :=
  match callsign_substr with
  | None => None
  | Some cs =>
      if negb (nonempty cs) then None
      else
        let q := _norm cs in
        let fields (o : ACMIObject.t) : list string :=
          (str_or_empty (ACMIObject.Name o)
             :: truthy_str (ACMIObject.Callsign o) ++ truthy_str (ACMIObject.Pilot o)
             ++ truthy_str (ACMIObject.Unit o) ++ truthy_str (ACMIObject.Group o))%list in
        find (fun o => existsb (fun s => nonempty q && contains q (_norm s)) (fields o)) objects
  end.

(** The scan that the source writes out three times: among the candidates
    with a planar position, the first one at the least range from [p],
    starting from [best = None], [best_rng = 1e18]. *)
Definition nearest_scan (p : R * R) (cands : list ACMIObject.t)
  : option ACMIObject.t * R :=
  fold_left
    (fun st o =>
       match uv_of o with
       | None => st
       | Some ouv =>
           let rng := snd (brg_rng_from_xy (fst p) (snd p) (fst ouv) (snd ouv)) in
           if Rltb rng (snd st) then (Some o, rng) else st
       end)
    cands (None, 1e18).

Definition nearest_threat_to_fighter (ws : WorldState.t) (fighter : ACMIObject.t)
  : option ACMIObject.t :=
  match uv_of fighter with
  | None => None
  | Some fuv => fst (nearest_scan fuv (reds ws ++ unks ws)%list)
  end.

Definition braa_from_fighter_to_target (fighter target : ACMIObject.t) : option string :=
  match uv_of fighter, uv_of target with
  | Some fuv, Some tuv =>
      let (brg, rng) := brg_rng_from_xy (fst fuv) (snd fuv) (fst tuv) (snd tuv) in
      let alt_txt := threat_alt_phrase (T_attr Transform.Altitude target) in
      let hdg := norm_head (T_attr Transform.Heading target) in
      let asp := aspect_word hdg (Some (IZR brg)) in
      Some ("BRAA " ++ fmt_03d brg ++ "/" ++ str_of_Z (py_round rng) ++ ", "
              ++ alt_txt ++ ", " ++ asp ++ ".")
  | _, _ => None
  end.

Definition vector_from_fighter_to_uv (fighter : ACMIObject.t) (target_uv : option (R * R))
  : option string :=
  match uv_of fighter, target_uv with
  | Some fuv, Some tuv =>
      let (brg, rng) := brg_rng_from_xy (fst fuv) (snd fuv) (fst tuv) (snd tuv) in
      Some ("VECTOR " ++ fmt_03d brg ++ ", " ++ str_of_Z (py_round rng) ++ " miles.")
  | _, _ => None
  end.

Definition alpha_check_to_uv (ws : WorldState.t) (target_uv : option (R * R))
  : option string :=
  let buv := match find_bull ws with Some bull => uv_of bull | None => None end in
  match buv, target_uv with
  | Some b, Some tuv =>
      let (brg, rng) := brg_rng_from_xy (fst b) (snd b) (fst tuv) (snd tuv) in
      Some ("ALPHA CHECK: BULLS " ++ fmt_03d brg ++ " for " ++ str_of_Z (py_round rng) ++ ".")
  | _, _ => None
  end.

(** ** CAP/PUSH helpers *)

(** [int(s)] for a text of decimal digits. *)
Definition int_of_digits (s : string) : Z :=
  fold_left (fun acc c => (acc * 10 + Z.of_nat (nat_of_ascii c - 48))%Z)
    (list_ascii_of_string s) 0%Z.

(** [^\s*(\d{1,2})\s*-\s*(\d{1,2})\s*$]. *)
Definition re_alt_block : Re.t :=
  Re.seqs [Re.ws; Re.Grp 1 Re.d_1_2; Re.ws; Re.ch "-"; Re.ws; Re.Grp 2 Re.d_1_2; Re.ws; Re.Eos].

(** Expects "<LO>-<HI>" in thousands of feet. *)
Definition _parse_alt_block (txt : string) : R * R :=
  match Re.match_ re_alt_block txt with
  | None => (20000.0, 40000.0)
  | Some m =>
      let lo := IZR (Z.max 0 (int_of_digits (grp m 1))) * 1000.0 in
      let hi := Rmax (lo + 1000) (IZR (int_of_digits (grp m 2)) * 1000.0) in
      (lo, hi)
  end.

Definition re_digits_s : Re.t := Re.seqs [Re.Grp 1 (Re.plus is_digit); Re.ws; Re.ch "s"; Re.Eos].
Definition re_digits_m : Re.t := Re.seqs [Re.Grp 1 (Re.plus is_digit); Re.ws; Re.ch "m"; Re.Eos].
Definition re_digits : Re.t := Re.seqs [Re.Grp 1 (Re.plus is_digit); Re.Eos].
Definition re_mm_ss : Re.t :=
  Re.seqs [Re.Grp 1 (Re.plus is_digit); Re.ch ":"; Re.Grp 2 Re.d_1_2; Re.Eos].

Definition drop (n : nat) (s : string) : string := String.substring n (String.length s - n) s.

(** Seconds offset for 'in 90s', 'in 2m', 'at +2:30'; [None] if unknown.
    [float(m.group(1))] is the number the digits spell: exact for a float
    below 2^53 (longer numbers are rounded, and from 309 digits on they
    are [inf]). *)
Definition _parse_time_offset (tstr : string) : option R :=
  if negb (nonempty tstr) then None
  else
    let t := lower (strip tstr) in
    let r_in :=
      if startswith t "in " then
        let t2 := strip (drop 3 t) in
        match Re.match_ re_digits_s t2 with
        | Some m => Some (IZR (int_of_digits (grp m 1)))
        | None =>
            match Re.match_ re_digits_m t2 with
            | Some m => Some (IZR (int_of_digits (grp m 1)) * 60.0)
            | None =>
                match Re.match_ re_digits t2 with
                | Some m => Some (IZR (int_of_digits (grp m 1)))
                | None => None
                end
            end
        end
      else None in
    match r_in with
    | Some x => Some x
    | None =>
        let r_at :=
          if startswith t "at +" then
            let t2 := strip (drop 4 t) in
            match Re.match_ re_mm_ss t2 with
            | Some m => Some (IZR (int_of_digits (grp m 1)) * 60.0 + IZR (int_of_digits (grp m 2)))
            | None =>
                match Re.match_ re_digits t2 with
                | Some m => Some (IZR (int_of_digits (grp m 1)))
                | None => None
                end
            end
          else None in
        match r_at with
        | Some x => Some x
        | None =>
            if existsb (String.eqb t) ["now"; "immediately"; "0"; "+0"] then Some 0.0
            else None
        end
    end.

End FighterOps.

(** ** Parser for commands *)

(** The triple [(cmd, cs, target)] that [parse_command] returns, one
    constructor per command word, with the second and third component as
    the parser builds them for that word. *)
Module Cmd.
Inductive t :=
| who
| whoall
| whounk
| alpha (cs : option string) (target : option string)
| vector (cs : option string) (target : string)
| snap (cs : option string)
| declare (cs : option string)
| declare_bulls (cs : option string) (target : Z * Z)
| bogeydope (cs : option string)
| picture (cs : option string)
| cap_add_bulls (cs : string) (brg rng : Z) (radius : R) (alt : string)
| cap_add_at_fighter (cs : string) (fighter : string) (radius : R) (alt : string)
| cap_assign (cs : string) (target : string)
| cap_status (cs : option string)
| cap_clear (cs : string)
| push_set (cs : Z * Z) (target : string)
| push_status
| push_cancel
| push_execute.
End Cmd.

Section Parser.
Import PyNum PyStr.
Local Open Scope string_scope.

(** [re.sub(r'\s+', ' ', s)]. *)
Fixpoint collapse_ws (l : list ascii) (in_ws : bool) : list ascii :=
  match l with
  | [] => []
  | c :: r =>
      if is_space c then (if in_ws then collapse_ws r true else " "%char :: collapse_ws r true)
      else c :: collapse_ws r false
  end.

Definition endswith (s suf : string) : bool :=
  (String.length suf <=? String.length s)%nat
  && String.eqb (String.substring (String.length s - String.length suf) (String.length suf) s) suf.

(** [s.find(x)] for an [x] that occurs in [s]. *)
Definition find_idx (s x : string) : nat :=
  match String.index 0 x s with Some i => i | None => 0 end.

(** [s.rfind(x)] for an [x] that occurs in [s]. *)
Fixpoint rfind_from (x s : string) (i : nat) (last : nat) : nat :=
  let last' := if String.prefix x s then i else last in
  match s with
  | EmptyString => last'
  | String _ r => rfind_from x r (S i) last'
  end.
Definition rfind_idx (s x : string) : nat := rfind_from x s 0 0.

(** [s[:n]]. *)
Definition take (n : nat) (s : string) : string := String.substring 0 n s.

(** [x or None]. *)
Definition or_none (s : string) : option string := if nonempty s then Some s else None.

(** [t[:tl.find(g1)].strip(" ,") if tl.find(g1) > 0 else None], then [or None]. *)
Definition callsign_before (t tl g1 : string) : option string :=
  if (0 <? find_idx tl g1)%nat then or_none (strip_chars " ," (take (find_idx tl g1) t))
  else None.

Definition re_home_tanker : Re.t :=
  Re.Alt (Re.Seq (Re.lit "home") (Re.opt (Re.Seq Re.ws (Re.lit "plate"))))
    (Re.Alt (Re.seqs [Re.lit "home"; Re.ws; Re.lit "base"]) (Re.lit "tanker")).

(** [(alpha\s*check|alphacheck|alpha)\s*(to\s+)?(home(?:\s*plate)?|home\s*base|tanker)?$]. *)
Definition re_alpha : Re.t :=
  Re.seqs [Re.Grp 1 (Re.Alt (Re.seqs [Re.lit "alpha"; Re.ws; Re.lit "check"])
                       (Re.Alt (Re.lit "alphacheck") (Re.lit "alpha")));
           Re.ws; Re.opt (Re.Grp 2 (Re.Seq (Re.lit "to") Re.ws1));
           Re.opt (Re.Grp 3 re_home_tanker); Re.Eos].

(** [(vector)\s+(to\s+)?(home(?:\s*plate)?|home\s*base|tanker|.+)$]. *)
Definition re_vector : Re.t :=
  Re.seqs [Re.Grp 1 (Re.lit "vector"); Re.ws1; Re.opt (Re.Grp 2 (Re.Seq (Re.lit "to") Re.ws1));
           Re.Grp 3 (Re.Alt (Re.Seq (Re.lit "home") (Re.opt (Re.Seq Re.ws (Re.lit "plate"))))
                       (Re.Alt (Re.seqs [Re.lit "home"; Re.ws; Re.lit "base"])
                          (Re.Alt (Re.lit "tanker") (Re.plus Re.dot))));
           Re.Eos].

(** [(snap(?:\s*threat)?)$] under [re.I]. *)
Definition re_snap : Re.t :=
  Re.seqs [Re.Grp 1 (Re.Seq (Re.liti "snap") (Re.opt (Re.Seq Re.ws (Re.liti "threat")))); Re.Eos].

Definition re_for_or_slash : Re.t := Re.Alt (Re.lit "for") (Re.lit "/").

(** [(declare)(?:\s+(bulls\s+)?(\d{2,3})\s*(for|/)\s*(\d{1,3}))?$]. *)
Definition re_declare : Re.t :=
  Re.seqs [Re.Grp 1 (Re.lit "declare");
           Re.opt (Re.seqs [Re.ws1; Re.opt (Re.Grp 2 (Re.Seq (Re.lit "bulls") Re.ws1));
                            Re.Grp 3 Re.d_2_3; Re.ws; Re.Grp 4 re_for_or_slash; Re.ws;
                            Re.Grp 5 Re.d_1_3]);
           Re.Eos].

(** [(bogey\s*dope|bogeydope|dope)$]. *)
Definition re_dope : Re.t :=
  Re.seqs [Re.Grp 1 (Re.Alt (Re.seqs [Re.lit "bogey"; Re.ws; Re.lit "dope"])
                       (Re.Alt (Re.lit "bogeydope") (Re.lit "dope")));
           Re.Eos].

Definition re_radius_opt (n : nat) : Re.t :=
  Re.opt (Re.seqs [Re.ws1; Re.lit "radius"; Re.ws1; Re.Grp n Re.d_1_3]).
Definition re_alt_opt (n : nat) : Re.t :=
  Re.opt (Re.seqs [Re.ws1; Re.lit "alt"; Re.ws1;
                   Re.Grp n (Re.seqs [Re.d_1_2; Re.ch "-"; Re.d_1_2])]).

(** [^cap\s+add\s+([a-z0-9_\-]+)\s+bulls\s+(\d{2,3})\s*(?:for|/)\s*(\d{1,3})(?:\s+radius\s+(\d{1,3}))?(?:\s+alt\s+(\d{1,2}-\d{1,2}))?$]. *)
Definition re_cap_add_bulls : Re.t :=
  Re.seqs [Re.lit "cap"; Re.ws1; Re.lit "add"; Re.ws1; Re.Grp 1 (Re.plus Re.word_char);
           Re.ws1; Re.lit "bulls"; Re.ws1; Re.Grp 2 Re.d_2_3; Re.ws; re_for_or_slash; Re.ws;
           Re.Grp 3 Re.d_1_3; re_radius_opt 4; re_alt_opt 5; Re.Eos].

(** [^cap\s+add\s+([a-z0-9_\-]+)\s+at\s+fighter\s+(.+?)(?:\s+radius\s+(\d{1,3}))?(?:\s+alt\s+(\d{1,2}-\d{1,2}))?$]. *)
Definition re_cap_add_at_fighter : Re.t :=
  Re.seqs [Re.lit "cap"; Re.ws1; Re.lit "add"; Re.ws1; Re.Grp 1 (Re.plus Re.word_char);
           Re.ws1; Re.lit "at"; Re.ws1; Re.lit "fighter"; Re.ws1;
           Re.Grp 2 (Re.plus_lazy Re.dot); re_radius_opt 3; re_alt_opt 4; Re.Eos].

(** [^cap\s+assign\s+(.+?)\s+([a-z0-9_\-]+)$]. *)
Definition re_cap_assign : Re.t :=
  Re.seqs [Re.lit "cap"; Re.ws1; Re.lit "assign"; Re.ws1; Re.Grp 1 (Re.plus_lazy Re.dot);
           Re.ws1; Re.Grp 2 (Re.plus Re.word_char); Re.Eos].

(** [^cap\s+status(?:\s+([a-z0-9_\-]+))?$]. *)
Definition re_cap_status : Re.t :=
  Re.seqs [Re.lit "cap"; Re.ws1; Re.lit "status";
           Re.opt (Re.Seq Re.ws1 (Re.Grp 1 (Re.plus Re.word_char))); Re.Eos].

(** [^cap\s+clear\s+(all|[a-z0-9_\-]+)$]. *)
Definition re_cap_clear : Re.t :=
  Re.seqs [Re.lit "cap"; Re.ws1; Re.lit "clear"; Re.ws1;
           Re.Grp 1 (Re.Alt (Re.lit "all") (Re.plus Re.word_char)); Re.Eos].

(** [^push\s+set\s+bulls\s+(\d{2,3})\s*(?:for|/)\s*(\d{1,3})\s+(now|in\s+\d+\s*[ms]?|at\s+\+\d+(?::\d{1,2})?)$]. *)
Definition re_push_set : Re.t :=
  Re.seqs [Re.lit "push"; Re.ws1; Re.lit "set"; Re.ws1; Re.lit "bulls"; Re.ws1;
           Re.Grp 1 Re.d_2_3; Re.ws; re_for_or_slash; Re.ws; Re.Grp 2 Re.d_1_3; Re.ws1;
           Re.Grp 3 (Re.Alt (Re.lit "now")
                       (Re.Alt (Re.seqs [Re.lit "in"; Re.ws1; Re.plus is_digit; Re.ws;
                                         Re.opt (Re.Chr (fun c => Ascii.eqb c "m" || Ascii.eqb c "s"))])
                          (Re.seqs [Re.lit "at"; Re.ws1; Re.ch "+"; Re.plus is_digit;
                                    Re.opt (Re.Seq (Re.ch ":") Re.d_1_2)])));
           Re.Eos].

Definition is_some {A : Type} (x : option A) : bool :=
  match x with Some _ => true | None => false end.

Definition parse_command (text : string) : Cmd.t :=
  let t := strip text in
  let tl := string_of_list_ascii (collapse_ws (list_ascii_of_string (lower t)) false) in
  if existsb (String.eqb tl) ["who"; "callsigns"; "list"] then Cmd.who
  else if existsb (String.eqb tl) ["who all"; "callsigns all"; "list all"] then Cmd.whoall
  else if existsb (String.eqb tl) ["who unknown"; "callsigns unknown"; "list unknown"]
  then Cmd.whounk
  else
  match Re.search re_alpha tl with
  | Some m =>
      Cmd.alpha (callsign_before t tl (grp m 1))
        (or_none (replace_char_none " " (grp m 3)))
  | None =>
  match Re.search re_vector tl with
  | Some m => Cmd.vector (callsign_before t tl (grp m 1)) (strip (grp m 3))
  | None =>
  if endswith tl "snap" || endswith tl "snap threat" || String.eqb tl "snap" then
    let callsign :=
      strip_chars " ,"
        (match Re.search re_snap t with
         | Some m => Re.Match.before m ++ Re.Match.rest m
         | None => t
         end) in
    Cmd.snap (or_none callsign)
  else
  match Re.search re_declare tl with
  | Some m =>
      let callsign := callsign_before t tl (grp m 1) in
      if is_some (Re.group m 3) && nonempty (grp m 3)
      then Cmd.declare_bulls callsign (int_of_digits (grp m 3), int_of_digits (grp m 5))
      else Cmd.declare callsign
  | None =>
  match Re.search re_dope tl with
  | Some m =>
      Cmd.bogeydope
        (or_none (strip_chars " ," (take (String.length tl - String.length (grp m 1)) t)))
  | None =>
  if endswith tl "picture" || String.eqb tl "picture" then
    Cmd.picture
      (if endswith tl "picture" && negb (String.eqb tl "picture")
       then or_none (strip_chars " ," (take (rfind_idx tl "picture") t))
       else None)
  else
  match Re.match_ re_cap_add_bulls tl with
  | Some m =>
      Cmd.cap_add_bulls (grp m 1) (int_of_digits (grp m 2)) (int_of_digits (grp m 3))
        (if nonempty (grp m 4) then IZR (int_of_digits (grp m 4)) else 10.0%R)
        (if nonempty (grp m 5) then grp m 5 else "20-40")
  | None =>
  match Re.match_ re_cap_add_at_fighter tl with
  | Some m =>
      Cmd.cap_add_at_fighter (grp m 1) (strip (grp m 2))
        (if nonempty (grp m 3) then IZR (int_of_digits (grp m 3)) else 10.0%R)
        (if nonempty (grp m 4) then grp m 4 else "20-40")
  | None =>
  match Re.match_ re_cap_assign tl with
  | Some m => Cmd.cap_assign (strip (grp m 1)) (grp m 2)
  | None =>
  match Re.match_ re_cap_status tl with
  | Some m => Cmd.cap_status (Re.group m 1)
  | None =>
  match Re.match_ re_cap_clear tl with
  | Some m => Cmd.cap_clear (grp m 1)
  | None =>
  match Re.match_ re_push_set tl with
  | Some m => Cmd.push_set (int_of_digits (grp m 1), int_of_digits (grp m 2)) (grp m 3)
  | None =>
  if String.eqb tl "push status" then Cmd.push_status
  else if String.eqb tl "push cancel" then Cmd.push_cancel
  else if String.eqb tl "push execute" then Cmd.push_execute
  else Cmd.picture (Some t)
  end end end end end end end end end end.

End Parser.

(** ** Controller *)

Module Controller.
Record t := mk {
  ws : WorldState.t;
  connected : bool;
  hz : R;
  grp_range_nm : R;
  grp_alt_ft : R;
  weapons_free : bool;
  _last_emit_tick : Z;
  (** [deque(maxlen=800)] *)
  console_log : list string;
  (** what [print] wrote, oldest line first *)
  printed : list string;
  _known_ids : PySet.t;
  _last_merged_tick : Z;
  _merged_cooldown : Z
}.
End Controller.

(** The exceptions that the modelled code can raise, with CPython's text. *)
Inductive Exn :=
| ValueError (msg : string)
| AttributeError (msg : string)
| TypeError (msg : string).

Definition str_of_exn (e : Exn) : string :=
  match e with
  | ValueError m | AttributeError m | TypeError m => m
  end.

Inductive res (A : Type) :=
| Ok (a : A)
| Raise (e : Exn).
Arguments Ok {A} a.
Arguments Raise {A} e.

Definition bind {A B : Type} (x : res A) (f : A -> res B) : res B :=
  match x with
  | Ok a => f a
  | Raise e => Raise e
  end.

(** Modelled from the spec: the four tagged events that the line decoder of
    [acmi_parse] yields (a line that does not decode is skipped before the
    loop body). *)
Inductive Event :=
| ACTION_TIME (timestamp : option R)
| ACTION_GLOBAL (properties : option (Dict.t string))
| ACTION_REMOVE (object_id : string)
| ACTION_UPDATE (ent : ACMIObject.t).

Section ControllerOps.
Import PyNum PyStr.
Local Open Scope R_scope.
Local Open Scope string_scope.

Definition nl : string := String Re.newline "".

(** [Controller.__init__]. *)
Definition Controller_init : Controller.t :=
  Controller.mk WorldState_init false 1.0 5.0 2000.0 false (-1) [] [] [] (-9999) 10.

Definition with_ws (c : Controller.t) (x : WorldState.t) : Controller.t :=
  Controller.mk x (Controller.connected c) (Controller.hz c) (Controller.grp_range_nm c)
    (Controller.grp_alt_ft c) (Controller.weapons_free c) (Controller._last_emit_tick c)
    (Controller.console_log c) (Controller.printed c) (Controller._known_ids c)
    (Controller._last_merged_tick c) (Controller._merged_cooldown c).
Definition with_connected (c : Controller.t) (x : bool) : Controller.t :=
  Controller.mk (Controller.ws c) x (Controller.hz c) (Controller.grp_range_nm c)
    (Controller.grp_alt_ft c) (Controller.weapons_free c) (Controller._last_emit_tick c)
    (Controller.console_log c) (Controller.printed c) (Controller._known_ids c)
    (Controller._last_merged_tick c) (Controller._merged_cooldown c).
Definition with_last_emit_tick (c : Controller.t) (x : Z) : Controller.t :=
  Controller.mk (Controller.ws c) (Controller.connected c) (Controller.hz c)
    (Controller.grp_range_nm c) (Controller.grp_alt_ft c) (Controller.weapons_free c) x
    (Controller.console_log c) (Controller.printed c) (Controller._known_ids c)
    (Controller._last_merged_tick c) (Controller._merged_cooldown c).
Definition with_known_ids (c : Controller.t) (x : PySet.t) : Controller.t :=
  Controller.mk (Controller.ws c) (Controller.connected c) (Controller.hz c)
    (Controller.grp_range_nm c) (Controller.grp_alt_ft c) (Controller.weapons_free c)
    (Controller._last_emit_tick c) (Controller.console_log c) (Controller.printed c) x
    (Controller._last_merged_tick c) (Controller._merged_cooldown c).
Definition with_last_merged_tick (c : Controller.t) (x : Z) : Controller.t :=
  Controller.mk (Controller.ws c) (Controller.connected c) (Controller.hz c)
    (Controller.grp_range_nm c) (Controller.grp_alt_ft c) (Controller.weapons_free c)
    (Controller._last_emit_tick c) (Controller.console_log c) (Controller.printed c)
    (Controller._known_ids c) x (Controller._merged_cooldown c).

(** [deque.append] with [maxlen]: the oldest entry falls out. *)
Definition deque_append (maxlen : nat) (d : list string) (s : string) : list string :=
  let l := (d ++ [s])%list in skipn (List.length l - maxlen) l.

Definition log (c : Controller.t) (s : string) : Controller.t :=
  Controller.mk (Controller.ws c) (Controller.connected c) (Controller.hz c)
    (Controller.grp_range_nm c) (Controller.grp_alt_ft c) (Controller.weapons_free c)
    (Controller._last_emit_tick c) (deque_append 800 (Controller.console_log c) s)
    (Controller.printed c ++ [s])%list (Controller._known_ids c)
    (Controller._last_merged_tick c) (Controller._merged_cooldown c).

(** *** High-priority emitters *)

(** The inner loop of [_check_merged] for one Blue: is it within
    [MERGED_NM] of the position [euv]? *)
Definition within_merge (euv : R * R) (b : ACMIObject.t) : bool :=
  match uv_of b with
  | None => false
  | Some buv =>
      Rleb (snd (brg_rng_from_xy (fst euv) (snd euv) (fst buv) (snd buv))) MERGED_NM
  end.

(** The body of the outer loop for one Red: its line, if a Blue is close. *)
Definition merged_for (blues : list ACMIObject.t) (e : ACMIObject.t) : option string :=
  match uv_of e with
  | None => None
  | Some euv =>
      if existsb (within_merge euv) blues
      then Some ("MERGED, " ++ threat_alt_phrase (T_attr Transform.Altitude e) ++ ".")
      else None
  end.

(** The two nested loops of [_check_merged]: the line for the first Red that
    has a Blue within [MERGED_NM]. *)
Definition merged_line (ws : WorldState.t) : option string :=
  match blues ws, reds ws with
  | [], _ | _, [] => None
  | _, _ => first_some (merged_for (blues ws)) (reds ws)
  end.

Definition _check_merged (c : Controller.t) (tick_now : Z) : Controller.t :=
  match merged_line (Controller.ws c) with
  | Some line =>
      if (Controller._merged_cooldown c <=? tick_now - Controller._last_merged_tick c)%Z
      then with_last_merged_tick (log c line) tick_now
      else c
  | None => c
  end.

Definition _check_missile_birth (c : Controller.t) (obj : ACMIObject.t) : Controller.t :=
  let oid := ACMIObject.object_id obj in
  if PySet.mem (Controller._known_ids c) oid then c
  else
    let c := with_known_ids c (PySet.add (Controller._known_ids c) oid) in
    if negb (is_missile obj) then c
    else if Coal_eqb (coalition_of obj) Blue then c
    else
      match uv_of obj with
      | None => c
      | Some muv =>
          match nearest_scan muv (blues (Controller.ws c)) with
          | (Some best, best_rng) =>
              if Rleb best_rng MISSILE_ALERT_MAX_RANGE_NM then
                let label := friendly_label best in
                match uv_of best with
                | Some buv =>
                    let (b_brg, b_rng) :=
                      brg_rng_from_xy (fst buv) (snd buv) (fst muv) (snd muv) in
                    log c (label ++ ", DEFEND! Missile inbound, BRAA " ++ fmt_03d b_brg
                             ++ "/" ++ str_of_Z (py_round b_rng) ++ ".")
                | None => c
                end
              else c
          | (None, _) => c
          end
      end.

(** *** CAP/PUSH internals *)

(** The loop over [list(cap.assigned_ids)] in [_cap_status_line]: the
    identifiers that stay assigned and the texts shown. *)
Definition cap_show (ws : WorldState.t) (cap : CAPSite.t) (st : PySet.t * list string)
    (oid : string) : PySet.t * list string :=
  match Dict.get (WorldState.objects ws) oid with
  | None => (PySet.discard (fst st) oid, snd st)
  | Some o =>
      let lbl := friendly_label o in
      match uv_of o with
      | Some ouv =>
          let rng := snd (brg_rng_from_xy (fst (CAPSite.center_uv cap)) (snd (CAPSite.center_uv cap))
                            (fst ouv) (snd ouv)) in
          let on :=
            Rleb rng (CAPSite.radius_nm cap)
            && match T_attr Transform.Altitude o with
               | Some alt_m =>
                   Rleb (CAPSite.alt_lo_ft cap) (alt_m * M_TO_FT)
                   && Rleb (alt_m * M_TO_FT) (CAPSite.alt_hi_ft cap)
               | None => false
               end in
          (fst st, (snd st ++ [(lbl ++ " — " ++ str_of_Z (py_round rng) ++ " nm off center, "
                                  ++ (if on then "on-station" else "off-station"))%string])%list)
      | None => (fst st, (snd st ++ [(lbl ++ " — pos unknown")%string])%list)
      end
  end.

Definition cap_one (ws : WorldState.t) (cap : CAPSite.t) : CAPSite.t * string :=
  let head :=
    CAPSite.name cap ++ ": radius " ++ str_of_Z (py_round (CAPSite.radius_nm cap))
      ++ " nm, alt " ++ str_of_Z (py_int (CAPSite.alt_lo_ft cap / 1000)) ++ "-"
      ++ str_of_Z (py_int (CAPSite.alt_hi_ft cap / 1000)) ++ "." in
  match CAPSite.assigned_ids cap with
  | [] => (cap, join nl [head; "   assigned: none"])
  | ids =>
      let (ids', shows) := fold_left (cap_show ws cap) ids (ids, []) in
      (with_assigned_ids cap ids',
       join nl [head; match shows with
                      | [] => "   assigned: none"
                      | _ => "   assigned: " ++ join "; " shows
                      end])
  end.

Definition _cap_status_line (c : Controller.t) (name : option string)
  : Controller.t * string :=
  let ws := Controller.ws c in
  match WorldState.cap_sites ws with
  | [] => (c, "CAP: none.")
  | sites =>
      match name with
      | Some n =>
          if nonempty n then
            match Dict.get sites n with
            | None => (c, "CAP: " ++ n ++ " not found.")
            | Some cap =>
                let (cap', txt) := cap_one ws cap in
                (with_ws c (with_cap_sites ws (Dict.set sites n cap')), txt)
            end
          else
            let r := map (fun kc => (fst kc, cap_one ws (snd kc))) sites in
            (with_ws c (with_cap_sites ws (map (fun x => (fst x, fst (snd x))) r)),
             join nl (map (fun x => snd (snd x)) r))
      | None =>
          let r := map (fun kc => (fst kc, cap_one ws (snd kc))) sites in
          (with_ws c (with_cap_sites ws (map (fun x => (fst x, fst (snd x))) r)),
           join nl (map (fun x => snd (snd x)) r))
      end
  end.

Definition _push_status_line (c : Controller.t) : res string :=
  let p := WorldState.push_plan (Controller.ws c) in
  if negb (PushPlan.active p) then Ok "PUSH: no plan."
  else
    match PushPlan.brg p, PushPlan.rng p, PushPlan.exec_time p with
    | Some brg, Some rng, Some exec_time =>
        Ok ("PUSH: BULLS " ++ fmt_03d brg ++ " for " ++ str_of_Z rng ++ ", exec at T+"
              ++ str_of_Z (py_int (Rmax 0 (exec_time - WorldState.time (Controller.ws c))))
              ++ "s.")
    | None, _, _ => Raise (TypeError "unsupported format string passed to NoneType.__format__")
    | _, None, _ =>
        Raise (TypeError
                 "int() argument must be a string, a bytes-like object or a real number, not 'NoneType'")
    | _, _, None => Raise (TypeError "unsupported operand type(s) for -: 'NoneType' and 'float'")
    end.

(** Recipients: all flights assigned to any CAP right now, a set: the
    order in which [list(recips)] yields them is not fixed. *)
Definition push_recipients (ws : WorldState.t) : PySet.t :=
  fold_left (fun recips kc => PySet.union recips (CAPSite.assigned_ids (snd kc)))
    (WorldState.cap_sites ws) [].

Definition push_line (p : PushPlan.t) (label : string) : res string :=
  match PushPlan.brg p, PushPlan.rng p with
  | Some brg, Some rng =>
      Ok (label ++ ", PUSH, BULLS " ++ fmt_03d brg ++ " for " ++ str_of_Z rng ++ ".")
  | None, _ => Raise (TypeError "unsupported format string passed to NoneType.__format__")
  | _, None =>
      Raise (TypeError
               "int() argument must be a string, a bytes-like object or a real number, not 'NoneType'")
  end.

Definition with_active (p : PushPlan.t) (x : bool) : PushPlan.t :=
  PushPlan.mk x (PushPlan.brg p) (PushPlan.rng p) (PushPlan.target_uv p)
    (PushPlan.exec_time p) (PushPlan.created_at p).
Definition with_exec_time (p : PushPlan.t) (x : option R) : PushPlan.t :=
  PushPlan.mk (PushPlan.active p) (PushPlan.brg p) (PushPlan.rng p) (PushPlan.target_uv p)
    x (PushPlan.created_at p).

Definition _try_execute_push (c : Controller.t) : res Controller.t :=
  let p := WorldState.push_plan (Controller.ws c) in
  if negb (PushPlan.active p) then Ok c
  else if Rltb (WorldState.time (Controller.ws c)) (float_or (PushPlan.exec_time p) 0) then Ok c
  else
    let recips := push_recipients (Controller.ws c) in
    bind
      (match recips with
       | [] => Ok (log c "PUSH: no assigned flights.")
       | _ =>
           fold_left
             (fun rc oid =>
                bind rc (fun c =>
                  match Dict.get (WorldState.objects (Controller.ws c)) oid with
                  | None => Ok c
                  | Some o => bind (push_line p (friendly_label o)) (fun l => Ok (log c l))
                  end))
             recips (Ok c)
       end)
      (fun c =>
         Ok (with_ws c (with_push_plan (Controller.ws c)
                          (with_active (WorldState.push_plan (Controller.ws c)) false)))).

(** *** Loop *)

Definition with_heading (tr : Transform.t) (x : option R) : Transform.t :=
  Transform.mk (Transform.U tr) (Transform.V tr) (Transform.Longitude tr)
    (Transform.Latitude tr) (Transform.Altitude tr) x.

(** [T.Heading = norm_head(T.Heading)]. *)
Definition normalise_heading (ent : ACMIObject.t) : ACMIObject.t :=
  match ACMIObject.T ent with
  | None => ent
  | Some tr =>
      ACMIObject.mk (ACMIObject.object_id ent) (ACMIObject.Type_ ent) (ACMIObject.Name ent)
        (ACMIObject.Coalition ent) (ACMIObject.Color ent) (ACMIObject.Callsign ent)
        (ACMIObject.Pilot ent) (ACMIObject.Group ent) (ACMIObject.Unit ent)
        (Some (with_heading tr (norm_head (Transform.Heading tr))))
  end.

(** The body of the loop for one decoded line: the controller after it and
    the exception that left it, if any. *)
Definition step (c : Controller.t) (ent : Event) : Controller.t * option Exn :=
  match ent with
  | ACTION_TIME timestamp =>
      let ws := Controller.ws c in
      let ws := with_time ws (float_or timestamp (WorldState.time ws)) in
      let ws := with_tracks ws
        (map (fun kt => (fst kt, update_speed (snd kt) (WorldState.time ws)))
           (WorldState.tracks ws)) in
      let ws := cull_stale ws (WorldState.time ws) in
      let c := with_ws c ws in
      let tick := py_int (WorldState.time ws * Controller.hz c) in
      if negb (tick =? Controller._last_emit_tick c)%Z then
        let c := with_last_emit_tick c tick in
        let c := _check_merged c tick in
        match _try_execute_push c with
        | Ok c' => (c', None)
        | Raise e => (c, Some e)
        end
      else (c, None)
  | ACTION_GLOBAL properties =>
      match properties with
      | Some props =>
          let ws := Controller.ws c in
          (with_ws c (with_global_props ws
                        (fold_left (fun d kv => Dict.set d (fst kv) (snd kv)) props
                           (WorldState.global_props ws))), None)
      | None => (c, None)
      end
  | ACTION_REMOVE object_id => (with_ws c (remove (Controller.ws c) object_id), None)
  | ACTION_UPDATE ent =>
      let ent := normalise_heading ent in
      let c := _check_missile_birth c ent in
      (with_ws c (upsert (Controller.ws c) ent (WorldState.time (Controller.ws c))), None)
  end.

(** [_run_loop] over the lines that the feed delivers: an exception is
    logged and ends the loop. *)
Fixpoint _run_loop (c : Controller.t) (feed : list Event) : Controller.t :=
  match feed with
  | [] => c
  | ent :: rest =>
      match step c ent with
      | (c', None) => _run_loop c' rest
      | (c', Some e) => with_connected (log c' ("[error] run loop: " ++ str_of_exn e)) false
      end
  end.

(** *** Command processing *)

Definition truthy (cs : option string) : bool :=
  match cs with Some s => nonempty s | None => false end.

(** [cs or 'Fighter']. *)
Definition cs_or (cs : option string) (d : string) : string :=
  match cs with Some s => if nonempty s then s else d | None => d end.

(** [find_callsign(blues, cs) if cs else (blues[0] if blues else None)]. *)
Definition friendly_ref (blues : list ACMIObject.t) (cs : option string) : option ACMIObject.t :=
  if truthy cs then find_callsign blues cs else hd_error blues.

Definition declare_word (coal : Coal) : string :=
  match coal with
  | Blue => "Friendly"
  | Red => "Bandit"
  | Unknown => "Bogey"
  end.

(** [tr.home_uv if tr and tr.home_uv else uv_of(fr)]. *)
Definition home_or_pos (ws : WorldState.t) (fr : ACMIObject.t) : option (R * R) :=
  match Dict.get (WorldState.tracks ws) (ACMIObject.object_id fr) with
  | Some tr => match TrackWrap.home_uv tr with
               | Some h => Some h
               | None => uv_of fr
               end
  | None => uv_of fr
  end.

Definition fmt_track (o : ACMIObject.t) : string :=
  match ACMIObject.Name o with Some s => s | None => "(no Name)" end
    ++ " [Coal=" ++ match ACMIObject.Coalition o with Some s => s | None => "?" end
    ++ ", Color=" ++ match ACMIObject.Color o with Some s => s | None => "?" end
    ++ ", Type=" ++ match ACMIObject.Type_ o with Some s => s | None => "?" end ++ "]".

Definition or_dash (l : list string) : string :=
  match l with [] => "—" | _ => join ", " l end.

Definition handle_text (c : Controller.t) (text : string) : Controller.t * res string :=
  let ws := Controller.ws c in
  let bull := find_bull ws in
  let buv := match bull with Some b => uv_of b | None => None end in
  let blues := blues ws in
  let reds := reds ws in
  let unks := unks ws in
  let interest := (reds ++ unks)%list in
  match parse_command text with
  | Cmd.who =>
      let items :=
        map (fun o => friendly_label o ++ " ("
                        ++ match ACMIObject.Name o with Some s => s | None => "?" end ++ ")")
          (firstn 50 blues) in
      (c, Ok ("Blue tracks: " ++ match items with [] => "none" | _ => join ", " items end))
  | Cmd.whoall =>
      (c, Ok ("Seen — Blue:" ++ str_of_nat (List.length blues) ++ " Red:"
               ++ str_of_nat (List.length reds) ++ " Unknown:" ++ str_of_nat (List.length unks)
               ++ nl ++ "Blue:    " ++ or_dash (map fmt_track (firstn 12 blues))
               ++ nl ++ "Red:     " ++ or_dash (map fmt_track (firstn 12 reds))
               ++ nl ++ "Unknown: " ++ or_dash (map fmt_track (firstn 12 unks))))
  | Cmd.whounk =>
      (c, Ok ("Unknown tracks: "
               ++ match map fmt_track (firstn 25 unks) with
                  | [] => "none"
                  | l => join ", " l
                  end))
  | Cmd.picture cs =>
      let pic_line :=
        match buv, interest with
        | Some b, _ :: _ =>
            let groups := group_contacts interest (Controller.grp_range_nm c)
                            (Controller.grp_alt_ft c) in
            let sums := summarize_groups groups b (Controller.weapons_free c) in
            format_picture sums
        | _, [] => "PICTURE: CLEAN."
        | None, _ :: _ => "PICTURE: no bullseye available yet."
        end in
      (c, Ok (if truthy cs then str_or_empty cs ++ ", " ++ pic_line else pic_line))
  | Cmd.bogeydope cs =>
      match friendly_ref blues cs with
      | None => (c, Ok (cs_or cs "Fighter" ++ ", UNABLE: no friendly reference available."))
      | Some fr =>
          match nearest_threat_to_fighter ws fr with
          | None => (c, Ok (friendly_label fr ++ ", PICTURE: CLEAN."))
          | Some tgt =>
              (c, Ok (friendly_label fr ++ ", BOGEY DOPE: "
                       ++ match braa_from_fighter_to_target fr tgt with
                          | Some braa => braa
                          | None => "None"
                          end))
          end
      end
  | Cmd.declare cs =>
      match friendly_ref blues cs with
      | None => (c, Ok (cs_or cs "Fighter" ++ ", UNABLE: declare (no friendly reference)."))
      | Some fr =>
          match nearest_threat_to_fighter ws fr with
          | None => (c, Ok "DECLARE: no factor.")
          | Some tgt => (c, Ok ("DECLARE: " ++ declare_word (coalition_of tgt) ++ "."))
          end
      end
  | Cmd.declare_bulls cs target =>
      match buv with
      | None => (c, Ok "DECLARE: no bullseye available.")
      | Some b =>
          let (brg, rng) := target in
          let tuv := bulls_to_uv (fst b) (snd b) (IZR brg) (IZR rng) in
          match nearest_scan tuv (interest ++ blues)%list with
          | (Some best, best_rng) =>
              if Rltb 6.0 best_rng then (c, Ok "DECLARE: no factor.")
              else (c, Ok ("DECLARE: " ++ declare_word (coalition_of best) ++ "."))
          | (None, _) => (c, Ok "DECLARE: no factor.")
          end
      end
  | Cmd.snap cs =>
      match friendly_ref blues cs with
      | None => (c, Ok (cs_or cs "Fighter" ++ ", UNABLE: snap (no friendly reference)."))
      | Some fr =>
          match nearest_threat_to_fighter ws fr with
          | None => (c, Ok (friendly_label fr ++ ", SNAP: no factor."))
          | Some tgt =>
              match vector_from_fighter_to_uv fr (uv_of tgt) with
              | Some line => (c, Ok (friendly_label fr ++ ", " ++ line))
              | None => (c, Ok "UNABLE: snap.")
              end
          end
      end
  | Cmd.vector cs target =>
      match friendly_ref blues cs with
      | None => (c, Ok (cs_or cs "Fighter" ++ ", UNABLE: vector (no friendly reference)."))
      | Some fr =>
          let tgt_name := lower (strip target) in
          if contains "home" tgt_name then
            match vector_from_fighter_to_uv fr (home_or_pos ws fr) with
            | Some line => (c, Ok (friendly_label fr ++ ", " ++ line))
            | None => (c, Ok "UNABLE: vector home.")
            end
          else if contains "tanker" tgt_name then
            match nearest_tanker ws with
            | None => (c, Ok "UNABLE: no tanker.")
            | Some tan =>
                match vector_from_fighter_to_uv fr (uv_of tan) with
                | Some line => (c, Ok (friendly_label fr ++ ", " ++ line))
                | None => (c, Ok "UNABLE: vector tanker.")
                end
            end
          else
            match find_callsign blues (Some target) with
            | None => (c, Ok "UNABLE: target not found.")
            | Some tgt =>
                match vector_from_fighter_to_uv fr (uv_of tgt) with
                | Some line => (c, Ok (friendly_label fr ++ ", " ++ line))
                | None => (c, Ok "UNABLE: vector.")
                end
            end
      end
  | Cmd.alpha cs target =>
      match buv with
      | None => (c, Ok "ALPHA CHECK: no bullseye available.")
      | Some _ =>
          let tgt_key := lower (replace_char_none " " (str_or_empty target)) in
          let fr := friendly_ref blues cs in
          let tgt_uv :=
            if existsb (String.eqb tgt_key) ["home"; "homeplate"; "homebase"] then
              match fr with Some f => home_or_pos ws f | None => None end
            else if String.eqb tgt_key "tanker" then
              match nearest_tanker ws with Some tan => uv_of tan | None => None end
            else
              match fr with Some f => uv_of f | None => None end in
          match (match tgt_uv with Some _ => alpha_check_to_uv ws tgt_uv | None => None end) with
          | Some line =>
              if truthy cs then (c, Ok (str_or_empty cs ++ ", " ++ line))
              else match fr with
                   | Some f => (c, Ok (friendly_label f ++ ", " ++ line))
                   | None => (c, Ok (line))
                   end
          | None =>
              (c, Ok ((if truthy cs then str_or_empty cs
                      else match fr with Some f => friendly_label f | None => "Fighter" end)
                       ++ ", UNABLE: alpha check."))
          end
      end
  | Cmd.cap_add_bulls cs brg rng radius alt =>
      match buv with
      | None => (c, Ok "CAP: UNABLE — no bullseye.")
      | Some b =>
          let cuv := bulls_to_uv (fst b) (snd b) (IZR brg) (IZR rng) in
          let (lo, hi) := _parse_alt_block alt in
          (with_ws c (with_cap_sites ws
                           (Dict.set (WorldState.cap_sites ws) cs (CAPSite_init cs cuv radius lo hi))), Ok ("CAP: " ++ cs ++ " set at BULLS " ++ fmt_03d brg ++ "/" ++ str_of_Z rng
                ++ ", radius " ++ str_of_Z (py_int radius) ++ " nm, alt "
                ++ str_of_Z (py_int (lo / 1000)) ++ "-" ++ str_of_Z (py_int (hi / 1000)) ++ "."))
      end
  | Cmd.cap_add_at_fighter cs fighter radius alt =>
      match find_callsign blues (Some fighter) with
      | None => (c, Ok "CAP: UNABLE — fighter not found.")
      | Some f =>
          match uv_of f with
          | None => (c, Ok "CAP: UNABLE — fighter pos unknown.")
          | Some fuv =>
              let (lo, hi) := _parse_alt_block alt in
              (with_ws c (with_cap_sites ws
                               (Dict.set (WorldState.cap_sites ws) cs
                                  (CAPSite_init cs fuv radius lo hi))), Ok ("CAP: " ++ cs ++ " set at " ++ friendly_label f ++ " position, radius "
                    ++ str_of_Z (py_int radius) ++ " nm, alt "
                    ++ str_of_Z (py_int (lo / 1000)) ++ "-" ++ str_of_Z (py_int (hi / 1000)) ++ "."))
          end
      end
  | Cmd.cap_assign cs target =>
      match find_callsign blues (Some cs) with
      | None => (c, Ok "CAP: UNABLE — fighter not found.")
      | Some fighter =>
          match Dict.get (WorldState.cap_sites ws) target with
          | None => (c, Ok ("CAP: " ++ target ++ " not found."))
          | Some cap =>
              let cap' := with_assigned_ids cap
                            (PySet.add (CAPSite.assigned_ids cap) (ACMIObject.object_id fighter)) in
              (with_ws c (with_cap_sites ws (Dict.set (WorldState.cap_sites ws) target cap')), Ok ("CAP: assigned " ++ friendly_label fighter ++ " to " ++ CAPSite.name cap ++ "."))
          end
      end
  | Cmd.cap_status cs => let (c', line) := _cap_status_line c cs in (c', Ok line)
  | Cmd.cap_clear cs =>
      if String.eqb cs "all" then (with_ws c (with_cap_sites ws []), Ok "CAP: cleared all.")
      else if Dict.mem (WorldState.cap_sites ws) cs then
        (with_ws c (with_cap_sites ws (Dict.pop (WorldState.cap_sites ws) cs)), Ok ("CAP: cleared " ++ cs ++ "."))
      else (c, Ok ("CAP: " ++ cs ++ " not found."))
  | Cmd.push_set cs target =>
      match buv with
      | None => (c, Ok "PUSH: UNABLE — no bullseye.")
      | Some _ =>
          (* [brg, rng = target]: the third component, the time phrase, is
             unpacked; [_parse_time_offset(cs)] then gets the pair *)
          match String.length target with
          | 2%nat => (c, Raise (AttributeError "'tuple' object has no attribute 'strip'"))
          | 0%nat => (c, Raise (ValueError "not enough values to unpack (expected 2, got 0)"))
          | 1%nat => (c, Raise (ValueError "not enough values to unpack (expected 2, got 1)"))
          | _ => (c, Raise (ValueError "too many values to unpack (expected 2)"))
          end
      end
  | Cmd.push_status => (c, _push_status_line c)
  | Cmd.push_cancel => (with_ws c (with_push_plan ws PushPlan_init), Ok "PUSH: canceled.")
  | Cmd.push_execute =>
      if negb (PushPlan.active (WorldState.push_plan ws)) then (c, Ok "PUSH: no plan.")
      else
        let c := with_ws c (with_push_plan ws
                              (with_exec_time (WorldState.push_plan ws)
                                 (Some (float_or (Some (WorldState.time ws)) 0.0)))) in
        match _try_execute_push c with
        | Ok c' => (c', Ok "PUSH: executed.")
        | Raise e => (c, Raise e)
        end
  end.

End ControllerOps.


(** * Terms of the properties *)

Import PyNum PyStr.

Section StateTerms.
Local Open Scope R_scope.

(** A coordinate that [x not in (None, 0.0)] rejects. *)
Definition none_or_zero (x : option R) : Prop := x = None \/ x = Some 0.

(** The stored home position of a track, if the track exists. *)
Definition home_of (ws : WorldState.t) (oid : string) : option (option (R * R)) :=
  option_map TrackWrap.home_uv (Dict.get (WorldState.tracks ws) oid).

(** The loop body applied to a feed, exceptions aside. *)
Definition steps (c : Controller.t) (feed : list Event) : Controller.t :=
  fold_left (fun c ev => fst (step c ev)) feed c.

(** No trace of [oid] is left in the world. *)
Definition absent (ws : WorldState.t) (oid : string) : Prop :=
  Dict.get (WorldState.objects ws) oid = None
  /\ Dict.get (WorldState.tracks ws) oid = None
  /\ Dict.get (WorldState.last_seen ws) oid = None
  /\ Dict.get (WorldState.missiles ws) oid = None
  /\ (forall k v, In (k, v) (WorldState.bullseye_by_coal ws) -> v <> oid)
  /\ (forall n cap, In (n, cap) (WorldState.cap_sites ws) ->
        PySet.mem (CAPSite.assigned_ids cap) oid = false).

(** Every object is stored under its own identifier. *)
Definition keyed (ws : WorldState.t) : Prop :=
  forall k o, In (k, o) (WorldState.objects ws) -> ACMIObject.object_id o = k.

Definition pop_slots (oid : string) (d : list (string * string)) (kv : string * string) :=
  if String.eqb (snd kv) oid then Dict.pop d (fst kv) else d.

Definition cull_step (now : R) (ws : WorldState.t) (kv : string * R) : WorldState.t :=
  if Rltb (WorldState.ttl ws) (now - snd kv) then remove ws (fst kv) else ws.

(** A registry query: the air entities, their three coalition subsets, the
    bullseye reference and the tanker. *)
Definition answers (ws : WorldState.t) (o : ACMIObject.t) : Prop :=
  In o (get_air ws) \/ In o (blues ws) \/ In o (reds ws) \/ In o (unks ws)
  \/ find_bull ws = Some o \/ nearest_tanker ws = Some o.

End StateTerms.

Section ClusterTerms.
Variables (rng_nm alt_ft : R) (items : list Item.t).

(** Closeness of the items at two positions of the list. *)
Definition near (j k : nat) : Prop :=
  exists a b, nth_error items j = Some a /\ nth_error items k = Some b
              /\ close rng_nm alt_ft a b = true.

(** Linked by a chain of close pairs. *)
Definition linked : nat -> nat -> Prop := clos_refl_sym_trans nat near.

(** A cluster to which the inner loop adds nothing. *)
Definition closed (cluster : list nat) : Prop :=
  forall j, (j < (List.length items))%nat -> in_set cluster j = false ->
            close_to_cluster rng_nm alt_ft items cluster j = false.

(** All members are linked to each other. *)
Definition chained (cluster : list nat) : Prop :=
  forall x y, In x cluster -> In y cluster -> linked x y.

(** The positions that are not yet in the cluster. *)
Definition missing (cluster : list nat) : nat :=
  List.length (filter (fun j => negb (in_set cluster j)) (seq 0 (List.length items))).

(** What holds of the clusters found so far and of [used]. *)
Definition outer_inv (st : list (list nat) * list nat) : Prop :=
  (forall x, In x (snd st) -> exists g, In g (fst st) /\ In x g)
  /\ (forall g, In g (fst st) -> closed g /\ chained g).

End ClusterTerms.

Section CommandTerms.
Local Open Scope R_scope.

(** The registry and the alert state of [c'] are those of [c]: a command
    writes CAP sites, the push plan and log lines only. *)
Definition registry_kept (c c' : Controller.t) : Prop :=
  Controller._known_ids c' = Controller._known_ids c
  /\ Controller._last_merged_tick c' = Controller._last_merged_tick c
  /\ Controller._merged_cooldown c' = Controller._merged_cooldown c
  /\ Controller._last_emit_tick c' = Controller._last_emit_tick c
  /\ WorldState.objects (Controller.ws c') = WorldState.objects (Controller.ws c)
  /\ WorldState.tracks (Controller.ws c') = WorldState.tracks (Controller.ws c)
  /\ WorldState.last_seen (Controller.ws c') = WorldState.last_seen (Controller.ws c)
  /\ WorldState.bullseye_by_coal (Controller.ws c') = WorldState.bullseye_by_coal (Controller.ws c)
  /\ WorldState.missiles (Controller.ws c') = WorldState.missiles (Controller.ws c)
  /\ WorldState.time (Controller.ws c') = WorldState.time (Controller.ws c)
  /\ WorldState.ttl (Controller.ws c') = WorldState.ttl (Controller.ws c).

End CommandTerms.

Section LoopTerms.
Local Open Scope R_scope.
Local Open Scope string_scope.

(** What the controller can go through: lines of the feed and commands, in
    any order. *)
Inductive reaches : Controller.t -> Controller.t -> Prop :=
| reaches_here (c : Controller.t) : reaches c c
| reaches_line (c c' : Controller.t) (ent : Event) :
    reaches (fst (step c ent)) c' -> reaches c c'
| reaches_command (c c' : Controller.t) (text : string) :
    reaches (fst (handle_text c text)) c' -> reaches c c'.

Definition range_nm (p q : R * R) : R :=
  snd (brg_rng_from_xy (fst p) (snd p) (fst q) (snd q)).

Definition scan_step (p : R * R) (st : option ACMIObject.t * R) (o : ACMIObject.t) :=
  match uv_of o with
  | None => st
  | Some ouv =>
      let rng := snd (brg_rng_from_xy (fst p) (snd p) (fst ouv) (snd ouv)) in
      if Rltb rng (snd st) then (Some o, rng) else st
  end.

(** The state of the scan over the candidates [seen] so far. *)
Definition scan_inv (p : R * R) (seen : list ACMIObject.t) (st : option ACMIObject.t * R)
  : Prop :=
  (forall b x, In b seen -> uv_of b = Some x -> (snd st <= range_nm p x)%R)
  /\ match fst st with
     | Some o => In o seen /\ exists x, uv_of o = Some x /\ snd st = range_nm p x
     | None => True
     end.

Definition defend_line (best : ACMIObject.t) (buv muv : R * R) : string :=
  friendly_label best ++ ", DEFEND! Missile inbound, BRAA "
    ++ fmt_03d (fst (brg_rng_from_xy (fst buv) (snd buv) (fst muv) (snd muv)))
    ++ "/" ++ str_of_Z (py_round (range_nm buv muv)) ++ ".".

(** A Red and a Blue with planar positions within [MERGED_NM]. *)
Definition merged_pair (ws : WorldState.t) (e : ACMIObject.t) : Prop :=
  In e (reds ws)
  /\ exists euv b buv,
       uv_of e = Some euv /\ In b (blues ws) /\ uv_of b = Some buv
       /\ (range_nm euv buv <= MERGED_NM)%R.

Definition is_bullseye (o : ACMIObject.t) : bool :=
  contains "Navaid+Static+Bullseye" (str_or_empty (ACMIObject.Type_ o))
  || contains "Navaid+Bullseye" (str_or_empty (ACMIObject.Type_ o)).

Definition plan_of (c : Controller.t) : PushPlan.t := WorldState.push_plan (Controller.ws c).

(** The bullseye position that [handle_text] works with. *)
Definition buv_of (c : Controller.t) : option (R * R) :=
  match find_bull (Controller.ws c) with
  | Some b => uv_of b
  | None => None
  end.

(** An active plan has its bearing, range and execution time. *)
Definition plan_ok (c : Controller.t) : Prop :=
  PushPlan.active (plan_of c) = true ->
  exists brg rng t, PushPlan.brg (plan_of c) = Some brg
                    /\ PushPlan.rng (plan_of c) = Some rng
                    /\ PushPlan.exec_time (plan_of c) = Some t.

(** A bearing that is at least a millionth of a degree away from every
    half degree, where the rounding to whole degrees turns. *)
Definition off_ties (b : R) : Prop :=
  forall k : Z, 1 / 1000000 <= Rabs (b - (IZR k + 1 / 2)).

(** The line that a push sends to one flight. *)
Definition push_call (brg rng : Z) (label : string) : string :=
  label ++ ", PUSH, BULLS " ++ fmt_03d brg ++ " for " ++ str_of_Z rng ++ ".".

(** The lines for the recipients that are in the registry. *)
Definition push_calls (ws : WorldState.t) (brg rng : Z) (recips : list string) : list string :=
  flat_map (fun oid => match Dict.get (WorldState.objects ws) oid with
                       | Some o => [push_call brg rng (friendly_label o)]
                       | None => []
                       end) recips.

(** Every heading in the registry is in [0, 360). *)
Definition headings_ok (ws : WorldState.t) : Prop :=
  forall k o h, In (k, o) (WorldState.objects ws) ->
                T_attr Transform.Heading o = Some h -> 0 <= h < 360.

(** The console log is within its bound. *)
Definition log_ok (c : Controller.t) : Prop :=
  (List.length (Controller.console_log c) <= 800)%nat.

End LoopTerms.

Section PartitionTerms.

(** A cluster without repeats whose members are positions of the list. *)
Definition tidy (items : list Item.t) (cluster : list nat) : Prop :=
  NoDup cluster /\ forall x, In x cluster -> (x < List.length items)%nat.

(** What else holds of the clusters found so far and of [used]. *)
Definition part_inv (rng_nm alt_ft : R) (items : list Item.t)
    (st : list (list nat) * list nat) : Prop :=
  outer_inv rng_nm alt_ft items st
  /\ snd st = List.concat (fst st)
  /\ tidy items (snd st)
  /\ forall g, In g (fst st) -> g <> [].

(** [[items[k]]] as a list: empty when [k] is out of range. *)
Definition item_at (items : list Item.t) (k : nat) : list Item.t :=
  match nth_error items k with Some it => [it] | None => [] end.

End PartitionTerms.

Section SanitizerTerms.
Local Open Scope string_scope.

(** Every character but the bar. *)
Definition not_bar (c : ascii) : bool := negb (Ascii.eqb c "|").

End SanitizerTerms.

Section MergedLoopTerms.
Local Open Scope R_scope.
Local Open Scope string_scope.

(** The world after the first statements of a TIME line: the clock set,
    the speeds measured, the stale entities evicted. *)
Definition time_world (c : Controller.t) (ts : option R) : WorldState.t :=
  let ws := Controller.ws c in
  let ws := with_time ws (float_or ts (WorldState.time ws)) in
  let ws := with_tracks ws
    (map (fun kt => (fst kt, update_speed (snd kt) (WorldState.time ws)))
       (WorldState.tracks ws)) in
  cull_stale ws (WorldState.time ws).

(** [tick = int(self.ws.time * self.hz)]. *)
Definition time_tick (c : Controller.t) (ts : option R) : Z :=
  py_int (WorldState.time (time_world c ts) * Controller.hz c).

(** The line that names the altitude of [e]. *)
Definition merged_text (e : ACMIObject.t) : string :=
  "MERGED, " ++ threat_alt_phrase (T_attr Transform.Altitude e) ++ ".".

(** Two contacts of the list that [close] accepts. *)
Definition close_pair (rng_nm alt_ft : R) (items : list Item.t) (a b : Item.t) : Prop :=
  In a items /\ In b items /\ close rng_nm alt_ft a b = true.

(** Joined by a chain of close contacts of the list. *)
Definition chain (rng_nm alt_ft : R) (items : list Item.t) : Item.t -> Item.t -> Prop :=
  clos_refl_sym_trans Item.t (close_pair rng_nm alt_ft items).

End MergedLoopTerms.

(** ** Scenes *)

Section Scenes.
Local Open Scope R_scope.
Local Open Scope string_scope.

(** A bullseye navaid and an aircraft as the feed reports them. *)
Definition navaid (oid coal : string) (u v : R) : ACMIObject.t :=
  ACMIObject.mk oid (Some "Navaid+Static+Bullseye") (Some "Bullseye") (Some coal) None
    None None None None (Some (Transform.mk (Some u) (Some v) None None None None)).

Definition aircraft (oid name coal : string) (u v alt hdg : R) : ACMIObject.t :=
  ACMIObject.mk oid (Some "Air+FixedWing") (Some name) (Some coal) None
    None None None None (Some (Transform.mk (Some u) (Some v) None None (Some alt) (Some hdg))).

(** The controller after the updates [l], from a fresh start. *)
Definition fed (l : list ACMIObject.t) : Controller.t :=
  fold_left (fun c o => fst (step c (ACTION_UPDATE o))) l Controller_init.

(** A bandit reported at the planar origin, without longitude and latitude. *)
Definition origin_transform : Transform.t :=
  Transform.mk (Some 0%R) (Some 0%R) None None (Some 7620%R) (Some 270%R).

Definition origin_contact : ACMIObject.t :=
  ACMIObject.mk "102" (Some "Air+FixedWing") (Some "MiG-29") (Some "Enemies") (Some "Red")
    None None None None (Some origin_transform).

(** Three bandits in line, 9 km apart: the outer two are 18 km (9.7 NM)
    from each other. *)
Definition bandit (oid : string) (u v alt : R) : ACMIObject.t :=
  ACMIObject.mk oid (Some "Air+FixedWing") (Some "MiG-29") (Some "Enemies") None
    None None None None (Some (Transform.mk (Some u) (Some v) None None (Some alt) (Some 270))).

Definition line_of_three : list ACMIObject.t :=
  [bandit "a" 1000 1000 7000; bandit "b" 10000 1000 7000; bandit "c" 19000 1000 7000].

Definition item_a : Item.t := Item.mk (bandit "a" 1000 1000 7000) 1000 1000 (Some (7000 * M_TO_FT)).
Definition item_b : Item.t := Item.mk (bandit "b" 10000 1000 7000) 10000 1000 (Some (7000 * M_TO_FT)).
Definition item_c : Item.t := Item.mk (bandit "c" 19000 1000 7000) 19000 1000 (Some (7000 * M_TO_FT)).

(** A fighter, and an unknown and a hostile contact 1000 m north of it. *)
Definition blue1 : ACMIObject.t := aircraft "201" "F-16C" "Allies" 1000 1000 7000 90.
Definition bogey1 : ACMIObject.t := aircraft "301" "Learjet" "Neutral" 1000 2000 7000 180.
Definition red1 : ACMIObject.t := aircraft "102" "MiG-29" "Enemies" 1000 2000 7000 180.

(** A fighter and an unknown contact 1000 m apart. *)
Definition bogey_scene : Controller.t := fed [blue1; bogey1].
(** A fighter and a bandit 1000 m apart. *)
Definition merge_scene : Controller.t := fed [blue1; red1].

(** A world with the bullseye of the Allies 1 NM north-east of the origin. *)
Definition bull1 : ACMIObject.t := navaid "1" "Allies" 1852 1852.
Definition bull_scene : Controller.t := fed [bull1].

(** A world with one bandit and nothing else. *)
Definition red_scene : Controller.t := fed [red1].

(** The bullseye at the planar origin and a bandit due east of it at
    20 NM, 25,000 ft, heading 270. *)
Definition origin_bull : ACMIObject.t := navaid "1" "Allies" 0 0.
Definition inbound : ACMIObject.t := aircraft "102" "MiG-29" "Enemies" 37040 0 7620 270.
Definition origin_scene : Controller.t := fed [origin_bull; inbound].

(** The same contact, the bullseye 1 NM north-east of the origin. *)
Definition inbound1 : ACMIObject.t := aircraft "102" "MiG-29" "Enemies" (1852 + 37040) 1852 7620 270.
Definition picture_scene : Controller.t := fed [bull1; inbound1].

(** A fighter standing at 100 m altitude. *)
Definition parked : ACMIObject.t := aircraft "201" "F-16C" "Allies" 5000 6000 100 0.
Definition parked_scene : Controller.t := fed [parked].

(** A hostile missile first seen 1852 m north of the fighter [blue1]. *)
Definition missile1 : ACMIObject.t :=
  ACMIObject.mk "900" (Some "Weapon+Missile") (Some "R-77") (Some "Enemies") None
    None None None None
    (Some (Transform.mk (Some 1000) (Some 2852) None None (Some 7000) (Some 180))).

(** A world with one fighter and nothing else. *)
Definition blue_scene : Controller.t := fed [blue1].

(** A flight with a call sign. *)
Definition viper : ACMIObject.t :=
  ACMIObject.mk "202" (Some "Air+FixedWing") (Some "F-16C") (Some "Allies") None
    (Some "Viper 1-1") None None None
    (Some (Transform.mk (Some 3000) (Some 1000) None None (Some 7000) (Some 90))).

(** A plan that is due, two flights assigned to a CAP site, the clock at
    [t]. *)
Definition armed_at (t : R) : Controller.t :=
  with_ws Controller_init
    (with_time
       (with_push_plan
          (with_cap_sites
             (with_objects WorldState_init [("201", blue1); ("202", viper)])
             [("north", CAPSite.mk "north" (0, 37040) 10 20000 40000 ["201"; "202"])])
          (PushPlan.mk true (Some 90%Z) (Some 20%Z) (Some (0, 37040)) (Some 30) (Some 0)))
       t).

(** Two bandits 99 km (53 NM) apart. *)
Definition far_pair : list ACMIObject.t :=
  [bandit "a" 1000 1000 7000; bandit "d" 100000 1000 7000].

Definition item_d : Item.t :=
  Item.mk (bandit "d" 100000 1000 7000) 100000 1000 (Some (7000 * M_TO_FT)).

End Scenes.

(** * Properties *)

(** ** Comparisons on floats *)

Section Comparisons.
Local Open Scope R_scope.

Lemma Rltb_true (x y : R) : Rltb x y = true <-> x < y.
Proof. unfold Rltb; destruct (Rlt_dec x y); split; intros; auto; discriminate. Qed.

Lemma Rltb_false (x y : R) : Rltb x y = false <-> y <= x.
Proof.
  unfold Rltb; destruct (Rlt_dec x y); split; intros; auto; try discriminate; lra.
Qed.

Lemma Rleb_true (x y : R) : Rleb x y = true <-> x <= y.
Proof. unfold Rleb; destruct (Rle_dec x y); split; intros; auto; discriminate. Qed.

Lemma Rleb_false (x y : R) : Rleb x y = false <-> y < x.
Proof.
  unfold Rleb; destruct (Rle_dec x y); split; intros; auto; try discriminate; lra.
Qed.

Lemma float_or_some (r d : R) : d = 0 -> float_or (Some r) d = r.
Proof.
  intros ->; unfold float_or; destruct (Req_dec_T r 0); congruence.
Qed.

End Comparisons.

(** ** Position extraction *)

Section Position.
Local Open Scope R_scope.

Lemma not_none_or_zero_false (x : option R) :
  none_or_zero x -> not_none_or_zero x = false.
Proof.
  intros [-> | ->]; simpl; auto.
  destruct (Req_dec_T 0 0); auto; congruence.
Qed.

Lemma get_xy_mode_origin (o : ACMIObject.t) (tr : Transform.t) :
  ACMIObject.T o = Some tr ->
  none_or_zero (Transform.U tr) -> none_or_zero (Transform.V tr) ->
  get_xy_mode o =
    match Transform.Longitude tr, Transform.Latitude tr with
    | Some lon, Some lat => Some (ll, lon, lat)
    | _, _ => None
    end.
Proof.
  intros HT HU HV; unfold get_xy_mode; rewrite HT.
  rewrite (not_none_or_zero_false _ HU), (not_none_or_zero_false _ HV); reflexivity.
Qed.

Lemma uv_of_origin (o : ACMIObject.t) (tr : Transform.t) :
  ACMIObject.T o = Some tr ->
  none_or_zero (Transform.U tr) -> none_or_zero (Transform.V tr) ->
  uv_of o = None.
Proof.
  intros HT HU HV; unfold uv_of; rewrite (get_xy_mode_origin o tr HT HU HV).
  destruct (Transform.Longitude tr), (Transform.Latitude tr); reflexivity.
Qed.

Lemma item_of_no_uv (o : ACMIObject.t) : uv_of o = None -> item_of o = None.
Proof.
  unfold uv_of, item_of; destruct (get_xy_mode o) as [[[[] x] y]|]; intros; congruence.
Qed.

Lemma items_of_app (l1 l2 : list ACMIObject.t) :
  items_of (l1 ++ l2) = items_of l1 ++ items_of l2.
Proof.
  induction l1 as [|o l1 IH]; simpl; auto.
  destruct (item_of o); simpl; rewrite IH; reflexivity.
Qed.

Lemma items_of_skip (o : ACMIObject.t) (l1 l2 : list ACMIObject.t) :
  uv_of o = None -> items_of (l1 ++ o :: l2) = items_of (l1 ++ l2).
Proof.
  intros H; rewrite !items_of_app; simpl; rewrite (item_of_no_uv o H); reflexivity.
Qed.

Lemma nearest_scan_skip (p : R * R) (o : ACMIObject.t) (l1 l2 : list ACMIObject.t) :
  uv_of o = None -> nearest_scan p (l1 ++ o :: l2) = nearest_scan p (l1 ++ l2).
Proof.
  intros H; unfold nearest_scan; rewrite !fold_left_app; simpl; rewrite H; reflexivity.
Qed.

Lemma existsb_within_merge_skip (euv : R * R) (o : ACMIObject.t) (l1 l2 : list ACMIObject.t) :
  uv_of o = None ->
  existsb (within_merge euv) (l1 ++ o :: l2) = existsb (within_merge euv) (l1 ++ l2).
Proof.
  intros H; rewrite !existsb_app; simpl; unfold within_merge at 2; rewrite H; reflexivity.
Qed.

Lemma parse_picture : parse_command "picture" = Cmd.picture None.
Proof. vm_compute; reflexivity. Qed.

End Position.

Section OriginExclusion.
Local Open Scope R_scope.
Local Open Scope string_scope.

Lemma braa_no_uv (o x : ACMIObject.t) :
  uv_of o = None ->
  braa_from_fighter_to_target o x = None /\ braa_from_fighter_to_target x o = None.
Proof.
  intros H; unfold braa_from_fighter_to_target; rewrite H; split; auto.
  destruct (uv_of x); reflexivity.
Qed.

Lemma picture_without_bullseye (c : Controller.t) (o : ACMIObject.t) :
  find_bull (Controller.ws c) = Some o -> uv_of o = None ->
  (reds (Controller.ws c) ++ unks (Controller.ws c))%list <> [] ->
  handle_text c "picture" = (c, Ok "PICTURE: no bullseye available yet.").
Proof.
  intros Hb Hu Hi; unfold handle_text; rewrite parse_picture, Hb, Hu.
  destruct (reds (Controller.ws c) ++ unks (Controller.ws c))%list; [congruence|reflexivity].
Qed.

(** C10: an entity whose transform has U and V both 0.0 or absent has no
    planar position: the position falls back to longitude/latitude if both
    are there, else to nothing, and the entity is left out of grouping and
    picture, BRAA, the nearest-entity scans, merge detection and, as a
    bullseye, of bullseye resolution. *)
Theorem origin_excluded_from_planar_computation :
  forall (o : ACMIObject.t) (tr : Transform.t),
    ACMIObject.T o = Some tr ->
    none_or_zero (Transform.U tr) -> none_or_zero (Transform.V tr) ->
    get_xy_mode o =
      match Transform.Longitude tr, Transform.Latitude tr with
      | Some lon, Some lat => Some (ll, lon, lat)
      | _, _ => None
      end
    /\ uv_of o = None
    /\ (forall l1 l2 rng_nm alt_ft,
          group_contacts (l1 ++ o :: l2) rng_nm alt_ft = group_contacts (l1 ++ l2) rng_nm alt_ft)
    /\ (forall l1 l2 rng_nm alt_ft bull_uv wf,
          format_picture (summarize_groups (group_contacts (l1 ++ o :: l2) rng_nm alt_ft) bull_uv wf)
          = format_picture (summarize_groups (group_contacts (l1 ++ l2) rng_nm alt_ft) bull_uv wf))
    /\ (forall x, braa_from_fighter_to_target o x = None
                  /\ braa_from_fighter_to_target x o = None)
    /\ (forall p l1 l2, nearest_scan p (l1 ++ o :: l2) = nearest_scan p (l1 ++ l2))
    /\ (forall blues, merged_for blues o = None)
    /\ (forall euv l1 l2,
          existsb (within_merge euv) (l1 ++ o :: l2) = existsb (within_merge euv) (l1 ++ l2))
    /\ (forall c, find_bull (Controller.ws c) = Some o ->
          (reds (Controller.ws c) ++ unks (Controller.ws c))%list <> [] ->
          handle_text c "picture" = (c, Ok "PICTURE: no bullseye available yet.")).
Proof.
  intros o tr HT HU HV.
  pose proof (uv_of_origin o tr HT HU HV) as Huv.
  split; [exact (get_xy_mode_origin o tr HT HU HV)|].
  split; [exact Huv|].
  assert (Hg : forall l1 l2 rng_nm alt_ft,
             group_contacts (l1 ++ o :: l2) rng_nm alt_ft
             = group_contacts (l1 ++ l2) rng_nm alt_ft).
  { intros; unfold group_contacts; rewrite (items_of_skip o l1 l2 Huv); reflexivity. }
  split; [exact Hg|].
  split; [intros; rewrite Hg; reflexivity|].
  split; [intros x; exact (braa_no_uv o x Huv)|].
  split; [intros; apply nearest_scan_skip; exact Huv|].
  split; [intros; unfold merged_for; rewrite Huv; reflexivity|].
  split; [intros; apply existsb_within_merge_skip; exact Huv|].
  intros c Hb Hi; exact (picture_without_bullseye c o Hb Huv Hi).
Qed.

Lemma origin_excluded_witness : uv_of origin_contact = None.
Proof.
  exact (proj1 (proj2 (origin_excluded_from_planar_computation origin_contact origin_transform
                         eq_refl (or_intror eq_refl) (or_intror eq_refl)))).
Defined.

End OriginExclusion.

(** ** Dictionaries *)

Section DictFacts.
Context {V : Type}.
Implicit Types (d : list (string * V)) (k : string) (v : V).

Lemma get_set_same d k v : Dict.get (Dict.set d k v) k = Some v.
Proof.
  induction d as [|[k' v'] d IH]; simpl.
  - rewrite String.eqb_refl; reflexivity.
  - destruct (String.eqb k k') eqn:E; simpl.
    + rewrite String.eqb_refl; reflexivity.
    + rewrite E; exact IH.
Qed.

Lemma get_set_other d k k' v : k <> k' -> Dict.get (Dict.set d k v) k' = Dict.get d k'.
Proof.
  intros Hne; induction d as [|[k0 v0] d IH]; simpl.
  - destruct (String.eqb k' k) eqn:E; auto.
    apply String.eqb_eq in E; congruence.
  - destruct (String.eqb k k0) eqn:E; simpl.
    + apply String.eqb_eq in E; subst k0.
      destruct (String.eqb k' k) eqn:E'; auto.
      apply String.eqb_eq in E'; congruence.
    + destruct (String.eqb k' k0); auto.
Qed.

Lemma in_pop d k k' v : In (k', v) (Dict.pop d k) <-> k' <> k /\ In (k', v) d.
Proof.
  unfold Dict.pop; rewrite filter_In; simpl; split.
  - intros [Hin Hb]; split; auto.
    intros ->; rewrite String.eqb_refl in Hb; discriminate.
  - intros [Hne Hin]; split; auto.
    destruct (String.eqb k k') eqn:E; auto.
    apply String.eqb_eq in E; congruence.
Qed.

Lemma get_in d k v : Dict.get d k = Some v -> In (k, v) d.
Proof.
  induction d as [|[k' v'] d IH]; simpl; [discriminate|].
  destruct (String.eqb k k') eqn:E.
  - apply String.eqb_eq in E; subst; intros [= ->]; auto.
  - auto.
Qed.

Lemma get_none_not_in d k : Dict.get d k = None <-> (forall v, ~ In (k, v) d).
Proof.
  induction d as [|[k' v'] d IH]; simpl.
  - split; auto.
  - destruct (String.eqb k k') eqn:E.
    + apply String.eqb_eq in E; subst; split; [discriminate|].
      intros H; exfalso; apply (H v'); auto.
    + rewrite IH; split.
      * intros H v [[= <- <-]|Hin]; [rewrite String.eqb_refl in E; discriminate|].
        exact (H v Hin).
      * intros H v Hin; apply (H v); auto.
Qed.

Lemma get_pop_same d k : Dict.get (Dict.pop d k) k = None.
Proof.
  apply get_none_not_in; intros v Hin; apply in_pop in Hin; tauto.
Qed.

Lemma get_pop_other d k k' : k <> k' -> Dict.get (Dict.pop d k) k' = Dict.get d k'.
Proof.
  intros Hne; induction d as [|[k0 v0] d IH]; simpl; auto.
  destruct (String.eqb k k0) eqn:E; simpl.
  - apply String.eqb_eq in E; subst k0.
    destruct (String.eqb k' k) eqn:E'; auto.
    apply String.eqb_eq in E'; congruence.
  - destruct (String.eqb k' k0); auto.
Qed.

Lemma get_pop_some d k k' v : Dict.get (Dict.pop d k) k' = Some v -> Dict.get d k' = Some v.
Proof.
  destruct (string_dec k k') as [->|Hne].
  - rewrite get_pop_same; discriminate.
  - rewrite get_pop_other by assumption; auto.
Qed.

Lemma get_map (f : V -> V) d k :
  Dict.get (map (fun kv => (fst kv, f (snd kv))) d) k = option_map f (Dict.get d k).
Proof.
  induction d as [|[k' v'] d IH]; simpl; auto.
  destruct (String.eqb k k'); auto.
Qed.

End DictFacts.

(** ** Home plate *)

Section HomePlate.
Local Open Scope R_scope.

Lemma learn_home_keeps (tr : TrackWrap.t) (obj : ACMIObject.t) (h : R * R) :
  TrackWrap.home_uv tr = Some h -> TrackWrap.home_uv (learn_home tr obj) = Some h.
Proof. intros H; unfold learn_home; rewrite H; exact H. Qed.

Lemma update_speed_home (tr : TrackWrap.t) (now : R) :
  TrackWrap.home_uv (update_speed tr now) = TrackWrap.home_uv tr.
Proof.
  unfold update_speed.
  destruct (ACMIObject.T (TrackWrap.obj tr)); auto.
  destruct (TrackWrap.last_t tr); auto.
  destruct (Transform.U t), (Transform.V t), (TrackWrap.last_u tr), (TrackWrap.last_v tr); auto.
Qed.

Lemma upsert_tracks_other (ws : WorldState.t) (obj : ACMIObject.t) (now : R) (oid : string) :
  ACMIObject.object_id obj <> oid ->
  Dict.get (WorldState.tracks (upsert ws obj now)) oid = Dict.get (WorldState.tracks ws) oid.
Proof.
  intros Hne; unfold upsert.
  repeat match goal with
         | |- context [if ?b then _ else _] => destruct b
         | |- context [match Dict.get ?d ?k with _ => _ end] => destruct (Dict.get d k)
         end; simpl; rewrite ?get_set_other by assumption; reflexivity.
Qed.

Lemma upsert_home_same (ws : WorldState.t) (obj : ACMIObject.t) (now : R) (h : R * R) :
  home_of ws (ACMIObject.object_id obj) = Some (Some h) ->
  home_of (upsert ws obj now) (ACMIObject.object_id obj) = Some (Some h).
Proof.
  unfold home_of; intros H.
  destruct (Dict.get (WorldState.tracks ws) (ACMIObject.object_id obj)) as [tr|] eqn:E;
    [|discriminate].
  simpl in H; injection H as H.
  unfold upsert; simpl; rewrite E; simpl.
  destruct (contains "Navaid+Static+Bullseye" _ || contains "Navaid+Bullseye" _); simpl;
    destruct (contains "Air" _); simpl; rewrite ?get_set_same;
    destruct (is_missile obj); simpl; rewrite ?get_set_same; simpl;
    try (rewrite learn_home_keeps with (h := h) by exact H); rewrite ?H; reflexivity.
Qed.

Lemma upsert_home (ws : WorldState.t) (obj : ACMIObject.t) (now : R) (oid : string) (h : R * R) :
  home_of ws oid = Some (Some h) -> home_of (upsert ws obj now) oid = Some (Some h).
Proof.
  intros H; destruct (string_dec (ACMIObject.object_id obj) oid) as [<-|Hne].
  - apply upsert_home_same; exact H.
  - unfold home_of; rewrite upsert_tracks_other by assumption; exact H.
Qed.

End HomePlate.

(** ** What the parts of the loop leave alone *)

Section Frames.
Local Open Scope R_scope.

Lemma ws_log (c : Controller.t) (s : string) : Controller.ws (log c s) = Controller.ws c.
Proof. reflexivity. Qed.

Lemma ws_check_merged (c : Controller.t) (tick : Z) :
  Controller.ws (_check_merged c tick) = Controller.ws c.
Proof.
  unfold _check_merged; destruct (merged_line (Controller.ws c)); auto.
  destruct (_ <=? _)%Z; reflexivity.
Qed.

Lemma ws_check_missile_birth (c : Controller.t) (obj : ACMIObject.t) :
  Controller.ws (_check_missile_birth c obj) = Controller.ws c.
Proof.
  unfold _check_missile_birth.
  destruct (PySet.mem _ _); auto.
  destruct (negb (is_missile obj)); auto.
  destruct (Coal_eqb _ _); auto.
  destruct (uv_of obj); auto; simpl.
  destruct (nearest_scan _ _) as [[best|] r]; auto.
  destruct (Rleb _ _); auto.
  destruct (uv_of best); reflexivity.
Qed.

(** The loop over the recipients of a push only writes log lines. *)
Lemma push_fold_ws (p : PushPlan.t) (recips : list string) :
  forall (rc : res Controller.t) (c' : Controller.t),
    fold_left
      (fun rc oid =>
         bind rc (fun c =>
           match Dict.get (WorldState.objects (Controller.ws c)) oid with
           | None => Ok c
           | Some o => bind (push_line p (friendly_label o)) (fun l => Ok (log c l))
           end))
      recips rc = Ok c' ->
    exists c0, rc = Ok c0 /\ Controller.ws c' = Controller.ws c0.
Proof.
  induction recips as [|oid recips IH]; simpl; intros rc c' H.
  - exists c'; auto.
  - apply IH in H; destruct H as [c1 [H1 H2]].
    destruct rc as [c0|e]; simpl in H1; [|discriminate].
    exists c0; split; auto.
    destruct (Dict.get _ oid).
    + destruct (push_line p _); simpl in H1; [|discriminate].
      injection H1 as <-; rewrite H2; reflexivity.
    + injection H1 as <-; exact H2.
Qed.

(** [_try_execute_push] changes the push plan and the log, nothing else of
    the world. *)
Lemma try_execute_push_ws (c c' : Controller.t) :
  _try_execute_push c = Ok c' ->
  Controller.ws c' = Controller.ws c
  \/ Controller.ws c' =
       with_push_plan (Controller.ws c)
         (with_active (WorldState.push_plan (Controller.ws c)) false).
Proof.
  unfold _try_execute_push.
  destruct (negb _); [intros [= <-]; auto|].
  destruct (Rltb _ _); [intros [= <-]; auto|].
  destruct (push_recipients (Controller.ws c)) as [|r recips] eqn:E.
  - simpl; intros [= <-]; right; reflexivity.
  - match goal with
    | |- bind ?x _ = _ -> _ => destruct x as [c1|e] eqn:F
    end; simpl; [|discriminate].
    intros [= <-]; apply push_fold_ws in F; destruct F as [c0 [[= <-] F]].
    right; simpl; rewrite F; reflexivity.
Qed.

Lemma try_execute_push_tracks (c c' : Controller.t) :
  _try_execute_push c = Ok c' ->
  WorldState.tracks (Controller.ws c') = WorldState.tracks (Controller.ws c).
Proof. intros H; destruct (try_execute_push_ws c c' H) as [-> | ->]; reflexivity. Qed.

Lemma remove_tracks (ws : WorldState.t) (k : string) :
  WorldState.tracks (remove ws k) = Dict.pop (WorldState.tracks ws) k.
Proof. reflexivity. Qed.

Lemma cull_fold_tracks (now : R) (snapshot : list (string * R)) :
  forall (ws : WorldState.t) (oid : string) (tr : TrackWrap.t),
    Dict.get (WorldState.tracks
                (fold_left
                   (fun ws kv => if Rltb (WorldState.ttl ws) (now - snd kv)
                                 then remove ws (fst kv) else ws)
                   snapshot ws)) oid = Some tr ->
    Dict.get (WorldState.tracks ws) oid = Some tr.
Proof.
  induction snapshot as [|[k t] snapshot IH]; simpl; intros ws oid tr H; auto.
  apply IH in H; destruct (Rltb _ _); auto.
  rewrite remove_tracks in H; eapply get_pop_some; eauto.
Qed.

Lemma cull_stale_tracks (ws : WorldState.t) (now : R) (oid : string) (tr : TrackWrap.t) :
  Dict.get (WorldState.tracks (cull_stale ws now)) oid = Some tr ->
  Dict.get (WorldState.tracks ws) oid = Some tr.
Proof. apply cull_fold_tracks. Qed.

End Frames.

Section HomePlateLoop.
Local Open Scope R_scope.

Lemma step_home (c : Controller.t) (ev : Event) (oid : string) (h : R * R) :
  home_of (Controller.ws c) oid = Some (Some h) ->
  home_of (Controller.ws (fst (step c ev))) oid = Some (Some h)
  \/ Dict.get (WorldState.tracks (Controller.ws (fst (step c ev)))) oid = None.
Proof.
  intros H; destruct ev as [ts|props|k|ent]; simpl.
  - (* TIME *)
    set (ws1 := with_tracks _ _).
    assert (H1 : forall tr, Dict.get (WorldState.tracks (cull_stale ws1 (WorldState.time ws1))) oid
                            = Some tr -> TrackWrap.home_uv tr = Some h).
    { intros tr Htr; apply cull_stale_tracks in Htr.
      unfold ws1 in Htr; simpl in Htr.
      rewrite (get_map (fun t => update_speed t _)) in Htr.
      unfold home_of in H.
      destruct (Dict.get (WorldState.tracks (Controller.ws c)) oid) as [tr0|]; [|discriminate].
      simpl in H, Htr; injection Htr as <-; rewrite update_speed_home; congruence. }
    set (ws2 := cull_stale ws1 (WorldState.time ws1)) in *.
    assert (H2 : home_of ws2 oid = Some (Some h) \/ Dict.get (WorldState.tracks ws2) oid = None).
    { unfold home_of; destruct (Dict.get (WorldState.tracks ws2) oid) as [tr|] eqn:E; auto.
      left; simpl; rewrite (H1 tr eq_refl); reflexivity. }
    destruct (negb _); simpl; auto.
    match goal with
    | |- context [_try_execute_push ?x] => destruct (_try_execute_push x) as [c'|e] eqn:F
    end; simpl.
    + apply try_execute_push_tracks in F; unfold home_of; rewrite F.
      rewrite ws_check_merged; exact H2.
    + rewrite ws_check_merged; exact H2.
  - destruct props; simpl; auto.
  - unfold home_of; rewrite remove_tracks.
    destruct (string_dec k oid) as [->|Hne].
    + right; apply get_pop_same.
    + left; rewrite get_pop_other by assumption; exact H.
  - left; apply upsert_home; rewrite ws_check_missile_birth; exact H.
Qed.

Lemma steps_home (feed : list Event) :
  forall (c : Controller.t) (oid : string) (h : R * R),
    home_of (Controller.ws c) oid = Some (Some h) ->
    (forall n, Dict.mem (WorldState.tracks (Controller.ws (steps c (firstn n feed)))) oid = true) ->
    home_of (Controller.ws (steps c feed)) oid = Some (Some h).
Proof.
  induction feed as [|ev feed IH]; simpl; intros c oid h H Hex; auto.
  apply IH.
  - destruct (step_home c ev oid h H) as [H1|H1]; auto.
    specialize (Hex 1%nat); simpl in Hex; unfold Dict.mem in Hex.
    unfold steps in Hex; simpl in Hex; rewrite H1 in Hex; discriminate.
  - intros n; exact (Hex (S n)).
Qed.

(** C9: once the home plate of a tracked entity is set, no upsert overwrites
    it, neither for that entity nor for another one; the stored position is
    the same after every later update, and after every later line of the
    feed for as long as the track is there. *)
Theorem home_plate_never_overwritten :
  forall (ws : WorldState.t) (oid : string) (h : R * R),
    home_of ws oid = Some (Some h) ->
    (forall obj now, home_of (upsert ws obj now) oid = Some (Some h))
    /\ (forall updates : list (ACMIObject.t * R),
          home_of (fold_left (fun w u => upsert w (fst u) (snd u)) updates ws) oid
          = Some (Some h))
    /\ (forall c feed,
          Controller.ws c = ws ->
          (forall n, Dict.mem (WorldState.tracks (Controller.ws (steps c (firstn n feed)))) oid
                     = true) ->
          home_of (Controller.ws (steps c feed)) oid = Some (Some h)).
Proof.
  intros ws oid h H; split; [|split].
  - intros; apply upsert_home; exact H.
  - intros updates; revert ws H; induction updates as [|u updates IH]; simpl; intros ws H; auto.
    apply IH, upsert_home; exact H.
  - intros c feed <- Hex; apply steps_home; auto.
Qed.

End HomePlateLoop.

(** ** Staleness eviction *)

Section Eviction.
Local Open Scope R_scope.

Lemma pop_slots_subset (oid : string) (items : list (string * string)) :
  forall d x, In x (fold_left (pop_slots oid) items d) -> In x d.
Proof.
  induction items as [|[k v] items IH]; simpl; intros d x H; auto.
  apply IH in H; unfold pop_slots in H; simpl in H.
  destruct (String.eqb v oid); auto.
  destruct x as [k' v']; apply in_pop in H; tauto.
Qed.

Lemma pop_slots_removed (oid : string) (items : list (string * string)) :
  forall d k, In (k, oid) items -> forall v, ~ In (k, v) (fold_left (pop_slots oid) items d).
Proof.
  induction items as [|[k0 v0] items IH]; simpl; intros d k Hin v H; [contradiction|].
  destruct Hin as [[= -> ->]|Hin].
  - apply pop_slots_subset in H; unfold pop_slots in H; simpl in H.
    rewrite String.eqb_refl in H; apply in_pop in H; tauto.
  - exact (IH _ k Hin v H).
Qed.

Lemma mem_discard (s : PySet.t) (x : string) : PySet.mem (PySet.discard s x) x = false.
Proof.
  unfold PySet.mem, PySet.discard; induction s as [|y s IH]; simpl; auto.
  destruct (String.eqb x y) eqn:E; simpl; auto.
  rewrite E; exact IH.
Qed.

Lemma mem_discard_keeps (s : PySet.t) (x y : string) :
  PySet.mem s y = false -> PySet.mem (PySet.discard s x) y = false.
Proof.
  unfold PySet.mem, PySet.discard; induction s as [|z s IH]; simpl; auto.
  intros H; apply orb_false_iff in H; destruct H as [H1 H2].
  destruct (negb (String.eqb x z)); simpl; auto.
  rewrite H1; auto.
Qed.

Lemma remove_absent (ws : WorldState.t) (oid : string) : absent (remove ws oid) oid.
Proof.
  unfold absent, remove; simpl; repeat split; try apply get_pop_same.
  - intros k v H ->.
    assert (Hin := pop_slots_subset _ _ _ _ H).
    exact (pop_slots_removed oid _ _ k Hin oid H).
  - intros n cap H; apply in_map_iff in H; destruct H as [[n0 cap0] [Heq _]]; simpl in Heq.
    destruct (PySet.mem (CAPSite.assigned_ids cap0) oid) eqn:E; injection Heq as <- <-; simpl; auto.
    apply mem_discard.
Qed.

Lemma pop_none {V : Type} (d : list (string * V)) (k oid : string) :
  Dict.get d oid = None -> Dict.get (Dict.pop d k) oid = None.
Proof.
  intros H; destruct (Dict.get (Dict.pop d k) oid) eqn:E; auto.
  apply get_pop_some in E; congruence.
Qed.

Lemma remove_keeps_absent (ws : WorldState.t) (k oid : string) :
  absent ws oid -> absent (remove ws k) oid.
Proof.
  intros (H1 & H2 & H3 & H4 & H5 & H6); unfold absent, remove; simpl.
  repeat split; try (apply pop_none; assumption).
  - intros k0 v H; apply pop_slots_subset in H; eauto.
  - intros n cap H; apply in_map_iff in H; destruct H as [[n0 cap0] [Heq Hin]]; simpl in Heq.
    specialize (H6 n0 cap0 Hin).
    destruct (PySet.mem (CAPSite.assigned_ids cap0) k); injection Heq as <- <-; simpl; auto.
    apply mem_discard_keeps; exact H6.
Qed.

Lemma cull_fold_ttl (now : R) (snapshot : list (string * R)) :
  forall ws, WorldState.ttl (fold_left (cull_step now) snapshot ws) = WorldState.ttl ws.
Proof.
  induction snapshot as [|kv snapshot IH]; simpl; intros ws; auto.
  rewrite IH; unfold cull_step; destruct (Rltb _ _); reflexivity.
Qed.

Lemma cull_fold_keeps_absent (now : R) (snapshot : list (string * R)) :
  forall ws oid, absent ws oid -> absent (fold_left (cull_step now) snapshot ws) oid.
Proof.
  induction snapshot as [|kv snapshot IH]; simpl; intros ws oid H; auto.
  apply IH; unfold cull_step; destruct (Rltb _ _); auto.
  apply remove_keeps_absent; exact H.
Qed.

Lemma cull_fold_absent (now : R) (snapshot : list (string * R)) :
  forall ws oid t,
    In (oid, t) snapshot -> WorldState.ttl ws < now - t ->
    absent (fold_left (cull_step now) snapshot ws) oid.
Proof.
  induction snapshot as [|[k t0] snapshot IH]; simpl; intros ws oid t Hin Hlt; [contradiction|].
  destruct Hin as [[= -> ->]|Hin].
  - apply cull_fold_keeps_absent; unfold cull_step; simpl.
    replace (Rltb (WorldState.ttl ws) (now - t)) with true
      by (symmetry; apply Rltb_true; exact Hlt).
    apply remove_absent.
  - apply (IH _ oid t Hin).
    unfold cull_step; destruct (Rltb _ _); exact Hlt.
Qed.

Lemma cull_stale_absent (ws : WorldState.t) (now : R) (oid : string) (t : R) :
  Dict.get (WorldState.last_seen ws) oid = Some t ->
  WorldState.ttl ws < now - t ->
  absent (cull_stale ws now) oid.
Proof.
  intros Hget Hlt; apply (cull_fold_absent now _ ws oid t); auto.
  apply get_in; exact Hget.
Qed.

Lemma cull_stale_keeps_absent (ws : WorldState.t) (now : R) (oid : string) :
  absent ws oid -> absent (cull_stale ws now) oid.
Proof. apply cull_fold_keeps_absent. Qed.

(** *** The registry queries read the object map *)

Lemma get_air_values (ws : WorldState.t) (o : ACMIObject.t) :
  In o (get_air ws) -> In o (Dict.values (WorldState.objects ws)).
Proof. unfold get_air; rewrite filter_In; tauto. Qed.

Lemma get_values {V : Type} (d : list (string * V)) (k : string) (v : V) :
  Dict.get d k = Some v -> In v (Dict.values d).
Proof.
  intros H; apply get_in in H; unfold Dict.values.
  apply in_map_iff; exists (k, v); auto.
Qed.

Lemma first_some_in {A B : Type} (f : A -> option B) (l : list A) (y : B) :
  first_some f l = Some y -> exists x, In x l /\ f x = Some y.
Proof.
  induction l as [|x l IH]; simpl; [discriminate|].
  destruct (f x) eqn:E.
  - intros [= ->]; exists x; auto.
  - intros H; destruct (IH H) as [x' [H1 H2]]; exists x'; auto.
Qed.

Lemma blues_values (ws : WorldState.t) (o : ACMIObject.t) :
  In o (blues ws) -> In o (Dict.values (WorldState.objects ws)).
Proof. unfold blues; rewrite filter_In; intros [H _]; apply get_air_values; exact H. Qed.

Lemma find_bull_values (ws : WorldState.t) (o : ACMIObject.t) :
  find_bull ws = Some o -> In o (Dict.values (WorldState.objects ws)).
Proof.
  unfold find_bull.
  destruct (first_some _ _) eqn:E1.
  - intros [= <-]; apply first_some_in in E1; destruct E1 as [pref [_ H]].
    destruct (Dict.get (WorldState.bullseye_by_coal ws) pref); [|discriminate].
    destruct (nonempty s); [|discriminate].
    eapply get_values; eauto.
  - destruct (first_some _ (Dict.values _)) eqn:E2.
    + intros [= <-]; apply first_some_in in E2; destruct E2 as [k [_ H]].
      eapply get_values; eauto.
    + intros H; apply blues_values.
      destruct (blues ws); simpl in H; [discriminate|]; injection H as ->; simpl; auto.
Qed.

Lemma answers_values (ws : WorldState.t) (o : ACMIObject.t) :
  answers ws o -> In o (Dict.values (WorldState.objects ws)).
Proof.
  intros [H|[H|[H|[H|[H|H]]]]].
  - apply get_air_values; exact H.
  - apply blues_values; exact H.
  - unfold reds in H; rewrite filter_In in H; apply get_air_values; tauto.
  - unfold unks in H; rewrite filter_In in H; apply get_air_values; tauto.
  - apply find_bull_values; exact H.
  - unfold nearest_tanker in H.
    destruct (filter _ (blues ws)) as [|x l] eqn:E; simpl in H; [discriminate|].
    injection H as ->.
    assert (Hin : In o (filter
              (fun o => existsb (fun h => contains h (str_or_empty (ACMIObject.Name o)))
                          TANKER_HINTS) (blues ws))) by (rewrite E; simpl; auto).
    rewrite filter_In in Hin; apply blues_values; tauto.
Qed.

Lemma absent_not_answered (ws : WorldState.t) (oid : string) (o : ACMIObject.t) :
  keyed ws -> Dict.get (WorldState.objects ws) oid = None ->
  answers ws o -> ACMIObject.object_id o <> oid.
Proof.
  intros Hk Hnone Ha Heq; apply answers_values in Ha.
  unfold Dict.values in Ha; apply in_map_iff in Ha; destruct Ha as [[k o'] [E Hin]].
  simpl in E; subst o'.
  rewrite (Hk k o Hin) in Heq; subst k.
  apply (proj1 (get_none_not_in _ _) Hnone o Hin).
Qed.

(** *** The invariant holds along the loop *)

Lemma in_dict_set {V : Type} (d : list (string * V)) (k : string) (v : V) (x : string * V) :
  In x (Dict.set d k v) -> x = (k, v) \/ In x d.
Proof.
  induction d as [|[k' v'] d IH]; simpl.
  - intros [<-|[]]; auto.
  - destruct (String.eqb k k'); simpl; intros [<-|H]; auto.
    destruct (IH H); auto.
Qed.

Lemma upsert_objects (ws : WorldState.t) (obj : ACMIObject.t) (now : R) :
  WorldState.objects (upsert ws obj now)
  = Dict.set (WorldState.objects ws) (ACMIObject.object_id obj) obj.
Proof.
  unfold upsert.
  repeat match goal with
         | |- context [if ?b then _ else _] => destruct b
         | |- context [match Dict.get ?d ?k with _ => _ end] => destruct (Dict.get d k)
         end; reflexivity.
Qed.

Lemma keyed_upsert (ws : WorldState.t) (obj : ACMIObject.t) (now : R) :
  keyed ws -> keyed (upsert ws obj now).
Proof.
  intros H k o Hin; rewrite upsert_objects in Hin.
  apply in_dict_set in Hin; destruct Hin as [[= -> ->]|Hin]; auto.
Qed.

Lemma keyed_remove (ws : WorldState.t) (k : string) : keyed ws -> keyed (remove ws k).
Proof.
  intros H k0 o Hin; unfold remove in Hin; simpl in Hin.
  apply in_pop in Hin; apply H; tauto.
Qed.

Lemma keyed_cull_stale (ws : WorldState.t) (now : R) : keyed ws -> keyed (cull_stale ws now).
Proof.
  unfold cull_stale; generalize (WorldState.last_seen ws) as snapshot.
  intros snapshot; revert ws; induction snapshot as [|kv snapshot IH]; simpl; intros ws H; auto.
  apply IH; destruct (Rltb _ _); auto using keyed_remove.
Qed.

Lemma keyed_init : keyed WorldState_init.
Proof. intros k o []. Qed.

(** C4: an entity last seen longer ago than the TTL is, after the next
    eviction pass, gone from the object map, the track map, the missile map,
    every bullseye slot and every CAP site's assigned set, hence from the
    answer of every registry query, and later passes keep it so. *)
Theorem stale_entity_evicted :
  forall (ws : WorldState.t) (now : R) (oid : string) (t : R),
    Dict.get (WorldState.last_seen ws) oid = Some t ->
    WorldState.ttl ws < now - t ->
    let ws' := cull_stale ws now in
    Dict.get (WorldState.objects ws') oid = None
    /\ Dict.get (WorldState.tracks ws') oid = None
    /\ Dict.get (WorldState.missiles ws') oid = None
    /\ (forall k v, In (k, v) (WorldState.bullseye_by_coal ws') -> v <> oid)
    /\ (forall n cap, In (n, cap) (WorldState.cap_sites ws') ->
          PySet.mem (CAPSite.assigned_ids cap) oid = false)
    /\ (keyed ws -> forall o, answers ws' o -> ACMIObject.object_id o <> oid)
    /\ (forall now', absent (cull_stale ws' now') oid).
Proof.
  intros ws now oid t Hget Hlt ws'.
  pose proof (cull_stale_absent ws now oid t Hget Hlt) as Ha.
  fold ws' in Ha.
  pose proof Ha as (H1 & H2 & _ & H4 & H5 & H6).
  split; [exact H1|].
  split; [exact H2|].
  split; [exact H4|].
  split; [exact H5|].
  split; [exact H6|].
  split.
  - intros Hk o Ho; apply (absent_not_answered ws' oid o); auto.
    apply keyed_cull_stale; exact Hk.
  - intros now'; apply cull_stale_keeps_absent; exact Ha.
Qed.

End Eviction.

(** ** Grouping *)

Section Closeness.
Local Open Scope R_scope.

Lemma hypot_sym (a b c d : R) : hypot (a - b) (c - d) = hypot (b - a) (d - c).
Proof. unfold hypot; f_equal; ring. Qed.

Lemma close_sym (rng_nm alt_ft : R) (a b : Item.t) :
  close rng_nm alt_ft a b = close rng_nm alt_ft b a.
Proof. unfold close; rewrite hypot_sym, Rabs_minus_sym; reflexivity. Qed.

End Closeness.

Section Clusters.
Variables (rng_nm alt_ft : R) (items : list Item.t).

Lemma near_sym (j k : nat) : (near rng_nm alt_ft items) j k -> (near rng_nm alt_ft items) k j.
Proof.
  intros (a & b & Ha & Hb & Hc); exists b, a; repeat split; auto.
  rewrite close_sym; exact Hc.
Qed.

Lemma in_set_In (s : list nat) (i : nat) : in_set s i = true <-> In i s.
Proof.
  unfold in_set; rewrite existsb_exists; split.
  - intros [x [Hin E]]; apply Nat.eqb_eq in E; subst; exact Hin.
  - intros Hin; exists i; split; auto; apply Nat.eqb_refl.
Qed.

Lemma close_to_cluster_spec (cluster : list nat) (j : nat) :
  close_to_cluster rng_nm alt_ft items cluster j = true
  <-> exists k, In k cluster /\ (near rng_nm alt_ft items) j k.
Proof.
  unfold close_to_cluster, near; split.
  - destruct (nth_error items j) as [a|]; [|discriminate].
    rewrite existsb_exists; intros [k [Hin Hc]].
    destruct (nth_error items k) as [b|] eqn:E; [|discriminate].
    exists k; split; auto; exists a, b; auto.
  - intros (k & Hin & a & b & Ha & Hb & Hc); rewrite Ha.
    apply existsb_exists; exists k; split; auto; rewrite Hb; exact Hc.
Qed.

Lemma pass_step_mono (st : list nat * bool) (j x : nat) :
  In x (fst st) -> In x (fst (pass_step rng_nm alt_ft items st j)).
Proof.
  destruct st as [c ch]; unfold pass_step; simpl.
  destruct (in_set c j); auto.
  destruct (close_to_cluster _ _ _ _ _); simpl; auto.
  intros H; apply in_or_app; auto.
Qed.

Lemma pass_step_chained (st : list nat * bool) (j : nat) :
  (chained rng_nm alt_ft items) (fst st) -> (chained rng_nm alt_ft items) (fst (pass_step rng_nm alt_ft items st j)).
Proof.
  destruct st as [c ch]; unfold pass_step; simpl; intros Hc.
  destruct (in_set c j); auto.
  destruct (close_to_cluster _ _ _ _ _) eqn:E; simpl; auto.
  apply close_to_cluster_spec in E; destruct E as (k & Hk & Hn).
  assert (Hj : forall x, In x c -> (linked rng_nm alt_ft items) j x).
  { intros x Hx; apply rst_trans with k; [apply rst_step; exact Hn|apply Hc; auto]. }
  intros x y Hx Hy; apply in_app_or in Hx; apply in_app_or in Hy.
  destruct Hx as [Hx|[<-|[]]], Hy as [Hy|[<-|[]]].
  - exact (Hc x y Hx Hy).
  - apply rst_sym; exact (Hj x Hx).
  - exact (Hj y Hy).
  - apply rst_refl.
Qed.

Lemma fold_pass_mono (l : list nat) :
  forall st x, In x (fst st) -> In x (fst (fold_left (pass_step rng_nm alt_ft items) l st)).
Proof.
  induction l as [|j l IH]; simpl; intros st x H; auto.
  apply IH, pass_step_mono; exact H.
Qed.

Lemma fold_pass_chained (l : list nat) :
  forall st, (chained rng_nm alt_ft items) (fst st) -> (chained rng_nm alt_ft items) (fst (fold_left (pass_step rng_nm alt_ft items) l st)).
Proof.
  induction l as [|j l IH]; simpl; intros st H; auto.
  apply IH, pass_step_chained; exact H.
Qed.

Lemma fold_pass_flag (l : list nat) :
  forall st, snd st = true -> snd (fold_left (pass_step rng_nm alt_ft items) l st) = true.
Proof.
  induction l as [|j l IH]; simpl; intros st H; auto.
  apply IH; destruct st as [c ch]; simpl in *; subst ch.
  unfold pass_step; destruct (in_set c j); auto.
  destruct (close_to_cluster _ _ _ _ _); auto.
Qed.

Lemma fold_pass_unchanged (l : list nat) :
  forall st,
    snd (fold_left (pass_step rng_nm alt_ft items) l st) = false ->
    fst (fold_left (pass_step rng_nm alt_ft items) l st) = fst st
    /\ (forall j, In j l -> in_set (fst st) j = false ->
                  close_to_cluster rng_nm alt_ft items (fst st) j = false).
Proof.
  induction l as [|j l IH]; simpl; intros st H.
  - split; auto; intros j [].
  - destruct st as [c ch]; unfold pass_step in *; simpl in *.
    destruct (in_set c j) eqn:Ein.
    + destruct (IH _ H) as [H1 H2]; split; auto.
      intros j' [<-|Hin] Hj'; [congruence|auto].
    + destruct (close_to_cluster _ _ _ c j) eqn:Ecl.
      * rewrite fold_pass_flag in H by reflexivity; discriminate.
      * destruct (IH _ H) as [H1 H2]; split; auto.
        intros j' [<-|Hin] Hj'; auto.
Qed.

Lemma filter_length_le {A : Type} (p q : A -> bool) (l : list A) :
  (forall x, In x l -> q x = true -> p x = true) ->
  (List.length (filter q l) <= List.length (filter p l))%nat.
Proof.
  induction l as [|x l IH]; simpl; intros H; auto.
  assert (IH' := IH (fun y Hy => H y (or_intror Hy))).
  destruct (q x) eqn:Eq.
  - rewrite (H x (or_introl eq_refl) Eq); simpl; lia.
  - destruct (p x); simpl; lia.
Qed.

Lemma filter_length_lt {A : Type} (p q : A -> bool) (l : list A) (x : A) :
  (forall y, In y l -> q y = true -> p y = true) ->
  In x l -> p x = true -> q x = false ->
  (List.length (filter q l) < List.length (filter p l))%nat.
Proof.
  induction l as [|y l IH]; simpl; intros H Hin Hp Hq; [contradiction|].
  assert (Hle := filter_length_le p q l (fun z Hz => H z (or_intror Hz))).
  destruct Hin as [->|Hin].
  - rewrite Hp, Hq; simpl; lia.
  - assert (IH' := IH (fun z Hz => H z (or_intror Hz)) Hin Hp Hq).
    destruct (q y) eqn:Eq.
    + rewrite (H y (or_introl eq_refl) Eq); simpl; lia.
    + destruct (p y); simpl; lia.
Qed.

Lemma in_set_app (c : list nat) (j x : nat) :
  in_set (c ++ [j]) x = in_set c x || Nat.eqb x j.
Proof. unfold in_set; rewrite existsb_app; simpl; rewrite orb_false_r; reflexivity. Qed.

Lemma pass_step_missing (st : list nat * bool) (j : nat) :
  In j (seq 0 (List.length items)) ->
  ((missing items) (fst (pass_step rng_nm alt_ft items st j)) <= (missing items) (fst st))%nat
  /\ (snd st = false -> snd (pass_step rng_nm alt_ft items st j) = true ->
      ((missing items) (fst (pass_step rng_nm alt_ft items st j)) < (missing items) (fst st))%nat).
Proof.
  destruct st as [c ch]; unfold pass_step; simpl; intros Hj.
  destruct (in_set c j) eqn:Ein; simpl.
  - split; [lia|congruence].
  - destruct (close_to_cluster _ _ _ _ _); simpl.
    + assert (Hlt : ((missing items) (c ++ [j]) < (missing items) c)%nat).
      { unfold missing; apply filter_length_lt with (x := j); auto.
        - intros y _; rewrite in_set_app, negb_orb; intros H.
          apply andb_true_iff in H; tauto.
        - rewrite Ein; reflexivity.
        - rewrite in_set_app, Nat.eqb_refl, orb_true_r; reflexivity. }
      split; [lia|auto].
    + split; [lia|congruence].
Qed.

Lemma fold_pass_missing (l : list nat) :
  forall st,
    (forall j, In j l -> In j (seq 0 (List.length items))) ->
    ((missing items) (fst (fold_left (pass_step rng_nm alt_ft items) l st)) <= (missing items) (fst st))%nat
    /\ (snd st = false -> snd (fold_left (pass_step rng_nm alt_ft items) l st) = true ->
        ((missing items) (fst (fold_left (pass_step rng_nm alt_ft items) l st)) < (missing items) (fst st))%nat).
Proof.
  induction l as [|j l IH]; simpl; intros st Hl.
  - split; [lia|congruence].
  - destruct (IH (pass_step rng_nm alt_ft items st j) (fun x Hx => Hl x (or_intror Hx))) as [H1 H2].
    destruct (pass_step_missing st j (Hl j (or_introl eq_refl))) as [H3 H4].
    split; [lia|].
    intros Hst Hres.
    destruct (snd (pass_step rng_nm alt_ft items st j)) eqn:E.
    + specialize (H4 Hst eq_refl); lia.
    + specialize (H2 eq_refl Hres); lia.
Qed.

Lemma pass_closed (cluster : list nat) :
  snd (pass rng_nm alt_ft items cluster) = false -> fst (pass rng_nm alt_ft items cluster) = cluster /\ (closed rng_nm alt_ft items) cluster.
Proof.
  unfold pass; intros H.
  destruct (fold_pass_unchanged _ _ H) as [H1 H2]; simpl in *; split; auto.
  intros j Hj Hin; apply H2; auto.
  apply in_seq; lia.
Qed.

Lemma grow_mono (fuel : nat) :
  forall cluster x, In x cluster -> In x (grow rng_nm alt_ft items fuel cluster).
Proof.
  induction fuel as [|f IH]; simpl; intros cluster x H; auto.
  destruct (pass rng_nm alt_ft items cluster) as [c' ch] eqn:E.
  assert (Hin : In x c').
  { change c' with (fst (c', ch)); rewrite <- E.
    unfold pass; apply fold_pass_mono; exact H. }
  destruct ch; auto.
Qed.

Lemma grow_chained (fuel : nat) :
  forall cluster, (chained rng_nm alt_ft items) cluster -> (chained rng_nm alt_ft items) (grow rng_nm alt_ft items fuel cluster).
Proof.
  induction fuel as [|f IH]; simpl; intros cluster H; auto.
  destruct (pass rng_nm alt_ft items cluster) as [c' ch] eqn:E.
  assert (Hc : (chained rng_nm alt_ft items) c').
  { change c' with (fst (c', ch)); rewrite <- E.
    unfold pass; apply fold_pass_chained; exact H. }
  destruct ch; auto.
Qed.

(** The fuel suffices: the loop ends because no run added anything. *)
Lemma grow_closed (fuel : nat) :
  forall cluster, ((missing items) cluster < fuel)%nat -> (closed rng_nm alt_ft items) (grow rng_nm alt_ft items fuel cluster).
Proof.
  induction fuel as [|f IH]; simpl; intros cluster H; [lia|].
  destruct (pass rng_nm alt_ft items cluster) as [c' ch] eqn:E.
  destruct ch.
  - apply IH.
    assert (Hlt : ((missing items) c' < (missing items) cluster)%nat).
    { change c' with (fst (c', true)); rewrite <- E; unfold pass.
      apply fold_pass_missing; auto.
      change (snd (pass rng_nm alt_ft items cluster) = true); rewrite E; reflexivity. }
    lia.
  - assert (Hs : snd (pass rng_nm alt_ft items cluster) = false) by (rewrite E; reflexivity).
    destruct (pass_closed cluster Hs) as [H1 H2].
    rewrite E in H1; simpl in H1; subst c'; exact H2.
Qed.

Lemma missing_le (cluster : list nat) : ((missing items) cluster <= (List.length items))%nat.
Proof.
  unfold missing.
  pose proof (filter_length_le (fun _ => true) (fun j => negb (in_set cluster j)) (seq 0 (List.length items))
                (fun _ _ _ => eq_refl)) as H.
  assert (E : filter (fun _ : nat => true) (seq 0 (List.length items)) = seq 0 (List.length items)).
  { clear; induction (seq 0 (List.length items)); simpl; congruence. }
  rewrite E, length_seq in H; exact H.
Qed.

(** A (closed rng_nm alt_ft items) cluster holds every position (linked rng_nm alt_ft items) to one of its members. *)
Lemma closed_linked (cluster : list nat) :
  (closed rng_nm alt_ft items) cluster -> forall x y, (linked rng_nm alt_ft items) x y -> (In x cluster <-> In y cluster).
Proof.
  intros Hc x y H; induction H as [x y H| |x y H IH|x y z H1 IH1 H2 IH2].
  - assert (Hstep : forall u v, (near rng_nm alt_ft items) u v -> In v cluster -> In u cluster).
    { intros u v Hn Hv.
      destruct (in_set cluster u) eqn:E; [apply in_set_In; exact E|].
      assert (Hu : (u < (List.length items))%nat).
      { destruct Hn as (a & b & Ha & _); apply nth_error_Some; congruence. }
      assert (Hf := Hc u Hu E).
      assert (Ht : close_to_cluster rng_nm alt_ft items cluster u = true)
        by (apply close_to_cluster_spec; exists v; auto).
      congruence. }
    split; intros Hin.
    + apply (Hstep y x); auto using near_sym.
    + apply (Hstep x y); auto.
  - tauto.
  - tauto.
  - tauto.
Qed.

Lemma outer_step_inv (st : list (list nat) * list nat) (i : nat) :
  (outer_inv rng_nm alt_ft items) st -> (outer_inv rng_nm alt_ft items) (outer_step rng_nm alt_ft items st i) /\ In i (snd (outer_step rng_nm alt_ft items st i))
                  /\ (forall x, In x (snd st) -> In x (snd (outer_step rng_nm alt_ft items st i))).
Proof.
  destruct st as [groups used]; unfold outer_step; intros [H1 H2]; simpl in *.
  destruct (in_set used i) eqn:E.
  - split; [split; auto|]; split; auto; apply in_set_In; exact E.
  - set (g := grow rng_nm alt_ft items (S (List.length items)) [i]).
    assert (Hi : In i g) by (apply grow_mono; simpl; auto).
    assert (Hcl : (closed rng_nm alt_ft items) g).
    { apply grow_closed; pose proof (missing_le [i]); lia. }
    assert (Hch : (chained rng_nm alt_ft items) g).
    { apply grow_chained; intros x y [<-|[]] [<-|[]]; apply rst_refl. }
    split; [split|split]; simpl.
    + intros x Hx; apply in_app_or in Hx; destruct Hx as [Hx|Hx].
      * destruct (H1 x Hx) as [g' [Hg' Hin]]; exists g'; split; auto.
        apply in_or_app; auto.
      * exists g; split; auto; apply in_or_app; simpl; auto.
    + intros g' Hg'; apply in_app_or in Hg'; destruct Hg' as [Hg'|[<-|[]]]; auto.
    + apply in_or_app; auto.
    + intros x Hx; apply in_or_app; auto.
Qed.

Lemma fold_outer_inv (l : list nat) :
  forall st, (outer_inv rng_nm alt_ft items) st ->
    (outer_inv rng_nm alt_ft items) (fold_left (outer_step rng_nm alt_ft items) l st)
    /\ (forall i, In i l -> In i (snd (fold_left (outer_step rng_nm alt_ft items) l st)))
    /\ (forall x, In x (snd st) -> In x (snd (fold_left (outer_step rng_nm alt_ft items) l st))).
Proof.
  induction l as [|i l IH]; simpl; intros st H.
  - split; auto; split; auto; intros i [].
  - destruct (outer_step_inv st i H) as (H1 & H2 & H3).
    destruct (IH _ H1) as (H4 & H5 & H6).
    split; auto; split.
    + intros j [<-|Hj]; auto.
    + intros x Hx; auto.
Qed.

Lemma clusters_cover (i : nat) :
  (i < (List.length items))%nat -> exists g, In g (clusters rng_nm alt_ft items) /\ In i g.
Proof.
  intros Hi; unfold clusters.
  destruct (fold_outer_inv (seq 0 (List.length items)) ([], [])) as ([H1 _] & H2 & _).
  { split; simpl; intros; contradiction. }
  apply H1, H2, in_seq; lia.
Qed.

Lemma clusters_closed_chained (g : list nat) :
  In g (clusters rng_nm alt_ft items) -> (closed rng_nm alt_ft items) g /\ (chained rng_nm alt_ft items) g.
Proof.
  unfold clusters.
  destruct (fold_outer_inv (seq 0 (List.length items)) ([], [])) as ([_ H1] & _).
  { split; simpl; intros; contradiction. }
  apply H1.
Qed.

Lemma members_In (g : list nat) (k : nat) (it : Item.t) :
  In k g -> nth_error items k = Some it -> In it (members items g).
Proof.
  intros Hk Hn; unfold members; apply in_flat_map; exists k; split.
  - apply in_seq; split; [lia|]; simpl; apply nth_error_Some; congruence.
  - apply in_set_In in Hk; rewrite Hk, Hn; simpl; auto.
Qed.

End Clusters.

Section Numbers.
Local Open Scope R_scope.

Lemma hypot_axis_r (x : R) : hypot x 0 = Rabs x.
Proof.
  unfold hypot; replace (x * x + 0 * 0) with (Rsqr x) by (unfold Rsqr; ring).
  apply sqrt_Rsqr_abs.
Qed.

Lemma hypot_axis_l (y : R) : hypot 0 y = Rabs y.
Proof.
  unfold hypot; replace (0 * 0 + y * y) with (Rsqr y) by (unfold Rsqr; ring).
  apply sqrt_Rsqr_abs.
Qed.

Lemma Rabs_of_pos (x : R) : 0 <= x -> Rabs x = x.
Proof. intros; apply Rabs_pos_eq; assumption. Qed.

Lemma Rabs_of_neg (x : R) : x <= 0 -> Rabs x = - x.
Proof. intros H; rewrite <- Rabs_Ropp; apply Rabs_pos_eq; lra. Qed.

Lemma get_xy_mode_uv (o : ACMIObject.t) (tr : Transform.t) (u v : R) :
  ACMIObject.T o = Some tr -> Transform.U tr = Some u -> Transform.V tr = Some v ->
  u <> 0 \/ v <> 0 ->
  get_xy_mode o = Some (uv, u, v).
Proof.
  intros HT HU HV Hnz; unfold get_xy_mode; rewrite HT, HU, HV.
  rewrite !float_or_some by lra.
  unfold not_none_or_zero.
  destruct (Req_dec_T u 0), (Req_dec_T v 0); simpl; auto; lra.
Qed.

Lemma uv_of_uv (o : ACMIObject.t) (tr : Transform.t) (u v : R) :
  ACMIObject.T o = Some tr -> Transform.U tr = Some u -> Transform.V tr = Some v ->
  u <> 0 \/ v <> 0 ->
  uv_of o = Some (u, v).
Proof.
  intros HT HU HV Hnz; unfold uv_of; rewrite (get_xy_mode_uv o tr u v); auto.
Qed.

Lemma item_of_uv (o : ACMIObject.t) (tr : Transform.t) (u v : R) :
  ACMIObject.T o = Some tr -> Transform.U tr = Some u -> Transform.V tr = Some v ->
  u <> 0 \/ v <> 0 ->
  item_of o = Some (Item.mk o u v (match Transform.Altitude tr with
                                   | Some alt_m => Some (alt_m * M_TO_FT)
                                   | None => None
                                   end)).
Proof.
  intros HT HU HV Hnz; unfold item_of; rewrite (get_xy_mode_uv o tr u v); auto.
  unfold T_attr; rewrite HT; reflexivity.
Qed.

End Numbers.

(** Decide the comparisons of a goal on concrete numbers. *)
Ltac rcompare :=
  repeat match goal with
         | |- context [Rltb ?a ?b] =>
             first [ replace (Rltb a b) with true by (symmetry; apply Rltb_true; lra)
                   | replace (Rltb a b) with false by (symmetry; apply Rltb_false; lra) ]
         | |- context [Rleb ?a ?b] =>
             first [ replace (Rleb a b) with true by (symmetry; apply Rleb_true; lra)
                   | replace (Rleb a b) with false by (symmetry; apply Rleb_false; lra) ]
         end.

Section Transitivity.
Local Open Scope R_scope.
Local Open Scope string_scope.

Lemma items_line_of_three : items_of line_of_three = [item_a; item_b; item_c].
Proof.
  unfold line_of_three, items_of.
  rewrite (item_of_uv (bandit "a" 1000 1000 7000) _ 1000 1000 eq_refl eq_refl eq_refl) by lra.
  rewrite (item_of_uv (bandit "b" 10000 1000 7000) _ 10000 1000 eq_refl eq_refl eq_refl) by lra.
  rewrite (item_of_uv (bandit "c" 19000 1000 7000) _ 19000 1000 eq_refl eq_refl eq_refl) by lra.
  reflexivity.
Qed.

Lemma close_in_line (x y : R) (a b : ACMIObject.t) :
  close 5 2000 (Item.mk a x 1000 (Some (7000 * M_TO_FT))) (Item.mk b y 1000 (Some (7000 * M_TO_FT)))
  = Rleb (Rabs (x - y) / EARTH_M_PER_NM) 5.
Proof.
  unfold close; cbn [Item.u Item.v Item.alt_ft].
  replace (1000 - 1000) with 0 by ring; rewrite hypot_axis_r.
  assert (E : float_or (Some (7000 * M_TO_FT)) 0 = 7000 * M_TO_FT) by (apply float_or_some; reflexivity).
  rewrite E.
  replace (7000 * M_TO_FT - 7000 * M_TO_FT) with 0 by ring.
  rewrite Rabs_R0.
  replace (Rleb 0 2000) with true by (symmetry; apply Rleb_true; lra).
  apply andb_true_r.
Qed.

End Transitivity.

(** ** What a command leaves alone *)

Section CommandFrame.
Local Open Scope R_scope.

Lemma registry_kept_refl (c : Controller.t) : registry_kept c c.
Proof. unfold registry_kept; repeat split. Qed.

Lemma registry_kept_trans (a b c : Controller.t) :
  registry_kept a b -> registry_kept b c -> registry_kept a c.
Proof.
  unfold registry_kept; intros H1 H2.
  repeat match goal with H : _ /\ _ |- _ => destruct H end.
  repeat split; congruence.
Qed.

Lemma push_fold_kept (p : PushPlan.t) (recips : list string) :
  forall (rc : res Controller.t) (c' : Controller.t),
    fold_left
      (fun rc oid =>
         bind rc (fun c =>
           match Dict.get (WorldState.objects (Controller.ws c)) oid with
           | None => Ok c
           | Some o => bind (push_line p (friendly_label o)) (fun l => Ok (log c l))
           end))
      recips rc = Ok c' ->
    exists c0, rc = Ok c0 /\ registry_kept c0 c'.
Proof.
  induction recips as [|oid recips IH]; simpl; intros rc c' H.
  - exists c'; split; auto using registry_kept_refl.
  - apply IH in H; destruct H as [c1 [H1 H2]].
    destruct rc as [c0|e]; simpl in H1; [|discriminate].
    exists c0; split; auto.
    destruct (Dict.get _ oid).
    + destruct (push_line p _); simpl in H1; [|discriminate].
      injection H1 as <-; apply registry_kept_trans with (log c0 a); auto.
      unfold registry_kept; repeat split.
    + injection H1 as <-; exact H2.
Qed.

Lemma try_execute_push_kept (c c' : Controller.t) :
  _try_execute_push c = Ok c' -> registry_kept c c'.
Proof.
  unfold _try_execute_push.
  destruct (negb _); [intros [= <-]; apply registry_kept_refl|].
  destruct (Rltb _ _); [intros [= <-]; apply registry_kept_refl|].
  destruct (push_recipients (Controller.ws c)) as [|r recips] eqn:E.
  - simpl; intros [= <-]; unfold registry_kept; repeat split.
  - match goal with
    | |- bind ?x _ = _ -> _ => destruct x as [c1|e] eqn:F
    end; simpl; [|discriminate].
    intros [= <-]; apply push_fold_kept in F; destruct F as [c0 [[= <-] F]].
    apply registry_kept_trans with c1; auto.
    unfold registry_kept; repeat split.
Qed.

Lemma cap_status_kept (c : Controller.t) (name : option string) :
  registry_kept c (fst (_cap_status_line c name)).
Proof.
  unfold _cap_status_line.
  destruct (WorldState.cap_sites (Controller.ws c)) as [|p t]; [apply registry_kept_refl|].
  set (sites := p :: t).
  destruct name as [nm|]; [destruct (nonempty nm)|].
  - destruct (Dict.get sites nm); [|apply registry_kept_refl].
    destruct (cap_one _ _); unfold registry_kept; repeat split.
  - unfold registry_kept; repeat split.
  - unfold registry_kept; repeat split.
Qed.

Lemma handle_text_kept (c : Controller.t) (text : string) :
  registry_kept c (fst (handle_text c text)).
Proof.
  unfold handle_text; cbv zeta.
  destruct (parse_command text);
    repeat match goal with
           | |- registry_kept _ (fst (_cap_status_line _ _)) => fail 1
           | |- registry_kept _ (fst (let (_, _) := _cap_status_line ?c ?cs in _)) =>
               let E := fresh "E" in
               pose proof (cap_status_kept c cs) as E;
               destruct (_cap_status_line c cs); exact E
           | |- registry_kept _ (fst (match _try_execute_push ?x with _ => _ end)) =>
               let E := fresh "E" in
               destruct (_try_execute_push x) eqn:E;
               [apply try_execute_push_kept in E|]
           | |- registry_kept _ (fst (match ?x with _ => _ end)) => destruct x
           end;
    try (unfold registry_kept; simpl; repeat split; fail).
  apply registry_kept_trans with (2 := E); unfold registry_kept; repeat split.
Qed.

End CommandFrame.

(** ** Missile birth *)

Section MissileBirth.
Local Open Scope R_scope.
Local Open Scope string_scope.

Lemma mem_add_same (s : PySet.t) (x : string) : PySet.mem (PySet.add s x) x = true.
Proof.
  unfold PySet.add; destruct (PySet.mem s x) eqn:E; auto.
  unfold PySet.mem; rewrite existsb_app; simpl.
  rewrite String.eqb_refl, orb_true_r; reflexivity.
Qed.

Lemma mem_add_keeps (s : PySet.t) (x y : string) :
  PySet.mem s y = true -> PySet.mem (PySet.add s x) y = true.
Proof.
  intros H; unfold PySet.add; destruct (PySet.mem s x); auto.
  unfold PySet.mem in *; rewrite existsb_app, H; reflexivity.
Qed.

Lemma known_check_merged (c : Controller.t) (tick : Z) :
  Controller._known_ids (_check_merged c tick) = Controller._known_ids c.
Proof.
  unfold _check_merged; destruct (merged_line _); auto.
  destruct (_ <=? _)%Z; reflexivity.
Qed.

(** The check of an identifier leaves it in the seen-set and keeps the
    others there. *)
Lemma known_after_birth (c : Controller.t) (obj : ACMIObject.t) :
  PySet.mem (Controller._known_ids (_check_missile_birth c obj)) (ACMIObject.object_id obj)
  = true
  /\ (forall y, PySet.mem (Controller._known_ids c) y = true ->
                PySet.mem (Controller._known_ids (_check_missile_birth c obj)) y = true).
Proof.
  unfold _check_missile_birth.
  destruct (PySet.mem (Controller._known_ids c) (ACMIObject.object_id obj)) eqn:E;
    [split; auto|].
  assert (H : forall c1, Controller._known_ids c1
                         = PySet.add (Controller._known_ids c) (ACMIObject.object_id obj) ->
            PySet.mem (Controller._known_ids c1) (ACMIObject.object_id obj) = true
            /\ (forall y, PySet.mem (Controller._known_ids c) y = true ->
                          PySet.mem (Controller._known_ids c1) y = true)).
  { intros c1 ->; split; [apply mem_add_same|intros; apply mem_add_keeps; auto]. }
  destruct (negb (is_missile obj)); [apply H; reflexivity|].
  destruct (Coal_eqb _ _); [apply H; reflexivity|].
  destruct (uv_of obj); [|apply H; reflexivity].
  cbn [Controller.ws with_known_ids].
  destruct (nearest_scan _ _) as [[best|] r]; [|apply H; reflexivity].
  destruct (Rleb _ _); [|apply H; reflexivity].
  destruct (uv_of best); apply H; reflexivity.
Qed.

Lemma known_step (c : Controller.t) (ent : Event) (y : string) :
  PySet.mem (Controller._known_ids c) y = true ->
  PySet.mem (Controller._known_ids (fst (step c ent))) y = true.
Proof.
  intros H; destruct ent as [ts|props|k|obj]; simpl.
  - destruct (negb _); simpl; auto.
    match goal with
    | |- context [_try_execute_push ?x] => destruct (_try_execute_push x) as [c'|e] eqn:F
    end; simpl.
    + apply try_execute_push_kept in F; destruct F as [F _]; rewrite F.
      rewrite known_check_merged; exact H.
    + rewrite known_check_merged; exact H.
  - destruct props; simpl; auto.
  - exact H.
  - apply known_after_birth; exact H.
Qed.

Lemma known_reaches (c c' : Controller.t) (y : string) :
  reaches c c' ->
  PySet.mem (Controller._known_ids c) y = true ->
  PySet.mem (Controller._known_ids c') y = true.
Proof.
  induction 1 as [c|c c' ent _ IH|c c' text _ IH]; auto; intros H; apply IH.
  - apply known_step; exact H.
  - destruct (handle_text_kept c text) as [E _]; rewrite E; exact H.
Qed.

(** *** The nearest friendly *)

Lemma scan_fold_inv (p : R * R) (l : list ACMIObject.t) :
  forall seen st, scan_inv p seen st ->
                  scan_inv p (seen ++ l) (fold_left (scan_step p) l st).
Proof.
  induction l as [|o l IH]; simpl; intros seen st H.
  - rewrite app_nil_r; exact H.
  - replace (seen ++ o :: l)%list with ((seen ++ [o]) ++ l)%list
      by (rewrite <- app_assoc; reflexivity).
    apply IH; destruct H as [H1 H2]; unfold scan_step.
    assert (Hseen : forall q, match fst st with
                              | Some o' => In o' seen /\ q o'
                              | None => True
                              end ->
                              match fst st with
                              | Some o' => In o' (seen ++ [o]) /\ q o'
                              | None => True
                              end).
    { intros q; destruct (fst st); auto.
      intros [Ha Hb]; split; auto; apply in_or_app; auto. }
    destruct (uv_of o) as [ouv|] eqn:E.
    + destruct (Rltb _ _) eqn:F.
      * apply Rltb_true in F; split; cbn [fst snd].
        -- intros b x Hb Hx; apply in_app_or in Hb; destruct Hb as [Hb|[Hb|[]]].
           ++ specialize (H1 b x Hb Hx); unfold range_nm in *; lra.
           ++ subst b; assert (Ex : x = ouv) by congruence; subst x; unfold range_nm; lra.
        -- split; [apply in_or_app; simpl; auto|exists ouv; auto].
      * apply Rltb_false in F; split.
        -- intros b x Hb Hx; apply in_app_or in Hb; destruct Hb as [Hb|[Hb|[]]].
           ++ exact (H1 b x Hb Hx).
           ++ subst b; assert (Ex : x = ouv) by congruence; subst x; exact F.
        -- apply (Hseen (fun o' => exists x, uv_of o' = Some x /\ snd st = range_nm p x));
             exact H2.
    + split.
      * intros b x Hb Hx; apply in_app_or in Hb; destruct Hb as [Hb|[Hb|[]]].
        -- exact (H1 b x Hb Hx).
        -- subst b; congruence.
      * apply (Hseen (fun o' => exists x, uv_of o' = Some x /\ snd st = range_nm p x));
          exact H2.
Qed.

(** The scan picks a candidate with a position that no other candidate
    with a position is nearer than. *)
Lemma nearest_scan_spec (p : R * R) (cands : list ACMIObject.t) (best : ACMIObject.t) (r : R) :
  nearest_scan p cands = (Some best, r) ->
  In best cands
  /\ (exists buv, uv_of best = Some buv /\ r = range_nm p buv)
  /\ (forall b x, In b cands -> uv_of b = Some x -> (r <= range_nm p x)%R).
Proof.
  intros H.
  assert (Hinv : scan_inv p ([] ++ cands) (nearest_scan p cands)).
  { apply scan_fold_inv; split; simpl; [intros b x []|exact I]. }
  rewrite H in Hinv; destruct Hinv as [H1 [H2 H3]]; simpl in *; auto.
Qed.

(** Once the scan holds a candidate it holds one to the end, and while it
    holds none the range is the one it started from. *)
Lemma scan_fold_none (p : R * R) (l : list ACMIObject.t) :
  forall st, fst (fold_left (scan_step p) l st) = None ->
             fst st = None /\ snd (fold_left (scan_step p) l st) = snd st.
Proof.
  induction l as [|o l IH]; intros st H; [split; [exact H|reflexivity]|].
  cbn [fold_left] in *; destruct (IH _ H) as [H1 H2]; rewrite H2; clear IH H H2.
  unfold scan_step in *; destruct (uv_of o); [|split; [exact H1|reflexivity]].
  destruct (Rltb _ _); [discriminate|split; [exact H1|reflexivity]].
Qed.

(** The scan misses no one: a candidate with a position (nearer than the
    1e18 NM it starts from) makes it return a candidate. *)
Lemma nearest_scan_finds (p : R * R) (cands : list ACMIObject.t) (b : ACMIObject.t) (x : R * R) :
  In b cands -> uv_of b = Some x -> (range_nm p x < 1e18)%R ->
  exists best r, nearest_scan p cands = (Some best, r).
Proof.
  intros Hin Hx Hr.
  assert (Hinv : scan_inv p ([] ++ cands) (nearest_scan p cands)).
  { apply scan_fold_inv; split; simpl; [intros b' x' []|exact I]. }
  destruct (nearest_scan p cands) as [[best|] r] eqn:E; [eauto|].
  exfalso.
  destruct (scan_fold_none p cands (None, 1e18%R)) as [_ H2].
  { change (fold_left (scan_step p) cands (None, 1e18%R)) with (nearest_scan p cands).
    rewrite E; reflexivity. }
  change (fold_left (scan_step p) cands (None, 1e18%R)) with (nearest_scan p cands) in H2.
  rewrite E in H2; cbn [snd] in H2.
  destruct Hinv as [H1 _]; specialize (H1 b x Hin Hx); cbn [snd] in H1; lra.
Qed.

(** *** The DEFEND call *)

Lemma birth_alert (c : Controller.t) (obj best : ACMIObject.t) (muv : R * R) (r : R) :
  PySet.mem (Controller._known_ids c) (ACMIObject.object_id obj) = false ->
  is_missile obj = true ->
  coalition_of obj <> Blue ->
  uv_of obj = Some muv ->
  nearest_scan muv (blues (Controller.ws c)) = (Some best, r) ->
  (r <= MISSILE_ALERT_MAX_RANGE_NM)%R ->
  exists buv, uv_of best = Some buv
    /\ Controller.printed (_check_missile_birth c obj)
       = (Controller.printed c ++ [defend_line best buv muv])%list.
Proof.
  intros Hk Hm Hc Hu Hs Hr.
  destruct (nearest_scan_spec _ _ _ _ Hs) as (_ & (buv & Hb & _) & _).
  exists buv; split; auto.
  unfold _check_missile_birth; rewrite Hk, Hm; simpl.
  destruct (coalition_of obj); simpl; try congruence; rewrite Hu, Hs;
    (replace (Rleb r MISSILE_ALERT_MAX_RANGE_NM) with true
      by (symmetry; apply Rleb_true; exact Hr)); rewrite Hb; reflexivity.
Qed.

(** A friendly with a position within the alert range is enough for the
    call, which names a friendly that none is nearer than. *)
Lemma birth_alert_near (c : Controller.t) (obj b : ACMIObject.t) (muv x : R * R) :
  PySet.mem (Controller._known_ids c) (ACMIObject.object_id obj) = false ->
  is_missile obj = true ->
  coalition_of obj <> Blue ->
  uv_of obj = Some muv ->
  In b (blues (Controller.ws c)) -> uv_of b = Some x ->
  (range_nm muv x <= MISSILE_ALERT_MAX_RANGE_NM)%R ->
  exists best buv,
    In best (blues (Controller.ws c))
    /\ uv_of best = Some buv
    /\ (forall b' x', In b' (blues (Controller.ws c)) -> uv_of b' = Some x' ->
                      (range_nm muv buv <= range_nm muv x')%R)
    /\ Controller.printed (_check_missile_birth c obj)
       = (Controller.printed c ++ [defend_line best buv muv])%list.
Proof.
  intros Hk Hm Hc Hu Hin Hx Hr.
  destruct (nearest_scan_finds muv (blues (Controller.ws c)) b x Hin Hx) as (best & r & Hs).
  { unfold MISSILE_ALERT_MAX_RANGE_NM in Hr; lra. }
  destruct (nearest_scan_spec _ _ _ _ Hs) as (Hbest & (buv & Hb & Hrng) & Hmin).
  assert (Hr' : (r <= MISSILE_ALERT_MAX_RANGE_NM)%R).
  { specialize (Hmin b x Hin Hx); lra. }
  destruct (birth_alert c obj best muv r Hk Hm Hc Hu Hs Hr') as (buv' & Hb' & Hp).
  rewrite Hb in Hb'; injection Hb' as <-.
  exists best, buv; repeat split; auto.
  intros b' x' Hin' Hx'; rewrite <- Hrng; exact (Hmin b' x' Hin' Hx').
Qed.

(** No call for what is not a missile, for a friendly shot, for a weapon
    without a position, and when every friendly with a position is farther
    than the alert range. *)
Lemma birth_quiet (c : Controller.t) (obj : ACMIObject.t) :
  is_missile obj = false \/ coalition_of obj = Blue \/ uv_of obj = None
  \/ (forall muv b x, uv_of obj = Some muv -> In b (blues (Controller.ws c)) ->
                      uv_of b = Some x -> (MISSILE_ALERT_MAX_RANGE_NM < range_nm muv x)%R) ->
  Controller.printed (_check_missile_birth c obj) = Controller.printed c.
Proof.
  intros H; unfold _check_missile_birth.
  destruct (PySet.mem _ _); [reflexivity|].
  destruct (is_missile obj) eqn:Em; [|reflexivity]; cbn [negb].
  destruct (coalition_of obj) eqn:Ec; cbn [Coal_eqb]; try reflexivity;
    (destruct (uv_of obj) as [muv|] eqn:Eu; [|reflexivity]);
    cbn [Controller.ws with_known_ids];
    (destruct (nearest_scan muv (blues (Controller.ws c))) as [[best|] r] eqn:Es; [|reflexivity]);
    (destruct (nearest_scan_spec _ _ _ _ Es) as (Hbest & (buv & Hb & Hrng) & _));
    (destruct H as [H|[H|[H|H]]]; try discriminate);
    specialize (H muv best buv eq_refl Hbest Hb);
    (replace (Rleb r MISSILE_ALERT_MAX_RANGE_NM) with false
      by (symmetry; apply Rleb_false; lra)); reflexivity.
Qed.

Lemma birth_at_most_one_line (c : Controller.t) (obj : ACMIObject.t) :
  Controller.printed (_check_missile_birth c obj) = Controller.printed c
  \/ exists line, Controller.printed (_check_missile_birth c obj)
                  = (Controller.printed c ++ [line])%list.
Proof.
  unfold _check_missile_birth.
  destruct (PySet.mem _ _); auto.
  destruct (negb (is_missile obj)); auto.
  destruct (Coal_eqb _ _); auto.
  destruct (uv_of obj); auto.
  cbn [Controller.ws with_known_ids].
  destruct (nearest_scan _ _) as [[best|] r]; auto.
  destruct (Rleb _ _); auto.
  destruct (uv_of best); auto.
  right; eexists; reflexivity.
Qed.

Lemma birth_known (c : Controller.t) (obj : ACMIObject.t) :
  PySet.mem (Controller._known_ids c) (ACMIObject.object_id obj) = true ->
  _check_missile_birth c obj = c.
Proof. intros H; unfold _check_missile_birth; rewrite H; reflexivity. Qed.

Lemma normalise_heading_id (ent : ACMIObject.t) :
  ACMIObject.object_id (normalise_heading ent) = ACMIObject.object_id ent.
Proof. unfold normalise_heading; destruct (ACMIObject.T ent); reflexivity. Qed.

Lemma known_after_update (c : Controller.t) (obj : ACMIObject.t) :
  PySet.mem (Controller._known_ids (fst (step c (ACTION_UPDATE obj))))
    (ACMIObject.object_id obj) = true.
Proof.
  change (Controller._known_ids (fst (step c (ACTION_UPDATE obj))))
    with (Controller._known_ids (_check_missile_birth c (normalise_heading obj))).
  rewrite <- (normalise_heading_id obj).
  exact (proj1 (known_after_birth c (normalise_heading obj))).
Qed.

Lemma printed_update_known (c : Controller.t) (obj : ACMIObject.t) :
  PySet.mem (Controller._known_ids c) (ACMIObject.object_id obj) = true ->
  Controller.printed (fst (step c (ACTION_UPDATE obj))) = Controller.printed c.
Proof.
  intros H.
  change (Controller.printed (fst (step c (ACTION_UPDATE obj))))
    with (Controller.printed (_check_missile_birth c (normalise_heading obj))).
  rewrite birth_known; [reflexivity|].
  rewrite normalise_heading_id; exact H.
Qed.

Lemma normalise_heading_kept (o : ACMIObject.t) :
  is_missile (normalise_heading o) = is_missile o
  /\ coalition_of (normalise_heading o) = coalition_of o
  /\ uv_of (normalise_heading o) = uv_of o.
Proof.
  destruct o as [oid ty nm coal col cs pilot grp unit [tr|]]; repeat split; reflexivity.
Qed.

Lemma printed_update (c : Controller.t) (obj : ACMIObject.t) :
  Controller.printed (fst (step c (ACTION_UPDATE obj)))
  = Controller.printed (_check_missile_birth c (normalise_heading obj)).
Proof. reflexivity. Qed.

(** C5: the missile-birth check runs once per identifier.  On the first
    update of an identifier that is a missile, not friendly, and has a
    friendly within 30 NM of its position, exactly one DEFEND line is
    printed, naming the nearest friendly and the bearing and range from it
    to the weapon; without such a friendly, or for what is no hostile
    missile with a position, nothing is printed; no update prints more than
    one line; and once an identifier has been through an update, no later
    update of it prints anything, whatever lines and commands come in
    between. *)
Theorem defend_once_per_identifier :
  forall (c : Controller.t) (obj : ACMIObject.t),
    (PySet.mem (Controller._known_ids c) (ACMIObject.object_id obj) = false ->
     is_missile obj = true ->
     coalition_of obj <> Blue ->
     forall muv b x,
       uv_of obj = Some muv ->
       In b (blues (Controller.ws c)) -> uv_of b = Some x ->
       (range_nm muv x <= MISSILE_ALERT_MAX_RANGE_NM)%R ->
       exists best buv,
         In best (blues (Controller.ws c))
         /\ uv_of best = Some buv
         /\ (forall b' x', In b' (blues (Controller.ws c)) -> uv_of b' = Some x' ->
                           (range_nm muv buv <= range_nm muv x')%R)
         /\ Controller.printed (fst (step c (ACTION_UPDATE obj)))
            = (Controller.printed c ++ [defend_line best buv muv])%list)
    /\ (is_missile obj = false \/ coalition_of obj = Blue \/ uv_of obj = None
        \/ (forall muv b x, uv_of obj = Some muv -> In b (blues (Controller.ws c)) ->
                            uv_of b = Some x ->
                            (MISSILE_ALERT_MAX_RANGE_NM < range_nm muv x)%R) ->
        Controller.printed (fst (step c (ACTION_UPDATE obj))) = Controller.printed c)
    /\ (PySet.mem (Controller._known_ids c) (ACMIObject.object_id obj) = false ->
        is_missile obj = true ->
        coalition_of obj <> Blue ->
        forall muv best r,
          uv_of obj = Some muv ->
          nearest_scan muv (blues (Controller.ws c)) = (Some best, r) ->
          (r <= MISSILE_ALERT_MAX_RANGE_NM)%R ->
          exists buv,
            In best (blues (Controller.ws c))
            /\ uv_of best = Some buv
            /\ r = range_nm muv buv
            /\ (forall b x, In b (blues (Controller.ws c)) -> uv_of b = Some x ->
                            (r <= range_nm muv x)%R)
            /\ Controller.printed (fst (step c (ACTION_UPDATE obj)))
               = (Controller.printed c ++ [defend_line best buv muv])%list)
    /\ (Controller.printed (fst (step c (ACTION_UPDATE obj))) = Controller.printed c
        \/ exists line, Controller.printed (fst (step c (ACTION_UPDATE obj)))
                        = (Controller.printed c ++ [line])%list)
    /\ (PySet.mem (Controller._known_ids c) (ACMIObject.object_id obj) = true ->
        Controller.printed (fst (step c (ACTION_UPDATE obj))) = Controller.printed c)
    /\ (forall c' obj',
          reaches (fst (step c (ACTION_UPDATE obj))) c' ->
          ACMIObject.object_id obj' = ACMIObject.object_id obj ->
          Controller.printed (fst (step c' (ACTION_UPDATE obj'))) = Controller.printed c').
Proof.
  intros c obj.
  destruct (normalise_heading_kept obj) as (Em & Ec & Eu).
  split; [|split; [|split; [|split; [|split]]]].
  - intros Hk Hm Hc muv b x Hu Hin Hx Hr.
    rewrite <- (normalise_heading_id obj) in Hk.
    rewrite <- Em in Hm; rewrite <- Ec in Hc; rewrite <- Eu in Hu.
    rewrite printed_update.
    exact (birth_alert_near c (normalise_heading obj) b muv x Hk Hm Hc Hu Hin Hx Hr).
  - intros H; rewrite printed_update; apply birth_quiet.
    rewrite Em, Ec, Eu; exact H.
  - intros Hk Hm Hc muv best r Hu Hs Hr.
    destruct (nearest_scan_spec _ _ _ _ Hs) as (Hin & (buv & Hb & Hrng) & Hmin).
    rewrite <- (normalise_heading_id obj) in Hk.
    rewrite <- Em in Hm; rewrite <- Ec in Hc; rewrite <- Eu in Hu.
    destruct (birth_alert c (normalise_heading obj) best muv r Hk Hm Hc Hu Hs Hr)
      as (buv' & Hb' & Hp).
    rewrite Hb in Hb'; injection Hb' as <-.
    exists buv; rewrite printed_update; repeat split; auto.
  - rewrite printed_update; apply birth_at_most_one_line.
  - apply printed_update_known.
  - intros c' obj' Hreach Hid.
    apply printed_update_known.
    apply (known_reaches _ _ _ Hreach); rewrite Hid; apply known_after_update.
Qed.

End MissileBirth.

(** ** Rounding *)

Section Rounding.
Local Open Scope R_scope.

Lemma py_round_near (x : R) (z : Z) :
  IZR z - 1 / 2 < x < IZR z + 1 / 2 -> py_round x = z.
Proof.
  intros [H1 H2]; unfold py_round.
  destruct (Rle_dec (IZR z) x) as [Hle|Hgt].
  - rewrite (Zfloor_eq z x) by lra.
    destruct (Rlt_dec (x - IZR z) (1 / 2)); [reflexivity|lra].
  - assert (E : Zfloor x = (z - 1)%Z) by (apply Zfloor_eq; rewrite minus_IZR; lra).
    rewrite E, minus_IZR.
    destruct (Rlt_dec (x - (IZR z - 1)) (1 / 2)); [lra|].
    destruct (Rlt_dec (1 / 2) (x - (IZR z - 1))); [lia|lra].
Qed.

Lemma py_round_IZR (z : Z) : py_round (IZR z) = z.
Proof. apply py_round_near; lra. Qed.

Lemma py_int_nonneg (x : R) (z : Z) : 0 <= x -> IZR z <= x < IZR z + 1 -> py_int x = z.
Proof.
  intros H0 H; unfold py_int; destruct (Rle_dec 0 x); [|lra].
  apply Zfloor_eq; exact H.
Qed.

Lemma py_fmod_in_range (x m : R) (k : Z) :
  0 < m -> IZR k * m <= x < (IZR k + 1) * m -> py_fmod x m = x - m * IZR k.
Proof.
  intros Hm [H1 H2]; unfold py_fmod.
  rewrite (Zfloor_eq k (x / m)); [reflexivity|].
  split.
  - apply Rmult_le_reg_r with m; auto.
    unfold Rdiv; rewrite Rmult_assoc, Rinv_l by lra; lra.
  - apply Rmult_lt_reg_r with m; auto.
    unfold Rdiv; rewrite Rmult_assoc, Rinv_l by lra; lra.
Qed.

End Rounding.

(** ** Merge detection *)

Section Merged.
Local Open Scope R_scope.
Local Open Scope string_scope.

Lemma first_some_none {A B : Type} (f : A -> option B) (l : list A) :
  first_some f l = None -> forall x, In x l -> f x = None.
Proof.
  induction l as [|y l IH]; simpl; intros H x Hin; [contradiction|].
  destruct (f y) eqn:E; [discriminate|].
  destruct Hin as [<-|Hin]; auto.
Qed.

Lemma merged_for_spec (blues : list ACMIObject.t) (e : ACMIObject.t) (line : string) :
  merged_for blues e = Some line <->
  (exists euv b buv, uv_of e = Some euv /\ In b blues /\ uv_of b = Some buv
                     /\ (range_nm euv buv <= MERGED_NM)%R)
  /\ line = "MERGED, " ++ threat_alt_phrase (T_attr Transform.Altitude e) ++ ".".
Proof.
  unfold merged_for; split.
  - destruct (uv_of e) as [euv|]; [|discriminate].
    destruct (existsb _ _) eqn:E; [|discriminate].
    intros [= <-]; split; auto.
    apply existsb_exists in E; destruct E as [b [Hb Hw]].
    unfold within_merge in Hw; destruct (uv_of b) as [buv|] eqn:Eb; [|discriminate].
    apply Rleb_true in Hw; exists euv, b, buv; auto.
  - intros [(euv & b & buv & He & Hb & Hbu & Hr) ->]; rewrite He.
    replace (existsb (within_merge euv) blues) with true; auto.
    symmetry; apply existsb_exists; exists b; split; auto.
    unfold within_merge; rewrite Hbu; apply Rleb_true; exact Hr.
Qed.

Lemma merged_line_sound (ws : WorldState.t) (line : string) :
  merged_line ws = Some line ->
  exists e, merged_pair ws e
            /\ line = "MERGED, " ++ threat_alt_phrase (T_attr Transform.Altitude e) ++ ".".
Proof.
  unfold merged_line; destruct (blues ws) as [|b0 bl] eqn:Eb; [discriminate|].
  destruct (reds ws) as [|r0 rl] eqn:Er; [discriminate|].
  intros H; apply first_some_in in H; destruct H as [e [Hin H]].
  apply merged_for_spec in H; destruct H as [(euv & b & buv & H1 & H2 & H3 & H4) ->].
  exists e; split; auto.
  unfold merged_pair; rewrite Er, Eb.
  split; [exact Hin|]; exists euv, b, buv; auto.
Qed.

Lemma merged_line_complete (ws : WorldState.t) (e : ACMIObject.t) :
  merged_pair ws e -> exists line, merged_line ws = Some line.
Proof.
  intros [Hin (euv & b & buv & H1 & H2 & H3 & H4)]; unfold merged_line.
  destruct (blues ws) as [|b0 bl] eqn:Eb; [contradiction|].
  destruct (reds ws) as [|r0 rl] eqn:Er; [contradiction|].
  destruct (first_some (merged_for (b0 :: bl)) (r0 :: rl)) as [line|] eqn:F; [eauto|].
  pose proof (first_some_none _ _ F e Hin) as Hn.
  assert (Hs : merged_for (b0 :: bl) e
               = Some ("MERGED, " ++ threat_alt_phrase (T_attr Transform.Altitude e) ++ ".")).
  { apply merged_for_spec; split; auto; exists euv, b, buv; auto. }
  congruence.
Qed.

Lemma check_merged_emits (c : Controller.t) (tick : Z) (line : string) :
  merged_line (Controller.ws c) = Some line ->
  (Controller._merged_cooldown c <= tick - Controller._last_merged_tick c)%Z ->
  _check_merged c tick = with_last_merged_tick (log c line) tick.
Proof.
  intros H1 H2; unfold _check_merged; rewrite H1.
  apply Z.leb_le in H2; rewrite H2; reflexivity.
Qed.

Lemma check_merged_suppressed (c : Controller.t) (tick : Z) :
  (tick - Controller._last_merged_tick c < Controller._merged_cooldown c)%Z ->
  _check_merged c tick = c.
Proof.
  intros H; unfold _check_merged; destruct (merged_line _); auto.
  apply Z.leb_gt in H; rewrite H; reflexivity.
Qed.

Lemma check_merged_quiet (c : Controller.t) (tick : Z) :
  merged_line (Controller.ws c) = None -> _check_merged c tick = c.
Proof. intros H; unfold _check_merged; rewrite H; reflexivity. Qed.

(** The merge state after one line of the feed: untouched, or a call was
    due and the tick of the line is the new mark. *)
Lemma step_merge_state (c : Controller.t) (ent : Event) :
  Controller._merged_cooldown (fst (step c ent)) = Controller._merged_cooldown c
  /\ (Controller._last_merged_tick (fst (step c ent)) = Controller._last_merged_tick c
      \/ (Controller._merged_cooldown c
          <= Controller._last_merged_tick (fst (step c ent)) - Controller._last_merged_tick c)%Z).
Proof.
  destruct ent as [ts|props|k|obj]; simpl.
  - destruct (negb _); simpl; auto.
    set (c1 := with_last_emit_tick _ _).
    set (tick := py_int _).
    assert (H : Controller._merged_cooldown (_check_merged c1 tick) = Controller._merged_cooldown c
                /\ (Controller._last_merged_tick (_check_merged c1 tick)
                    = Controller._last_merged_tick c
                    \/ (Controller._merged_cooldown c
                        <= Controller._last_merged_tick (_check_merged c1 tick)
                           - Controller._last_merged_tick c)%Z)).
    { unfold _check_merged; destruct (merged_line _); [|auto].
      destruct (_ <=? _)%Z eqn:E; [|auto].
      apply Z.leb_le in E; simpl in *; auto. }
    destruct (_try_execute_push (_check_merged c1 tick)) as [c'|e] eqn:F; simpl; auto.
    apply try_execute_push_kept in F; destruct F as (_ & F1 & F2 & _).
    rewrite F1, F2; exact H.
  - destruct props; simpl; auto.
  - auto.
  - change (Controller._merged_cooldown (_check_missile_birth c (normalise_heading obj))
            = Controller._merged_cooldown c
            /\ (Controller._last_merged_tick (_check_missile_birth c (normalise_heading obj))
                = Controller._last_merged_tick c
                \/ (Controller._merged_cooldown c
                    <= Controller._last_merged_tick (_check_missile_birth c (normalise_heading obj))
                       - Controller._last_merged_tick c)%Z)).
    unfold _check_missile_birth.
    destruct (PySet.mem _ _); auto.
    destruct (negb (is_missile _)); auto.
    destruct (Coal_eqb _ _); auto.
    destruct (uv_of _); auto.
    cbn [Controller.ws with_known_ids].
    destruct (nearest_scan _ _) as [[best|] r]; auto.
    destruct (Rleb _ _); auto.
    destruct (uv_of best); auto.
Qed.

End Merged.

(** ** What an update stores *)

Section Stored.
Local Open Scope R_scope.
Local Open Scope string_scope.

Lemma upsert_bullseye (ws : WorldState.t) (obj : ACMIObject.t) (now : R) :
  WorldState.bullseye_by_coal (upsert ws obj now)
  = if contains "Navaid+Static+Bullseye" (str_or_empty (ACMIObject.Type_ obj))
       || contains "Navaid+Bullseye" (str_or_empty (ACMIObject.Type_ obj))
    then Dict.set (WorldState.bullseye_by_coal ws)
           (match ACMIObject.Coalition obj with
            | Some c => if nonempty c then c else "Unknown"
            | None => "Unknown"
            end) (ACMIObject.object_id obj)
    else WorldState.bullseye_by_coal ws.
Proof.
  unfold upsert.
  repeat match goal with
         | |- context [if ?b then _ else _] => destruct b
         | |- context [match Dict.get ?d ?k with _ => _ end] => destruct (Dict.get d k)
         end; reflexivity.
Qed.

Lemma upsert_last_seen (ws : WorldState.t) (obj : ACMIObject.t) (now : R) :
  WorldState.last_seen (upsert ws obj now)
  = Dict.set (WorldState.last_seen ws) (ACMIObject.object_id obj) now.
Proof.
  unfold upsert.
  repeat match goal with
         | |- context [if ?b then _ else _] => destruct b
         | |- context [match Dict.get ?d ?k with _ => _ end] => destruct (Dict.get d k)
         end; reflexivity.
Qed.

Lemma upsert_kept (ws : WorldState.t) (obj : ACMIObject.t) (now : R) :
  WorldState.push_plan (upsert ws obj now) = WorldState.push_plan ws
  /\ WorldState.cap_sites (upsert ws obj now) = WorldState.cap_sites ws
  /\ WorldState.ttl (upsert ws obj now) = WorldState.ttl ws
  /\ WorldState.time (upsert ws obj now) = WorldState.time ws.
Proof.
  unfold upsert.
  repeat match goal with
         | |- context [if ?b then _ else _] => destruct b
         | |- context [match Dict.get ?d ?k with _ => _ end] => destruct (Dict.get d k)
         end; repeat split.
Qed.

Lemma step_update_ws (c : Controller.t) (ent : ACMIObject.t) :
  Controller.ws (fst (step c (ACTION_UPDATE ent)))
  = upsert (Controller.ws c) (normalise_heading ent) (WorldState.time (Controller.ws c)).
Proof.
  change (Controller.ws (fst (step c (ACTION_UPDATE ent))))
    with (upsert (Controller.ws (_check_missile_birth c (normalise_heading ent)))
            (normalise_heading ent)
            (WorldState.time (Controller.ws (_check_missile_birth c (normalise_heading ent))))).
  rewrite ws_check_missile_birth; reflexivity.
Qed.

Lemma queries_read_objects (ws ws' : WorldState.t) :
  WorldState.objects ws = WorldState.objects ws' ->
  get_air ws = get_air ws' /\ blues ws = blues ws' /\ reds ws = reds ws' /\ unks ws = unks ws'.
Proof. unfold blues, reds, unks, get_air; intros ->; repeat split. Qed.

End Stored.

(** ** The world after a list of updates *)

Section Feeding.
Local Open Scope R_scope.
Local Open Scope string_scope.

Lemma objects_fold (l : list ACMIObject.t) :
  forall c,
    WorldState.objects
      (Controller.ws (fold_left (fun c o => fst (step c (ACTION_UPDATE o))) l c))
    = fold_left (fun d o => Dict.set d (ACMIObject.object_id o) (normalise_heading o)) l
        (WorldState.objects (Controller.ws c)).
Proof.
  induction l as [|o l IH]; intros c; [reflexivity|].
  cbn [fold_left]; rewrite IH, step_update_ws, upsert_objects, normalise_heading_id.
  reflexivity.
Qed.

Lemma normalise_heading_fields (o : ACMIObject.t) :
  ACMIObject.Type_ (normalise_heading o) = ACMIObject.Type_ o
  /\ ACMIObject.Coalition (normalise_heading o) = ACMIObject.Coalition o.
Proof. unfold normalise_heading; destruct (ACMIObject.T o); split; reflexivity. Qed.

Lemma bullseye_fold (l : list ACMIObject.t) :
  forall c,
    WorldState.bullseye_by_coal
      (Controller.ws (fold_left (fun c o => fst (step c (ACTION_UPDATE o))) l c))
    = fold_left
        (fun d o =>
           if is_bullseye o
           then Dict.set d (match ACMIObject.Coalition o with
                            | Some c => if nonempty c then c else "Unknown"
                            | None => "Unknown"
                            end) (ACMIObject.object_id o)
           else d) l
        (WorldState.bullseye_by_coal (Controller.ws c)).
Proof.
  induction l as [|o l IH]; intros c; [reflexivity|].
  cbn [fold_left]; rewrite IH, step_update_ws, upsert_bullseye, normalise_heading_id.
  destruct (normalise_heading_fields o) as [-> ->]; reflexivity.
Qed.

End Feeding.

Section Ranges.
Local Open Scope R_scope.

Lemma range_nm_same_u (u v1 v2 : R) :
  range_nm (u, v1) (u, v2) = Rabs (v2 - v1) / EARTH_M_PER_NM.
Proof.
  unfold range_nm, brg_rng_from_xy; cbn [fst snd].
  replace (u - u) with 0 by ring; rewrite hypot_axis_l; reflexivity.
Qed.

Lemma range_nm_same_v (u1 u2 v : R) :
  range_nm (u1, v) (u2, v) = Rabs (u2 - u1) / EARTH_M_PER_NM.
Proof.
  unfold range_nm, brg_rng_from_xy; cbn [fst snd].
  replace (v - v) with 0 by ring; rewrite hypot_axis_r; reflexivity.
Qed.

Lemma uv_of_aircraft (oid name coal : string) (u v alt hdg : R) :
  u <> 0 \/ v <> 0 ->
  uv_of (normalise_heading (aircraft oid name coal u v alt hdg)) = Some (u, v).
Proof. intros H; eapply uv_of_uv; try reflexivity; exact H. Qed.

Lemma uv_of_navaid (oid coal : string) (u v : R) :
  u <> 0 \/ v <> 0 ->
  uv_of (normalise_heading (navaid oid coal u v)) = Some (u, v).
Proof. intros H; eapply uv_of_uv; try reflexivity; exact H. Qed.

End Ranges.

Section MergedScenes.
Local Open Scope R_scope.
Local Open Scope string_scope.

Lemma bogey_scene_air :
  blues (Controller.ws bogey_scene) = [normalise_heading blue1]
  /\ reds (Controller.ws bogey_scene) = []
  /\ unks (Controller.ws bogey_scene) = [normalise_heading bogey1].
Proof.
  unfold blues, reds, unks, get_air, bogey_scene, fed; rewrite objects_fold.
  repeat split.
Qed.

(** C3 as stated fails: an unknown contact within 3 NM of a friendly
    raises no MERGED call, on no tick. *)
Lemma merged_ignores_unknown_contacts :
  In (normalise_heading bogey1) (unks (Controller.ws bogey_scene))
  /\ In (normalise_heading blue1) (blues (Controller.ws bogey_scene))
  /\ (exists euv buv,
        uv_of (normalise_heading bogey1) = Some euv
        /\ uv_of (normalise_heading blue1) = Some buv
        /\ range_nm euv buv <= MERGED_NM)
  /\ forall tick, Controller.printed (_check_merged bogey_scene tick) = [].
Proof.
  destruct bogey_scene_air as (Hb & Hr & Hu).
  rewrite Hb, Hu.
  split; [simpl; auto|]; split; [simpl; auto|]; split.
  - exists (1000, 2000), (1000, 1000).
    split; [apply uv_of_aircraft; lra|].
    split; [apply uv_of_aircraft; lra|].
    rewrite range_nm_same_u, Rabs_of_neg by lra.
    unfold EARTH_M_PER_NM, MERGED_NM; lra.
  - intros tick; rewrite check_merged_quiet; [reflexivity|].
    unfold merged_line; rewrite Hb, Hr; reflexivity.
Qed.

Lemma merge_scene_air :
  blues (Controller.ws merge_scene) = [normalise_heading blue1]
  /\ reds (Controller.ws merge_scene) = [normalise_heading red1].
Proof.
  unfold blues, reds, unks, get_air, merge_scene, fed; rewrite objects_fold.
  repeat split.
Qed.

Lemma threat_alt_7000 : threat_alt_phrase (Some 7000) = "FL230".
Proof.
  unfold threat_alt_phrase, M_TO_FT.
  replace (Rleb 18000 (7000 * 3.280839895)) with true by (symmetry; apply Rleb_true; lra).
  rewrite (py_round_near _ 230) by lra; reflexivity.
Qed.

Lemma merge_scene_line : merged_line (Controller.ws merge_scene) = Some "MERGED, FL230.".
Proof.
  destruct merge_scene_air as (Hb & Hr).
  unfold merged_line; rewrite Hb, Hr; cbn [first_some].
  assert (E : merged_for [normalise_heading blue1] (normalise_heading red1)
              = Some "MERGED, FL230.").
  { apply merged_for_spec; split.
    - exists (1000, 2000), (normalise_heading blue1), (1000, 1000).
      split; [apply uv_of_aircraft; lra|].
      split; [simpl; auto|].
      split; [apply uv_of_aircraft; lra|].
      rewrite range_nm_same_u, Rabs_of_neg by lra.
      unfold EARTH_M_PER_NM, MERGED_NM; lra.
    - change (T_attr Transform.Altitude (normalise_heading red1)) with (Some 7000).
      rewrite threat_alt_7000; reflexivity. }
  rewrite E; reflexivity.
Qed.

End MergedScenes.

(** ** The push plan *)

Section PushPlanFacts.
Local Open Scope R_scope.
Local Open Scope string_scope.

Lemma cull_stale_plan (ws : WorldState.t) (now : R) :
  WorldState.push_plan (cull_stale ws now) = WorldState.push_plan ws.
Proof.
  unfold cull_stale; generalize (WorldState.last_seen ws) as snapshot.
  intros snapshot; revert ws; induction snapshot as [|kv snapshot IH]; simpl; intros ws; auto.
  rewrite IH; destruct (Rltb _ _); reflexivity.
Qed.

Lemma push_line_ok (p : PushPlan.t) (brg rng : Z) (label : string) :
  PushPlan.brg p = Some brg -> PushPlan.rng p = Some rng ->
  push_line p label
  = Ok (label ++ ", PUSH, BULLS " ++ fmt_03d brg ++ " for " ++ str_of_Z rng ++ ".").
Proof. intros Hb Hr; unfold push_line; rewrite Hb, Hr; reflexivity. Qed.

Lemma push_fold_ok (p : PushPlan.t) (brg rng : Z) (recips : list string) :
  PushPlan.brg p = Some brg -> PushPlan.rng p = Some rng ->
  forall c, exists c',
    fold_left
      (fun rc oid =>
         bind rc (fun c =>
           match Dict.get (WorldState.objects (Controller.ws c)) oid with
           | None => Ok c
           | Some o => bind (push_line p (friendly_label o)) (fun l => Ok (log c l))
           end))
      recips (Ok c) = Ok c'.
Proof.
  intros Hb Hr; induction recips as [|oid recips IH]; simpl; intros c; [eauto|].
  destruct (Dict.get _ oid); [|apply IH].
  rewrite (push_line_ok p brg rng _ Hb Hr); cbn [bind]; apply IH.
Qed.

Lemma try_execute_push_ok (c : Controller.t) :
  plan_ok c -> exists c', _try_execute_push c = Ok c'.
Proof.
  intros H; unfold _try_execute_push; fold (plan_of c).
  destruct (PushPlan.active (plan_of c)) eqn:E; simpl; [|eauto].
  destruct (Rltb _ _); [eauto|].
  destruct (push_recipients _) as [|r recips]; simpl; [eauto|].
  destruct (H E) as (brg & rng & t & Hb & Hr & _).
  destruct (push_fold_ok (plan_of c) brg rng recips Hb Hr
              (match Dict.get (WorldState.objects (Controller.ws c)) r with
               | Some o => log c (friendly_label o ++ ", PUSH, BULLS " ++ fmt_03d brg
                                    ++ " for " ++ str_of_Z rng ++ ".")
               | None => c
               end)) as [c' Hc'].
  cbn [fold_left bind]; destruct (Dict.get _ r).
  - rewrite (push_line_ok (plan_of c) brg rng _ Hb Hr); cbn [bind].
    rewrite Hc'; cbn [bind]; eauto.
  - rewrite Hc'; cbn [bind]; eauto.
Qed.

Lemma push_status_ok (c : Controller.t) :
  plan_ok c -> exists line, _push_status_line c = Ok line.
Proof.
  intros H; unfold _push_status_line; fold (plan_of c).
  destruct (PushPlan.active (plan_of c)) eqn:E; simpl; [|eauto].
  destruct (H E) as (brg & rng & t & -> & -> & ->); eauto.
Qed.

(** A plan that is not active stays so: nothing in the loop arms a plan. *)
Lemma inactive_step (c : Controller.t) (ent : Event) :
  PushPlan.active (plan_of c) = false -> PushPlan.active (plan_of (fst (step c ent))) = false.
Proof.
  unfold plan_of; intros H; destruct ent as [ts|props|k|obj].
  - cbn [step].
    set (ws2 := cull_stale _ _).
    assert (H2 : PushPlan.active (WorldState.push_plan ws2) = false).
    { unfold ws2; rewrite cull_stale_plan; exact H. }
    destruct (negb _); [|exact H2].
    set (c1 := _check_merged _ _).
    assert (H1 : PushPlan.active (WorldState.push_plan (Controller.ws c1)) = false).
    { unfold c1; rewrite ws_check_merged; exact H2. }
    assert (E : _try_execute_push c1 = Ok c1).
    { unfold _try_execute_push; rewrite H1; reflexivity. }
    rewrite E; exact H1.
  - cbn [step]; destruct props; exact H.
  - exact H.
  - rewrite step_update_ws; destruct (upsert_kept (Controller.ws c) (normalise_heading obj)
                                        (WorldState.time (Controller.ws c))) as [-> _].
    exact H.
Qed.

Lemma cap_status_plan (c : Controller.t) (name : option string) :
  plan_of (fst (_cap_status_line c name)) = plan_of c.
Proof.
  unfold _cap_status_line.
  destruct (WorldState.cap_sites (Controller.ws c)) as [|p t]; [reflexivity|].
  set (sites := p :: t).
  destruct name as [nm|]; [destruct (nonempty nm)|]; try reflexivity.
  destruct (Dict.get sites nm); [|reflexivity].
  destruct (cap_one _ _); reflexivity.
Qed.

Lemma inactive_handle_text (c : Controller.t) (text : string) :
  PushPlan.active (plan_of c) = false ->
  PushPlan.active (plan_of (fst (handle_text c text))) = false.
Proof.
  intros H; unfold handle_text; cbv zeta.
  destruct (parse_command text);
    repeat match goal with
           | |- context [fst (let (_, _) := _cap_status_line ?c ?cs in _)] =>
               let E := fresh "E" in
               pose proof (cap_status_plan c cs) as E;
               destruct (_cap_status_line c cs); simpl in E |- *; rewrite E; exact H
           | |- context [negb (PushPlan.active (WorldState.push_plan (Controller.ws c)))] =>
               unfold plan_of in H; rewrite H; exact H
           | |- PushPlan.active (plan_of (fst (match ?x with _ => _ end))) = false => destruct x
           end;
    try exact H; try reflexivity.
Qed.

Lemma inactive_reaches (c c' : Controller.t) :
  reaches c c' -> PushPlan.active (plan_of c) = false -> PushPlan.active (plan_of c') = false.
Proof.
  induction 1 as [c|c c' ent _ IH|c c' text _ IH]; auto; intros H; apply IH.
  - apply inactive_step; exact H.
  - apply inactive_handle_text; exact H.
Qed.

Lemma parse_push_set_30s :
  parse_command "push set bulls 090 for 20 in 30s" = Cmd.push_set (90%Z, 20%Z) "in 30s".
Proof. vm_compute; reflexivity. Qed.

Lemma parse_time_offset_30s : _parse_time_offset "in 30s" = Some 30.
Proof. vm_compute; reflexivity. Qed.

End PushPlanFacts.

Section PushSet.
Local Open Scope R_scope.
Local Open Scope string_scope.

Lemma push_set_raises (c : Controller.t) (text : string) (cs : Z * Z) (target : string)
    (b : R * R) :
  parse_command text = Cmd.push_set cs target ->
  buv_of c = Some b ->
  exists e, handle_text c text = (c, Raise e).
Proof.
  intros Hp Hb; unfold handle_text; cbv zeta; unfold buv_of in Hb; rewrite Hp, Hb.
  destruct (String.length target) as [|[|[|n]]]; eauto.
Qed.

(** C2, what the code does instead: with a bullseye that resolves, the
    command that should arm a plan with "in 30s" raises: the handler unpacks
    the time phrase where the parser put the bearing and range.  No plan is
    armed, and none is active in any state reached afterwards, so nothing is
    executed at T+30. *)
Theorem push_set_never_arms :
  forall (c : Controller.t) (b : R * R),
    buv_of c = Some b ->
    handle_text c "push set bulls 090 for 20 in 30s"
    = (c, Raise (ValueError "too many values to unpack (expected 2)"))
    /\ (forall text cs target,
          parse_command text = Cmd.push_set cs target ->
          exists e, handle_text c text = (c, Raise e))
    /\ (PushPlan.active (plan_of c) = false ->
        forall c', reaches c c' -> PushPlan.active (plan_of c') = false).
Proof.
  intros c b Hb; split; [|split].
  - unfold handle_text; cbv zeta; unfold buv_of in Hb.
    rewrite parse_push_set_30s, Hb; reflexivity.
  - intros text cs target Hp; exact (push_set_raises c text cs target b Hp Hb).
  - intros H c' Hr; exact (inactive_reaches c c' Hr H).
Qed.

Lemma bull_scene_bull : find_bull (Controller.ws bull_scene) = Some (normalise_heading bull1).
Proof.
  unfold find_bull, bull_scene, fed; rewrite bullseye_fold, objects_fold; reflexivity.
Qed.

Lemma bull_scene_buv : buv_of bull_scene = Some (1852, 1852).
Proof. unfold buv_of; rewrite bull_scene_bull; apply uv_of_navaid; lra. Qed.

Lemma push_set_never_arms_witness :
  buv_of bull_scene = Some (1852, 1852)
  /\ handle_text bull_scene "push set bulls 090 for 20 in 30s"
     = (bull_scene, Raise (ValueError "too many values to unpack (expected 2)")).
Proof.
  split; [exact bull_scene_buv|].
  exact (proj1 (push_set_never_arms bull_scene (1852, 1852) bull_scene_buv)).
Defined.

End PushSet.

Section RepliesWithoutBullseye.
Local Open Scope R_scope.
Local Open Scope string_scope.

Lemma red_scene_air :
  blues (Controller.ws red_scene) = [] /\ reds (Controller.ws red_scene) = [normalise_heading red1]
  /\ unks (Controller.ws red_scene) = [].
Proof.
  unfold blues, reds, unks, get_air, red_scene, fed; rewrite objects_fold; repeat split.
Qed.

Lemma red_scene_no_bull : find_bull (Controller.ws red_scene) = None.
Proof.
  destruct red_scene_air as (Hb & _).
  unfold find_bull; rewrite Hb.
  unfold red_scene, fed; rewrite bullseye_fold; reflexivity.
Qed.

(** C7 as stated fails: without a bullseye, "picture" is answered, but not
    by an "UNABLE: ..." text. *)
Lemma picture_without_bullseye_is_not_unable :
  buv_of red_scene = None
  /\ handle_text red_scene "picture" = (red_scene, Ok "PICTURE: no bullseye available yet.")
  /\ contains "UNABLE" "PICTURE: no bullseye available yet." = false.
Proof.
  destruct red_scene_air as (Hb & Hr & Hu).
  split; [unfold buv_of; rewrite red_scene_no_bull; reflexivity|].
  split; [|reflexivity].
  unfold handle_text; cbv zeta; rewrite parse_picture, red_scene_no_bull, Hr, Hu; reflexivity.
Qed.

Lemma plan_ok_exec (c : Controller.t) (t : R) :
  plan_ok c ->
  plan_ok (with_ws c (with_push_plan (Controller.ws c)
                        (with_exec_time (WorldState.push_plan (Controller.ws c)) (Some t)))).
Proof.
  unfold plan_ok, plan_of; simpl; intros H Ha.
  destruct (H Ha) as (brg & rng & t0 & Hb & Hr & _).
  exists brg, rng, t; auto.
Qed.

Lemma handle_text_replies (c : Controller.t) (text : string) :
  plan_ok c ->
  (forall cs target, parse_command text = Cmd.push_set cs target -> buv_of c = None) ->
  exists reply, snd (handle_text c text) = Ok reply.
Proof.
  intros Hok Hps; unfold handle_text; cbv zeta.
  destruct (parse_command text) eqn:P;
    try (pose proof (Hps _ _ eq_refl) as Hn; unfold buv_of in Hn; rewrite Hn);
    repeat match goal with
           | |- exists reply, snd (let (_, _) := _cap_status_line ?c ?cs in _) = _ =>
               destruct (_cap_status_line c cs)
           | |- exists reply, snd (c, _push_status_line c) = _ =>
               destruct (push_status_ok c Hok) as [line ->]
           | |- exists reply, snd (match _try_execute_push ?x with _ => _ end) = _ =>
               let c' := fresh "c'" in
               let E := fresh "E" in
               destruct (try_execute_push_ok x (plan_ok_exec c _ Hok)) as [c' E]; rewrite E
           | |- exists reply, snd (match ?x with _ => _ end) = _ => destruct x
           end;
    cbn [snd]; eauto.
Qed.

End RepliesWithoutBullseye.

Section Replies.
Local Open Scope R_scope.
Local Open Scope string_scope.

(** C7, as the code has it: missing data never makes the handler fail, it
    always answers with a text (a push-set command with a bullseye that
    resolves aside).  Without a bullseye the answer is the "no bullseye
    available" sentence of picture (with a non-friendly contact in the air;
    "PICTURE: CLEAN." with none; either after the call sign, if the command
    gives one), declare and alpha check, and an "UNABLE" text for CAP and
    PUSH; without a friendly reference bogey dope,
    declare, snap and vector answer "<callsign>, UNABLE: ..."; a named
    entity that is not found gives "UNABLE: target not found." or "CAP:
    UNABLE — fighter not found.". *)
Theorem missing_data_gets_a_reply :
  forall (c : Controller.t) (text : string),
    plan_ok c ->
    ((forall cs target, parse_command text = Cmd.push_set cs target -> buv_of c = None) ->
     exists reply, snd (handle_text c text) = Ok reply)
    /\ (buv_of c = None ->
        (forall cs, parse_command text = Cmd.picture cs ->
           (reds (Controller.ws c) ++ unks (Controller.ws c))%list <> [] ->
           snd (handle_text c text)
           = Ok (if truthy cs
                 then str_or_empty cs ++ ", " ++ "PICTURE: no bullseye available yet."
                 else "PICTURE: no bullseye available yet."))
        /\ (forall cs, parse_command text = Cmd.picture cs ->
              (reds (Controller.ws c) ++ unks (Controller.ws c))%list = [] ->
              snd (handle_text c text)
              = Ok (if truthy cs
                    then str_or_empty cs ++ ", " ++ "PICTURE: CLEAN."
                    else "PICTURE: CLEAN."))
        /\ (forall cs target, parse_command text = Cmd.declare_bulls cs target ->
              snd (handle_text c text) = Ok "DECLARE: no bullseye available.")
        /\ (forall cs target, parse_command text = Cmd.alpha cs target ->
              snd (handle_text c text) = Ok "ALPHA CHECK: no bullseye available.")
        /\ (forall cs brg rng radius alt,
              parse_command text = Cmd.cap_add_bulls cs brg rng radius alt ->
              snd (handle_text c text) = Ok "CAP: UNABLE — no bullseye.")
        /\ (forall cs target, parse_command text = Cmd.push_set cs target ->
              snd (handle_text c text) = Ok "PUSH: UNABLE — no bullseye."))
    /\ (forall cs, friendly_ref (blues (Controller.ws c)) cs = None ->
        (parse_command text = Cmd.bogeydope cs ->
         snd (handle_text c text)
         = Ok (cs_or cs "Fighter" ++ ", UNABLE: no friendly reference available."))
        /\ (parse_command text = Cmd.declare cs ->
            snd (handle_text c text)
            = Ok (cs_or cs "Fighter" ++ ", UNABLE: declare (no friendly reference)."))
        /\ (parse_command text = Cmd.snap cs ->
            snd (handle_text c text)
            = Ok (cs_or cs "Fighter" ++ ", UNABLE: snap (no friendly reference)."))
        /\ (forall target, parse_command text = Cmd.vector cs target ->
            snd (handle_text c text)
            = Ok (cs_or cs "Fighter" ++ ", UNABLE: vector (no friendly reference).")))
    /\ (forall cs target fr,
          parse_command text = Cmd.vector cs target ->
          friendly_ref (blues (Controller.ws c)) cs = Some fr ->
          contains "home" (lower (strip target)) = false ->
          contains "tanker" (lower (strip target)) = false ->
          find_callsign (blues (Controller.ws c)) (Some target) = None ->
          snd (handle_text c text) = Ok "UNABLE: target not found.")
    /\ (forall cs target,
          parse_command text = Cmd.cap_assign cs target ->
          find_callsign (blues (Controller.ws c)) (Some cs) = None ->
          snd (handle_text c text) = Ok "CAP: UNABLE — fighter not found.")
    /\ (forall cs fighter radius alt,
          parse_command text = Cmd.cap_add_at_fighter cs fighter radius alt ->
          find_callsign (blues (Controller.ws c)) (Some fighter) = None ->
          snd (handle_text c text) = Ok "CAP: UNABLE — fighter not found.").
Proof.
  intros c text Hok.
  split; [apply handle_text_replies; exact Hok|].
  split.
  { unfold buv_of; intros Hn; repeat split; intros; unfold handle_text; cbv zeta;
      match goal with H : parse_command text = _ |- _ => rewrite H end; rewrite Hn;
      try reflexivity.
    - destruct (reds (Controller.ws c) ++ unks (Controller.ws c))%list; [congruence|].
      destruct (truthy cs); reflexivity.
    - match goal with H : (_ ++ _)%list = [] |- _ => rewrite H end.
      destruct (truthy cs); reflexivity. }
  split.
  { intros cs Hfr; repeat split; intros; unfold handle_text; cbv zeta;
      match goal with H : parse_command text = _ |- _ => rewrite H end; rewrite Hfr;
      reflexivity. }
  split.
  { intros cs target fr Hp Hfr Hh Ht Hf; unfold handle_text; cbv zeta.
    rewrite Hp, Hfr, Hh, Ht, Hf; reflexivity. }
  split.
  { intros cs target Hp Hf; unfold handle_text; cbv zeta; rewrite Hp, Hf; reflexivity. }
  intros cs fighter radius alt Hp Hf; unfold handle_text; cbv zeta; rewrite Hp, Hf; reflexivity.
Qed.

Lemma reaches_fed (l : list ACMIObject.t) : reaches Controller_init (fed l).
Proof.
  unfold fed; generalize Controller_init as c; induction l as [|o l IH]; intros c.
  - apply reaches_here.
  - cbn [fold_left]; eapply reaches_line; apply IH.
Qed.

Lemma plan_ok_fed (l : list ACMIObject.t) : plan_ok (fed l).
Proof.
  intros Ha; rewrite (inactive_reaches _ _ (reaches_fed l)) in Ha; [discriminate|reflexivity].
Qed.

Lemma parse_bogey_dope : parse_command "bogey dope" = Cmd.bogeydope None.
Proof. vm_compute; reflexivity. Qed.

Lemma missing_data_witness :
  plan_ok red_scene
  /\ snd (handle_text red_scene "bogey dope")
     = Ok "Fighter, UNABLE: no friendly reference available.".
Proof.
  split; [apply plan_ok_fed|].
  destruct (missing_data_gets_a_reply red_scene "bogey dope" (plan_ok_fed [red1]))
    as (_ & _ & H & _).
  destruct (H None) as (H1 & _).
  - destruct red_scene_air as (Hb & _); rewrite Hb; reflexivity.
  - exact (H1 parse_bogey_dope).
Defined.

End Replies.

(** ** Bearings on the axes *)

Section Bearings.
Local Open Scope R_scope.

Lemma atan2_east (dx : R) : 0 < dx -> atan2 dx 0 = PI / 2.
Proof.
  intros H; unfold atan2.
  destruct (Rlt_dec 0 0); [lra|].
  destruct (Rlt_dec 0 dx); [reflexivity|lra].
Qed.

Lemma degrees_half_pi : degrees (PI / 2) = 90.
Proof. unfold degrees; field; apply PI_neq0. Qed.

Lemma bearing_deg_east (dx : R) : 0 < dx -> bearing_deg dx 0 = 90.
Proof.
  intros H; unfold bearing_deg; rewrite (atan2_east dx H), degrees_half_pi.
  rewrite (py_fmod_in_range _ _ 1) by lra; lra.
Qed.

Lemma brg_rng_east (bu bv d : R) :
  0 < d -> brg_rng_from_xy bu bv (bu + d) bv = (90%Z, d / EARTH_M_PER_NM).
Proof.
  intros H; unfold brg_rng_from_xy.
  replace (bu + d - bu) with d by ring; replace (bv - bv) with 0 by ring.
  rewrite (bearing_deg_east d H), hypot_axis_r, (Rabs_of_pos d) by lra.
  rewrite (py_round_IZR 90); reflexivity.
Qed.

Lemma norm_head_in_range (h : R) : 0 <= h < 360 -> norm_head (Some h) = Some h.
Proof.
  intros H; unfold norm_head; f_equal.
  rewrite (py_fmod_in_range h 360 0) by lra.
  rewrite (py_fmod_in_range _ 360 1) by lra; lra.
Qed.

Lemma aspect_270_090 : aspect_word (Some 270) (Some 90) = "COLD"%string.
Proof.
  unfold aspect_word, BEAM_MIN, BEAM_MAX, HOT_MAX, COLD_MIN.
  replace (270 - 90 + 540) with 720 by lra.
  rewrite (py_fmod_in_range 720 360 2) by lra.
  replace (720 - 360 * 2 - 180) with (-180) by lra.
  rewrite (Rabs_of_neg (-180)) by lra.
  replace (- -180) with 180 by lra.
  rcompare; reflexivity.
Qed.

End Bearings.

Section Picture.
Local Open Scope R_scope.
Local Open Scope string_scope.

Lemma origin_scene_air :
  reds (Controller.ws origin_scene) = [normalise_heading inbound]
  /\ unks (Controller.ws origin_scene) = [].
Proof.
  unfold reds, unks, get_air, origin_scene, fed; rewrite objects_fold; repeat split.
Qed.

Lemma origin_scene_bull :
  find_bull (Controller.ws origin_scene) = Some (normalise_heading origin_bull).
Proof.
  unfold find_bull, origin_scene, fed; rewrite bullseye_fold, objects_fold; reflexivity.
Qed.

(** C1 as stated fails: with the bullseye at (0,0) the bullseye has no
    planar position for the code, and "picture" answers that no bullseye is
    available, although the contact is at bearing 090 for 20 NM of it. *)
Lemma picture_with_bullseye_at_origin :
  find_bull (Controller.ws origin_scene) = Some (normalise_heading origin_bull)
  /\ (reds (Controller.ws origin_scene) ++ unks (Controller.ws origin_scene))%list
     = [normalise_heading inbound]
  /\ uv_of (normalise_heading inbound) = Some (37040, 0)
  /\ brg_rng_from_xy 0 0 37040 0 = (90%Z, 20)
  /\ handle_text origin_scene "picture"
     = (origin_scene, Ok "PICTURE: no bullseye available yet.")
  /\ contains "Nearest group" "PICTURE: no bullseye available yet." = false.
Proof.
  destruct origin_scene_air as (Hr & Hu).
  split; [exact origin_scene_bull|].
  split; [rewrite Hr, Hu; reflexivity|].
  split; [apply uv_of_aircraft; lra|].
  split.
  { replace 37040 with (0 + 37040) at 1 by lra.
    rewrite brg_rng_east by lra; unfold EARTH_M_PER_NM; f_equal; lra. }
  split; [|reflexivity].
  apply (picture_without_bullseye origin_scene (normalise_heading origin_bull)).
  - exact origin_scene_bull.
  - apply (uv_of_origin _ (Transform.mk (Some 0) (Some 0) None None None None));
      [reflexivity|right; reflexivity|right; reflexivity].
  - rewrite Hr, Hu; discriminate.
Qed.

Lemma clusters_single (rng_nm alt_ft : R) (it : Item.t) :
  map (members [it]) (clusters rng_nm alt_ft [it]) = [[it]].
Proof. reflexivity. Qed.

Lemma py_sum_single (x : R) : py_sum [x] / INR 1 = x.
Proof. unfold py_sum; simpl; field. Qed.

Lemma summarize_inbound (o : ACMIObject.t) (bu bv : R) (wf : bool) :
  coalition_of o = Red ->
  T_attr Transform.Heading o = Some 270 ->
  summarize_group (bu, bv) wf [Item.mk o (bu + 37040) bv (Some (7620 * M_TO_FT))]
  = Summary.mk 1 90 20 (Some 25%Z) (Some 25%Z) "COLD" (if wf then Hostile else Bandit)
      (bu + 37040, bv).
Proof.
  intros Hc Hh; unfold summarize_group.
  cbn [List.length map Item.u Item.v Item.alt_ft Item.o fst snd filter_some flat_map app
       fold_left].
  rewrite !py_sum_single, brg_rng_east by lra.
  rewrite Hc, Hh, (norm_head_in_range 270) by lra.
  cbn [filter_some flat_map map app List.length].
  rewrite py_sum_single, aspect_270_090.
  unfold py_min, py_max; cbn [fold_left]; unfold M_TO_FT.
  rewrite (py_round_near _ 25) by lra.
  replace (37040 / EARTH_M_PER_NM) with 20 by (unfold EARTH_M_PER_NM; lra).
  destruct wf; reflexivity.
Qed.

Lemma picture_of_inbound (wf : bool) (cuv : R * R) :
  format_picture
    (sort_by_rng [Summary.mk 1 90 20 (Some 25%Z) (Some 25%Z) "COLD"
                    (if wf then Hostile else Bandit) cuv])
  = "PICTURE: single group. Nearest group BULLS 090 for 20, single, "
      ++ (if wf then "hostile" else "bandit") ++ ", angels 25, COLD.".
Proof.
  unfold sort_by_rng; cbn [fold_left insert_by_rng].
  unfold format_picture.
  assert (E : filter (fun s => match Summary.id s with
                               | Bogey | Bandit | Hostile => true
                               | Friendly => false
                               end)
                [Summary.mk 1 90 20 (Some 25%Z) (Some 25%Z) "COLD"
                   (if wf then Hostile else Bandit) cuv]
              = [Summary.mk 1 90 20 (Some 25%Z) (Some 25%Z) "COLD"
                   (if wf then Hostile else Bandit) cuv]).
  { destruct wf; reflexivity. }
  rewrite E; cbn [List.length labels zip_with].
  unfold picture_part; cbn [Summary.size Summary.brg Summary.rng_nm Summary.lo_ang
                            Summary.hi_ang Summary.aspect Summary.id].
  rewrite (py_round_IZR 20).
  destruct wf; vm_compute; reflexivity.
Qed.

(** C1, as the code has it: with a bullseye whose planar position is not
    (0,0) and, as the only non-friendly air contact, a Red contact 20 NM
    due east of it, itself not at the planar origin (where it would have
    no position either), at 25,000 ft heading 270, "picture" answers with one
    group, "Nearest group BULLS 090 for 20, single, <identity>, angels 25,
    <aspect>."; the identity word is "hostile" under weapons-free and
    "bandit" otherwise. *)
Theorem picture_single_group_east :
  forall (c : Controller.t) (bull contact : ACMIObject.t) (trb trc : Transform.t) (bu bv : R),
    find_bull (Controller.ws c) = Some bull ->
    ACMIObject.T bull = Some trb ->
    Transform.U trb = Some bu -> Transform.V trb = Some bv ->
    bu <> 0 \/ bv <> 0 ->
    (reds (Controller.ws c) ++ unks (Controller.ws c))%list = [contact] ->
    coalition_of contact = Red ->
    ACMIObject.T contact = Some trc ->
    Transform.U trc = Some (bu + 37040) -> Transform.V trc = Some bv ->
    bu + 37040 <> 0 \/ bv <> 0 ->
    Transform.Altitude trc = Some 7620 ->
    Transform.Heading trc = Some 270 ->
    exists aspect,
      handle_text c "picture"
      = (c, Ok ("PICTURE: single group. Nearest group BULLS 090 for 20, single, "
                  ++ (if Controller.weapons_free c then "hostile" else "bandit")
                  ++ ", angels 25, " ++ aspect ++ ".")).
Proof.
  intros c bull contact trb trc bu bv Hb HTb HUb HVb Hnzb Hi Hc HTc HUc HVc Hnzc Ha Hh.
  exists "COLD".
  unfold handle_text; cbv zeta.
  rewrite parse_picture, Hb, (uv_of_uv bull trb bu bv HTb HUb HVb Hnzb), Hi.
  cbn [truthy].
  unfold group_contacts, items_of.
  rewrite (item_of_uv contact trc (bu + 37040) bv HTc HUc HVc Hnzc), Ha.
  rewrite clusters_single.
  unfold summarize_groups; cbn [map].
  rewrite summarize_inbound; [|exact Hc|unfold T_attr; rewrite HTc; exact Hh].
  rewrite picture_of_inbound; reflexivity.
Qed.

Lemma picture_scene_air :
  reds (Controller.ws picture_scene) = [normalise_heading inbound1]
  /\ unks (Controller.ws picture_scene) = [].
Proof.
  unfold reds, unks, get_air, picture_scene, fed; rewrite objects_fold; repeat split.
Qed.

Lemma picture_scene_bull :
  find_bull (Controller.ws picture_scene) = Some (normalise_heading bull1).
Proof.
  unfold find_bull, picture_scene, fed; rewrite bullseye_fold, objects_fold; reflexivity.
Qed.

Lemma picture_single_group_witness :
  exists aspect,
    handle_text picture_scene "picture"
    = (picture_scene,
       Ok ("PICTURE: single group. Nearest group BULLS 090 for 20, single, bandit, angels 25, "
             ++ aspect ++ ".")).
Proof.
  destruct picture_scene_air as (Hr & Hu).
  apply (picture_single_group_east picture_scene (normalise_heading bull1)
           (normalise_heading inbound1)
           (Transform.mk (Some 1852) (Some 1852) None None None (norm_head None))
           (Transform.mk (Some (1852 + 37040)) (Some 1852) None None (Some 7620)
              (norm_head (Some 270)))
           1852 1852).
  - exact picture_scene_bull.
  - reflexivity.
  - reflexivity.
  - reflexivity.
  - left; lra.
  - rewrite Hr, Hu; reflexivity.
  - reflexivity.
  - reflexivity.
  - reflexivity.
  - reflexivity.
  - left; lra.
  - reflexivity.
  - apply norm_head_in_range; lra.
Defined.

End Picture.

(** ** Bearing and range, and back *)

Section RoundTrip.
Local Open Scope R_scope.

Lemma hypot_nonneg (x y : R) : 0 <= hypot x y.
Proof. unfold hypot; apply sqrt_pos. Qed.

Lemma hypot_scale (s x y : R) : 0 <= s -> hypot (x * s) (y * s) = hypot x y * s.
Proof.
  intros Hs; unfold hypot.
  replace (x * s * (x * s) + y * s * (y * s)) with ((x * x + y * y) * (s * s)) by ring.
  rewrite sqrt_mult by nra.
  rewrite sqrt_square by assumption; reflexivity.
Qed.

Lemma hypot_sin_cos (a : R) : hypot (sin a) (cos a) = 1.
Proof.
  unfold hypot; replace (sin a * sin a + cos a * cos a) with 1.
  - apply sqrt_1.
  - pose proof (sin2_cos2 a) as H; unfold Rsqr in H; lra.
Qed.

Lemma sin_period_Z (x : R) (k : Z) : sin (x + 2 * IZR k * PI) = sin x.
Proof.
  destruct (Z_le_gt_dec 0 k) as [Hk|Hk].
  - rewrite <- (Z2Nat.id k Hk), <- INR_IZR_INZ; apply sin_period.
  - rewrite <- (sin_period (x + 2 * IZR k * PI) (Z.to_nat (- k))).
    rewrite INR_IZR_INZ, Z2Nat.id by lia.
    rewrite opp_IZR; f_equal; ring.
Qed.

Lemma cos_period_Z (x : R) (k : Z) : cos (x + 2 * IZR k * PI) = cos x.
Proof.
  destruct (Z_le_gt_dec 0 k) as [Hk|Hk].
  - rewrite <- (Z2Nat.id k Hk), <- INR_IZR_INZ; apply cos_period.
  - rewrite <- (cos_period (x + 2 * IZR k * PI) (Z.to_nat (- k))).
    rewrite INR_IZR_INZ, Z2Nat.id by lia.
    rewrite opp_IZR; f_equal; ring.
Qed.

Lemma sqrt_1_sqr_pos (x : R) : 0 < sqrt (1 + x²).
Proof. apply sqrt_lt_R0; unfold Rsqr; nra. Qed.

Lemma hypot_atan_form (dx dy : R) :
  dy <> 0 -> hypot dx dy = Rabs dy * sqrt (1 + (dx / dy)²).
Proof.
  intros Hy; unfold hypot.
  replace (dx * dx + dy * dy) with (Rsqr dy * (1 + (dx / dy)²)) by (unfold Rsqr; field; exact Hy).
  rewrite sqrt_mult; [|apply Rle_0_sqr|unfold Rsqr; nra].
  rewrite sqrt_Rsqr_abs; reflexivity.
Qed.

(** The direction that [atan2] gives points at the target. *)
Lemma atan2_direction (dx dy : R) :
  sin (atan2 dx dy) * hypot dx dy = dx /\ cos (atan2 dx dy) * hypot dx dy = dy.
Proof.
  unfold atan2.
  destruct (Rlt_dec 0 dy) as [Hpos|Hnpos].
  - rewrite sin_atan, cos_atan, hypot_atan_form, (Rabs_of_pos dy) by lra.
    pose proof (sqrt_1_sqr_pos (dx / dy)); split; field; lra.
  - destruct (Rlt_dec dy 0) as [Hneg|Hnneg].
    + rewrite hypot_atan_form, (Rabs_of_neg dy) by lra.
      pose proof (sqrt_1_sqr_pos (dx / dy)).
      destruct (Rle_dec 0 dx).
      * rewrite neg_sin, neg_cos, sin_atan, cos_atan; split; field; lra.
      * replace (atan (dx / dy) - PI) with (atan (dx / dy) + PI + 2 * IZR (-1) * PI) by ring.
        rewrite sin_period_Z, cos_period_Z, neg_sin, neg_cos, sin_atan, cos_atan.
        split; field; lra.
    + assert (dy = 0) by lra; subst dy; rewrite hypot_axis_r.
      destruct (Rlt_dec 0 dx).
      * rewrite sin_PI2, cos_PI2, (Rabs_of_pos dx) by lra; lra.
      * destruct (Rlt_dec dx 0).
        -- rewrite sin_neg, cos_neg, sin_PI2, cos_PI2, (Rabs_of_neg dx) by lra; lra.
        -- assert (dx = 0) by lra; subst dx; rewrite Rabs_R0; lra.
Qed.

Lemma py_fmod_range (x m : R) : 0 < m -> 0 <= py_fmod x m < m.
Proof.
  intros Hm; unfold py_fmod.
  pose proof (Zfloor_bound (x / m)) as [H1 H2].
  assert (E : x = x / m * m) by (field; lra).
  split; nra.
Qed.

Lemma bearing_deg_range (dx dy : R) : 0 <= bearing_deg dx dy < 360.
Proof.
  unfold bearing_deg.
  pose proof (py_fmod_range (degrees (atan2 dx dy) + 360.0) 360.0) as H; lra.
Qed.

(** The bearing, in radians, is the angle of [atan2] up to whole turns. *)
Lemma radians_bearing (dx dy : R) :
  exists k : Z, radians (bearing_deg dx dy) = atan2 dx dy + 2 * IZR k * PI.
Proof.
  unfold bearing_deg, py_fmod, radians, degrees.
  exists (1 - Zfloor ((atan2 dx dy * (180 / PI) + 360.0) / 360.0))%Z.
  rewrite minus_IZR.
  generalize (IZR (Zfloor ((atan2 dx dy * (180 / PI) + 360.0) / 360.0))) as z.
  generalize (atan2 dx dy) as t; intros t z.
  replace 360.0 with 360 by lra.
  field; apply PI_neq0.
Qed.

Lemma bulls_to_uv_hypot (bu bv b r : R) :
  0 <= r ->
  hypot (fst (bulls_to_uv bu bv b r) - bu) (snd (bulls_to_uv bu bv b r) - bv)
  = r * EARTH_M_PER_NM.
Proof.
  intros Hr; unfold bulls_to_uv; cbn [fst snd].
  replace (bu + sin (radians b) * (r * EARTH_M_PER_NM) - bu)
    with (sin (radians b) * (r * EARTH_M_PER_NM)) by ring.
  replace (bv + cos (radians b) * (r * EARTH_M_PER_NM) - bv)
    with (cos (radians b) * (r * EARTH_M_PER_NM)) by ring.
  rewrite hypot_scale, hypot_sin_cos; [ring|].
  unfold EARTH_M_PER_NM; nra.
Qed.

(** *** A target that does not come back *)

Lemma sin_half_ge (y : R) : 0 <= y <= PI / 2 -> sin (2 * y) / 2 <= sin y.
Proof.
  intros [H0 H1]; rewrite sin_2a.
  pose proof (COS_bound y) as [_ Hc].
  assert (Hs : 0 <= sin y) by (apply sin_ge_0; lra).
  nra.
Qed.

Lemma sin_small : 1 / 128 <= sin (PI / 384).
Proof.
  pose proof PI_RGT_0 as Hpi.
  assert (H6 : sin (PI / 6) = 1 / 2) by apply sin_PI6.
  assert (H12 : 1 / 4 <= sin (PI / 12)).
  { pose proof (sin_half_ge (PI / 12)) as H; replace (2 * (PI / 12)) with (PI / 6) in H by field.
    rewrite H6 in H; lra. }
  assert (H24 : 1 / 8 <= sin (PI / 24)).
  { pose proof (sin_half_ge (PI / 24)) as H; replace (2 * (PI / 24)) with (PI / 12) in H by field.
    lra. }
  assert (H48 : 1 / 16 <= sin (PI / 48)).
  { pose proof (sin_half_ge (PI / 48)) as H; replace (2 * (PI / 48)) with (PI / 24) in H by field.
    lra. }
  assert (H96 : 1 / 32 <= sin (PI / 96)).
  { pose proof (sin_half_ge (PI / 96)) as H; replace (2 * (PI / 96)) with (PI / 48) in H by field.
    lra. }
  assert (H192 : 1 / 64 <= sin (PI / 192)).
  { pose proof (sin_half_ge (PI / 192)) as H; replace (2 * (PI / 192)) with (PI / 96) in H by field.
    lra. }
  pose proof (sin_half_ge (PI / 384)) as H; replace (2 * (PI / 384)) with (PI / 192) in H by field.
  lra.
Qed.

Lemma tan_small : 1 / 200 < tan (PI / 384).
Proof.
  pose proof PI_RGT_0 as Hpi.
  pose proof sin_small as Hs.
  assert (Hc : 0 < cos (PI / 384)) by (apply cos_gt_0; lra).
  pose proof (COS_bound (PI / 384)) as [_ Hc1].
  unfold tan.
  apply Rlt_le_trans with (sin (PI / 384)); [lra|].
  apply Rmult_le_reg_r with (cos (PI / 384)); [exact Hc|].
  unfold Rdiv; rewrite Rmult_assoc, Rinv_l by lra; nra.
Qed.

Lemma atan_small : 0 < atan (1 / 200) < PI / 384.
Proof.
  pose proof PI_RGT_0 as Hpi; split.
  - rewrite <- atan_0; apply atan_increasing; lra.
  - rewrite <- (atan_tan (PI / 384)) by lra.
    apply atan_increasing, tan_small.
Qed.

Lemma bearing_almost_north : 0 < bearing_deg 1 200 < 1 / 2.
Proof.
  pose proof PI_RGT_0 as Hpi; pose proof atan_small as [Ha0 Ha1].
  assert (Hd : 0 < degrees (atan (1 / 200)) < 1 / 2).
  { unfold degrees; split.
    - apply Rmult_lt_0_compat; [assumption|].
      apply Rdiv_lt_0_compat; lra.
    - apply Rlt_le_trans with (PI / 384 * (180 / PI)).
      + apply Rmult_lt_compat_r; [apply Rdiv_lt_0_compat; lra|assumption].
      + replace (PI / 384 * (180 / PI)) with (180 / 384) by (field; lra); lra. }
  unfold bearing_deg, atan2.
  destruct (Rlt_dec 0 200); [|lra].
  rewrite (py_fmod_in_range _ _ 1) by lra; lra.
Qed.

(** C6 as stated fails: the target 1 m east and 200 m north of the origin
    has a bearing below half a degree, which is given as 000; the point
    rebuilt from (000, range) lies due north, 1 m west of the target. *)
Lemma round_trip_loses_target :
  let brg := fst (brg_rng_from_xy 0 0 1 200) in
  let rng := snd (brg_rng_from_xy 0 0 1 200) in
  brg = 0%Z
  /\ fst (bulls_to_uv 0 0 (IZR brg) rng) = 0
  /\ bulls_to_uv 0 0 (IZR brg) rng <> (1, 200).
Proof.
  cbv zeta.
  assert (Hb : fst (brg_rng_from_xy 0 0 1 200) = 0%Z).
  { unfold brg_rng_from_xy; cbn [fst].
    replace (1 - 0) with 1 by ring; replace (200 - 0) with 200 by ring.
    pose proof bearing_almost_north as [H0 H1].
    rewrite (py_round_near _ 0) by lra; reflexivity. }
  assert (Hu : fst (bulls_to_uv 0 0 (IZR (fst (brg_rng_from_xy 0 0 1 200)))
                      (snd (brg_rng_from_xy 0 0 1 200))) = 0).
  { rewrite Hb; unfold bulls_to_uv, radians; cbn [fst].
    replace (0 * (PI / 180)) with 0 by ring; rewrite sin_0; ring. }
  split; [exact Hb|]; split; [exact Hu|].
  intros E; rewrite E in Hu; cbn [fst] in Hu; lra.
Qed.

End RoundTrip.

Section SceneFacts.
Local Open Scope R_scope.
Local Open Scope string_scope.

(** *** A bandit that is not heard of again *)

Lemma red_scene_last_seen :
  Dict.get (WorldState.last_seen (Controller.ws red_scene)) "102" = Some 0.0
  /\ WorldState.ttl (Controller.ws red_scene) = 10.0.
Proof.
  unfold red_scene, fed; cbn [fold_left]; rewrite step_update_ws.
  split.
  - rewrite upsert_last_seen; reflexivity.
  - destruct (upsert_kept (Controller.ws Controller_init) (normalise_heading red1)
                (WorldState.time (Controller.ws Controller_init))) as (_ & _ & -> & _).
    reflexivity.
Qed.

Lemma stale_entity_evicted_witness :
  Dict.get (WorldState.last_seen (Controller.ws red_scene)) "102" = Some 0.0
  /\ Dict.get (WorldState.objects (cull_stale (Controller.ws red_scene) 11)) "102" = None.
Proof.
  destruct red_scene_last_seen as [Hs Ht]; split; [exact Hs|].
  apply (stale_entity_evicted (Controller.ws red_scene) 11 "102" 0.0 Hs).
  rewrite Ht; lra.
Defined.

(** *** A fighter parked on the ground *)

Lemma parked_scene_home :
  home_of (Controller.ws parked_scene) "201" = Some (Some (5000, 6000)).
Proof.
  unfold parked_scene, fed; cbn [fold_left]; rewrite step_update_ws.
  unfold home_of, upsert.
  cbn [ACMIObject.object_id normalise_heading parked aircraft ACMIObject.T ACMIObject.Type_
       WorldState.tracks WorldState.objects Controller.ws Controller_init WorldState_init
       with_objects with_last_seen with_tracks Dict.get Dict.set str_or_empty].
  change (contains "Navaid+Static+Bullseye" "Air+FixedWing" || contains "Navaid+Bullseye" "Air+FixedWing")
    with false.
  change (contains "Air" "Air+FixedWing") with true.
  cbn iota.
  cbn [WorldState.tracks with_tracks Dict.get Dict.set String.eqb Ascii.eqb Bool.eqb].
  unfold learn_home, T_attr, TrackWrap_init.
  cbn [TrackWrap.home_uv TrackWrap.spd_mps ACMIObject.T Transform.U Transform.V Transform.Altitude
       with_heading].
  assert (E : float_or (Some 0.0) 0.0 = 0) by (rewrite float_or_some; lra).
  rewrite E.
  replace (Rltb (0 * 1.943844492) 60) with true by (symmetry; apply Rltb_true; lra).
  replace (Rltb 100 300.0) with true by (symmetry; apply Rltb_true; lra).
  cbn [andb orb].
  match goal with
  | |- context [if ?b then _ else _] => destruct b
  end; reflexivity.
Qed.

Lemma home_plate_witness :
  home_of (Controller.ws parked_scene) "201" = Some (Some (5000, 6000))
  /\ forall obj now,
       home_of (upsert (Controller.ws parked_scene) obj now) "201" = Some (Some (5000, 6000)).
Proof.
  split; [exact parked_scene_home|].
  exact (proj1 (home_plate_never_overwritten (Controller.ws parked_scene) "201" (5000, 6000)
                  parked_scene_home)).
Defined.

(** *** A missile born 1 NM north of a fighter *)

Lemma atan2_north (dy : R) : 0 < dy -> atan2 0 dy = 0.
Proof.
  intros H; unfold atan2; destruct (Rlt_dec 0 dy); [|lra].
  replace (0 / dy) with 0 by (field; lra); apply atan_0.
Qed.

Lemma bearing_deg_north (dy : R) : 0 < dy -> bearing_deg 0 dy = 0.
Proof.
  intros H; unfold bearing_deg, degrees; rewrite (atan2_north dy H).
  rewrite (py_fmod_in_range _ _ 1) by lra; lra.
Qed.

Lemma blue_scene_blues : blues (Controller.ws blue_scene) = [normalise_heading blue1].
Proof. unfold blues, get_air, blue_scene, fed; rewrite objects_fold; reflexivity. Qed.

Lemma blue_scene_nearest :
  nearest_scan (1000, 2852) (blues (Controller.ws blue_scene))
  = (Some (normalise_heading blue1), range_nm (1000, 2852) (1000, 1000)).
Proof.
  assert (E : uv_of (normalise_heading blue1) = Some (1000, 1000))
    by (apply uv_of_aircraft; lra).
  rewrite blue_scene_blues; unfold nearest_scan; cbn [fold_left].
  rewrite E.
  cbn [fst snd].
  change (snd (brg_rng_from_xy 1000 2852 1000 1000)) with (range_nm (1000, 2852) (1000, 1000)).
  replace (Rltb (range_nm (1000, 2852) (1000, 1000)) 1e18) with true; [reflexivity|].
  symmetry; apply Rltb_true.
  rewrite range_nm_same_u, Rabs_of_neg by lra; unfold EARTH_M_PER_NM; lra.
Qed.

Lemma defend_line_blue1 :
  defend_line (normalise_heading blue1) (1000, 1000) (1000, 2852)
  = "Fighter, DEFEND! Missile inbound, BRAA 000/1.".
Proof.
  unfold defend_line.
  rewrite range_nm_same_u, Rabs_of_pos by lra.
  unfold brg_rng_from_xy; cbn [fst snd].
  replace (1000 - 1000) with 0 by ring.
  rewrite bearing_deg_north by lra.
  rewrite (py_round_IZR 0).
  replace ((2852 - 1000) / EARTH_M_PER_NM) with 1 by (unfold EARTH_M_PER_NM; lra).
  rewrite (py_round_IZR 1); reflexivity.
Qed.

Lemma defend_witness :
  Controller.printed (fst (step blue_scene (ACTION_UPDATE missile1)))
  = ["Fighter, DEFEND! Missile inbound, BRAA 000/1."].
Proof.
  assert (E : uv_of (normalise_heading blue1) = Some (1000, 1000))
    by (apply uv_of_aircraft; lra).
  destruct (defend_once_per_identifier blue_scene missile1) as (H & _).
  destruct (H eq_refl eq_refl) with (muv := (1000, 2852)) (b := normalise_heading blue1)
    (x := (1000, 1000)) as (best & buv & Hin & Hb & _ & Hp).
  - discriminate.
  - eapply uv_of_uv; try reflexivity; left; lra.
  - rewrite blue_scene_blues; left; reflexivity.
  - exact E.
  - rewrite range_nm_same_u, Rabs_of_neg by lra.
    unfold EARTH_M_PER_NM, MISSILE_ALERT_MAX_RANGE_NM; lra.
  - rewrite blue_scene_blues in Hin; destruct Hin as [<-|[]].
    rewrite E in Hb; injection Hb as <-; rewrite Hp, defend_line_blue1; reflexivity.
Defined.

End SceneFacts.

(** ** Angles *)

Section Angles.
Local Open Scope R_scope.
Local Open Scope string_scope.

Lemma py_fmod_period (x m : R) (k : Z) :
  0 < m -> py_fmod (x + m * IZR k) m = py_fmod x m.
Proof.
  intros Hm.
  pose proof (Zfloor_bound (x / m)) as [H1 H2].
  assert (E : x = x / m * m) by (field; lra).
  rewrite (py_fmod_in_range (x + m * IZR k) m (Zfloor (x / m) + k)); auto.
  - unfold py_fmod; rewrite plus_IZR; ring.
  - rewrite plus_IZR; split; nra.
Qed.

Lemma py_fmod_idem (x m : R) : 0 < m -> py_fmod (py_fmod x m) m = py_fmod x m.
Proof.
  intros Hm; pose proof (py_fmod_range x m Hm).
  rewrite (py_fmod_in_range (py_fmod x m) m 0) by lra; lra.
Qed.

Lemma norm_head_value (h : R) : norm_head (Some h) = Some (py_fmod h 360).
Proof.
  unfold norm_head; f_equal.
  replace (py_fmod h 360 + 360) with (py_fmod h 360 + 360 * IZR 1) by (simpl; ring).
  rewrite py_fmod_period by lra; apply py_fmod_idem; lra.
Qed.

(** A heading is brought into [0, 360): whole turns do not matter, and a
    heading that is already there is kept. *)
Theorem norm_head_normalises :
  forall h : R,
    exists x : R,
      norm_head (Some h) = Some x
      /\ 0 <= x < 360
      /\ (exists k : Z, h = x + 360 * IZR k)
      /\ norm_head (Some x) = Some x
      /\ (forall k : Z, norm_head (Some (h + 360 * IZR k)) = Some x).
Proof.
  intros h; exists (py_fmod h 360).
  pose proof (py_fmod_range h 360) as Hr.
  split; [apply norm_head_value|].
  split; [apply Hr; lra|].
  split; [exists (Zfloor (h / 360)); unfold py_fmod; ring|].
  split.
  - rewrite norm_head_value, py_fmod_idem by lra; reflexivity.
  - intros k; rewrite norm_head_value, py_fmod_period by lra; reflexivity.
Qed.

Lemma hypot_zero (x y : R) : hypot x y = 0 <-> x = 0 /\ y = 0.
Proof.
  unfold hypot; split.
  - intros H; apply sqrt_eq_0 in H; [|nra]; split; nra.
  - intros [-> ->]; replace (0 * 0 + 0 * 0) with 0 by ring; apply sqrt_0.
Qed.

Lemma atan2_origin : atan2 0 0 = 0.
Proof.
  unfold atan2; destruct (Rlt_dec 0 0); [lra|].
  destruct (Rlt_dec 0 0); [lra|reflexivity].
Qed.

(** The reverse direction is half a turn away. *)
Lemma atan2_opp (dx dy : R) :
  dx <> 0 \/ dy <> 0 ->
  atan2 (- dx) (- dy) = atan2 dx dy + PI \/ atan2 (- dx) (- dy) = atan2 dx dy - PI.
Proof.
  intros Hnz; unfold atan2.
  assert (Hq : dy <> 0 -> - dx / - dy = dx / dy) by (intros; field; lra).
  destruct (Rlt_dec 0 dy) as [Hp|Hnp].
  - destruct (Rlt_dec 0 (- dy)); [lra|]; destruct (Rlt_dec (- dy) 0); [|lra].
    rewrite Hq by lra.
    destruct (Rle_dec 0 (- dx)); [left|right]; reflexivity.
  - destruct (Rlt_dec dy 0) as [Hn|Hnn].
    + destruct (Rlt_dec 0 (- dy)); [|lra].
      rewrite Hq by lra.
      destruct (Rle_dec 0 dx); [right|left]; ring.
    + assert (dy = 0) by lra; subst dy.
      destruct (Rlt_dec 0 (- 0)); [lra|]; destruct (Rlt_dec (- 0) 0); [lra|].
      destruct (Rlt_dec 0 dx).
      * destruct (Rlt_dec 0 (- dx)); [lra|]; destruct (Rlt_dec (- dx) 0); [|lra].
        right; lra.
      * destruct (Rlt_dec dx 0); [|lra].
        destruct (Rlt_dec 0 (- dx)); [|lra].
        left; lra.
Qed.

Lemma bearing_deg_opp (dx dy : R) :
  dx <> 0 \/ dy <> 0 ->
  bearing_deg (- dx) (- dy) = py_fmod (bearing_deg dx dy + 180) 360.
Proof.
  intros Hnz; unfold bearing_deg.
  set (D := degrees (atan2 dx dy)).
  assert (HD : degrees (atan2 (- dx) (- dy)) = D + 180 \/ degrees (atan2 (- dx) (- dy)) = D - 180).
  { unfold D, degrees; pose proof PI_RGT_0.
    destruct (atan2_opp dx dy Hnz) as [-> | ->]; [left|right]; field; lra. }
  assert (E : py_fmod (py_fmod (D + 360.0) 360.0 + 180) 360 = py_fmod (D + 180) 360).
  { replace 360.0 with 360 by lra.
    unfold py_fmod at 2.
    replace (D + 360 - 360 * IZR (Zfloor ((D + 360) / 360)) + 180)
      with (D + 180 + 360 * IZR (1 - Zfloor ((D + 360) / 360)))
      by (rewrite minus_IZR; simpl; ring).
    apply py_fmod_period; lra. }
  rewrite E; replace 360.0 with 360 by lra.
  destruct HD as [-> | ->].
  - replace (D + 180 + 360) with (D + 180 + 360 * IZR 1) by (simpl; ring).
    apply py_fmod_period; lra.
  - f_equal; ring.
Qed.

Lemma Zfloor_shift (x : R) (k : Z) : Zfloor (x + IZR k) = (Zfloor x + k)%Z.
Proof.
  pose proof (Zfloor_bound x) as [H1 H2].
  apply Zfloor_eq; rewrite plus_IZR; lra.
Qed.

(** Rounding commutes with a shift by an even number. *)
Lemma py_round_shift_even (x : R) (k : Z) :
  py_round (x + IZR (2 * k)) = (py_round x + 2 * k)%Z.
Proof.
  unfold py_round; rewrite Zfloor_shift, plus_IZR.
  replace (x + IZR (2 * k) - (IZR (Zfloor x) + IZR (2 * k))) with (x - IZR (Zfloor x)) by ring.
  destruct (Rlt_dec (x - IZR (Zfloor x)) (1 / 2)); [reflexivity|].
  destruct (Rlt_dec (1 / 2) (x - IZR (Zfloor x))); [lia|].
  rewrite Z.even_add_mul_2; destruct (Z.even (Zfloor x)); lia.
Qed.

(** Range and bearing between two points: the bearing is one of 000..359,
    the range is not negative, the same in both directions, and zero only
    between a point and itself, where the bearing is 000. *)
Theorem bearing_range_basics :
  forall ou ov tu tv : R,
    (0 <= fst (brg_rng_from_xy ou ov tu tv) < 360)%Z
    /\ 0 <= snd (brg_rng_from_xy ou ov tu tv)
    /\ snd (brg_rng_from_xy tu tv ou ov) = snd (brg_rng_from_xy ou ov tu tv)
    /\ (snd (brg_rng_from_xy ou ov tu tv) = 0 <-> tu = ou /\ tv = ov)
    /\ brg_rng_from_xy ou ov ou ov = (0%Z, 0).
Proof.
  intros ou ov tu tv; unfold brg_rng_from_xy; cbn [fst snd].
  split; [apply Z.mod_pos_bound; lia|].
  split.
  { pose proof (hypot_nonneg (tu - ou) (tv - ov)); unfold EARTH_M_PER_NM.
    apply Rmult_le_pos; [assumption|lra]. }
  split; [rewrite hypot_sym; reflexivity|].
  split.
  { unfold EARTH_M_PER_NM; split.
    - intros H.
      assert (H0 : hypot (tu - ou) (tv - ov) = 0) by lra.
      apply hypot_zero in H0; lra.
    - intros [-> ->].
      replace (ou - ou) with 0 by ring; replace (ov - ov) with 0 by ring.
      rewrite (proj2 (hypot_zero 0 0)) by auto; lra. }
  replace (ou - ou) with 0 by ring; replace (ov - ov) with 0 by ring.
  rewrite (proj2 (hypot_zero 0 0)) by auto.
  unfold bearing_deg, degrees; rewrite atan2_origin.
  rewrite (py_fmod_in_range _ _ 1) by lra.
  replace (0 * (180 / PI) + 360.0 - 360.0 * 1) with (IZR 0) by lra.
  rewrite py_round_IZR; f_equal; unfold EARTH_M_PER_NM; lra.
Qed.

(** The bearing back is the reciprocal of the bearing out, also after
    rounding to whole degrees, for two different points whose bearing is
    not at a half degree (where a bearing computed in floating point may be
    rounded either way). *)
Theorem bearing_reciprocal :
  forall ou ov tu tv : R,
    tu <> ou \/ tv <> ov ->
    off_ties (bearing_deg (tu - ou) (tv - ov)) ->
    fst (brg_rng_from_xy tu tv ou ov)
    = ((fst (brg_rng_from_xy ou ov tu tv) + 180) mod 360)%Z
    /\ off_ties (bearing_deg (ou - tu) (ov - tv)).
Proof.
  intros ou ov tu tv Hd Hoff; unfold brg_rng_from_xy; cbn [fst].
  replace (ou - tu) with (- (tu - ou)) by ring.
  replace (ov - tv) with (- (tv - ov)) by ring.
  rewrite bearing_deg_opp by lra.
  set (b := bearing_deg (tu - ou) (tv - ov)).
  fold b in Hoff.
  pose proof (bearing_deg_range (tu - ou) (tv - ov)) as Hb; fold b in Hb.
  rewrite Zplus_mod_idemp_l.
  destruct (Rlt_dec b 180) as [Hlt|Hge].
  - rewrite (py_fmod_in_range (b + 180) 360 0) by lra.
    replace (b + 180 - 360 * 0) with (b + IZR (2 * 90)) by (simpl; lra).
    rewrite py_round_shift_even; split; [reflexivity|].
    intros k; specialize (Hoff (k - 180)%Z); rewrite minus_IZR in Hoff.
    replace (b + IZR (2 * 90) - (IZR k + 1 / 2)) with (b - (IZR k - 180 + 1 / 2))
      by (simpl; lra).
    exact Hoff.
  - rewrite (py_fmod_in_range (b + 180) 360 1) by lra.
    replace (b + 180 - 360 * 1) with (b + IZR (2 * (-90))) by (simpl; lra).
    rewrite py_round_shift_even.
    replace (py_round b + 180)%Z with (py_round b + 2 * -90 + 1 * 360)%Z by lia.
    rewrite Z_mod_plus_full; split; [reflexivity|].
    intros k; specialize (Hoff (k + 180)%Z); rewrite plus_IZR in Hoff.
    replace (b + IZR (2 * (-90)) - (IZR k + 1 / 2)) with (b - (IZR k + 180 + 1 / 2))
      by (simpl; lra).
    exact Hoff.
Qed.

Lemma bearing_reciprocal_witness :
  fst (brg_rng_from_xy 1852 0 0 0) = ((fst (brg_rng_from_xy 0 0 1852 0) + 180) mod 360)%Z.
Proof.
  apply (bearing_reciprocal 0 0 1852 0); [left; lra|].
  replace (1852 - 0) with 1852 by ring; replace (0 - 0) with 0 by ring.
  rewrite bearing_deg_east by lra.
  intros k; destruct (Z_le_gt_dec k 89) as [H|H].
  - apply IZR_le in H; rewrite Rabs_right; lra.
  - assert (H' : (90 <= k)%Z) by lia; apply IZR_le in H'; rewrite Rabs_left; lra.
Defined.

End Angles.

(** ** Words for directions, aspects and altitudes *)

Section Words.
Local Open Scope R_scope.
Local Open Scope string_scope.

Lemma dir_index (h : R) (k : Z) :
  IZR k * 45 - 22.5 <= py_fmod h 360 < IZR k * 45 + 22.5 ->
  py_int (py_floordiv (py_fmod h 360 + 22.5) 45) = k.
Proof.
  intros H; pose proof (py_fmod_range h 360) as Hr.
  assert (Hk : (0 <= k)%Z).
  { apply le_IZR; apply Rnot_lt_le; intros Hlt.
    assert (IZR k <= -1) by (apply IZR_le; apply lt_IZR in Hlt; lia). lra. }
  unfold py_floordiv.
  rewrite (Zfloor_eq k) by (split; lra).
  apply py_int_nonneg; [apply IZR_le; exact Hk|lra].
Qed.

(** The heading is named after the nearest of the eight compass points;
    the sector of north runs from 337.5 over 0 to 22.5. *)
Theorem dir_word_sectors :
  forall h : R,
    (exists w, dir_word_from_heading (Some h) = Some w /\ In w dirs)
    /\ (forall k : Z, (0 <= k <= 7)%Z ->
          IZR k * 45 - 22.5 <= py_fmod h 360 < IZR k * 45 + 22.5 ->
          dir_word_from_heading (Some h) = Some (nth (Z.to_nat k) dirs ""))
    /\ (337.5 <= py_fmod h 360 -> dir_word_from_heading (Some h) = Some "north").
Proof.
  intros h; pose proof (py_fmod_range h 360) as Hr.
  assert (Hsec : forall k : Z, (0 <= k <= 8)%Z ->
            IZR k * 45 - 22.5 <= py_fmod h 360 < IZR k * 45 + 22.5 ->
            dir_word_from_heading (Some h) = Some (nth (Z.to_nat (k mod 8)) dirs "")).
  { intros k Hk H; unfold dir_word_from_heading; rewrite (dir_index h k H); reflexivity. }
  split; [|split].
  - set (k := Zfloor ((py_fmod h 360 + 22.5) / 45)).
    pose proof (Zfloor_bound ((py_fmod h 360 + 22.5) / 45)) as [H1 H2]; fold k in H1, H2.
    assert (Hk : (0 <= k <= 8)%Z).
    { split.
      - apply le_IZR; apply Rnot_lt_le; intros Hlt.
        assert (IZR k <= -1) by (apply IZR_le; apply lt_IZR in Hlt; lia). lra.
      - apply le_IZR; apply Rnot_lt_le; intros Hlt.
        assert (9 <= IZR k) by (apply IZR_le; apply lt_IZR in Hlt; lia). lra. }
    rewrite (Hsec k Hk) by lra.
    eexists; split; [reflexivity|].
    apply nth_In.
    assert (0 <= k mod 8 < 8)%Z by (apply Z.mod_pos_bound; lia).
    change (List.length dirs) with 8%nat; lia.
  - intros k Hk H; rewrite (Hsec k) by (auto; lia).
    rewrite Z.mod_small by lia; reflexivity.
  - intros H; rewrite (Hsec 8%Z) by (simpl; lra || lia); reflexivity.
Qed.

Lemma dir_word_witness : dir_word_from_heading (Some 350) = Some "north".
Proof.
  apply (proj2 (proj2 (dir_word_sectors 350))).
  rewrite (py_fmod_in_range 350 360 0) by lra; lra.
Defined.

Lemma aspect_word_diff (h b : R) :
  aspect_word (Some h) (Some b)
  = let diff := Rabs (py_fmod (h - b + 540) 360 - 180) in
    if Rleb BEAM_MIN diff && Rleb diff BEAM_MAX then
      strip ("beam " ++ str_or_empty (dir_word_from_heading (Some h)))
    else if Rltb diff HOT_MAX then "HOT"
    else if Rltb COLD_MIN diff then "COLD"
    else strip ("flank " ++ str_or_empty (dir_word_from_heading (Some h))).
Proof. reflexivity. Qed.

(** The aspect word compares the heading with the bearing it is given: HOT
    is a heading within 45 degrees of that bearing, COLD a heading within 45
    degrees of its reciprocal; without a heading or a bearing it is UNK. *)
Theorem aspect_word_hot_cold :
  forall h b : R,
    (Rabs (h - b) < 45 -> aspect_word (Some h) (Some b) = "HOT")
    /\ (Rabs (h - b - 180) < 45 -> aspect_word (Some h) (Some b) = "COLD")
    /\ (Rabs (h - b + 180) < 45 -> aspect_word (Some h) (Some b) = "COLD")
    /\ aspect_word None (Some b) = "UNK"
    /\ aspect_word (Some h) None = "UNK".
Proof.
  intros h b.
  assert (Hhot : forall d, d < 45 ->
            (if Rleb BEAM_MIN d && Rleb d BEAM_MAX then
               strip ("beam " ++ str_or_empty (dir_word_from_heading (Some h)))
             else if Rltb d HOT_MAX then "HOT"
             else if Rltb COLD_MIN d then "COLD"
             else strip ("flank " ++ str_or_empty (dir_word_from_heading (Some h)))) = "HOT").
  { intros d Hd; unfold BEAM_MIN, BEAM_MAX, HOT_MAX.
    rewrite (proj2 (Rleb_false 70 d)) by lra; cbn [andb].
    rewrite (proj2 (Rltb_true d 45)) by lra; reflexivity. }
  assert (Hcold : forall d, 135 < d ->
            (if Rleb BEAM_MIN d && Rleb d BEAM_MAX then
               strip ("beam " ++ str_or_empty (dir_word_from_heading (Some h)))
             else if Rltb d HOT_MAX then "HOT"
             else if Rltb COLD_MIN d then "COLD"
             else strip ("flank " ++ str_or_empty (dir_word_from_heading (Some h)))) = "COLD").
  { intros d Hd; unfold BEAM_MIN, BEAM_MAX, HOT_MAX, COLD_MIN.
    rewrite (proj2 (Rleb_false d 110)) by lra; rewrite andb_false_r.
    rewrite (proj2 (Rltb_false d 45)) by lra.
    rewrite (proj2 (Rltb_true 135 d)) by lra; reflexivity. }
  split; [|split; [|split; [|split; reflexivity]]].
  - intros H; rewrite aspect_word_diff; cbv zeta; apply Hhot.
    apply Rabs_def2 in H.
    rewrite (py_fmod_in_range _ 360 1) by lra.
    apply Rabs_def1; lra.
  - intros H; rewrite aspect_word_diff; cbv zeta; apply Hcold.
    apply Rabs_def2 in H.
    destruct (Rle_dec 180 (h - b)).
    + rewrite (py_fmod_in_range _ 360 2) by lra.
      rewrite Rabs_left1 by lra; lra.
    + rewrite (py_fmod_in_range _ 360 1) by lra.
      rewrite Rabs_right by lra; lra.
  - intros H; rewrite aspect_word_diff; cbv zeta; apply Hcold.
    apply Rabs_def2 in H.
    destruct (Rle_dec (-180) (h - b)).
    + rewrite (py_fmod_in_range _ 360 1) by lra.
      rewrite Rabs_left1 by lra; lra.
    + rewrite (py_fmod_in_range _ 360 0) by lra.
      rewrite Rabs_right by lra; lra.
Qed.

Lemma aspect_word_witness : aspect_word (Some 100) (Some 90) = "HOT".
Proof.
  apply (proj1 (aspect_word_hot_cold 100 90)).
  replace (100 - 90) with 10 by ring; rewrite Rabs_right by lra; lra.
Defined.

(** The altitude of a threat: a flight level from 18,000 ft up; just below,
    from 17,950 ft on, the rounding to hundreds gives "18,000 FT". *)
Theorem threat_alt_phrase_edges :
  forall alt_m : R,
    (18000 <= alt_m * M_TO_FT ->
     exists n : Z, (180 <= n)%Z
                   /\ IZR n - 1 / 2 <= alt_m * M_TO_FT / 100 <= IZR n + 1 / 2
                   /\ threat_alt_phrase (Some alt_m) = "FL" ++ str_of_Z n)
    /\ (17950 < alt_m * M_TO_FT < 18000 -> threat_alt_phrase (Some alt_m) = "18,000 FT")
    /\ threat_alt_phrase None = "ALT UNKNOWN".
Proof.
  intros alt_m; split; [|split; [|reflexivity]].
  - intros H; unfold threat_alt_phrase; cbv zeta.
    rewrite (proj2 (Rleb_true 18000 _)) by exact H.
    exists (py_round (alt_m * M_TO_FT / 100.0)).
    replace 100.0 with 100 by lra.
    set (x := alt_m * M_TO_FT / 100).
    assert (Hx : 180 <= x) by (unfold x; lra).
    assert (Hr : IZR (py_round x) - 1 / 2 <= x <= IZR (py_round x) + 1 / 2).
    { unfold py_round; pose proof (Zfloor_bound x) as [H1 H2].
      destruct (Rlt_dec (x - IZR (Zfloor x)) (1 / 2)); [lra|].
      destruct (Rlt_dec (1 / 2) (x - IZR (Zfloor x))); [rewrite plus_IZR; lra|].
      destruct (Z.even (Zfloor x)); [lra|rewrite plus_IZR; lra]. }
    split; [|split; [exact Hr|reflexivity]].
    apply le_IZR; apply Rnot_lt_le; intros Hlt.
    assert (IZR (py_round x) <= 179) by (apply IZR_le; apply lt_IZR in Hlt; lia).
    lra.
  - intros H; unfold threat_alt_phrase; cbv zeta.
    rewrite (proj2 (Rleb_false 18000 _)) by lra.
    rewrite (py_round_near _ 180) by lra; reflexivity.
Qed.

Lemma threat_alt_phrase_witness : threat_alt_phrase (Some 5480) = "18,000 FT".
Proof.
  apply (proj1 (proj2 (threat_alt_phrase_edges 5480))); unfold M_TO_FT; lra.
Defined.

End Words.

(** ** The CAP/PUSH helpers *)

Section Helpers.
Local Open Scope R_scope.
Local Open Scope string_scope.

Lemma int_of_digits_fold (l : list ascii) :
  forall acc, (0 <= acc)%Z ->
    (0 <= fold_left (fun acc c => (acc * 10 + Z.of_nat (nat_of_ascii c - 48))%Z) l acc)%Z.
Proof.
  induction l as [|c l IH]; simpl; intros acc H; [exact H|].
  apply IH; lia.
Qed.

Lemma int_of_digits_nonneg (s : string) : (0 <= int_of_digits s)%Z.
Proof. unfold int_of_digits; apply int_of_digits_fold; lia. Qed.

(** The altitude block of a CAP is never upside down: the floor is not
    negative and the ceiling at least 1,000 ft above it, whatever the text;
    a text that is not "<LO>-<HI>" gives 20,000 to 40,000 ft. *)
Theorem parse_alt_block_band :
  forall txt : string,
    0 <= fst (_parse_alt_block txt)
    /\ fst (_parse_alt_block txt) + 1000 <= snd (_parse_alt_block txt)
    /\ (Re.match_ re_alt_block txt = None -> _parse_alt_block txt = (20000.0, 40000.0)).
Proof.
  intros txt; unfold _parse_alt_block.
  destruct (Re.match_ re_alt_block txt) as [m|].
  - cbn [fst snd]; split; [|split; [|discriminate]].
    + apply Rmult_le_pos; [apply IZR_le; lia|lra].
    + apply Rmax_l.
  - cbn [fst snd]; split; [lra|split; [lra|reflexivity]].
Qed.

(** A time offset is never negative, and the empty phrase has none. *)
Theorem parse_time_offset_nonneg :
  forall tstr : string,
    (forall x, _parse_time_offset tstr = Some x -> 0 <= x)
    /\ _parse_time_offset "" = None.
Proof.
  intros tstr; split; [|reflexivity].
  assert (Hd : forall s, 0 <= IZR (int_of_digits s))
    by (intros s; apply IZR_le, int_of_digits_nonneg).
  intros x; unfold _parse_time_offset.
  destruct (negb (nonempty tstr)); [discriminate|].
  cbv zeta.
  set (t := lower (strip tstr)).
  destruct (startswith t "in ").
  - destruct (Re.match_ re_digits_s _) as [m|].
    { intros E; injection E as <-; apply Hd. }
    destruct (Re.match_ re_digits_m _) as [m|].
    { intros E; injection E as <-; pose proof (Hd (grp m 1)); lra. }
    destruct (Re.match_ re_digits (strip (drop 3 t))) as [m|].
    { intros E; injection E as <-; apply Hd. }
    destruct (startswith t "at +").
    + destruct (Re.match_ re_mm_ss _) as [m|].
      { intros E; injection E as <-.
        pose proof (Hd (grp m 1)); pose proof (Hd (grp m 2)); lra. }
      destruct (Re.match_ re_digits _) as [m|].
      { intros E; injection E as <-; apply Hd. }
      destruct (existsb _ _); [|discriminate].
      intros E; injection E as <-; lra.
    + destruct (existsb _ _); [|discriminate].
      intros E; injection E as <-; lra.
  - destruct (startswith t "at +").
    + destruct (Re.match_ re_mm_ss _) as [m|].
      { intros E; injection E as <-.
        pose proof (Hd (grp m 1)); pose proof (Hd (grp m 2)); lra. }
      destruct (Re.match_ re_digits _) as [m|].
      { intros E; injection E as <-; apply Hd. }
      destruct (existsb _ _); [|discriminate].
      intros E; injection E as <-; lra.
    + destruct (existsb _ _); [|discriminate].
      intros E; injection E as <-; lra.
Qed.

End Helpers.

(** ** The registry: storing, removing, ageing *)

Section Registry.
Local Open Scope R_scope.
Local Open Scope string_scope.

Lemma pop_missing {V : Type} (d : list (string * V)) (k : string) :
  Dict.get d k = None -> Dict.pop d k = d.
Proof.
  unfold Dict.pop; induction d as [|[k' v] d IH]; simpl; intros H; [reflexivity|].
  destruct (String.eqb k k') eqn:E; [discriminate|].
  simpl; rewrite IH by exact H; reflexivity.
Qed.

Lemma pop_slots_missing (oid : string) (items : list (string * string)) :
  forall d, (forall k v, In (k, v) items -> v <> oid) ->
            fold_left (pop_slots oid) items d = d.
Proof.
  induction items as [|[k v] items IH]; simpl; intros d H; [reflexivity|].
  unfold pop_slots at 2; cbn [fst snd].
  destruct (String.eqb v oid) eqn:E.
  - apply String.eqb_eq in E; exfalso; exact (H k v (or_introl eq_refl) E).
  - apply IH; intros k' v' Hin; apply (H k' v'); right; exact Hin.
Qed.

Lemma map_id_on {A : Type} (f : A -> A) (l : list A) :
  (forall x, In x l -> f x = x) -> map f l = l.
Proof.
  induction l as [|x l IH]; simpl; intros H; [reflexivity|].
  rewrite H by auto; rewrite IH by auto; reflexivity.
Qed.

Lemma remove_missing (ws : WorldState.t) (oid : string) : absent ws oid -> remove ws oid = ws.
Proof.
  intros (H1 & H2 & H3 & H4 & H5 & H6); destruct ws; unfold remove; simpl in *.
  rewrite (pop_missing _ _ H1), (pop_missing _ _ H2), (pop_missing _ _ H3),
    (pop_missing _ _ H4).
  change (fold_left
            (fun d kv => if String.eqb (snd kv) oid then Dict.pop d (fst kv) else d)
            bullseye_by_coal bullseye_by_coal)
    with (fold_left (pop_slots oid) bullseye_by_coal bullseye_by_coal).
  rewrite (pop_slots_missing oid bullseye_by_coal bullseye_by_coal H5).
  rewrite map_id_on; [reflexivity|].
  intros [n cap] Hin; cbn [fst snd]; rewrite (H6 n cap Hin); reflexivity.
Qed.

(** Removing an entity that is not there changes nothing, so removing
    twice is removing once; the other entities stay as they are. *)
Theorem remove_is_idempotent :
  forall (ws : WorldState.t) (oid : string),
    (absent ws oid -> remove ws oid = ws)
    /\ remove (remove ws oid) oid = remove ws oid
    /\ (forall k, k <> oid ->
          Dict.get (WorldState.objects (remove ws oid)) k = Dict.get (WorldState.objects ws) k
          /\ Dict.get (WorldState.tracks (remove ws oid)) k = Dict.get (WorldState.tracks ws) k
          /\ Dict.get (WorldState.last_seen (remove ws oid)) k
             = Dict.get (WorldState.last_seen ws) k
          /\ Dict.get (WorldState.missiles (remove ws oid)) k
             = Dict.get (WorldState.missiles ws) k).
Proof.
  intros ws oid; split; [apply remove_missing|].
  split; [apply remove_missing, remove_absent|].
  intros k Hk; unfold remove; simpl.
  repeat split; apply get_pop_other; congruence.
Qed.

Lemma remove_witness : remove WorldState_init "7" = WorldState_init.
Proof.
  apply (proj1 (remove_is_idempotent WorldState_init "7")).
  repeat split; try reflexivity; intros ? ? [].
Defined.

Lemma upsert_track_same (ws : WorldState.t) (obj : ACMIObject.t) (now : R) :
  exists tr, Dict.get (WorldState.tracks (upsert ws obj now)) (ACMIObject.object_id obj) = Some tr
             /\ TrackWrap.obj tr = obj.
Proof.
  unfold upsert; cbv zeta.
  set (oid := ACMIObject.object_id obj).
  set (ws1 := with_last_seen _ _).
  set (ws2 := match Dict.get (WorldState.tracks ws1) oid with
              | None => _
              | Some tr => _
              end).
  assert (H2 : exists tr, Dict.get (WorldState.tracks ws2) oid = Some tr /\ TrackWrap.obj tr = obj).
  { unfold ws2; destruct (Dict.get (WorldState.tracks ws1) oid) as [tr|]; simpl;
      rewrite get_set_same; eexists; split; reflexivity. }
  set (ws3 := if (contains "Navaid+Static+Bullseye" _ || _)%bool then _ else ws2).
  assert (H3 : WorldState.tracks ws3 = WorldState.tracks ws2).
  { unfold ws3; destruct (_ || _)%bool; reflexivity. }
  rewrite <- H3 in H2.
  set (ws4 := if contains "Air" _ then _ else ws3).
  assert (H4 : exists tr, Dict.get (WorldState.tracks ws4) oid = Some tr /\ TrackWrap.obj tr = obj).
  { unfold ws4; destruct (contains "Air" _); [|exact H2].
    destruct H2 as (tr & Hg & Ho); rewrite Hg; simpl; rewrite get_set_same.
    eexists; split; [reflexivity|].
    unfold learn_home.
    destruct (TrackWrap.home_uv tr), (T_attr Transform.U obj), (T_attr Transform.V obj),
      (T_attr Transform.Altitude obj); auto.
    destruct (_ && _)%bool; auto. }
  destruct (is_missile obj); exact H4.
Qed.

Lemma upsert_missiles (ws : WorldState.t) (obj : ACMIObject.t) (now : R) :
  WorldState.missiles (upsert ws obj now)
  = if is_missile obj
    then Dict.set (WorldState.missiles ws) (ACMIObject.object_id obj) obj
    else WorldState.missiles ws.
Proof.
  unfold upsert; cbv zeta.
  destruct (is_missile obj); simpl;
    repeat match goal with
           | |- context [match ?x with _ => _ end] => destruct x; simpl
           end; reflexivity.
Qed.

(** What is stored is found again: after an upsert the registry holds the
    object under its identifier with the time of the update, a track that
    wraps it, and the missile entry if it is one; the entries of every
    other identifier are untouched. *)
Theorem upsert_then_lookup :
  forall (ws : WorldState.t) (obj : ACMIObject.t) (now : R),
    let oid := ACMIObject.object_id obj in
    let ws' := upsert ws obj now in
    Dict.get (WorldState.objects ws') oid = Some obj
    /\ Dict.get (WorldState.last_seen ws') oid = Some now
    /\ (exists tr, Dict.get (WorldState.tracks ws') oid = Some tr /\ TrackWrap.obj tr = obj)
    /\ (is_missile obj = true -> Dict.get (WorldState.missiles ws') oid = Some obj)
    /\ (forall k, k <> oid ->
          Dict.get (WorldState.objects ws') k = Dict.get (WorldState.objects ws) k
          /\ Dict.get (WorldState.last_seen ws') k = Dict.get (WorldState.last_seen ws) k
          /\ Dict.get (WorldState.tracks ws') k = Dict.get (WorldState.tracks ws) k
          /\ Dict.get (WorldState.missiles ws') k = Dict.get (WorldState.missiles ws) k).
Proof.
  intros ws obj now oid ws'; subst oid ws'.
  rewrite upsert_objects, upsert_last_seen, upsert_missiles.
  split; [apply get_set_same|].
  split; [apply get_set_same|].
  split; [apply upsert_track_same|].
  split; [intros ->; apply get_set_same|].
  intros k Hk.
  split; [apply get_set_other; congruence|].
  split; [apply get_set_other; congruence|].
  split; [apply upsert_tracks_other; congruence|].
  destruct (is_missile obj); [apply get_set_other; congruence|reflexivity].
Qed.

Lemma cull_fold_keeps_fresh (now : R) (oid : string) (snapshot : list (string * R)) :
  forall ws,
    (forall t, In (oid, t) snapshot -> now - t <= WorldState.ttl ws) ->
    let ws' := fold_left (cull_step now) snapshot ws in
    Dict.get (WorldState.objects ws') oid = Dict.get (WorldState.objects ws) oid
    /\ Dict.get (WorldState.tracks ws') oid = Dict.get (WorldState.tracks ws) oid
    /\ Dict.get (WorldState.last_seen ws') oid = Dict.get (WorldState.last_seen ws) oid
    /\ Dict.get (WorldState.missiles ws') oid = Dict.get (WorldState.missiles ws) oid.
Proof.
  induction snapshot as [|[k t] snapshot IH]; intros ws H; [repeat split|].
  cbn [fold_left]; cbv zeta.
  assert (Hstep : WorldState.ttl (cull_step now ws (k, t)) = WorldState.ttl ws
                  /\ Dict.get (WorldState.objects (cull_step now ws (k, t))) oid
                     = Dict.get (WorldState.objects ws) oid
                  /\ Dict.get (WorldState.tracks (cull_step now ws (k, t))) oid
                     = Dict.get (WorldState.tracks ws) oid
                  /\ Dict.get (WorldState.last_seen (cull_step now ws (k, t))) oid
                     = Dict.get (WorldState.last_seen ws) oid
                  /\ Dict.get (WorldState.missiles (cull_step now ws (k, t))) oid
                     = Dict.get (WorldState.missiles ws) oid).
  { unfold cull_step; cbn [fst snd].
    destruct (Rltb (WorldState.ttl ws) (now - t)) eqn:E; [|repeat split].
    apply Rltb_true in E.
    assert (Hk : k <> oid).
    { intros ->; specialize (H t (or_introl eq_refl)); lra. }
    unfold remove; simpl; repeat split; apply get_pop_other; exact Hk. }
  destruct Hstep as (Ht & E1 & E2 & E3 & E4).
  destruct (IH (cull_step now ws (k, t))) as (F1 & F2 & F3 & F4).
  { intros t' Hin; rewrite Ht; apply H; right; exact Hin. }
  cbv zeta in F1, F2, F3, F4.
  rewrite F1, F2, F3, F4; auto.
Qed.

(** The eviction pass leaves alone what is not stale: an entity whose
    last-seen time is within the TTL keeps its object, track, last-seen time
    and missile entry. *)
Theorem fresh_entity_survives :
  forall (ws : WorldState.t) (now : R) (oid : string),
    (forall t, In (oid, t) (WorldState.last_seen ws) -> now - t <= WorldState.ttl ws) ->
    let ws' := cull_stale ws now in
    Dict.get (WorldState.objects ws') oid = Dict.get (WorldState.objects ws) oid
    /\ Dict.get (WorldState.tracks ws') oid = Dict.get (WorldState.tracks ws) oid
    /\ Dict.get (WorldState.last_seen ws') oid = Dict.get (WorldState.last_seen ws) oid
    /\ Dict.get (WorldState.missiles ws') oid = Dict.get (WorldState.missiles ws) oid.
Proof.
  intros ws now oid H.
  exact (cull_fold_keeps_fresh now oid (WorldState.last_seen ws) ws H).
Qed.

Lemma fresh_entity_witness :
  Dict.get (WorldState.objects (cull_stale (Controller.ws red_scene) 10)) "102"
  = Dict.get (WorldState.objects (Controller.ws red_scene)) "102".
Proof.
  destruct red_scene_last_seen as [Hs Ht].
  apply (fresh_entity_survives (Controller.ws red_scene) 10 "102").
  intros t Hin; rewrite Ht.
  assert (E : WorldState.last_seen (Controller.ws red_scene) = [("102", 0.0)]).
  { unfold red_scene, fed; cbn [fold_left]; rewrite step_update_ws, upsert_last_seen.
    reflexivity. }
  rewrite E in Hin; destruct Hin as [Hin|[]]; injection Hin as <-; lra.
Defined.

End Registry.

(** ** Coalitions, tracks and labels *)

Section Tracks.
Local Open Scope R_scope.
Local Open Scope string_scope.

Lemma filter_three_lengths {A : Type} (f : A -> Coal) (l : list A) :
  (List.length (filter (fun o => Coal_eqb (f o) Blue) l)
   + List.length (filter (fun o => Coal_eqb (f o) Red) l)
   + List.length (filter (fun o => Coal_eqb (f o) Unknown) l))%nat
  = List.length l.
Proof.
  induction l as [|x l IH]; simpl; [reflexivity|].
  destruct (f x); simpl; lia.
Qed.

(** Every air entity is in exactly one of the three coalition lists. *)
Theorem coalitions_partition_air :
  forall ws : WorldState.t,
    (List.length (blues ws) + List.length (reds ws) + List.length (unks ws))%nat
    = List.length (get_air ws)
    /\ (forall o, In o (get_air ws) <-> In o (blues ws) \/ In o (reds ws) \/ In o (unks ws))
    /\ (forall o, In o (blues ws) -> coalition_of o = Blue)
    /\ (forall o, In o (reds ws) -> coalition_of o = Red)
    /\ (forall o, In o (unks ws) -> coalition_of o = Unknown).
Proof.
  intros ws; unfold blues, reds, unks.
  split; [apply filter_three_lengths|].
  split.
  - intros o; rewrite !filter_In; split.
    + intros H; destruct (coalition_of o); simpl; auto.
    + intros [[H _]|[[H _]|[H _]]]; exact H.
  - repeat split; intros o H; apply filter_In in H; destruct H as [_ H];
      destruct (coalition_of o); simpl in H; congruence.
Qed.

Lemma hypot_div (a b dt : R) : 0 < dt -> hypot (a / dt) (b / dt) = hypot a b / dt.
Proof.
  intros H; unfold Rdiv; apply hypot_scale.
  left; apply Rinv_0_lt_compat; exact H.
Qed.

(** [update_speed] measures the ground speed as distance over elapsed
    time; the elapsed time is taken as at least a microsecond, so a repeated
    or earlier time stamp divides the distance by 1e-6.  The first call only
    stamps the track, and a track without both positions is left alone. *)
Theorem update_speed_measures :
  forall (tr : TrackWrap.t) (now : R) (T : Transform.t),
    ACMIObject.T (TrackWrap.obj tr) = Some T ->
    (TrackWrap.last_t tr = None ->
     TrackWrap.spd_mps (update_speed tr now) = TrackWrap.spd_mps tr
     /\ TrackWrap.last_t (update_speed tr now) = Some now
     /\ TrackWrap.last_u (update_speed tr now) = Transform.U T
     /\ TrackWrap.last_v (update_speed tr now) = Transform.V T)
    /\ (forall lt u v lu lv,
          TrackWrap.last_t tr = Some lt ->
          Transform.U T = Some u -> Transform.V T = Some v ->
          TrackWrap.last_u tr = Some lu -> TrackWrap.last_v tr = Some lv ->
          (1e-6 <= now - lt ->
           TrackWrap.spd_mps (update_speed tr now) = hypot (u - lu) (v - lv) / (now - lt))
          /\ (now - lt <= 1e-6 ->
              TrackWrap.spd_mps (update_speed tr now) = hypot (u - lu) (v - lv) / 1e-6)
          /\ 0 <= TrackWrap.spd_mps (update_speed tr now)
          /\ TrackWrap.last_t (update_speed tr now) = Some now
          /\ TrackWrap.last_u (update_speed tr now) = Some u
          /\ TrackWrap.last_v (update_speed tr now) = Some v)
    /\ (forall lt,
          TrackWrap.last_t tr = Some lt ->
          Transform.U T = None \/ Transform.V T = None
          \/ TrackWrap.last_u tr = None \/ TrackWrap.last_v tr = None ->
          update_speed tr now = tr).
Proof.
  intros tr now T HT; unfold update_speed; rewrite HT.
  split; [|split].
  - intros ->; repeat split.
  - intros lt u v lu lv -> -> -> -> ->.
    cbn [TrackWrap.spd_mps TrackWrap.last_t TrackWrap.last_u TrackWrap.last_v].
    assert (Hdt : 0 < Rmax 1e-6 (now - lt)).
    { apply Rlt_le_trans with 1e-6; [lra|apply Rmax_l]. }
    rewrite hypot_div by exact Hdt.
    split; [intros H; rewrite Rmax_right by exact H; reflexivity|].
    split; [intros H; rewrite Rmax_left by exact H; reflexivity|].
    split; [|repeat split].
    apply Rmult_le_pos; [apply hypot_nonneg|left; apply Rinv_0_lt_compat; exact Hdt].
  - intros lt -> H.
    destruct (Transform.U T), (Transform.V T), (TrackWrap.last_u tr), (TrackWrap.last_v tr);
      try reflexivity.
    destruct H as [H|[H|[H|H]]]; discriminate.
Qed.

Lemma update_speed_witness :
  TrackWrap.spd_mps
    (update_speed (TrackWrap.mk blue1 None (Some 1000) (Some 400) (Some 0) 0) 2)
  = hypot (1000 - 1000) (1000 - 400) / (2 - 0).
Proof.
  refine (proj1 (proj1 (proj2 (update_speed_measures
            (TrackWrap.mk blue1 None (Some 1000) (Some 400) (Some 0) 0) 2
            (Transform.mk (Some 1000) (Some 1000) None None (Some 7000) (Some 90)) eq_refl))
            0 1000 1000 1000 400 eq_refl eq_refl eq_refl eq_refl eq_refl) _).
  lra.
Defined.

Lemma stripped_nonempty_some (v : option string) (s : string) :
  stripped_nonempty v = Some s -> s <> "".
Proof.
  unfold stripped_nonempty; destruct v as [x|]; [|discriminate].
  destruct (nonempty x); [|discriminate]; cbn [andb].
  destruct (strip x) eqn:E; [discriminate|].
  intros H; injection H as <-; discriminate.
Qed.

(** A friendly always gets a label: the call sign, else the pilot's name
    made into one, else group, unit or airframe name, and when all of them
    are missing or blank, "Fighter". *)
Theorem friendly_label_never_empty :
  forall o : ACMIObject.t,
    friendly_label o <> ""
    /\ (forall cs, stripped_nonempty (ACMIObject.Callsign o) = Some cs -> friendly_label o = cs)
    /\ (stripped_nonempty (ACMIObject.Callsign o) = None ->
        ACMIObject.Pilot o = None ->
        stripped_nonempty (ACMIObject.Group o) = None ->
        stripped_nonempty (ACMIObject.Unit o) = None ->
        stripped_nonempty (ACMIObject.Name o) = None ->
        friendly_label o = "Fighter").
Proof.
  intros o; split; [|split].
  - unfold friendly_label.
    destruct (stripped_nonempty (ACMIObject.Callsign o)) as [cs|] eqn:Ec.
    { exact (stripped_nonempty_some _ _ Ec). }
    destruct (match ACMIObject.Pilot o with
              | Some pilot => if nonempty pilot then _pilot_to_callsign pilot else None
              | None => None
              end) as [[|c r]|]; try discriminate;
      (destruct (stripped_nonempty (ACMIObject.Group o)) as [g|] eqn:Eg;
       [exact (stripped_nonempty_some _ _ Eg)|];
       destruct (stripped_nonempty (ACMIObject.Unit o)) as [u|] eqn:Eu;
       [exact (stripped_nonempty_some _ _ Eu)|];
       destruct (stripped_nonempty (ACMIObject.Name o)) as [n|] eqn:En; [|discriminate];
       destruct (_ && _)%bool; [discriminate|exact (stripped_nonempty_some _ _ En)]).
  - intros cs H; unfold friendly_label; rewrite H; reflexivity.
  - intros H1 H2 H3 H4 H5; unfold friendly_label; rewrite H1, H2, H3, H4, H5; reflexivity.
Qed.

Lemma find_never {A : Type} (f : A -> bool) (l : list A) :
  (forall x, f x = false) -> find f l = None.
Proof.
  intros H; induction l as [|x l IH]; simpl; [reflexivity|].
  rewrite H; exact IH.
Qed.

Lemma existsb_never {A : Type} (f : A -> bool) (l : list A) :
  (forall x, f x = false) -> existsb f l = false.
Proof.
  intros H; induction l as [|x l IH]; simpl; [reflexivity|].
  rewrite H; exact IH.
Qed.

(** Looking a name up gives one of the candidates, the first that has the
    query in its name, call sign, pilot, unit or group once both are reduced
    to lower-case letters and digits; a query without a letter or digit,
    an empty one or none at all finds nothing. *)
Theorem find_callsign_sound :
  forall (objects : list ACMIObject.t) (cs : option string),
    (forall o, find_callsign objects cs = Some o ->
       In o objects
       /\ exists q field,
            cs = Some q /\ _norm q <> ""
            /\ In field (str_or_empty (ACMIObject.Name o)
                           :: truthy_str (ACMIObject.Callsign o)
                           ++ truthy_str (ACMIObject.Pilot o)
                           ++ truthy_str (ACMIObject.Unit o)
                           ++ truthy_str (ACMIObject.Group o))%list
            /\ contains (_norm q) (_norm field) = true)
    /\ (forall q, cs = Some q -> _norm q = "" -> find_callsign objects cs = None)
    /\ (cs = None \/ cs = Some "" -> find_callsign objects cs = None)
    /\ find_callsign [] cs = None.
Proof.
  intros objects cs; split; [|split; [|split]].
  - intros o; unfold find_callsign; destruct cs as [q|]; [|discriminate].
    destruct (negb (nonempty q)); [discriminate|].
    cbv zeta; intros H; apply find_some in H; destruct H as [Hin Hex].
    split; [exact Hin|].
    apply existsb_exists in Hex; destruct Hex as (field & Hf & Hc).
    apply andb_true_iff in Hc; destruct Hc as [Hq Hc].
    exists q, field; repeat split; auto.
    intros E; rewrite E in Hq; discriminate.
  - intros q -> Hq; unfold find_callsign.
    destruct (negb (nonempty q)); [reflexivity|].
    cbv zeta; rewrite Hq; apply find_never; intros x; apply existsb_never; reflexivity.
  - intros [-> | ->]; reflexivity.
  - unfold find_callsign; destruct cs as [q|]; [|reflexivity].
    destruct (negb (nonempty q)); reflexivity.
Qed.

Lemma find_callsign_witness : find_callsign [blue1] (Some " - ") = None.
Proof. apply (proj1 (proj2 (find_callsign_sound [blue1] (Some " - "))) " - "); reflexivity. Defined.

(** The nearest threat to a fighter is a Red or unknown air entity with a
    planar position, and no such entity is nearer; a fighter without a
    position has none. *)
Theorem nearest_threat_is_nearest :
  forall (ws : WorldState.t) (fighter : ACMIObject.t),
    (forall tgt, nearest_threat_to_fighter ws fighter = Some tgt ->
       exists fuv tuv,
         uv_of fighter = Some fuv /\ uv_of tgt = Some tuv
         /\ (In tgt (reds ws) \/ In tgt (unks ws))
         /\ coalition_of tgt <> Blue
         /\ forall o x, In o (reds ws) \/ In o (unks ws) -> uv_of o = Some x ->
                        range_nm fuv tuv <= range_nm fuv x)
    /\ (uv_of fighter = None -> nearest_threat_to_fighter ws fighter = None)
    /\ ((forall o, In o (reds ws) \/ In o (unks ws) -> uv_of o = None) ->
        nearest_threat_to_fighter ws fighter = None).
Proof.
  intros ws fighter; unfold nearest_threat_to_fighter; split; [|split].
  - intros tgt; destruct (uv_of fighter) as [fuv|]; [|discriminate].
    destruct (nearest_scan fuv (reds ws ++ unks ws)) as [best r] eqn:E.
    cbn [fst]; intros ->.
    destruct (nearest_scan_spec _ _ _ _ E) as (Hin & (tuv & Ht & Hr) & Hmin).
    apply in_app_or in Hin.
    exists fuv, tuv; split; [reflexivity|]; split; [exact Ht|]; split; [exact Hin|].
    split.
    + destruct Hin as [H|H]; unfold reds, unks in H; apply filter_In in H;
        destruct H as [_ H]; destruct (coalition_of tgt); simpl in H; congruence.
    + intros o x Ho Hx; rewrite <- Hr; apply (Hmin o x); [apply in_or_app; exact Ho|exact Hx].
  - intros ->; reflexivity.
  - intros H; destruct (uv_of fighter) as [fuv|]; [|reflexivity].
    unfold nearest_scan.
    assert (E : forall l st,
               (forall o, In o l -> uv_of o = None) ->
               fold_left
                 (fun (st : option ACMIObject.t * R) (o : ACMIObject.t) =>
                    match uv_of o with
                    | Some ouv =>
                        let rng := snd (brg_rng_from_xy (fst fuv) (snd fuv) (fst ouv) (snd ouv)) in
                        if Rltb rng (snd st) then (Some o, rng) else st
                    | None => st
                    end) l st = st).
    { induction l as [|o l IH]; intros st Hl; [reflexivity|].
      cbn [fold_left]; rewrite (Hl o (or_introl eq_refl)); apply IH.
      intros o' Ho'; apply Hl; right; exact Ho'. }
    rewrite E; [reflexivity|].
    intros o Ho; apply H; apply in_app_or; exact Ho.
Qed.

End Tracks.

(** ** Commands, the clock and the push scheduler *)

Section Scheduler.
Local Open Scope R_scope.
Local Open Scope string_scope.

(** A text command reads the registry and never writes it: objects,
    tracks, last-seen times, bullseye slots, missiles, the clock and the
    alert state are the same after any command, and so are the answers of
    the registry queries. *)
Theorem commands_keep_registry :
  forall (c : Controller.t) (text : string),
    let c' := fst (handle_text c text) in
    registry_kept c c'
    /\ get_air (Controller.ws c') = get_air (Controller.ws c)
    /\ blues (Controller.ws c') = blues (Controller.ws c)
    /\ reds (Controller.ws c') = reds (Controller.ws c)
    /\ unks (Controller.ws c') = unks (Controller.ws c)
    /\ find_bull (Controller.ws c') = find_bull (Controller.ws c).
Proof.
  intros c text c'; pose proof (handle_text_kept c text) as H; fold c' in H.
  split; [exact H|].
  destruct H as (_ & _ & _ & _ & Ho & _ & _ & Hb & _).
  destruct (queries_read_objects _ _ Ho) as (E1 & E2 & E3 & E4).
  repeat split; auto.
  unfold find_bull; rewrite Hb, Ho, E2; reflexivity.
Qed.

Lemma push_fold_printed (p : PushPlan.t) (brg rng : Z) (recips : list string) :
  PushPlan.brg p = Some brg -> PushPlan.rng p = Some rng ->
  forall c, exists c',
    fold_left
      (fun rc oid =>
         bind rc (fun c =>
           match Dict.get (WorldState.objects (Controller.ws c)) oid with
           | None => Ok c
           | Some o => bind (push_line p (friendly_label o)) (fun l => Ok (log c l))
           end))
      recips (Ok c) = Ok c'
    /\ Controller.ws c' = Controller.ws c
    /\ Controller.printed c'
       = (Controller.printed c ++ push_calls (Controller.ws c) brg rng recips)%list.
Proof.
  intros Hb Hr; induction recips as [|oid recips IH]; intros c.
  - exists c; cbn; rewrite app_nil_r; auto.
  - cbn [fold_left bind push_calls flat_map].
    destruct (Dict.get (WorldState.objects (Controller.ws c)) oid) as [o|].
    + rewrite (push_line_ok p brg rng _ Hb Hr); cbn [bind].
      destruct (IH (log c (friendly_label o ++ ", PUSH, BULLS " ++ fmt_03d brg ++ " for "
                             ++ str_of_Z rng ++ "."))) as (c' & E & Hw & Hp).
      exists c'; split; [exact E|]; split; [rewrite Hw; apply ws_log|].
      rewrite Hp, ws_log; cbn [Controller.printed log].
      rewrite <- app_assoc; reflexivity.
    + destruct (IH c) as (c' & E & Hw & Hp); exists c'; auto.
Qed.

Lemma mem_iff_In (s : PySet.t) (x : string) : PySet.mem s x = true <-> In x s.
Proof.
  unfold PySet.mem; rewrite existsb_exists; split.
  - intros (y & Hy & E); apply String.eqb_eq in E; subst; exact Hy.
  - intros H; exists x; split; [exact H|apply String.eqb_refl].
Qed.

Lemma push_calls_In (ws : WorldState.t) (brg rng : Z) (recips : list string) (line : string) :
  In line (push_calls ws brg rng recips) <->
  exists oid o, PySet.mem recips oid = true
                /\ Dict.get (WorldState.objects ws) oid = Some o
                /\ line = push_call brg rng (friendly_label o).
Proof.
  unfold push_calls; rewrite in_flat_map; split.
  - intros (oid & Hin & H).
    destruct (Dict.get (WorldState.objects ws) oid) as [o|] eqn:E; [|destruct H].
    destruct H as [<-|[]]; exists oid, o; split; [apply mem_iff_In; exact Hin|auto].
  - intros (oid & o & Hm & Hg & ->); exists oid; split; [apply mem_iff_In; exact Hm|].
    rewrite Hg; left; reflexivity.
Qed.

(** The push scheduler: without an active plan, or before the execution
    time, it does nothing; from the execution time on it sends one line to
    every assigned flight that is in the registry, in whatever order the
    set of recipients yields them (or says that none is assigned), clears
    the plan, and does nothing when it runs again. *)
Theorem push_executes_once :
  forall (c : Controller.t) (brg rng : Z),
    PushPlan.brg (plan_of c) = Some brg ->
    PushPlan.rng (plan_of c) = Some rng ->
    (PushPlan.active (plan_of c) = false -> _try_execute_push c = Ok c)
    /\ (WorldState.time (Controller.ws c) < float_or (PushPlan.exec_time (plan_of c)) 0 ->
        _try_execute_push c = Ok c)
    /\ (PushPlan.active (plan_of c) = true ->
        float_or (PushPlan.exec_time (plan_of c)) 0 <= WorldState.time (Controller.ws c) ->
        exists c' lines,
          _try_execute_push c = Ok c'
          /\ PushPlan.active (plan_of c') = false
          /\ Controller.printed c' = (Controller.printed c ++ lines)%list
          /\ (push_recipients (Controller.ws c) = [] -> lines = ["PUSH: no assigned flights."])
          /\ (push_recipients (Controller.ws c) <> [] ->
              Permutation lines
                (push_calls (Controller.ws c) brg rng (push_recipients (Controller.ws c)))
              /\ forall line,
                   In line lines <->
                   exists oid o,
                     PySet.mem (push_recipients (Controller.ws c)) oid = true
                     /\ Dict.get (WorldState.objects (Controller.ws c)) oid = Some o
                     /\ line = push_call brg rng (friendly_label o))
          /\ registry_kept c c'
          /\ WorldState.cap_sites (Controller.ws c') = WorldState.cap_sites (Controller.ws c)
          /\ _try_execute_push c' = Ok c').
Proof.
  intros c brg rng Hb Hr; unfold plan_of in *.
  split; [|split].
  - intros H; unfold _try_execute_push; rewrite H; reflexivity.
  - intros H; unfold _try_execute_push.
    destruct (negb _); [reflexivity|].
    rewrite (proj2 (Rltb_true _ _)) by exact H; reflexivity.
  - intros Ha Ht.
    assert (Hdone : forall c1,
              Controller.ws c1 = Controller.ws c ->
              let c' := with_ws c1 (with_push_plan (Controller.ws c1)
                                      (with_active (WorldState.push_plan (Controller.ws c1)) false)) in
              PushPlan.active (WorldState.push_plan (Controller.ws c')) = false
              /\ Controller.printed c' = Controller.printed c1
              /\ WorldState.cap_sites (Controller.ws c') = WorldState.cap_sites (Controller.ws c)
              /\ _try_execute_push c' = Ok c').
    { intros c1 Hw c'; unfold c'; cbn; rewrite Hw; repeat split. }
    unfold _try_execute_push; rewrite Ha; cbn [negb].
    rewrite (proj2 (Rltb_false _ _)) by exact Ht.
    destruct (push_recipients (Controller.ws c)) as [|r recips] eqn:Er.
    + cbn [bind].
      destruct (Hdone (log c "PUSH: no assigned flights.") (ws_log _ _)) as (H1 & H2 & H3 & H4).
      eexists; exists ["PUSH: no assigned flights."]; split; [reflexivity|].
      split; [exact H1|]; split; [rewrite H2; reflexivity|].
      split; [reflexivity|].
      split; [intros E; congruence|].
      split; [unfold registry_kept; cbn; repeat split|].
      split; [exact H3|exact H4].
    + destruct (push_fold_printed (WorldState.push_plan (Controller.ws c)) brg rng
                  (r :: recips) Hb Hr c) as (c1 & E & Hw & Hp).
      rewrite E; cbn [bind].
      destruct (Hdone c1 Hw) as (H1 & H2 & H3 & H4).
      eexists; exists (push_calls (Controller.ws c) brg rng (r :: recips)).
      split; [reflexivity|].
      split; [exact H1|]; split; [rewrite H2; exact Hp|].
      split; [discriminate|].
      split; [intros _; split; [apply Permutation_refl|apply push_calls_In]|].
      split; [|split; [exact H3|exact H4]].
      apply push_fold_kept in E; destruct E as (c0 & [= <-] & Hk).
      apply registry_kept_trans with (1 := Hk).
      unfold registry_kept; cbn; repeat split.
Qed.

End Scheduler.

(** ** The lines of the feed *)

Section FeedLines.
Local Open Scope R_scope.
Local Open Scope string_scope.

Lemma push_executes_once_witness :
  exists c' lines,
    _try_execute_push (armed_at 30) = Ok c'
    /\ Controller.printed c' = lines
    /\ Permutation lines
         ["Fighter, PUSH, BULLS 090 for 20."; "Viper 1-1, PUSH, BULLS 090 for 20."]
    /\ _try_execute_push c' = Ok c'.
Proof.
  destruct (push_executes_once (armed_at 30) 90 20 eq_refl eq_refl) as (_ & _ & H).
  destruct H as (c' & lines & H1 & _ & H3 & _ & H4 & _ & _ & H5).
  - reflexivity.
  - change (float_or (Some 30) 0 <= 30); rewrite float_or_some by lra; lra.
  - exists c', lines; split; [exact H1|]; split; [rewrite H3; reflexivity|].
    split; [|exact H5].
    destruct H4 as [H4 _]; [discriminate|exact H4].
Defined.

Lemma remove_time (ws : WorldState.t) (k : string) :
  WorldState.time (remove ws k) = WorldState.time ws.
Proof. reflexivity. Qed.

Lemma cull_stale_time (ws : WorldState.t) (now : R) :
  WorldState.time (cull_stale ws now) = WorldState.time ws.
Proof.
  unfold cull_stale; generalize (WorldState.last_seen ws) as snapshot.
  intros snapshot; revert ws; induction snapshot as [|kv snapshot IH]; intros ws;
    [reflexivity|].
  cbn [fold_left]; rewrite IH; destruct (Rltb _ _); reflexivity.
Qed.

(** A TIME line sets the clock to its time stamp, unless the stamp is
    missing or 0.0: then the clock stays.  The tick of the new time is
    remembered, and a line that falls into the tick already seen runs
    neither the merge check nor the push scheduler. *)
Theorem time_line_sets_clock :
  forall (c : Controller.t) (ts : option R),
    let c' := fst (step c (ACTION_TIME ts)) in
    let tick := py_int (WorldState.time (Controller.ws c') * Controller.hz c) in
    (ts = None \/ ts = Some 0 ->
     WorldState.time (Controller.ws c') = WorldState.time (Controller.ws c))
    /\ (forall t, ts = Some t -> t <> 0 -> WorldState.time (Controller.ws c') = t)
    /\ Controller._last_emit_tick c' = tick
    /\ (tick = Controller._last_emit_tick c ->
        Controller.printed c' = Controller.printed c
        /\ plan_of c' = plan_of c
        /\ Controller._last_merged_tick c' = Controller._last_merged_tick c).
Proof.
  intros c ts.
  assert (Htime : WorldState.time (Controller.ws (fst (step c (ACTION_TIME ts))))
                  = float_or ts (WorldState.time (Controller.ws c))).
  { unfold step; cbv zeta.
    set (ws1 := cull_stale _ _).
    assert (E1 : WorldState.time ws1 = float_or ts (WorldState.time (Controller.ws c)))
      by (unfold ws1; rewrite cull_stale_time; reflexivity).
    destruct (negb _); [|exact E1].
    destruct (_try_execute_push _) as [c2|e] eqn:E.
    - apply try_execute_push_kept in E.
      destruct E as (_ & _ & _ & _ & _ & _ & _ & _ & _ & Ht & _).
      cbn [fst]; rewrite Ht, ws_check_merged; exact E1.
    - cbn [fst]; rewrite ws_check_merged; exact E1. }
  cbv zeta; rewrite Htime.
  split; [intros [-> | ->]; [reflexivity|unfold float_or; destruct (Req_dec_T 0 0); [reflexivity|lra]]|].
  split; [intros t -> Ht; unfold float_or; destruct (Req_dec_T t 0); [contradiction|reflexivity]|].
  unfold step; cbv zeta.
  set (ws1 := cull_stale _ _).
  assert (E1 : WorldState.time ws1 = float_or ts (WorldState.time (Controller.ws c)))
    by (unfold ws1; rewrite cull_stale_time; reflexivity).
  rewrite <- E1.
  change (Controller.ws (with_ws c ws1)) with ws1.
  change (Controller.hz (with_ws c ws1)) with (Controller.hz c).
  change (Controller._last_emit_tick (with_ws c ws1)) with (Controller._last_emit_tick c).
  destruct (Z.eqb_spec (py_int (WorldState.time ws1 * Controller.hz c))
              (Controller._last_emit_tick c)) as [Heq|Hne]; cbn [negb].
  - split; [cbn; symmetry; exact Heq|].
    intros _; cbn [fst]; repeat split.
    unfold plan_of; change (Controller.ws (with_ws c ws1)) with ws1.
    unfold ws1; rewrite cull_stale_plan; reflexivity.
  - split; [|intros H; contradiction].
    destruct (_try_execute_push _) as [c2|e] eqn:E; cbn [fst].
    + apply try_execute_push_kept in E.
      destruct E as (_ & _ & _ & -> & _).
      destruct (merged_line (Controller.ws (with_last_emit_tick (with_ws c ws1)
                  (py_int (WorldState.time ws1 * Controller.hz c))))) eqn:Em;
        unfold _check_merged; rewrite Em; [destruct (_ <=? _)%Z|]; reflexivity.
    + destruct (merged_line (Controller.ws (with_last_emit_tick (with_ws c ws1)
                  (py_int (WorldState.time ws1 * Controller.hz c))))) eqn:Em;
        unfold _check_merged; rewrite Em; [destruct (_ <=? _)%Z|]; reflexivity.
Qed.

Lemma in_dict_set_value {V : Type} (d : list (string * V)) (k k' : string) (v v' : V) :
  In (k', v') (Dict.set d k v) -> (k' = k /\ v' = v) \/ In (k', v') d.
Proof.
  induction d as [|[k0 v0] d IH]; simpl.
  - intros [[= <- <-]|[]]; auto.
  - destruct (String.eqb k k0); simpl.
    + intros [[= <- <-]|H]; auto.
    + intros [H|H]; auto. destruct (IH H); auto.
Qed.

Lemma objects_remove_sub (ws : WorldState.t) (k k' : string) (o : ACMIObject.t) :
  In (k', o) (WorldState.objects (remove ws k)) -> In (k', o) (WorldState.objects ws).
Proof. unfold remove; simpl; intros H; apply in_pop in H; tauto. Qed.

Lemma objects_cull_sub (ws : WorldState.t) (now : R) (k : string) (o : ACMIObject.t) :
  In (k, o) (WorldState.objects (cull_stale ws now)) -> In (k, o) (WorldState.objects ws).
Proof.
  unfold cull_stale; generalize (WorldState.last_seen ws) as snapshot.
  intros snapshot; revert ws; induction snapshot as [|kv snapshot IH]; intros ws H;
    [exact H|].
  cbn [fold_left] in H; apply IH in H.
  destruct (Rltb _ _); [apply objects_remove_sub in H|]; exact H.
Qed.

Lemma normalise_heading_range (ent : ACMIObject.t) (h : R) :
  T_attr Transform.Heading (normalise_heading ent) = Some h -> 0 <= h < 360.
Proof.
  unfold normalise_heading, T_attr.
  destruct (ACMIObject.T ent) as [tr|] eqn:E; [|rewrite E; discriminate].
  cbn; destruct (Transform.Heading tr) as [x|]; [|discriminate].
  rewrite norm_head_value; intros [= <-]; apply py_fmod_range; lra.
Qed.

Lemma headings_ok_step (c : Controller.t) (ent : Event) :
  headings_ok (Controller.ws c) -> headings_ok (Controller.ws (fst (step c ent))).
Proof.
  intros H; destruct ent as [ts|props|oid|obj].
  - intros k o h Hin; apply (H k o h).
    revert Hin; unfold step; cbv zeta.
    set (ws1 := cull_stale _ _).
    assert (Hsub : In (k, o) (WorldState.objects ws1) ->
                   In (k, o) (WorldState.objects (Controller.ws c)))
      by (unfold ws1; intros Hin; apply objects_cull_sub in Hin; exact Hin).
    destruct (negb _); [|exact Hsub].
    destruct (_try_execute_push _) as [c2|e] eqn:E; cbn [fst].
    + apply try_execute_push_kept in E.
      destruct E as (_ & _ & _ & _ & -> & _).
      rewrite ws_check_merged; exact Hsub.
    + rewrite ws_check_merged; exact Hsub.
  - unfold step; destruct props; exact H.
  - intros k o h Hin; apply (H k o h); revert Hin; cbn; intros Hin.
    apply in_pop in Hin; tauto.
  - intros k o h Hin; rewrite step_update_ws, upsert_objects in Hin.
    apply in_dict_set_value in Hin; destruct Hin as [[_ ->]|Hin].
    + apply normalise_heading_range.
    + apply (H k o h Hin).
Qed.

(** Headings are stored normalised: an update puts the object into the
    registry with its heading brought into [0, 360) and nothing else
    changed, and every heading in the registry stays in that range whatever
    lines and commands follow. *)
Theorem headings_stay_normalised :
  forall c c' : Controller.t,
    reaches c c' ->
    headings_ok (Controller.ws c) ->
    headings_ok (Controller.ws c')
    /\ forall ent,
         Dict.get (WorldState.objects (Controller.ws (fst (step c' (ACTION_UPDATE ent)))))
           (ACMIObject.object_id ent) = Some (normalise_heading ent)
         /\ T_attr Transform.Heading (normalise_heading ent)
            = norm_head (T_attr Transform.Heading ent)
         /\ uv_of (normalise_heading ent) = uv_of ent
         /\ T_attr Transform.Altitude (normalise_heading ent) = T_attr Transform.Altitude ent.
Proof.
  intros c c' Hr; induction Hr as [c|c c' ent Hr IH|c c' text Hr IH]; intros H.
  - split; [exact H|].
    intros ent; rewrite step_update_ws, upsert_objects, normalise_heading_id, get_set_same.
    split; [reflexivity|].
    destruct (normalise_heading_kept ent) as (_ & _ & Eu).
    split; [|split; [exact Eu|]];
      unfold normalise_heading, T_attr; destruct (ACMIObject.T ent) as [tr|] eqn:E;
      cbn; rewrite ?E; reflexivity.
  - apply IH, headings_ok_step, H.
  - apply IH.
    destruct (handle_text_kept c text) as (_ & _ & _ & _ & Ho & _).
    intros k o h Hin; rewrite Ho in Hin; apply (H k o h Hin).
Qed.

Lemma headings_witness : 0 <= 90 < 360.
Proof.
  refine (proj1 (headings_stay_normalised Controller_init blue_scene (reaches_fed [blue1]) _)
            "201" (normalise_heading blue1) 90 _ _).
  - intros k o h [].
  - unfold blue_scene, fed; cbn [fold_left]; rewrite step_update_ws, upsert_objects.
    left; reflexivity.
  - change (norm_head (Some 90) = Some 90); apply norm_head_in_range; lra.
Defined.

End FeedLines.

(** ** The console log and the CAP status *)

Section Console.
Local Open Scope R_scope.
Local Open Scope string_scope.

Lemma deque_append_length (maxlen : nat) (d : list string) (s : string) :
  (0 < maxlen)%nat ->
  (List.length (deque_append maxlen d s) <= maxlen)%nat
  /\ last (deque_append maxlen d s) "" = s
  /\ ((List.length d < maxlen)%nat -> deque_append maxlen d s = (d ++ [s])%list)
  /\ (List.length d = maxlen -> deque_append maxlen d s = (tl d ++ [s])%list).
Proof.
  intros Hm; unfold deque_append; cbv zeta.
  rewrite length_skipn, length_app; cbn [List.length].
  split; [lia|]; split; [|split].
  - destruct (Nat.le_gt_cases (List.length d + 1) maxlen) as [Hle|Hgt].
    + replace (List.length d + 1 - maxlen)%nat with 0%nat by lia.
      cbn [skipn]; apply last_last.
    + rewrite skipn_app.
      replace (List.length d + 1 - maxlen - List.length d)%nat with 0%nat by lia.
      cbn [skipn].
      apply last_last.
  - intros H; replace (List.length d + 1 - maxlen)%nat with 0%nat by lia; reflexivity.
  - intros H; replace (List.length d + 1 - maxlen)%nat with 1%nat by lia.
    destruct d as [|x d]; [simpl in H; lia|reflexivity].
Qed.

Lemma log_ok_log (c : Controller.t) (s : string) : log_ok (log c s).
Proof. unfold log_ok, log; cbn; apply deque_append_length; lia. Qed.

Lemma log_ok_check_merged (c : Controller.t) (tick : Z) :
  log_ok c -> log_ok (_check_merged c tick).
Proof.
  intros H; unfold _check_merged.
  destruct (merged_line _); [|exact H].
  destruct (_ <=? _)%Z; [|exact H].
  exact (log_ok_log c s).
Qed.

Lemma log_ok_birth (c : Controller.t) (obj : ACMIObject.t) :
  log_ok c -> log_ok (_check_missile_birth c obj).
Proof.
  intros H; unfold _check_missile_birth.
  destruct (PySet.mem _ _); [exact H|].
  destruct (negb _); [exact H|].
  destruct (Coal_eqb _ _); [exact H|].
  destruct (uv_of obj); [|exact H].
  destruct (nearest_scan _ _) as [[best|] r]; [|exact H].
  destruct (Rleb _ _); [|exact H].
  destruct (uv_of best); [|exact H].
  destruct (brg_rng_from_xy _ _ _ _); apply log_ok_log.
Qed.

Lemma log_ok_push_fold (p : PushPlan.t) (recips : list string) :
  forall (rc : res Controller.t) (c' : Controller.t),
    fold_left
      (fun rc oid =>
         bind rc (fun c =>
           match Dict.get (WorldState.objects (Controller.ws c)) oid with
           | None => Ok c
           | Some o => bind (push_line p (friendly_label o)) (fun l => Ok (log c l))
           end))
      recips rc = Ok c' ->
    (forall c0, rc = Ok c0 -> log_ok c0) -> log_ok c'.
Proof.
  induction recips as [|oid recips IH]; cbn [fold_left]; intros rc c' H Hrc.
  - apply Hrc; exact H.
  - apply (IH _ _ H); intros c0 E.
    destruct rc as [c1|e]; cbn [bind] in E; [|discriminate].
    destruct (Dict.get _ oid).
    + destruct (push_line p _); cbn [bind] in E; [|discriminate].
      injection E as <-; apply log_ok_log.
    + injection E as <-; apply Hrc; reflexivity.
Qed.

Lemma log_ok_try_push (c c' : Controller.t) :
  _try_execute_push c = Ok c' -> log_ok c -> log_ok c'.
Proof.
  unfold _try_execute_push; intros H Hc.
  destruct (negb _); [injection H as <-; exact Hc|].
  destruct (Rltb _ _); [injection H as <-; exact Hc|].
  destruct (push_recipients (Controller.ws c)) as [|r recips].
  - cbn [bind] in H; injection H as <-; exact (log_ok_log c _).
  - match type of H with
    | bind ?x _ = _ => destruct x as [c1|e] eqn:F
    end; cbn [bind] in H; [|discriminate].
    injection H as <-.
    apply log_ok_push_fold in F; [exact F|].
    intros c0 [= <-]; exact Hc.
Qed.

Lemma log_ok_step (c : Controller.t) (ent : Event) : log_ok c -> log_ok (fst (step c ent)).
Proof.
  intros H; destruct ent as [ts|props|oid|obj]; unfold step; cbv zeta.
  - destruct (negb _); [|exact H].
    match goal with
    | |- context [_try_execute_push ?x] =>
        assert (Hx : log_ok x) by (apply log_ok_check_merged; exact H);
        destruct (_try_execute_push x) as [c2|e] eqn:E
    end; cbn [fst]; [exact (log_ok_try_push _ _ E Hx)|exact Hx].
  - destruct props; exact H.
  - exact H.
  - exact (log_ok_birth c (normalise_heading obj) H).
Qed.

Lemma console_cap_status (c : Controller.t) (name : option string) :
  Controller.console_log (fst (_cap_status_line c name)) = Controller.console_log c.
Proof.
  unfold _cap_status_line; cbv zeta.
  destruct (WorldState.cap_sites (Controller.ws c)) as [|p t]; [reflexivity|].
  set (sites := p :: t).
  destruct name as [n|]; [|reflexivity].
  destruct (nonempty n); [|reflexivity].
  destruct (Dict.get sites n); [|reflexivity].
  destruct (cap_one _ _); reflexivity.
Qed.

Lemma log_ok_handle_text (c : Controller.t) (text : string) :
  log_ok c -> log_ok (fst (handle_text c text)).
Proof.
  intros H; unfold handle_text; cbv zeta.
  destruct (parse_command text);
    repeat match goal with
           | |- log_ok (fst (let (_, _) := _cap_status_line ?c ?cs in _)) =>
               let E := fresh "E" in
               pose proof (console_cap_status c cs) as E;
               destruct (_cap_status_line c cs); unfold log_ok; cbn [fst] in *;
               rewrite E; exact H
           | |- log_ok (fst (match _try_execute_push ?x with _ => _ end)) =>
               let E := fresh "E" in
               destruct (_try_execute_push x) eqn:E;
               [apply log_ok_try_push in E; [exact E|exact H]|exact H]
           | |- log_ok (fst (match ?x with _ => _ end)) => destruct x
           end;
    try exact H.
Qed.

Lemma log_ok_reaches (c c' : Controller.t) : reaches c c' -> log_ok c -> log_ok c'.
Proof.
  intros Hr; induction Hr as [c0|c0 c' ent Hr IH|c0 c' text Hr IH]; intros H.
  - exact H.
  - apply IH, log_ok_step, H.
  - apply IH, log_ok_handle_text, H.
Qed.

(** The console log is a window of 800 lines: a new line goes to the end
    and, once the log is full, the oldest line falls out; everything the
    controller prints goes through it, so the log never holds more than 800
    lines, whatever lines and commands come in. *)
Theorem console_log_bounded :
  forall (c : Controller.t) (s : string),
    log_ok (log c s)
    /\ last (Controller.console_log (log c s)) "" = s
    /\ Controller.printed (log c s) = (Controller.printed c ++ [s])%list
    /\ ((List.length (Controller.console_log c) < 800)%nat ->
        Controller.console_log (log c s) = (Controller.console_log c ++ [s])%list)
    /\ (List.length (Controller.console_log c) = 800%nat ->
        Controller.console_log (log c s) = (tl (Controller.console_log c) ++ [s])%list)
    /\ (forall c', reaches c c' -> log_ok c -> log_ok c').
Proof.
  intros c s.
  destruct (deque_append_length 800 (Controller.console_log c) s) as (H1 & H2 & H3 & H4); [lia|].
  split; [exact H1|]; split; [exact H2|]; split; [reflexivity|].
  split; [exact H3|]; split; [exact H4|].
  intros c' Hr; exact (log_ok_reaches c c' Hr).
Qed.

Lemma mem_In (s : PySet.t) (x : string) : PySet.mem s x = true <-> In x s.
Proof.
  unfold PySet.mem; rewrite existsb_exists; split.
  - intros (y & Hy & E); apply String.eqb_eq in E; subst; exact Hy.
  - intros H; exists x; split; [exact H|apply String.eqb_refl].
Qed.

Lemma mem_discard_inv (s : PySet.t) (x y : string) :
  PySet.mem (PySet.discard s x) y = true -> PySet.mem s y = true /\ y <> x.
Proof.
  rewrite !mem_In; unfold PySet.discard; rewrite filter_In.
  intros [H E]; split; [exact H|].
  intros ->; rewrite String.eqb_refl in E; discriminate.
Qed.

Lemma cap_show_ids (ws : WorldState.t) (cap : CAPSite.t) (l : list string) :
  forall (st : PySet.t * list string) (x : string),
    PySet.mem (fst (fold_left (cap_show ws cap) l st)) x = true ->
    PySet.mem (fst st) x = true
    /\ (In x l -> exists o, Dict.get (WorldState.objects ws) x = Some o).
Proof.
  induction l as [|oid l IH]; cbn [fold_left]; intros st x H.
  - split; [exact H|intros []].
  - apply IH in H; destruct H as [H1 H2].
    unfold cap_show in H1.
    destruct (Dict.get (WorldState.objects ws) oid) as [o|] eqn:E.
    + assert (H1' : PySet.mem (fst st) x = true) by (destruct (uv_of o); exact H1).
      split; [exact H1'|].
      intros [<-|Hin]; [eauto|auto].
    + cbn [fst] in H1; apply mem_discard_inv in H1; destruct H1 as [H1 Hne].
      split; [exact H1|].
      intros [->|Hin]; [contradiction|auto].
Qed.

Lemma cap_one_ids (ws : WorldState.t) (cap : CAPSite.t) (x : string) :
  PySet.mem (CAPSite.assigned_ids (fst (cap_one ws cap))) x = true ->
  PySet.mem (CAPSite.assigned_ids cap) x = true
  /\ exists o, Dict.get (WorldState.objects ws) x = Some o.
Proof.
  unfold cap_one; cbv zeta.
  destruct (CAPSite.assigned_ids cap) as [|i ids] eqn:E; [cbn [fst]; rewrite E; discriminate|].
  destruct (fold_left (cap_show ws cap) (i :: ids) (i :: ids, [])) as [ids' shows] eqn:F.
  cbn [fst CAPSite.assigned_ids with_assigned_ids]; intros H.
  assert (H' : PySet.mem (fst (fold_left (cap_show ws cap) (i :: ids) (i :: ids, []))) x = true)
    by (rewrite F; exact H).
  apply cap_show_ids in H'; destruct H' as [H1 H2]; cbn [fst] in H1.
  split; [exact H1|apply H2, mem_In, H1].
Qed.

(** Asking for the status of all CAP sites tidies them up: afterwards
    every identifier assigned to a site belongs to an object in the
    registry (the others were assigned before and are dropped), and nothing
    else of the world has changed. *)
Theorem cap_status_prunes_assignments :
  forall c : Controller.t,
    let c' := fst (_cap_status_line c None) in
    (forall n cap oid,
       In (n, cap) (WorldState.cap_sites (Controller.ws c')) ->
       PySet.mem (CAPSite.assigned_ids cap) oid = true ->
       (exists o, Dict.get (WorldState.objects (Controller.ws c')) oid = Some o)
       /\ exists cap0, In (n, cap0) (WorldState.cap_sites (Controller.ws c))
                       /\ PySet.mem (CAPSite.assigned_ids cap0) oid = true)
    /\ registry_kept c c'
    /\ map fst (WorldState.cap_sites (Controller.ws c'))
       = map fst (WorldState.cap_sites (Controller.ws c))
    /\ fst (handle_text c "cap status") = c'.
Proof.
  intros c c'.
  assert (Hk : registry_kept c c') by apply cap_status_kept.
  split; [|split; [exact Hk|split]].
  - intros n cap oid Hin Hm.
    destruct Hk as (_ & _ & _ & _ & Ho & _); rewrite Ho.
    revert Hin; unfold c', _cap_status_line; cbv zeta.
    destruct (WorldState.cap_sites (Controller.ws c)) as [|p t] eqn:Es.
    { cbn [fst]; rewrite Es; intros []. }
    set (sites := p :: t).
    cbn [fst Controller.ws with_ws WorldState.cap_sites with_cap_sites].
    rewrite map_map; intros Hin; apply in_map_iff in Hin.
    destruct Hin as ((n0 & cap0) & E & Hin0); cbn [fst snd] in E.
    injection E as <- <-.
    apply cap_one_ids in Hm; destruct Hm as [H1 H2].
    split; [exact H2|exists cap0; auto].
  - unfold c', _cap_status_line; cbv zeta.
    destruct (WorldState.cap_sites (Controller.ws c)) as [|p t] eqn:Es.
    { cbn [fst]; rewrite Es; reflexivity. }
    cbn [fst Controller.ws with_ws WorldState.cap_sites with_cap_sites].
    rewrite !map_map; reflexivity.
  - unfold handle_text; cbv zeta.
    replace (parse_command "cap status") with (Cmd.cap_status None) by (vm_compute; reflexivity).
    unfold c'; destruct (_cap_status_line c None); reflexivity.
Qed.

End Console.

(** ** Texts and patterns *)

Section Texts.
Local Open Scope string_scope.

Lemma rev_str_rev (a b c : string) : rev_str (rev_str a b) c = rev_str b (a ++ c).
Proof.
  revert b c; induction a as [|x a IH]; intros b c; [reflexivity|].
  cbn [rev_str]; rewrite IH; reflexivity.
Qed.

Lemma rev_str_app (a b acc : string) : rev_str (a ++ b) acc = rev_str b (rev_str a acc).
Proof.
  revert acc; induction a as [|x a IH]; intros acc; [reflexivity|].
  cbn [rev_str append]; apply IH.
Qed.

(** A text that begins and ends with something else than white space is
    its own [strip]. *)
Lemma strip_keep (c z : ascii) (a : string) :
  is_space c = false -> is_space z = false ->
  strip (String c (a ++ String z "")) = String c (a ++ String z "").
Proof.
  intros Hc Hz; unfold strip.
  cbn [lstrip_by]; rewrite Hc.
  unfold rstrip_by.
  change (String c (a ++ String z "")) with ((String c a) ++ String z "").
  rewrite rev_str_app; cbn [rev_str lstrip_by]; rewrite Hz.
  cbn [rev_str]; rewrite rev_str_rev; reflexivity.
Qed.

Lemma strip_single (c : ascii) : is_space c = false -> strip (String c "") = String c "".
Proof. intros Hc; unfold strip, rstrip_by; cbn; rewrite Hc; cbn; rewrite Hc; reflexivity. Qed.

Lemma digit_facts (c : ascii) :
  is_digit c = true ->
  is_space c = false /\ is_upper c = false /\ is_alpha c = false /\ lower_char c = c
  /\ (forall x, is_digit x = false -> Ascii.eqb x c = false).
Proof.
  intros H; unfold is_digit in H; cbv zeta in H.
  apply andb_true_iff in H; destruct H as [H1 H2].
  apply Nat.leb_le in H1, H2.
  assert (Hs : is_space c = false).
  { unfold is_space; cbv zeta.
    destruct (Nat.leb_spec 9 (nat_of_ascii c)), (Nat.leb_spec (nat_of_ascii c) 13),
      (Nat.leb_spec 28 (nat_of_ascii c)), (Nat.leb_spec (nat_of_ascii c) 32);
      cbn; try reflexivity; lia. }
  assert (Hu : is_upper c = false).
  { unfold is_upper; cbv zeta.
    destruct (Nat.leb_spec 65 (nat_of_ascii c)); cbn; [lia|reflexivity]. }
  assert (Hl : is_lower c = false).
  { unfold is_lower; cbv zeta.
    destruct (Nat.leb_spec 97 (nat_of_ascii c)); cbn; [lia|reflexivity]. }
  split; [exact Hs|]; split; [exact Hu|]; split; [unfold is_alpha; rewrite Hu, Hl; reflexivity|].
  split; [unfold lower_char; rewrite Hu; reflexivity|].
  intros x Hx; destruct (Ascii.eqb_spec x c) as [->|]; [|reflexivity].
  unfold is_digit in Hx; cbv zeta in Hx.
  rewrite (proj2 (Nat.leb_le _ _) H1), (proj2 (Nat.leb_le _ _) H2) in Hx; discriminate.
Qed.

Lemma lower_digits (ds : string) : all_chars is_digit ds = true -> lower ds = ds.
Proof.
  induction ds as [|c ds IH]; cbn; intros H; [reflexivity|].
  apply andb_true_iff in H; destruct H as [Hc Hd].
  rewrite IH by exact Hd.
  destruct (digit_facts c Hc) as (_ & _ & _ & -> & _); reflexivity.
Qed.

Lemma lower_app (a b : string) : lower (a ++ b) = lower a ++ lower b.
Proof. induction a as [|c a IH]; cbn; [reflexivity|rewrite IH; reflexivity]. Qed.

Lemma substring_all (s : string) : String.substring 0 (String.length s) s = s.
Proof. induction s as [|c s IH]; cbn; [reflexivity|rewrite IH; reflexivity]. Qed.

Lemma list_of_app (a b : string) :
  list_ascii_of_string (a ++ b) = (list_ascii_of_string a ++ list_ascii_of_string b)%list.
Proof. induction a as [|c a IH]; cbn; [reflexivity|rewrite IH; reflexivity]. Qed.

Lemma all_chars_forallb (p : ascii -> bool) (s : string) :
  all_chars p s = forallb p (list_ascii_of_string s).
Proof. induction s as [|c s IH]; cbn; [reflexivity|rewrite IH; reflexivity]. Qed.

(** Greedy repetition runs to the end of the characters of the class when
    the rest of the pattern matches there. *)
Lemma star_greedy_all {X : Type} (p : ascii -> bool) (l r : list ascii)
    (k : list ascii -> option X) (x : X) :
  forallb p l = true -> k r = Some x ->
  match r with [] => True | c :: _ => p c = false end ->
  Re.star_greedy p (l ++ r) k = Some x.
Proof.
  intros Hl Hk Hr; induction l as [|c l IH]; cbn [app].
  - destruct r as [|c r]; cbn; [exact Hk|rewrite Hr; exact Hk].
  - cbn in Hl; apply andb_true_iff in Hl; destruct Hl as [Hc Hl].
    cbn [Re.star_greedy]; rewrite Hc, (IH Hl); reflexivity.
Qed.

(** It fails when the rest of the pattern matches at no point of the run. *)
Lemma star_greedy_none {X : Type} (p : ascii -> bool) (l : list ascii)
    (k : list ascii -> option X) :
  (forall n, k (skipn n l) = None) -> Re.star_greedy p l k = None.
Proof.
  induction l as [|c l IH]; intros H.
  - exact (H 0%nat).
  - cbn [Re.star_greedy]; destruct (p c); [|exact (H 0%nat)].
    rewrite IH; [exact (H 0%nat)|].
    intros n; exact (H (S n)).
Qed.

Lemma consumed_app (l r : list ascii) :
  Re.consumed (l ++ r) r = string_of_list_ascii l.
Proof.
  unfold Re.consumed; rewrite length_app.
  replace (List.length l + List.length r - List.length r)%nat with (List.length l) by lia.
  rewrite firstn_app, Nat.sub_diag, firstn_all; cbn [firstn]; rewrite app_nil_r; reflexivity.
Qed.

Lemma skipn_digits (n : nat) (l : list ascii) : forallb is_digit l = true ->
  forallb is_digit (skipn n l) = true.
Proof.
  revert l; induction n as [|n IH]; intros l H; [exact H|].
  destruct l as [|c l]; [reflexivity|].
  cbn in H; apply andb_true_iff in H; cbn [skipn]; apply IH; tauto.
Qed.

End Texts.

(** ** Time phrases *)

Section TimePhrases.
Local Open Scope R_scope.
Local Open Scope string_scope.

Lemma all_chars_app (p : ascii -> bool) (a b : string) :
  all_chars p (a ++ b) = all_chars p a && all_chars p b.
Proof.
  induction a as [|c a IH]; cbn; [reflexivity|].
  rewrite IH, andb_assoc; reflexivity.
Qed.

Lemma rev_str_head (q : string) :
  nonempty q = true -> all_chars (fun c => negb (is_space c)) q = true ->
  forall acc, exists c r, rev_str q acc = String c r /\ is_space c = false.
Proof.
  induction q as [|x q IH]; [discriminate|].
  intros _ H acc; cbn in H; apply andb_true_iff in H; destruct H as [Hx Hq].
  cbn [rev_str]; destruct q as [|y q].
  - exists x, acc; split; [reflexivity|].
    destruct (is_space x); [discriminate|reflexivity].
  - apply IH; [reflexivity|exact Hq].
Qed.

Lemma append_empty_r (s : string) : s ++ "" = s.
Proof. induction s as [|c s IH]; cbn; [reflexivity|rewrite IH; reflexivity]. Qed.

(** A text that does not begin with white space and ends in a run without
    white space is its own [strip]. *)
Lemma strip_tail_nospace (p q : string) :
  lstrip_by is_space (p ++ q) = p ++ q ->
  nonempty q = true -> all_chars (fun c => negb (is_space c)) q = true ->
  strip (p ++ q) = p ++ q.
Proof.
  intros H1 H2 H3; unfold strip; rewrite H1; unfold rstrip_by.
  rewrite rev_str_app.
  destruct (rev_str_head q H2 H3 (rev_str p "")) as (c & r & E & Hc).
  rewrite E; cbn [lstrip_by]; rewrite Hc, <- E, <- rev_str_app, rev_str_rev.
  cbn [rev_str]; rewrite append_empty_r; reflexivity.
Qed.

Lemma digits_nospace (ds : string) :
  all_chars is_digit ds = true -> all_chars (fun c => negb (is_space c)) ds = true.
Proof.
  induction ds as [|c ds IH]; cbn; intros H; [reflexivity|].
  apply andb_true_iff in H; destruct H as [Hc Hd].
  destruct (digit_facts c Hc) as (-> & _); cbn; auto.
Qed.

Lemma forallb_skipn {A : Type} (p : A -> bool) (n : nat) (l : list A) :
  forallb p l = true -> forallb p (skipn n l) = true.
Proof.
  revert l; induction n as [|n IH]; intros l H; [exact H|].
  destruct l as [|c l]; [reflexivity|].
  cbn in H; apply andb_true_iff in H; cbn [skipn]; apply IH; tauto.
Qed.

(** Digits followed by the unit [z]. *)
Lemma match_digits_unit (z d : ascii) (ds : string) :
  is_digit d = true -> all_chars is_digit ds = true ->
  is_digit z = false -> is_space z = false ->
  exists m,
    Re.match_ (Re.seqs [Re.Grp 1 (Re.plus is_digit); Re.ws; Re.ch z; Re.Eos])
      (String d ds ++ String z "") = Some m
    /\ grp m 1 = String d ds.
Proof.
  intros Hd Hds Hz Hs.
  unfold Re.match_; rewrite list_of_app.
  cbn [list_ascii_of_string app Re.seqs Re.plus Re.run].
  rewrite Hd.
  eexists; split.
  - erewrite star_greedy_all; [reflexivity| | |].
    + rewrite <- all_chars_forallb; exact Hds.
    + cbn [Re.run Re.ws Re.star_greedy]; rewrite Hs.
      cbn [Re.run Re.ch]; rewrite Ascii.eqb_refl; reflexivity.
    + exact Hz.
  - unfold grp, Re.group; cbn [Re.Match.groups Re.group_in Nat.eqb str_or_empty].
    change (d :: (list_ascii_of_string ds ++ [z])%list)
      with ((d :: list_ascii_of_string ds) ++ [z])%list.
    rewrite consumed_app; cbn; rewrite string_of_list_ascii_of_string; reflexivity.
Qed.

(** The unit [u] is not found in a text that has neither [u] nor white
    space after its first character. *)
Lemma match_unit_none (u d : ascii) (t : string) :
  all_chars (fun c => negb (is_space c) && negb (Ascii.eqb u c)) t = true ->
  Re.match_ (Re.seqs [Re.Grp 1 (Re.plus is_digit); Re.ws; Re.ch u; Re.Eos]) (String d t) = None.
Proof.
  intros Ht; unfold Re.match_.
  cbn [list_ascii_of_string Re.seqs Re.plus Re.run].
  destruct (is_digit d); [|reflexivity].
  apply star_greedy_none; intros n.
  rewrite all_chars_forallb in Ht.
  pose proof (forallb_skipn _ n _ Ht) as Hn.
  destruct (skipn n (list_ascii_of_string t)) as [|c r]; [reflexivity|].
  cbn in Hn; apply andb_true_iff in Hn; destruct Hn as [Hc _].
  apply andb_true_iff in Hc; destruct Hc as [H1 H2].
  cbn [Re.run Re.ws Re.star_greedy].
  destruct (is_space c); [discriminate|].
  cbn [Re.run Re.ch]; destruct (Ascii.eqb u c); [discriminate|reflexivity].
Qed.

Lemma match_digits (d : ascii) (ds : string) :
  is_digit d = true -> all_chars is_digit ds = true ->
  exists m, Re.match_ re_digits (String d ds) = Some m /\ grp m 1 = String d ds.
Proof.
  intros Hd Hds; unfold Re.match_, re_digits.
  cbn [list_ascii_of_string Re.seqs Re.plus Re.run]; rewrite Hd.
  rewrite <- (app_nil_r (list_ascii_of_string ds)).
  eexists; split.
  - erewrite star_greedy_all; [reflexivity| | |].
    + rewrite <- all_chars_forallb; exact Hds.
    + reflexivity.
    + exact I.
  - unfold grp, Re.group; cbn [Re.Match.groups Re.group_in Nat.eqb str_or_empty].
    change (d :: (list_ascii_of_string ds ++ [])%list)
      with ((d :: list_ascii_of_string ds) ++ [])%list.
    rewrite consumed_app; cbn; rewrite string_of_list_ascii_of_string; reflexivity.
Qed.

Lemma digits_not_unit (u : ascii) (ds : string) :
  is_digit u = false -> all_chars is_digit ds = true ->
  all_chars (fun c => negb (is_space c) && negb (Ascii.eqb u c)) ds = true.
Proof.
  intros Hu; induction ds as [|c ds IH]; cbn; intros H; [reflexivity|].
  apply andb_true_iff in H; destruct H as [Hc Hd].
  destruct (digit_facts c Hc) as (-> & _ & _ & _ & Hne).
  rewrite (Hne u Hu), IH by exact Hd; reflexivity.
Qed.

Lemma drop_app (p q : string) : drop (String.length p) (p ++ q) = q.
Proof.
  unfold drop; induction p as [|c p IH].
  - cbn; rewrite Nat.sub_0_r; apply substring_all.
  - cbn [append String.length String.substring Nat.sub]; exact IH.
Qed.

(** The phrase as [_parse_time_offset] sees it after [strip] and [lower]. *)
Lemma time_phrase_kept (p q : string) :
  lstrip_by is_space (p ++ q) = p ++ q -> lower p = p -> lower q = q ->
  nonempty q = true -> all_chars (fun c => negb (is_space c)) q = true ->
  lower (strip (p ++ q)) = p ++ q.
Proof.
  intros H1 Hp Hq H2 H3; rewrite strip_tail_nospace by assumption.
  rewrite lower_app, Hp, Hq; reflexivity.
Qed.

Lemma body_kept (q : string) :
  nonempty q = true -> all_chars (fun c => negb (is_space c)) q = true -> strip q = q.
Proof.
  intros H2 H3; apply (strip_tail_nospace "" q); auto.
  destruct q as [|c q]; [discriminate|].
  cbn in H3; cbn; destruct (is_space c); [discriminate|reflexivity].
Qed.

Lemma in_seconds (d : ascii) (ds : string) :
  is_digit d = true -> all_chars is_digit ds = true ->
  _parse_time_offset ("in " ++ String d ds ++ "s") = Some (IZR (int_of_digits (String d ds))).
Proof.
  intros Hd Hds.
  assert (Hn : all_chars (fun c => negb (is_space c)) (String d ds ++ "s") = true).
  { rewrite all_chars_app, digits_nospace; [reflexivity|cbn; rewrite Hd; exact Hds]. }
  assert (Hl : lower (String d ds ++ "s") = String d ds ++ "s").
  { rewrite lower_app, lower_digits; [reflexivity|cbn; rewrite Hd; exact Hds]. }
  unfold _parse_time_offset.
  change (negb (nonempty ("in " ++ String d ds ++ "s"))) with false; cbv iota zeta.
  rewrite (time_phrase_kept "in " (String d ds ++ "s")) by (auto; reflexivity).
  change (startswith ("in " ++ String d ds ++ "s") "in ") with true; cbv iota.
  replace (drop 3 ("in " ++ String d ds ++ "s")) with (String d ds ++ "s")
    by (symmetry; apply (drop_app "in ")).
  rewrite body_kept by (auto; reflexivity).
  destruct (match_digits_unit "s" d ds Hd Hds eq_refl eq_refl) as (m & Hm & Hg).
  unfold re_digits_s; rewrite Hm, Hg; reflexivity.
Qed.

Lemma in_minutes (d : ascii) (ds : string) :
  is_digit d = true -> all_chars is_digit ds = true ->
  _parse_time_offset ("in " ++ String d ds ++ "m")
  = Some (IZR (int_of_digits (String d ds)) * 60.0).
Proof.
  intros Hd Hds.
  assert (Hn : all_chars (fun c => negb (is_space c)) (String d ds ++ "m") = true).
  { rewrite all_chars_app, digits_nospace; [reflexivity|cbn; rewrite Hd; exact Hds]. }
  assert (Hl : lower (String d ds ++ "m") = String d ds ++ "m").
  { rewrite lower_app, lower_digits; [reflexivity|cbn; rewrite Hd; exact Hds]. }
  unfold _parse_time_offset.
  change (negb (nonempty ("in " ++ String d ds ++ "m"))) with false; cbv iota zeta.
  rewrite (time_phrase_kept "in " (String d ds ++ "m")) by (auto; reflexivity).
  change (startswith ("in " ++ String d ds ++ "m") "in ") with true; cbv iota.
  replace (drop 3 ("in " ++ String d ds ++ "m")) with (String d ds ++ "m")
    by (symmetry; apply (drop_app "in ")).
  rewrite body_kept by (auto; reflexivity).
  unfold re_digits_s; cbn [append].
  rewrite (match_unit_none "s" d (ds ++ "m"))
    by (rewrite all_chars_app, digits_not_unit by (auto; reflexivity); reflexivity).
  destruct (match_digits_unit "m" d ds Hd Hds eq_refl eq_refl) as (m & Hm & Hg).
  unfold re_digits_m; change (String d (ds ++ "m")) with (String d ds ++ "m").
  rewrite Hm, Hg; reflexivity.
Qed.

Lemma in_bare (d : ascii) (ds : string) :
  is_digit d = true -> all_chars is_digit ds = true ->
  _parse_time_offset ("in " ++ String d ds) = Some (IZR (int_of_digits (String d ds))).
Proof.
  intros Hd Hds.
  assert (Hall : all_chars is_digit (String d ds) = true) by (cbn; rewrite Hd; exact Hds).
  unfold _parse_time_offset.
  change (negb (nonempty ("in " ++ String d ds))) with false; cbv iota zeta.
  rewrite (time_phrase_kept "in " (String d ds))
    by (auto using lower_digits, digits_nospace; reflexivity).
  change (startswith ("in " ++ String d ds) "in ") with true; cbv iota.
  replace (drop 3 ("in " ++ String d ds)) with (String d ds)
    by (symmetry; apply (drop_app "in ")).
  rewrite body_kept by (auto using digits_nospace; reflexivity).
  unfold re_digits_s, re_digits_m.
  rewrite (match_unit_none "s" d ds) by (apply digits_not_unit; auto).
  rewrite (match_unit_none "m" d ds) by (apply digits_not_unit; auto).
  destruct (match_digits d ds Hd Hds) as (m & Hm & Hg).
  rewrite Hm, Hg; reflexivity.
Qed.

Lemma match_mm_ss_none (d : ascii) (ds : string) :
  all_chars is_digit ds = true -> Re.match_ re_mm_ss (String d ds) = None.
Proof.
  intros Hds; unfold Re.match_, re_mm_ss.
  cbn [list_ascii_of_string Re.seqs Re.plus Re.run].
  destruct (is_digit d); [|reflexivity].
  apply star_greedy_none; intros n.
  rewrite all_chars_forallb in Hds.
  pose proof (forallb_skipn _ n _ Hds) as Hn.
  destruct (skipn n (list_ascii_of_string ds)) as [|c r]; [reflexivity|].
  cbn in Hn; apply andb_true_iff in Hn; destruct Hn as [Hc _].
  destruct (digit_facts c Hc) as (_ & _ & _ & _ & Hne).
  cbn [Re.run Re.ch]; rewrite (Hne ":"%char eq_refl); reflexivity.
Qed.

Lemma match_mm_ss (d a b : ascii) (ds : string) :
  is_digit d = true -> all_chars is_digit ds = true ->
  is_digit a = true -> is_digit b = true ->
  exists m,
    Re.match_ re_mm_ss (String d ds ++ ":" ++ String a (String b "")) = Some m
    /\ grp m 1 = String d ds /\ grp m 2 = String a (String b "").
Proof.
  intros Hd Hds Ha Hb.
  unfold Re.match_, re_mm_ss; rewrite list_of_app.
  cbn [list_ascii_of_string app append Re.seqs Re.plus Re.run].
  rewrite Hd.
  eexists; split.
  - erewrite star_greedy_all; [reflexivity| | |].
    + rewrite <- all_chars_forallb; exact Hds.
    + cbn [Re.run Re.ch Re.d_1_2 Re.digit Re.opt]; rewrite Ascii.eqb_refl.
      cbn [Re.run]; rewrite Ha, Hb; reflexivity.
    + reflexivity.
  - unfold grp, Re.group; cbn [Re.Match.groups Re.group_in Nat.eqb str_or_empty].
    change (d :: (list_ascii_of_string ds ++ [":"%char; a; b])%list)
      with ((d :: list_ascii_of_string ds) ++ [":"%char; a; b])%list.
    rewrite consumed_app; cbn; rewrite string_of_list_ascii_of_string; split; reflexivity.
Qed.

Lemma at_bare (d : ascii) (ds : string) :
  is_digit d = true -> all_chars is_digit ds = true ->
  _parse_time_offset ("at +" ++ String d ds) = Some (IZR (int_of_digits (String d ds))).
Proof.
  intros Hd Hds.
  assert (Hall : all_chars is_digit (String d ds) = true) by (cbn; rewrite Hd; exact Hds).
  unfold _parse_time_offset.
  change (negb (nonempty ("at +" ++ String d ds))) with false; cbv iota zeta.
  rewrite (time_phrase_kept "at +" (String d ds))
    by (auto using lower_digits, digits_nospace; reflexivity).
  change (startswith ("at +" ++ String d ds) "in ") with false; cbv iota.
  change (startswith ("at +" ++ String d ds) "at +") with true; cbv iota.
  replace (drop 4 ("at +" ++ String d ds)) with (String d ds)
    by (symmetry; apply (drop_app "at +")).
  rewrite body_kept by (auto using digits_nospace; reflexivity).
  rewrite (match_mm_ss_none d ds Hds).
  destruct (match_digits d ds Hd Hds) as (m & Hm & Hg).
  rewrite Hm, Hg; reflexivity.
Qed.

Lemma at_minutes_seconds (d a b : ascii) (ds : string) :
  is_digit d = true -> all_chars is_digit ds = true ->
  is_digit a = true -> is_digit b = true ->
  _parse_time_offset ("at +" ++ String d ds ++ ":" ++ String a (String b ""))
  = Some (IZR (int_of_digits (String d ds)) * 60.0
          + IZR (int_of_digits (String a (String b "")))).
Proof.
  intros Hd Hds Ha Hb.
  set (q := String d ds ++ ":" ++ String a (String b "")).
  assert (Hab : all_chars is_digit (String a (String b "")) = true)
    by (cbn; rewrite Ha, Hb; reflexivity).
  assert (Hall : all_chars is_digit (String d ds) = true) by (cbn; rewrite Hd; exact Hds).
  assert (Hn : all_chars (fun c => negb (is_space c)) q = true).
  { unfold q; rewrite !all_chars_app.
    rewrite (digits_nospace _ Hall), (digits_nospace _ Hab); reflexivity. }
  assert (Hl : lower q = q).
  { unfold q; rewrite !lower_app.
    rewrite (lower_digits _ Hall), (lower_digits _ Hab); reflexivity. }
  unfold _parse_time_offset.
  change (negb (nonempty ("at +" ++ q))) with false; cbv iota zeta.
  rewrite (time_phrase_kept "at +" q) by (auto; reflexivity).
  change (startswith ("at +" ++ q) "in ") with false; cbv iota.
  change (startswith ("at +" ++ q) "at +") with true; cbv iota.
  replace (drop 4 ("at +" ++ q)) with q
    by (symmetry; apply (drop_app "at +")).
  rewrite body_kept by (auto; reflexivity).
  destruct (match_mm_ss d a b ds Hd Hds Ha Hb) as (m & Hm & Hg1 & Hg2).
  unfold q; rewrite Hm, Hg1, Hg2; reflexivity.
Qed.

Lemma int_of_digits_bound (l : list ascii) :
  forallb is_digit l = true ->
  forall acc, (0 <= acc)%Z ->
    (fold_left (fun acc c => (acc * 10 + Z.of_nat (nat_of_ascii c - 48))%Z) l acc
     < (acc + 1) * 10 ^ Z.of_nat (List.length l))%Z.
Proof.
  induction l as [|c l IH]; intros H acc Hacc; [cbn; lia|].
  cbn [forallb] in H; apply andb_true_iff in H; destruct H as [Hc Hl].
  unfold is_digit in Hc; cbv zeta in Hc; apply andb_true_iff in Hc; destruct Hc as [H1 H2].
  apply Nat.leb_le in H1, H2.
  cbn [fold_left List.length].
  specialize (IH Hl (acc * 10 + Z.of_nat (nat_of_ascii c - 48))%Z ltac:(lia)).
  rewrite Nat2Z.inj_succ, Z.pow_succ_r by lia.
  assert (Hp : (0 < 10 ^ Z.of_nat (List.length l))%Z) by (apply Z.pow_pos_nonneg; lia).
  nia.
Qed.

(** A number of at most 14 digits, taken as minutes with seconds added,
    stays below 2^53. *)
Lemma short_number (n : string) :
  all_chars is_digit n = true -> (String.length n <= 14)%nat ->
  (0 <= int_of_digits n /\ int_of_digits n * 60 + 99 < 2 ^ 53)%Z.
Proof.
  intros Hd Hl; split; [apply int_of_digits_nonneg|].
  rewrite all_chars_forallb in Hd.
  pose proof (int_of_digits_bound _ Hd 0%Z ltac:(lia)) as H.
  fold (int_of_digits n) in H.
  assert (Hlen : List.length (list_ascii_of_string n) = String.length n).
  { clear; induction n as [|c n IH]; cbn; [reflexivity|rewrite IH; reflexivity]. }
  rewrite Hlen in H.
  assert (Hp : (10 ^ Z.of_nat (String.length n) <= 10 ^ 14)%Z)
    by (apply Z.pow_le_mono_r; lia).
  change (2 ^ 53)%Z with 9007199254740992%Z.
  change (10 ^ 14)%Z with 100000000000000%Z in Hp.
  lia.
Qed.

(** The time phrases of a push, for every number of at most 14 digits
    (the seconds they stand for are whole numbers below 2^53, which a float
    holds exactly): "in <n>s" and "in <n>" are n seconds, "in <n>m" is n
    minutes, "at +<n>" is n seconds and "at +<n>:<ss>" is n minutes and ss
    seconds; "now" is zero. *)
Theorem parse_time_offset_forms :
  forall n : string,
    nonempty n = true -> all_chars is_digit n = true -> (String.length n <= 14)%nat ->
    _parse_time_offset ("in " ++ n ++ "s") = Some (IZR (int_of_digits n))
    /\ _parse_time_offset ("in " ++ n) = Some (IZR (int_of_digits n))
    /\ _parse_time_offset ("in " ++ n ++ "m") = Some (IZR (int_of_digits n) * 60.0)
    /\ _parse_time_offset ("at +" ++ n) = Some (IZR (int_of_digits n))
    /\ (forall a b, is_digit a = true -> is_digit b = true ->
          _parse_time_offset ("at +" ++ n ++ ":" ++ String a (String b ""))
          = Some (IZR (int_of_digits n) * 60.0 + IZR (int_of_digits (String a (String b "")))))
    /\ _parse_time_offset "now" = Some 0.0
    /\ (0 <= int_of_digits n /\ int_of_digits n * 60 + 99 < 2 ^ 53)%Z.
Proof.
  intros n Hne H Hlen.
  pose proof (short_number n H Hlen) as Hshort.
  destruct n as [|d ds]; [discriminate|].
  cbn in H; apply andb_true_iff in H; destruct H as [Hd Hds].
  split; [exact (in_seconds d ds Hd Hds)|].
  split; [exact (in_bare d ds Hd Hds)|].
  split; [exact (in_minutes d ds Hd Hds)|].
  split; [exact (at_bare d ds Hd Hds)|].
  split; [intros a b Ha Hb; exact (at_minutes_seconds d a b ds Hd Hds Ha Hb)|].
  split; [vm_compute; reflexivity|exact Hshort].
Qed.

Lemma parse_time_offset_forms_witness :
  _parse_time_offset "in 90s" = Some (IZR (int_of_digits "90")).
Proof.
  refine (proj1 (parse_time_offset_forms "90" eq_refl eq_refl _)).
  cbn; lia.
Defined.

End TimePhrases.

(** ** Call signs from pilot names *)

(** One step of the matcher on a text whose next characters are known. *)
Ltac re_step :=
  cbn [Re.run Re.star_lazy Re.digit Re.ws Re.star_greedy Re.opt Re.ch Re.seqs Re.plus].

Section CallSigns.
Local Open Scope string_scope.

Lemma alpha_facts (c : ascii) :
  is_alpha c = true -> is_digit c = false /\ is_space c = false /\ is_sep c = false.
Proof.
  unfold is_alpha, is_upper, is_lower, is_digit, is_sep, is_space; cbv zeta; intros H.
  assert (Hn : (65 <= nat_of_ascii c)%nat).
  { apply orb_true_iff in H; destruct H as [H|H]; apply andb_true_iff in H;
      destruct H as [H _]; apply Nat.leb_le in H; lia. }
  assert (E1 : Ascii.eqb c "-" = false).
  { destruct (Ascii.eqb_spec c "-") as [->|]; [cbn in Hn; lia|reflexivity]. }
  assert (E2 : Ascii.eqb c "_" = false).
  { destruct (Ascii.eqb_spec c "_") as [->|]; [|reflexivity].
    cbn in H; discriminate. }
  rewrite E1, E2.
  destruct (Nat.leb_spec (nat_of_ascii c) 57), (Nat.leb_spec (nat_of_ascii c) 13),
    (Nat.leb_spec (nat_of_ascii c) 32); try lia.
Qed.

Lemma digit_not_sep (c : ascii) : is_digit c = true -> is_sep c = false.
Proof.
  intros H; destruct (digit_facts c H) as (Hs & _ & _ & _ & Hne).
  unfold is_sep; rewrite Hs.
  rewrite (Ascii.eqb_sym c "-"), (Ascii.eqb_sym c "_").
  rewrite (Hne "-"%char eq_refl), (Hne "_"%char eq_refl); reflexivity.
Qed.

(** [\d-\d$] is found nowhere in letters followed by digits. *)
Lemma search_dash_none (l : list ascii) (ds : list ascii) :
  forallb is_alpha l = true -> forallb is_digit ds = true ->
  forall pre, Re.search_from re_digit_dash_digit pre (l ++ ds) = None.
Proof.
  intros Hl Hd; induction l as [|c l IH]; intros pre.
  - cbn [app]; revert pre; induction ds as [|d ds IHd]; intros pre; [reflexivity|].
    cbn in Hd; apply andb_true_iff in Hd; destruct Hd as [Hc Hd].
    cbn [Re.search_from]; rewrite (IHd Hd).
    unfold re_digit_dash_digit; cbn [Re.seqs Re.run Re.digit]; rewrite Hc.
    destruct ds as [|e ds]; [reflexivity|].
    cbn in Hd; apply andb_true_iff in Hd; destruct Hd as [He _].
    destruct (digit_facts e He) as (_ & _ & _ & _ & Hne).
    cbn [Re.run Re.ch]; rewrite (Hne "-"%char eq_refl); reflexivity.
  - cbn in Hl; apply andb_true_iff in Hl; destruct Hl as [Hc Hl].
    cbn [app Re.search_from]; rewrite (IH Hl).
    destruct (alpha_facts c Hc) as (Hnd & _).
    unfold re_digit_dash_digit; cbn [Re.seqs Re.run Re.digit]; rewrite Hnd; reflexivity.
Qed.

(** A pattern that matches at some point of the text is found. *)
Lemma search_some (r : Re.t) (s : list ascii) :
  (forall pre, exists m,
      Re.run r s []
        (fun s' c => Some (Re.Match.mk c (string_of_list_ascii (rev pre))
                             (string_of_list_ascii s'))) = Some m) ->
  forall l pre, exists m, Re.search_from r pre (l ++ s) = Some m.
Proof.
  intros H; induction l as [|c l IH]; intros pre.
  - cbn [app]; destruct (H pre) as (m & Hm).
    destruct s; cbn [Re.search_from]; rewrite Hm; eauto.
  - cbn [app Re.search_from].
    destruct (Re.run r (c :: l ++ s) [] _); eauto.
Qed.

Lemma append_assoc (a b c : string) : (a ++ b) ++ c = a ++ b ++ c.
Proof. induction a as [|x a IH]; cbn; [reflexivity|rewrite IH; reflexivity]. Qed.

Lemma strip_name (name q : string) :
  nonempty name = true -> all_chars is_alpha name = true ->
  nonempty q = true -> all_chars (fun c => negb (is_space c)) q = true ->
  strip (name ++ q) = name ++ q.
Proof.
  intros Hn Ha Hq Hs; apply strip_tail_nospace; auto.
  destruct name as [|c name]; [discriminate|].
  cbn in Ha; apply andb_true_iff in Ha; destruct Ha as [Hc _].
  destruct (alpha_facts c Hc) as (_ & Hsp & _).
  cbn [append lstrip_by]; rewrite Hsp; reflexivity.
Qed.

Lemma name_two_digits (c d1 d2 : ascii) (name : string) :
  is_alpha c = true -> all_chars is_alpha name = true ->
  is_digit d1 = true -> is_digit d2 = true ->
  exists m,
    Re.match_ re_name_two_digits (String c name ++ String d1 (String d2 "")) = Some m
    /\ grp m 1 = String c name /\ grp m 2 = String d1 "" /\ grp m 3 = String d2 "".
Proof.
  intros Hc Hn H1 H2.
  destruct (digit_facts d2 H2) as (Hs2 & _ & _ & _ & Hne2).
  unfold Re.match_, re_name_two_digits; rewrite list_of_app.
  cbn [list_ascii_of_string app Re.seqs Re.plus Re.run]; rewrite Hc.
  eexists; split.
  - erewrite star_greedy_all; [reflexivity| | |].
    + rewrite <- all_chars_forallb; exact Hn.
    + re_step; rewrite H1; re_step; rewrite Hs2; re_step.
      rewrite (Hne2 "-"%char eq_refl); re_step; rewrite ?Hs2, H2; reflexivity.
    + destruct (digit_facts d1 H1) as (_ & _ & Ha & _); exact Ha.
  - unfold grp, Re.group; cbn [Re.Match.groups Re.group_in Nat.eqb str_or_empty].
    change (c :: (list_ascii_of_string name ++ [d1; d2])%list)
      with ((c :: list_ascii_of_string name) ++ [d1; d2])%list.
    rewrite consumed_app; cbn; rewrite string_of_list_ascii_of_string; repeat split.
Qed.

Lemma name_two_digits_none (c d1 : ascii) (name : string) :
  all_chars is_alpha name = true -> is_digit d1 = true ->
  Re.match_ re_name_two_digits (String c name ++ String d1 "") = None.
Proof.
  intros Hn H1.
  destruct (digit_facts d1 H1) as (Hs1 & _ & _ & _ & Hne1).
  unfold Re.match_, re_name_two_digits; rewrite list_of_app.
  cbn [list_ascii_of_string app Re.seqs Re.plus Re.run].
  destruct (is_alpha c); [|reflexivity].
  apply star_greedy_none; intros n.
  rewrite all_chars_forallb in Hn.
  assert (Hsk : skipn n (list_ascii_of_string name ++ [d1])
                = (skipn n (list_ascii_of_string name)
                   ++ skipn (n - List.length (list_ascii_of_string name)) [d1])%list)
    by apply skipn_app.
  rewrite Hsk; clear Hsk.
  pose proof (forallb_skipn _ n _ Hn) as Hk.
  destruct (skipn n (list_ascii_of_string name)) as [|x r].
  - cbn [app].
    destruct (n - List.length (list_ascii_of_string name))%nat as [|k]; cbn [skipn].
    + re_step; rewrite H1; re_step.
      rewrite (digit_not_sep d1 H1); reflexivity.
    + destruct k; reflexivity.
  - cbn in Hk; apply andb_true_iff in Hk; destruct Hk as [Hx _].
    destruct (alpha_facts x Hx) as (Hd & _ & Hsep).
    cbn [app Re.run Re.star_lazy Re.digit]; rewrite Hd, Hsep; reflexivity.
Qed.

Lemma name_one_digit (c d1 : ascii) (name : string) :
  is_alpha c = true -> all_chars is_alpha name = true -> is_digit d1 = true ->
  exists m,
    Re.match_ re_name_one_digit (String c name ++ String d1 "") = Some m
    /\ grp m 1 = String c name /\ grp m 2 = String d1 "".
Proof.
  intros Hc Hn H1.
  unfold Re.match_, re_name_one_digit; rewrite list_of_app.
  cbn [list_ascii_of_string app Re.seqs Re.plus Re.run]; rewrite Hc.
  eexists; split.
  - erewrite star_greedy_all; [reflexivity| | |].
    + rewrite <- all_chars_forallb; exact Hn.
    + re_step; rewrite H1; reflexivity.
    + destruct (digit_facts d1 H1) as (_ & _ & Ha & _); exact Ha.
  - unfold grp, Re.group; cbn [Re.Match.groups Re.group_in Nat.eqb str_or_empty].
    change (c :: (list_ascii_of_string name ++ [d1])%list)
      with ((c :: list_ascii_of_string name) ++ [d1])%list.
    rewrite consumed_app; cbn; rewrite string_of_list_ascii_of_string; repeat split.
Qed.

(** A pilot name of letters followed by two digits becomes a call sign
    with flight and element ("Warhawk52" gives "Warhawk 5-2"), with one
    digit the digit is set apart, and a call sign that is already in the
    form "<name> <d>-<d>" is kept; no name gives no call sign. *)
Theorem pilot_to_callsign_forms :
  forall (name : string) (d1 d2 : ascii),
    nonempty name = true -> all_chars is_alpha name = true ->
    is_digit d1 = true -> is_digit d2 = true ->
    _pilot_to_callsign (name ++ String d1 (String d2 ""))
    = Some (name ++ " " ++ String d1 ("-" ++ String d2 ""))
    /\ _pilot_to_callsign (name ++ String d1 "") = Some (name ++ " " ++ String d1 "")
    /\ _pilot_to_callsign (name ++ " " ++ String d1 ("-" ++ String d2 ""))
       = Some (name ++ " " ++ String d1 ("-" ++ String d2 ""))
    /\ _pilot_to_callsign "" = None.
Proof.
  intros name d1 d2 Hne Ha H1 H2.
  destruct (digit_facts d1 H1) as (Hs1 & _).
  destruct (digit_facts d2 H2) as (Hs2 & _).
  assert (Hnonempty : forall q, nonempty (name ++ q) = true)
    by (intros q; destruct name; [discriminate|reflexivity]).
  split; [|split; [|split; [|reflexivity]]].
  - unfold _pilot_to_callsign; rewrite Hnonempty; cbn [negb].
    rewrite strip_name by (auto; cbn; rewrite Hs1, Hs2; reflexivity).
    unfold Re.search; rewrite list_of_app.
    rewrite search_dash_none
      by (rewrite <- ?all_chars_forallb; auto; cbn; rewrite H1, H2; reflexivity).
    destruct name as [|c name]; [discriminate|].
    cbn in Ha; apply andb_true_iff in Ha; destruct Ha as [Hc Hn].
    destruct (name_two_digits c d1 d2 name Hc Hn H1 H2) as (m & Hm & G1 & G2 & G3).
    rewrite Hm, G1, G2, G3; reflexivity.
  - unfold _pilot_to_callsign; rewrite Hnonempty; cbn [negb].
    rewrite strip_name by (auto; cbn; rewrite Hs1; reflexivity).
    unfold Re.search; rewrite list_of_app.
    rewrite search_dash_none
      by (rewrite <- ?all_chars_forallb; auto; cbn; rewrite H1; reflexivity).
    destruct name as [|c name]; [discriminate|].
    cbn in Ha; apply andb_true_iff in Ha; destruct Ha as [Hc Hn].
    rewrite (name_two_digits_none c d1 name Hn H1).
    destruct (name_one_digit c d1 name Hc Hn H1) as (m & Hm & G1 & G2).
    rewrite Hm, G1, G2; reflexivity.
  - unfold _pilot_to_callsign; rewrite Hnonempty; cbn [negb].
    replace (name ++ " " ++ String d1 ("-" ++ String d2 ""))
      with ((name ++ " ") ++ String d1 ("-" ++ String d2 ""))
      by (rewrite append_assoc; reflexivity).
    assert (Hst : strip ((name ++ " ") ++ String d1 ("-" ++ String d2 ""))
                  = (name ++ " ") ++ String d1 ("-" ++ String d2 "")).
    { apply strip_tail_nospace; [|reflexivity|cbn; rewrite Hs1, Hs2; reflexivity].
      destruct name as [|c name]; [discriminate|].
      cbn in Ha; apply andb_true_iff in Ha; destruct Ha as [Hc _].
      destruct (alpha_facts c Hc) as (_ & Hsp & _).
      cbn [append lstrip_by]; rewrite Hsp; reflexivity. }
    rewrite Hst.
    unfold Re.search; rewrite list_of_app.
    destruct (search_some re_digit_dash_digit
                (list_ascii_of_string (String d1 ("-" ++ String d2 "")))) with
      (l := list_ascii_of_string (name ++ " ")) (pre := @nil ascii) as (m & Hm).
    { intros pre; unfold re_digit_dash_digit.
      cbn [list_ascii_of_string append Re.seqs Re.run Re.digit Re.ch].
      rewrite H1; cbn [Ascii.eqb Bool.eqb]; rewrite H2; eauto. }
    rewrite Hm; reflexivity.
Qed.

Lemma pilot_to_callsign_witness : _pilot_to_callsign "Warhawk52" = Some "Warhawk 5-2".
Proof.
  exact (proj1 (pilot_to_callsign_forms "Warhawk" "5" "2" eq_refl eq_refl eq_refl eq_refl)).
Defined.

End CallSigns.

(** ** Groups are a partition *)

Section Partition.
Variables (rng_nm alt_ft : R) (items : list Item.t).

Lemma pass_step_tidy (st : list nat * bool) (j : nat) :
  (j < List.length items)%nat -> tidy items (fst st) ->
  tidy items (fst (pass_step rng_nm alt_ft items st j)).
Proof.
  destruct st as [c changed]; unfold pass_step; cbn [fst]; intros Hj [Hn Hb].
  destruct (in_set c j) eqn:E; [split; assumption|].
  destruct (close_to_cluster rng_nm alt_ft items c j); [|split; assumption].
  cbn [fst]; split.
  - apply NoDup_app; [exact Hn|constructor; [intros []|constructor]|].
    intros x Hx [<-|[]].
    apply (in_set_In c j) in Hx; congruence.
  - intros x Hx; apply in_app_or in Hx; destruct Hx as [Hx|[<-|[]]]; auto.
Qed.

Lemma fold_pass_tidy (l : list nat) :
  (forall j, In j l -> (j < List.length items)%nat) ->
  forall st, tidy items (fst st) -> tidy items (fst (fold_left (pass_step rng_nm alt_ft items) l st)).
Proof.
  induction l as [|j l IH]; intros Hl st H; [exact H|].
  cbn [fold_left]; apply IH; [intros; apply Hl; right; assumption|].
  apply pass_step_tidy; [apply Hl; left; reflexivity|exact H].
Qed.

Lemma grow_tidy (fuel : nat) :
  forall cluster, tidy items cluster -> tidy items (grow rng_nm alt_ft items fuel cluster).
Proof.
  induction fuel as [|f IH]; intros cluster H; [exact H|].
  cbn [grow].
  assert (Hp : tidy items (fst (pass rng_nm alt_ft items cluster))).
  { unfold pass; apply fold_pass_tidy; [|exact H].
    intros j Hj; apply in_seq in Hj; lia. }
  destruct (pass rng_nm alt_ft items cluster) as [c' changed]; cbn [fst] in Hp.
  destruct changed; [apply IH|]; exact Hp.
Qed.

Lemma outer_step_part (st : list (list nat) * list nat) (i : nat) :
  (i < List.length items)%nat -> part_inv rng_nm alt_ft items st ->
  part_inv rng_nm alt_ft items (outer_step rng_nm alt_ft items st i).
Proof.
  intros Hi (Ho & Hc & Ht & Hne).
  split; [apply outer_step_inv; exact Ho|].
  destruct st as [groups used]; cbn [fst snd] in *.
  unfold outer_step; destruct (in_set used i) eqn:E; [repeat split; auto; apply Ht|].
  set (g := grow rng_nm alt_ft items (S (List.length items)) [i]).
  assert (Hin : In i g) by (apply grow_mono; left; reflexivity).
  assert (Hg : tidy items g).
  { apply grow_tidy; split; [constructor; [intros []|constructor]|].
    intros x [<-|[]]; exact Hi. }
  assert (Hch : chained rng_nm alt_ft items g).
  { apply grow_chained; intros x y [<-|[]] [<-|[]]; apply rst_refl. }
  assert (Hdis : forall x, In x used -> ~ In x g).
  { intros x Hx Hxg.
    destruct Ho as [H1 H2]; cbn [fst snd] in H1, H2.
    destruct (H1 x Hx) as (g' & Hg' & Hxg').
    destruct (H2 g' Hg') as [Hcl _].
    assert (Hig' : In i g').
    { apply (closed_linked rng_nm alt_ft items g' Hcl x i); [apply Hch; assumption|exact Hxg']. }
    assert (Hiu : In i used).
    { rewrite Hc; apply in_concat; exists g'; split; assumption. }
    apply (in_set_In used i) in Hiu; congruence. }
  cbn [fst snd]; split; [|split].
  - rewrite concat_app; cbn [List.concat]; rewrite app_nil_r, Hc; reflexivity.
  - destruct Ht as [Hn Hb], Hg as [Hgn Hgb]; split.
    + apply NoDup_app; auto.
    + intros x Hx; apply in_app_or in Hx; destruct Hx; auto.
  - intros g' Hg'; apply in_app_or in Hg'; destruct Hg' as [Hg'|[<-|[]]]; [auto|].
    intros E'; rewrite E' in Hin; destruct Hin.
Qed.

Lemma fold_outer_part (l : list nat) :
  (forall i, In i l -> (i < List.length items)%nat) ->
  forall st, part_inv rng_nm alt_ft items st -> part_inv rng_nm alt_ft items (fold_left (outer_step rng_nm alt_ft items) l st).
Proof.
  induction l as [|i l IH]; intros Hl st H; [exact H|].
  cbn [fold_left]; apply IH; [intros; apply Hl; right; assumption|].
  apply outer_step_part; [apply Hl; left; reflexivity|exact H].
Qed.

Lemma clusters_part :
  part_inv rng_nm alt_ft items (fold_left (outer_step rng_nm alt_ft items) (seq 0 (List.length items)) ([], [])).
Proof.
  apply fold_outer_part; [intros i Hi; apply in_seq in Hi; lia|].
  split; [split; [intros x []|intros g []]|].
  split; [reflexivity|].
  split; [split; [constructor|intros x []]|intros g []].
Qed.

Lemma clusters_permutation :
  Permutation (List.concat (clusters rng_nm alt_ft items)) (seq 0 (List.length items)).
Proof.
  destruct clusters_part as (Ho & Hc & [Hn Hb] & _).
  unfold clusters; rewrite <- Hc.
  apply NoDup_Permutation; [exact Hn|apply seq_NoDup|].
  intros x; split.
  - intros Hx; apply in_seq; specialize (Hb x Hx); lia.
  - intros Hx.
    destruct (fold_outer_inv rng_nm alt_ft items (seq 0 (List.length items)) ([], []))
      as (_ & H & _); [split; [intros y []|intros g []]|].
    apply H; exact Hx.
Qed.

Lemma members_length (g : list nat) :
  tidy items g -> List.length (members items g) = List.length g.
Proof.
  intros [Hn Hb]; unfold members.
  assert (E : forall l,
             (forall k, In k l -> (k < List.length items)%nat) ->
             List.length
               (flat_map (fun k => if in_set g k
                                   then match nth_error items k with
                                        | Some it => [it]
                                        | None => []
                                        end
                                   else []) l)
             = List.length (filter (in_set g) l)).
  { induction l as [|k l IH]; intros Hl; [reflexivity|].
    cbn [flat_map filter]; rewrite length_app, IH by (intros; apply Hl; right; assumption).
    destruct (in_set g k); [|reflexivity].
    destruct (nth_error items k) eqn:En; [reflexivity|].
    apply nth_error_None in En; specialize (Hl k (or_introl eq_refl)); lia. }
  rewrite E by (intros k Hk; apply in_seq in Hk; lia).
  apply Permutation_length, NoDup_Permutation; [apply NoDup_filter, seq_NoDup|exact Hn|].
  intros x; rewrite filter_In, in_seq; split.
  - intros [_ H]; apply in_set_In; exact H.
  - intros H; split; [specialize (Hb x H); lia|apply in_set_In; exact H].
Qed.

Lemma tidy_parts (gs : list (list nat)) :
  tidy items (List.concat gs) -> forall g, In g gs -> tidy items g.
Proof.
  induction gs as [|h gs IH]; intros [Hn Hb] g []; subst.
  - cbn [List.concat] in *; split.
    + apply NoDup_app_remove_r in Hn; exact Hn.
    + intros x Hx; apply Hb, in_or_app; left; exact Hx.
  - apply IH; [|assumption]; cbn [List.concat] in *; split.
    + apply NoDup_app_remove_l in Hn; exact Hn.
    + intros x Hx; apply Hb, in_or_app; right; exact Hx.
Qed.

Lemma concat_members_length (gs : list (list nat)) :
  (forall g, In g gs -> tidy items g) ->
  List.length (List.concat (map (members items) gs)) = List.length (List.concat gs).
Proof.
  induction gs as [|h gs IH]; intros H; [reflexivity|].
  cbn [map List.concat]; rewrite !length_app, IH by (intros; apply H; right; assumption).
  rewrite members_length by (apply H; left; reflexivity); reflexivity.
Qed.

Lemma flat_map_filter {A B : Type} (p : A -> bool) (f : A -> list B) (l : list A) :
  flat_map (fun k => if p k then f k else []) l = flat_map f (filter p l).
Proof.
  induction l as [|k l IH]; [reflexivity|].
  cbn [flat_map filter]; rewrite IH; destruct (p k); reflexivity.
Qed.

(** The members of a cluster are the items at its positions. *)
Lemma members_perm (g : list nat) :
  tidy items g -> Permutation (members items g) (flat_map (item_at items) g).
Proof.
  intros [Hn Hb]; unfold members.
  change (fun k => if in_set g k
                   then match nth_error items k with Some it => [it] | None => [] end
                   else [])
    with (fun k => if in_set g k then item_at items k else []).
  rewrite flat_map_filter.
  apply Permutation_flat_map, NoDup_Permutation; [apply NoDup_filter, seq_NoDup|exact Hn|].
  intros x; rewrite filter_In, in_seq; split.
  - intros [_ H]; apply in_set_In; exact H.
  - intros H; split; [specialize (Hb x H); lia|apply in_set_In; exact H].
Qed.

Lemma members_In_inv (g : list nat) (it : Item.t) :
  In it (members items g) -> exists k, In k g /\ nth_error items k = Some it.
Proof.
  unfold members; intros H; apply in_flat_map in H; destruct H as (k & _ & H).
  destruct (in_set g k) eqn:E; [|destruct H].
  destruct (nth_error items k) as [x|] eqn:En; [|destruct H].
  destruct H as [<-|[]]; exists k; split; [apply in_set_In; exact E|exact En].
Qed.

Lemma concat_members_perm (gs : list (list nat)) :
  (forall g, In g gs -> tidy items g) ->
  Permutation (List.concat (map (members items) gs))
    (flat_map (item_at items) (List.concat gs)).
Proof.
  induction gs as [|h gs IH]; intros H; [constructor|].
  cbn [map List.concat]; rewrite flat_map_app.
  apply Permutation_app.
  - apply members_perm, H; left; reflexivity.
  - apply IH; intros; apply H; right; assumption.
Qed.

End Partition.

Section ItemsAt.

Lemma items_at_seq (l pre : list Item.t) :
  flat_map (item_at (pre ++ l)) (seq (List.length pre) (List.length l)) = l.
Proof.
  revert pre; induction l as [|x l IH]; intros pre; [reflexivity|].
  cbn [List.length seq flat_map].
  unfold item_at at 1; rewrite nth_error_app2, Nat.sub_diag by lia; cbn [nth_error app].
  f_equal.
  replace (pre ++ x :: l)%list with ((pre ++ [x]) ++ l)%list
    by (rewrite <- app_assoc; reflexivity).
  replace (S (List.length pre)) with (List.length (pre ++ [x])%list)
    by (rewrite length_app; cbn; lia).
  apply IH.
Qed.

Lemma NoDup_concat_unique {A : Type} (gs : list (list A)) :
  NoDup (List.concat gs) ->
  forall g h x, In g gs -> In h gs -> In x g -> In x h -> g = h.
Proof.
  induction gs as [|k gs IH]; intros Hn g h x Hg Hh Hxg Hxh; [destruct Hg|].
  cbn [List.concat] in Hn.
  assert (Hsep : forall y, In y k -> ~ In y (List.concat gs)).
  { intros y Hy Hc; revert Hn Hy Hc; clear; induction k as [|z k IHk]; intros Hn Hy Hc.
    - destruct Hy.
    - cbn [app] in Hn; inversion Hn as [|? ? Hz Hn']; subst.
      destruct Hy as [<-|Hy]; [apply Hz, in_or_app; right; exact Hc|].
      exact (IHk Hn' Hy Hc). }
  destruct Hg as [<-|Hg]; destruct Hh as [<-|Hh]; [reflexivity| | |].
  - exfalso; apply (Hsep x Hxg), in_concat; eauto.
  - exfalso; apply (Hsep x Hxh), in_concat; eauto.
  - apply (IH (NoDup_app_remove_l _ _ Hn) g h x); assumption.
Qed.

(** The groups hold the items, each as often as the list has it. *)
Lemma groups_permutation (contacts : list ACMIObject.t) (rng_nm alt_ft : R) :
  Permutation (List.concat (group_contacts contacts rng_nm alt_ft)) (items_of contacts).
Proof.
  unfold group_contacts; cbv zeta.
  set (items := items_of contacts).
  destruct (clusters_part rng_nm alt_ft items) as (_ & Hc & Ht & _).
  fold (clusters rng_nm alt_ft items) in Hc.
  cbn [snd] in Hc, Ht; rewrite Hc in Ht.
  rewrite (concat_members_perm items _ (tidy_parts items _ Ht)).
  rewrite (Permutation_flat_map (item_at items) (clusters_permutation rng_nm alt_ft items)).
  rewrite <- (items_at_seq items []) at 3; reflexivity.
Qed.

End ItemsAt.

Section PartitionOfContacts.
Local Open Scope R_scope.
Local Open Scope string_scope.

(** Grouping is a partition of the contacts that have a planar position:
    the groups together hold these contacts, each as often as the list of
    contacts has it, so every one of them is in a group and, in a list
    without repeats, none is in two groups or twice in one; no group is
    empty, and there are at most as many groups as such contacts. *)
Theorem groups_partition_contacts :
  forall (contacts : list ACMIObject.t) (rng_nm alt_ft : R),
    let items := items_of contacts in
    let groups := group_contacts contacts rng_nm alt_ft in
    Permutation (List.concat groups) items
    /\ (forall it, In it items <-> exists g, In g groups /\ In it g)
    /\ (NoDup items -> NoDup (List.concat groups))
    /\ (NoDup items -> forall g h it, In g groups -> In h groups ->
                                     In it g -> In it h -> g = h)
    /\ Permutation (List.concat (clusters rng_nm alt_ft items)) (seq 0 (List.length items))
    /\ NoDup (List.concat (clusters rng_nm alt_ft items))
    /\ (forall g, In g groups -> g <> [])
    /\ List.length (List.concat groups) = List.length items
    /\ (List.length groups <= List.length items)%nat.
Proof.
  intros contacts rng_nm alt_ft items groups.
  pose proof (groups_permutation contacts rng_nm alt_ft) as Hperm.
  fold items groups in Hperm.
  split; [exact Hperm|].
  split.
  { intros it; split.
    - intros Hin; apply (Permutation_in _ (Permutation_sym Hperm)) in Hin.
      apply in_concat in Hin; destruct Hin as (g & Hg & Hit); eauto.
    - intros (g & Hg & Hit); apply (Permutation_in _ Hperm).
      apply in_concat; eauto. }
  split; [intros Hnd; exact (Permutation_NoDup (Permutation_sym Hperm) Hnd)|].
  split.
  { intros Hnd g h it Hg Hh Hig Hih.
    apply (Permutation_NoDup (Permutation_sym Hperm)) in Hnd.
    exact (NoDup_concat_unique groups Hnd g h it Hg Hh Hig Hih). }
  clear Hperm; unfold groups; clear groups.
  pose proof (clusters_permutation rng_nm alt_ft items) as Hp.
  destruct (clusters_part rng_nm alt_ft items) as (Ho & Hc & Ht & Hne).
  fold (clusters rng_nm alt_ft items) in Hc, Hne.
  cbn [snd] in Hc, Ht; rewrite Hc in Ht.
  assert (Hlen : List.length (List.concat (group_contacts contacts rng_nm alt_ft))
                 = List.length items).
  { unfold group_contacts; fold items.
    rewrite concat_members_length by (apply tidy_parts; exact Ht).
    rewrite (Permutation_length Hp), length_seq; reflexivity. }
  assert (Hnonempty : forall g, In g (group_contacts contacts rng_nm alt_ft) -> g <> []).
  { unfold group_contacts; fold items; intros g Hg.
    apply in_map_iff in Hg; destruct Hg as (c & <- & Hc').
    pose proof (tidy_parts items _ Ht c Hc') as Htc.
    intros E; apply (f_equal (@List.length _)) in E.
    rewrite (members_length items c Htc) in E.
    destruct c; [exact (Hne [] Hc' eq_refl)|discriminate]. }
  split; [exact Hp|]; split; [apply Ht|]; split; [exact Hnonempty|]; split; [exact Hlen|].
  rewrite <- Hlen.
  clear Hlen; induction (group_contacts contacts rng_nm alt_ft) as [|g gs IH]; [cbn; lia|].
  cbn [List.concat List.length]; rewrite length_app.
  assert (g <> []) by (apply Hnonempty; left; reflexivity).
  assert (List.length gs <= List.length (List.concat gs))%nat
    by (apply IH; intros; apply Hnonempty; right; assumption).
  destruct g; [congruence|cbn; lia].
Qed.

End PartitionOfContacts.

(** ** CAP sites *)

Section CapSites.
Local Open Scope R_scope.
Local Open Scope string_scope.

Lemma mem_union_l (a b : PySet.t) (x : string) :
  PySet.mem a x = true -> PySet.mem (PySet.union a b) x = true.
Proof.
  unfold PySet.union; revert a; induction b as [|y b IH]; intros a H; [exact H|].
  cbn [fold_left]; apply IH, mem_add_keeps, H.
Qed.

Lemma mem_union_r (a b : PySet.t) (x : string) :
  PySet.mem b x = true -> PySet.mem (PySet.union a b) x = true.
Proof.
  unfold PySet.union; revert a; induction b as [|y b IH]; intros a H; [discriminate|].
  cbn [fold_left]; cbn in H; apply orb_true_iff in H; destruct H as [H|H].
  - apply String.eqb_eq in H; subst y.
    generalize (mem_add_same a x); generalize (PySet.add a x).
    clear; intros s Hs; revert s Hs; induction b as [|z b IH]; intros s Hs; [exact Hs|].
    cbn [fold_left]; apply IH, mem_add_keeps, Hs.
  - apply IH; exact H.
Qed.

Lemma recipients_include (sites : list (string * CAPSite.t)) (n : string)
    (cap : CAPSite.t) (x : string) :
  In (n, cap) sites -> PySet.mem (CAPSite.assigned_ids cap) x = true ->
  forall acc,
    PySet.mem (fold_left (fun recips kc => PySet.union recips (CAPSite.assigned_ids (snd kc)))
                 sites acc) x = true.
Proof.
  assert (Hkeep : forall l acc,
             PySet.mem acc x = true ->
             PySet.mem (fold_left
                          (fun recips (kc : string * CAPSite.t) =>
                             PySet.union recips (CAPSite.assigned_ids (snd kc))) l acc) x = true).
  { induction l as [|kc l IH]; intros acc H; [exact H|].
    cbn [fold_left]; apply IH, mem_union_l, H. }
  induction sites as [|kc sites IH]; intros [] Hm acc.
  - subst kc; cbn [fold_left snd]; apply Hkeep, mem_union_r, Hm.
  - cbn [fold_left]; apply IH; assumption.
Qed.

(** Defining, assigning and clearing CAP sites.  A site that is defined
    at a bullseye point is stored under its name with that centre and with
    no flight assigned, also when the name was in use; assigning a flight
    adds it to the site and to the recipients of a push; clearing removes
    one site or all of them.  The other sites are left as they are. *)
Theorem cap_sites_lifecycle :
  forall (c : Controller.t) (text : string),
    let c' := fst (handle_text c text) in
    let sites := WorldState.cap_sites (Controller.ws c) in
    let sites' := WorldState.cap_sites (Controller.ws c') in
    (forall name brg rng radius alt b,
       parse_command text = Cmd.cap_add_bulls name brg rng radius alt ->
       buv_of c = Some b ->
       Dict.get sites' name
       = Some (CAPSite.mk name (bulls_to_uv (fst b) (snd b) (IZR brg) (IZR rng)) radius
                 (fst (_parse_alt_block alt)) (snd (_parse_alt_block alt)) [])
       /\ forall k, k <> name -> Dict.get sites' k = Dict.get sites k)
    /\ (forall cs target fighter cap,
          parse_command text = Cmd.cap_assign cs target ->
          find_callsign (blues (Controller.ws c)) (Some cs) = Some fighter ->
          Dict.get sites target = Some cap ->
          (exists cap',
             Dict.get sites' target = Some cap'
             /\ PySet.mem (CAPSite.assigned_ids cap') (ACMIObject.object_id fighter) = true
             /\ (forall x, PySet.mem (CAPSite.assigned_ids cap) x = true ->
                           PySet.mem (CAPSite.assigned_ids cap') x = true))
          /\ PySet.mem (push_recipients (Controller.ws c')) (ACMIObject.object_id fighter) = true
          /\ forall k, k <> target -> Dict.get sites' k = Dict.get sites k)
    /\ (parse_command text = Cmd.cap_clear "all" -> sites' = [])
    /\ (forall name,
          parse_command text = Cmd.cap_clear name -> name <> "all" ->
          Dict.get sites' name = None
          /\ forall k, k <> name -> Dict.get sites' k = Dict.get sites k).
Proof.
  intros c text; cbv zeta; unfold handle_text; cbv zeta.
  split; [|split; [|split]].
  - intros name brg rng radius alt b Hp Hb; unfold buv_of in Hb; rewrite Hp, Hb.
    destruct (_parse_alt_block alt) as [lo hi]; cbn.
    split; [apply get_set_same|intros k Hk; apply get_set_other; congruence].
  - intros cs target fighter cap Hp Hf Hg; rewrite Hp, Hf, Hg.
    cbn [fst Controller.ws with_ws WorldState.cap_sites with_cap_sites].
    assert (Hm : PySet.mem (PySet.add (CAPSite.assigned_ids cap) (ACMIObject.object_id fighter))
                   (ACMIObject.object_id fighter) = true) by apply mem_add_same.
    split; [|split].
    + eexists; split; [apply get_set_same|].
      split; [exact Hm|intros x Hx; apply mem_add_keeps; exact Hx].
    + unfold push_recipients.
      cbn [Controller.ws with_ws WorldState.cap_sites with_cap_sites].
      eapply recipients_include; [apply get_in, get_set_same|exact Hm].
    + intros k Hk; apply get_set_other; congruence.
  - intros Hp; rewrite Hp; reflexivity.
  - intros name Hp Hn; rewrite Hp.
    destruct (String.eqb_spec name "all") as [E|_]; [contradiction|].
    destruct (Dict.mem (WorldState.cap_sites (Controller.ws c)) name) eqn:Em.
    + cbn [fst Controller.ws with_ws WorldState.cap_sites with_cap_sites].
      split; [apply get_pop_same|intros k Hk; apply get_pop_other; congruence].
    + cbn [fst]; split; [|reflexivity].
      unfold Dict.mem in Em; destruct (Dict.get _ name); [discriminate|reflexivity].
Qed.

Lemma cap_sites_witness :
  Dict.get (WorldState.cap_sites
              (Controller.ws (fst (handle_text bull_scene "cap add north bulls 090 for 20"))))
    "north"
  = Some (CAPSite.mk "north" (bulls_to_uv 1852 1852 (IZR 90) (IZR 20)) 10.0
            (fst (_parse_alt_block "20-40")) (snd (_parse_alt_block "20-40")) []).
Proof.
  refine (proj1 (proj1 (cap_sites_lifecycle bull_scene "cap add north bulls 090 for 20")
                   "north" 90%Z 20%Z 10.0 "20-40" (1852, 1852) _ bull_scene_buv)).
  vm_compute; reflexivity.
Defined.

End CapSites.

(** ** The sanitizer *)

Section SanitizerFacts.
Local Open Scope string_scope.

Lemma glue_sub_bars (l : list ascii) :
  forall skip, filter not_bar (glue_sub l skip) = filter not_bar l.
Proof.
  induction l as [|c l IH]; intros skip; [reflexivity|].
  cbn [glue_sub]; cbv zeta.
  destruct (match skip with
            | O => match glue_match (c :: l) with Some n => n | None => O end
            | S _ => skip
            end) as [|[|m]]; cbn [filter]; rewrite ?IH; reflexivity.
Qed.

Lemma list_prefix_string (p s : string) :
  list_prefix p (list_ascii_of_string s) = String.prefix p s.
Proof.
  revert s; induction p as [|a p IH]; intros s; [destruct s; reflexivity|].
  destruct s as [|b s]; [reflexivity|].
  cbn [list_prefix list_ascii_of_string String.prefix]; rewrite IH.
  destruct (Ascii.eqb_spec a b) as [->|Hne].
  - destruct (ascii_dec b b); [reflexivity|contradiction].
  - destruct (ascii_dec a b); [contradiction|reflexivity].
Qed.

Lemma glue_sub_quiet (s : string) :
  contains "Health=" s = false -> glue_sub (list_ascii_of_string s) 0 = list_ascii_of_string s.
Proof.
  induction s as [|c s IH]; intros H; [reflexivity|].
  cbn [contains] in H; apply orb_false_iff in H; destruct H as [Hp Hc].
  cbn [list_ascii_of_string glue_sub]; cbv zeta.
  unfold glue_match.
  change (c :: list_ascii_of_string s) with (list_ascii_of_string (String c s)).
  rewrite list_prefix_string, Hp, IH by exact Hc; reflexivity.
Qed.

(** A run that is found ends in front of a "Name=". *)
Lemma glue_run_found (l : list ascii) :
  forall n, glue_run l = Some n ->
    exists m, n = S m /\ list_prefix "Name=" (skipn n l) = true
              /\ (m < List.length l)%nat.
Proof.
  induction l as [|c l IH]; intros n H; [discriminate|].
  cbn [glue_run] in H; destruct (not_sep c); [|discriminate].
  destruct (glue_run l) as [k|] eqn:E.
  - injection H as <-; destruct (IH k eq_refl) as (m & -> & Hp & Hl).
    exists (S m); cbn [skipn List.length] in *; split; [reflexivity|split; [exact Hp|lia]].
  - destruct (list_prefix "Name=" l) eqn:Ep; [|discriminate].
    injection H as <-; exists 0%nat; cbn; split; [reflexivity|split; [exact Ep|lia]].
Qed.

Lemma contains_skipn (p s : string) (n : nat) :
  list_prefix p (skipn n (list_ascii_of_string s)) = true ->
  (n <= String.length s)%nat -> contains p s = true.
Proof.
  revert n; induction s as [|c s IH]; intros n H Hn.
  - cbn in Hn; assert (n = 0)%nat by lia; subst n; cbn [skipn] in H.
    change [] with (list_ascii_of_string "") in H; rewrite list_prefix_string in H.
    cbn [contains]; rewrite H; reflexivity.
  - destruct n as [|n].
    + cbn [skipn] in H; rewrite list_prefix_string in H.
      cbn [contains]; rewrite H; reflexivity.
    + cbn [skipn list_ascii_of_string] in H; cbn [contains].
      rewrite (IH n H) by (cbn in Hn; lia); apply orb_true_r.
Qed.

Lemma length_list_of (s : string) : List.length (list_ascii_of_string s) = String.length s.
Proof. induction s as [|c s IH]; cbn; [reflexivity|rewrite IH; reflexivity]. Qed.

(** The run of a value [v] that has "Name=" glued to it, when no further
    "Name=" follows. *)
Lemma glue_run_value (v rest : string) :
  nonempty v = true -> all_chars not_sep v = true ->
  contains "Name=" ("ame=" ++ rest) = false ->
  glue_run (list_ascii_of_string (v ++ "Name=" ++ rest)) = Some (String.length v).
Proof.
  intros Hne Hv Hrest.
  assert (Htail : glue_run (list_ascii_of_string ("Name=" ++ rest)) = None).
  { destruct (glue_run (list_ascii_of_string ("Name=" ++ rest))) as [n|] eqn:E; [|reflexivity].
    destruct (glue_run_found _ _ E) as (m & -> & Hp & Hl).
    cbn [append list_ascii_of_string skipn] in Hp.
    change ("a"%char :: "m"%char :: "e"%char :: "="%char :: list_ascii_of_string rest)
      with (list_ascii_of_string ("ame=" ++ rest)) in Hp.
    apply contains_skipn in Hp; [congruence|].
    rewrite length_list_of in Hl; cbn [append String.length] in *; lia. }
  assert (Hhead : list_prefix "Name=" (list_ascii_of_string ("Name=" ++ rest)) = true)
    by reflexivity.
  remember ("Name=" ++ rest) as q eqn:Eq; clear Eq Hrest.
  induction v as [|c v IH]; [discriminate|].
  cbn in Hv; apply andb_true_iff in Hv; destruct Hv as [Hc Hv].
  cbn [append list_ascii_of_string glue_run]; rewrite Hc.
  destruct v as [|d v].
  - cbn [append]; rewrite Htail, Hhead; reflexivity.
  - rewrite IH by (auto; reflexivity); reflexivity.
Qed.

Lemma string_of_app (a b : list ascii) :
  string_of_list_ascii (a ++ b) = string_of_list_ascii a ++ string_of_list_ascii b.
Proof. induction a as [|c a IH]; cbn; [reflexivity|rewrite IH; reflexivity]. Qed.

Lemma glue_sub_copy (l r : list ascii) :
  l <> [] -> glue_sub (l ++ r) (List.length l) = (l ++ "|"%char :: glue_sub r 0)%list.
Proof.
  induction l as [|c l IH]; intros Hne; [contradiction|].
  destruct l as [|d l]; [reflexivity|].
  cbn [app List.length glue_sub]; cbv zeta.
  f_equal; apply (IH ltac:(discriminate)).
Qed.

(** The sanitizer only ever adds bars: without them the line is what it
    was.  A line without "Health=" is returned as it is; a line that starts
    with a health value glued to "Name=" gets the bar between the two. *)
Theorem sanitize_adds_bars_only :
  forall line : string,
    filter not_bar (list_ascii_of_string (sanitize_glued_props line))
    = filter not_bar (list_ascii_of_string line)
    /\ (contains "Health=" line = false -> sanitize_glued_props line = line)
    /\ (forall v rest,
          line = "Health=" ++ v ++ "Name=" ++ rest ->
          nonempty v = true -> all_chars not_sep v = true ->
          contains "Name=" ("ame=" ++ rest) = false ->
          sanitize_glued_props line
          = "Health=" ++ v ++ "|" ++ sanitize_glued_props ("Name=" ++ rest)).
Proof.
  intros line; unfold sanitize_glued_props; split; [|split].
  - rewrite list_ascii_of_string_of_list_ascii; apply glue_sub_bars.
  - intros H; rewrite glue_sub_quiet by exact H; apply string_of_list_ascii_of_string.
  - intros v rest -> Hne Hv Hrest.
    assert (Hm : glue_match (list_ascii_of_string ("Health=" ++ v ++ "Name=" ++ rest))
                 = Some (7 + String.length v)%nat).
    { unfold glue_match.
      change (list_ascii_of_string ("Health=" ++ v ++ "Name=" ++ rest))
        with (list_ascii_of_string "Health=" ++ list_ascii_of_string (v ++ "Name=" ++ rest))%list.
      change (list_prefix "Health=" _) with true; cbv iota.
      change (skipn 7 _) with (list_ascii_of_string (v ++ "Name=" ++ rest)).
      rewrite glue_run_value by assumption; reflexivity. }
    replace (list_ascii_of_string ("Health=" ++ v ++ "Name=" ++ rest))
      with (list_ascii_of_string ("Health=" ++ v) ++ list_ascii_of_string ("Name=" ++ rest))%list
      in *
      by (rewrite <- list_of_app, append_assoc; reflexivity).
    assert (Hlen : List.length (list_ascii_of_string ("Health=" ++ v)) = (7 + String.length v)%nat)
      by (rewrite length_list_of; reflexivity).
    assert (Hstart : forall l r, glue_match (l ++ r) = Some (List.length l) -> l <> [] ->
                                 glue_sub (l ++ r) 0 = glue_sub (l ++ r) (List.length l)).
    { intros l r Hg Hl; destruct l as [|c l]; [contradiction|].
      cbn [app glue_sub]; cbv zeta; cbn [app] in Hg; rewrite Hg; reflexivity. }
    rewrite Hstart; [|rewrite Hlen; exact Hm|discriminate].
    rewrite glue_sub_copy by discriminate.
    rewrite string_of_app, string_of_list_ascii_of_string.
    cbn [string_of_list_ascii]; rewrite append_assoc; reflexivity.
Qed.

Lemma sanitize_witness :
  sanitize_glued_props "Health=1.00Name=F-16C" = "Health=1.00|Name=F-16C".
Proof.
  exact (proj2 (proj2 (sanitize_adds_bars_only "Health=1.00Name=F-16C"))
           "1.00" "F-16C" eq_refl eq_refl eq_refl eq_refl).
Defined.

End SanitizerFacts.

(** ** The MERGED call in the loop *)

Section MergedLoop.
Local Open Scope R_scope.
Local Open Scope string_scope.

Lemma time_world_plan (c : Controller.t) (ts : option R) :
  WorldState.push_plan (time_world c ts) = plan_of c.
Proof. unfold time_world; cbv zeta; rewrite cull_stale_plan; reflexivity. Qed.

(** A TIME line in a tick already seen only moves the world on. *)
Lemma step_time_same (c : Controller.t) (ts : option R) :
  time_tick c ts = Controller._last_emit_tick c ->
  fst (step c (ACTION_TIME ts)) = with_ws c (time_world c ts).
Proof.
  intros H; unfold step; cbv zeta.
  change (py_int _) with (time_tick c ts).
  change (Controller._last_emit_tick (with_ws c _)) with (Controller._last_emit_tick c).
  rewrite H, Z.eqb_refl; reflexivity.
Qed.

(** A TIME line in a new tick runs the merge check on the world as it is
    then; with no plan active the push scheduler adds nothing. *)
Lemma step_time_new (c : Controller.t) (ts : option R) :
  PushPlan.active (plan_of c) = false ->
  time_tick c ts <> Controller._last_emit_tick c ->
  fst (step c (ACTION_TIME ts))
  = _check_merged (with_last_emit_tick (with_ws c (time_world c ts)) (time_tick c ts))
      (time_tick c ts).
Proof.
  intros Hp H; unfold step; cbv zeta.
  change (py_int _) with (time_tick c ts).
  change (Controller._last_emit_tick (with_ws c _)) with (Controller._last_emit_tick c).
  apply Z.eqb_neq in H; rewrite H; cbn [negb].
  change (cull_stale _ _) with (time_world c ts).
  set (c1 := _check_merged _ _).
  assert (E : _try_execute_push c1 = Ok c1).
  { unfold _try_execute_push, c1; rewrite ws_check_merged.
    change (Controller.ws (with_last_emit_tick (with_ws c (time_world c ts)) (time_tick c ts)))
      with (time_world c ts).
    rewrite time_world_plan, Hp; reflexivity. }
  rewrite E; reflexivity.
Qed.

Lemma reaches_merge_state (c c' : Controller.t) :
  reaches c c' -> Controller._merged_cooldown c' = Controller._merged_cooldown c.
Proof.
  induction 1 as [c|c c' ent _ IH|c c' text _ IH]; [reflexivity| |].
  - rewrite IH; exact (proj1 (step_merge_state c ent)).
  - rewrite IH; destruct (handle_text_kept c text) as (_ & _ & H & _); exact H.
Qed.

(** C3, as the code has it: the pairs are (Red, Blue).  On a TIME line
    that starts a new tick, with a Red and a Blue with positions within
    3 NM of each other in the world as it is after the line, and at least
    [_merged_cooldown] ticks since the last call, the loop prints exactly
    one MERGED line, which names the altitude of such a Red, and marks the
    tick; on a line in a tick already seen, inside the cooldown, or without
    such a pair it prints nothing and leaves the mark.  The mark and the
    cooldown are touched by nothing else in the loop nor by any command, so
    the call is held back while fewer than [_merged_cooldown] ticks have
    passed, whatever the world looks like, and fires again on the first
    new tick after that on which a pair is close.  No push plan is active
    in any state that the loop and the commands reach from the initial
    one, where the cooldown is 10. *)
Theorem merged_call_rate_limited :
  forall (c : Controller.t) (tick : Z),
    (forall ts,
       PushPlan.active (plan_of c) = false ->
       let ws1 := time_world c ts in
       let t1 := time_tick c ts in
       let c' := fst (step c (ACTION_TIME ts)) in
       (t1 <> Controller._last_emit_tick c ->
        (Controller._merged_cooldown c <= t1 - Controller._last_merged_tick c)%Z ->
        forall e, merged_pair ws1 e ->
        exists e', merged_pair ws1 e'
                   /\ Controller.printed c' = (Controller.printed c ++ [merged_text e'])%list
                   /\ Controller._last_merged_tick c' = t1)
       /\ (t1 = Controller._last_emit_tick c
           \/ (t1 - Controller._last_merged_tick c < Controller._merged_cooldown c)%Z
           \/ (forall e, ~ merged_pair ws1 e) ->
           Controller.printed c' = Controller.printed c
           /\ Controller._last_merged_tick c' = Controller._last_merged_tick c)
       /\ Controller.ws c' = ws1
       /\ Controller._merged_cooldown c' = Controller._merged_cooldown c
       /\ PushPlan.active (plan_of c') = false)
    /\ (reaches Controller_init c ->
        PushPlan.active (plan_of c) = false /\ Controller._merged_cooldown c = 10%Z)
    /\ (forall line, merged_line (Controller.ws c) = Some line ->
          exists e, merged_pair (Controller.ws c) e
                    /\ line = "MERGED, " ++ threat_alt_phrase (T_attr Transform.Altitude e) ++ ".")
    /\ (forall e, merged_pair (Controller.ws c) e ->
          exists line, merged_line (Controller.ws c) = Some line)
    /\ (forall line, merged_line (Controller.ws c) = Some line ->
          (Controller._merged_cooldown c <= tick - Controller._last_merged_tick c)%Z ->
          Controller.printed (_check_merged c tick) = (Controller.printed c ++ [line])%list
          /\ Controller._last_merged_tick (_check_merged c tick) = tick
          /\ (forall c2 tick2,
                Controller._last_merged_tick c2 = tick ->
                Controller._merged_cooldown c2 = Controller._merged_cooldown c ->
                ((tick2 - tick < Controller._merged_cooldown c)%Z ->
                 _check_merged c2 tick2 = c2)
                /\ ((Controller._merged_cooldown c <= tick2 - tick)%Z ->
                    forall line2, merged_line (Controller.ws c2) = Some line2 ->
                    Controller.printed (_check_merged c2 tick2)
                    = (Controller.printed c2 ++ [line2])%list)))
    /\ ((tick - Controller._last_merged_tick c < Controller._merged_cooldown c)%Z ->
        _check_merged c tick = c)
    /\ (merged_line (Controller.ws c) = None -> _check_merged c tick = c)
    /\ (forall ent,
          Controller._merged_cooldown (fst (step c ent)) = Controller._merged_cooldown c
          /\ (Controller._last_merged_tick (fst (step c ent)) = Controller._last_merged_tick c
              \/ (Controller._merged_cooldown c
                  <= Controller._last_merged_tick (fst (step c ent))
                     - Controller._last_merged_tick c)%Z))
    /\ (forall text,
          Controller._merged_cooldown (fst (handle_text c text)) = Controller._merged_cooldown c
          /\ Controller._last_merged_tick (fst (handle_text c text))
             = Controller._last_merged_tick c).
Proof.
  intros c tick.
  split.
  { intros ts Hp ws1 t1 c'.
    set (c1 := with_last_emit_tick (with_ws c ws1) t1).
    assert (Hws : Controller.ws c' = ws1).
    { unfold c'; destruct (Z.eq_dec t1 (Controller._last_emit_tick c)) as [He|Hne].
      - rewrite (step_time_same c ts He); reflexivity.
      - rewrite (step_time_new c ts Hp Hne), ws_check_merged; reflexivity. }
    split; [|split; [|split; [exact Hws|split]]].
    - intros Hne Hcool e He.
      destruct (merged_line_complete ws1 e He) as [line Hl].
      destruct (merged_line_sound ws1 line Hl) as (e' & He' & ->).
      exists e'; split; [exact He'|].
      unfold c'; rewrite (step_time_new c ts Hp Hne); fold ws1 t1 c1.
      rewrite (check_merged_emits c1 t1 _ Hl Hcool); split; reflexivity.
    - intros [He|[Hin|Hno]].
      + unfold c'; rewrite (step_time_same c ts He); split; reflexivity.
      + destruct (Z.eq_dec t1 (Controller._last_emit_tick c)) as [He|Hne].
        * unfold c'; rewrite (step_time_same c ts He); split; reflexivity.
        * unfold c'; rewrite (step_time_new c ts Hp Hne); fold ws1 t1 c1.
          rewrite (check_merged_suppressed c1 t1 Hin); split; reflexivity.
      + destruct (Z.eq_dec t1 (Controller._last_emit_tick c)) as [He|Hne].
        * unfold c'; rewrite (step_time_same c ts He); split; reflexivity.
        * unfold c'; rewrite (step_time_new c ts Hp Hne); fold ws1 t1 c1.
          rewrite (check_merged_quiet c1 t1); [split; reflexivity|].
          destruct (merged_line (Controller.ws c1)) as [line|] eqn:Hl; [|reflexivity].
          destruct (merged_line_sound _ _ Hl) as (e & He & _).
          exfalso; exact (Hno e He).
    - exact (proj1 (step_merge_state c (ACTION_TIME ts))).
    - apply inactive_step; exact Hp. }
  split.
  { intros Hr; split.
    - apply (inactive_reaches _ _ Hr); reflexivity.
    - rewrite (reaches_merge_state _ _ Hr); reflexivity. }
  split; [apply merged_line_sound|].
  split; [apply merged_line_complete|].
  split.
  { intros line Hl Hc; rewrite (check_merged_emits c tick line Hl Hc).
    split; [reflexivity|]; split; [reflexivity|].
    intros c2 tick2 H1 H2; split.
    - intros Hlt; apply check_merged_suppressed; rewrite H1, H2; exact Hlt.
    - intros Hge line2 Hl2; rewrite (check_merged_emits c2 tick2 line2 Hl2); [reflexivity|].
      rewrite H1, H2; exact Hge. }
  split; [apply check_merged_suppressed|].
  split; [apply check_merged_quiet|].
  split; [apply step_merge_state|].
  intros text; destruct (handle_text_kept c text) as (_ & H1 & H2 & _); auto.
Qed.

(** *** A run of the loop with a merge *)

(** What the feed of updates leaves: the clock at 0.0, the TTL at 10 s and
    every entity last seen at 0.0. *)
Lemma fed_clock (l : list ACMIObject.t) :
  WorldState.time (Controller.ws (fed l)) = 0.0
  /\ WorldState.ttl (Controller.ws (fed l)) = 10.0
  /\ forall k t, In (k, t) (WorldState.last_seen (Controller.ws (fed l))) -> t = 0.0.
Proof.
  unfold fed.
  assert (H : forall c,
             (WorldState.time (Controller.ws c) = 0.0
              /\ WorldState.ttl (Controller.ws c) = 10.0
              /\ forall k t, In (k, t) (WorldState.last_seen (Controller.ws c)) -> t = 0.0) ->
             let c' := fold_left (fun c o => fst (step c (ACTION_UPDATE o))) l c in
             WorldState.time (Controller.ws c') = 0.0
             /\ WorldState.ttl (Controller.ws c') = 10.0
             /\ forall k t, In (k, t) (WorldState.last_seen (Controller.ws c')) -> t = 0.0).
  { induction l as [|o l IH]; intros c Hc; [exact Hc|].
    cbn [fold_left]; apply IH.
    destruct Hc as (Ht & Hl & Hs).
    rewrite step_update_ws.
    destruct (upsert_kept (Controller.ws c) (normalise_heading o)
                (WorldState.time (Controller.ws c))) as (_ & _ & -> & ->).
    split; [exact Ht|]; split; [exact Hl|].
    intros k t; rewrite upsert_last_seen; intros Hin.
    apply in_dict_set_value in Hin; destruct Hin as [[_ ->]|Hin]; [exact Ht|exact (Hs k t Hin)]. }
  apply H; repeat split; intros k t [].
Qed.

Lemma fed_hz (l : list ACMIObject.t) : Controller.hz (fed l) = 1.0.
Proof.
  unfold fed.
  assert (G : forall c, Controller.hz
               (fold_left (fun c o => fst (step c (ACTION_UPDATE o))) l c)
             = Controller.hz c).
  { induction l as [|o l' IH]; intros c; [reflexivity|].
    cbn [fold_left]; rewrite IH.
    change (Controller.hz (fst (step c (ACTION_UPDATE o))))
      with (Controller.hz (_check_missile_birth c (normalise_heading o))).
    unfold _check_missile_birth.
    destruct (PySet.mem _ _); [reflexivity|].
    destruct (negb _); [reflexivity|].
    destruct (Coal_eqb _ _); [reflexivity|].
    destruct (uv_of _); [|reflexivity].
    cbn [Controller.ws with_known_ids].
    destruct (nearest_scan _ _) as [[best|] r]; [|reflexivity].
    destruct (Rleb _ _); [|reflexivity].
    destruct (uv_of best); reflexivity. }
  rewrite G; reflexivity.
Qed.

Lemma cull_stale_fresh (ws : WorldState.t) (now : R) :
  (forall k t, In (k, t) (WorldState.last_seen ws) -> now - t <= WorldState.ttl ws) ->
  cull_stale ws now = ws.
Proof.
  unfold cull_stale; generalize (WorldState.last_seen ws) as l.
  induction l as [|[k t] l IH]; intros H; [reflexivity|].
  cbn [fold_left fst snd].
  replace (Rltb (WorldState.ttl ws) (now - t)) with false.
  - apply IH; intros k' t' Hin; apply (H k' t'); right; exact Hin.
  - symmetry; apply Rltb_false; apply (H k t); left; reflexivity.
Qed.

(** One second after the feed nothing is stale: the TIME line keeps every
    object. *)
Lemma fed_time_world (l : list ACMIObject.t) :
  WorldState.objects (time_world (fed l) (Some 1))
  = WorldState.objects (Controller.ws (fed l))
  /\ time_tick (fed l) (Some 1) = 1%Z.
Proof.
  destruct (fed_clock l) as (Ht & Hl & Hs).
  assert (E : float_or (Some 1) (WorldState.time (Controller.ws (fed l))) = 1).
  { unfold float_or; destruct (Req_dec_T 1 0); [lra|reflexivity]. }
  assert (Hw : time_world (fed l) (Some 1)
               = with_tracks (with_time (Controller.ws (fed l)) 1)
                   (map (fun kt => (fst kt, update_speed (snd kt) 1))
                      (WorldState.tracks (Controller.ws (fed l))))).
  { unfold time_world; cbv zeta.
    change (WorldState.time (with_tracks ?w _)) with (WorldState.time w).
    change (WorldState.time (with_time ?w ?t)) with t.
    change (WorldState.tracks (with_time ?w _)) with (WorldState.tracks w).
    rewrite E; apply cull_stale_fresh.
    intros k t Hin.
    change (In (k, t) (WorldState.last_seen (Controller.ws (fed l)))) in Hin.
    change (1 - t <= WorldState.ttl (Controller.ws (fed l))).
    rewrite (Hs k t Hin), Hl; lra. }
  split.
  - rewrite Hw; reflexivity.
  - unfold time_tick; rewrite Hw.
    change (WorldState.time (with_tracks ?w _)) with (WorldState.time w).
    change (WorldState.time (with_time ?w ?t)) with t.
    rewrite fed_hz; apply py_int_nonneg; simpl; lra.
Qed.

Lemma merged_call_witness :
  Controller.printed (fst (step merge_scene (ACTION_TIME (Some 1)))) = ["MERGED, FL230."]
  /\ Controller._last_merged_tick (fst (step merge_scene (ACTION_TIME (Some 1)))) = 1%Z.
Proof.
  destruct (fed_time_world [blue1; red1]) as (Ho & Ht).
  fold merge_scene in Ho, Ht.
  destruct (queries_read_objects _ _ Ho) as (_ & Hb & Hr & _).
  destruct merge_scene_air as (Hb' & Hr').
  rewrite Hb' in Hb; rewrite Hr' in Hr.
  assert (Hp : PushPlan.active (plan_of merge_scene) = false).
  { apply (inactive_reaches _ _ (reaches_fed [blue1; red1])); reflexivity. }
  destruct (merged_call_rate_limited merge_scene 0) as (H & _).
  destruct (H (Some 1) Hp) as (H1 & _).
  destruct (H1) with (e := normalise_heading red1) as (e' & (Hin & _) & Hpr & Hm).
  - rewrite Ht; discriminate.
  - rewrite Ht; change (Controller._merged_cooldown merge_scene) with 10%Z.
    change (Controller._last_merged_tick merge_scene) with (-9999)%Z; lia.
  - split; [rewrite Hr; left; reflexivity|].
    exists (1000, 2000), (normalise_heading blue1), (1000, 1000).
    split; [apply uv_of_aircraft; lra|].
    split; [rewrite Hb; left; reflexivity|].
    split; [apply uv_of_aircraft; lra|].
    rewrite range_nm_same_u, Rabs_of_neg by lra.
    unfold EARTH_M_PER_NM, MERGED_NM; lra.
  - rewrite Hr in Hin; destruct Hin as [<-|[]].
    split; [|rewrite Hm; exact Ht].
    rewrite Hpr; unfold merged_text.
    change (T_attr Transform.Altitude (normalise_heading red1)) with (Some 7000).
    rewrite threat_alt_7000; reflexivity.
Defined.

End MergedLoop.

(** ** The point rebuilt from bearing and range *)

Section Rebuilt.
Local Open Scope R_scope.

(** Two angles of one turn with the same sine and cosine are the same. *)
Lemma angle_unique (a b : R) :
  0 <= a < 2 * PI -> 0 <= b < 2 * PI -> sin a = sin b -> cos a = cos b -> a = b.
Proof.
  intros Ha Hb Hs Hc.
  assert (Hs0 : sin (a - b) = 0) by (rewrite sin_minus, Hs, Hc; ring).
  assert (Hc1 : cos (a - b) = 1).
  { rewrite cos_minus, Hs, Hc; pose proof (sin2_cos2 b) as H; unfold Rsqr in H; lra. }
  destruct (sin_eq_0_0 _ Hs0) as [k Hk].
  pose proof PI_RGT_0 as Hpi.
  assert (Hk1 : (-2 < k < 2)%Z).
  { split; apply lt_IZR.
    - apply Rmult_lt_reg_r with PI; [lra|]; rewrite <- Hk; lra.
    - apply Rmult_lt_reg_r with PI; [lra|]; rewrite <- Hk; lra. }
  assert (Hcases : k = (-1)%Z \/ k = 0%Z \/ k = 1%Z) by lia.
  destruct Hcases as [-> | [-> | ->]].
  - rewrite Hk in Hc1; replace (-1 * PI) with (- PI) in Hc1 by ring.
    rewrite cos_neg, cos_PI in Hc1; lra.
  - lra.
  - rewrite Hk in Hc1; replace (1 * PI) with PI in Hc1 by ring.
    rewrite cos_PI in Hc1; lra.
Qed.

(** The bearing of the point at distance [r] in the direction [b] is [b]. *)
Lemma bearing_of_direction (b r : R) :
  0 <= b < 360 -> 0 < r ->
  bearing_deg (sin (radians b) * r) (cos (radians b) * r) = b.
Proof.
  intros Hb Hr.
  pose proof PI_RGT_0 as Hpi.
  set (dx := sin (radians b) * r); set (dy := cos (radians b) * r).
  assert (Hh : hypot dx dy = r).
  { unfold dx, dy; rewrite hypot_scale, hypot_sin_cos by lra; ring. }
  destruct (atan2_direction dx dy) as [Hs Hc]; rewrite Hh in Hs, Hc.
  destruct (radians_bearing dx dy) as [k Hk].
  pose proof (bearing_deg_range dx dy) as Hrange.
  assert (Hsin : sin (radians (bearing_deg dx dy)) = sin (radians b)).
  { rewrite Hk, sin_period_Z; apply Rmult_eq_reg_r with r; [|lra]; exact Hs. }
  assert (Hcos : cos (radians (bearing_deg dx dy)) = cos (radians b)).
  { rewrite Hk, cos_period_Z; apply Rmult_eq_reg_r with r; [|lra]; exact Hc. }
  assert (Hrad : forall x, 0 <= x < 360 -> 0 <= radians x < 2 * PI).
  { intros x Hx; unfold radians; split.
    - apply Rmult_le_pos; [lra|]; apply Rlt_le, Rdiv_lt_0_compat; lra.
    - replace (2 * PI) with (360 * (PI / 180)) by field.
      apply Rmult_lt_compat_r; [apply Rdiv_lt_0_compat; lra|lra]. }
  pose proof (angle_unique _ _ (Hrad _ Hrange) (Hrad _ Hb) Hsin Hcos) as E.
  unfold radians in E; apply Rmult_eq_reg_r in E; [exact E|].
  apply Rgt_not_eq, Rdiv_lt_0_compat; lra.
Qed.

Lemma py_round_bounds (x : R) : x - 1 / 2 <= IZR (py_round x) <= x + 1 / 2.
Proof.
  unfold py_round; pose proof (Zfloor_bound x) as [H1 H2]; cbv zeta.
  destruct (Rlt_dec (x - IZR (Zfloor x)) (1 / 2)); [lra|].
  destruct (Rlt_dec (1 / 2) (x - IZR (Zfloor x))); [rewrite plus_IZR; lra|].
  destruct (Z.even (Zfloor x)); [|rewrite plus_IZR]; lra.
Qed.

Lemma py_round_close (x : R) : Rabs (IZR (py_round x) - x) <= 1 / 2.
Proof. pose proof (py_round_bounds x); apply Rabs_le; lra. Qed.

Lemma brg_rng_same_point (ou ov : R) : brg_rng_from_xy ou ov ou ov = (0%Z, 0).
Proof.
  unfold brg_rng_from_xy.
  replace (ou - ou) with 0 by ring; replace (ov - ov) with 0 by ring.
  rewrite (proj2 (hypot_zero 0 0)) by auto.
  unfold bearing_deg, degrees; rewrite atan2_origin.
  rewrite (py_fmod_in_range _ _ 1) by lra.
  replace (0 * (180 / PI) + 360.0 - 360.0 * 1) with (IZR 0) by lra.
  rewrite py_round_IZR; f_equal; unfold EARTH_M_PER_NM; lra.
Qed.

Lemma bulls_to_uv_offset (bu bv b r : R) :
  fst (bulls_to_uv bu bv b r) - bu = sin (radians b) * (r * EARTH_M_PER_NM)
  /\ snd (bulls_to_uv bu bv b r) - bv = cos (radians b) * (r * EARTH_M_PER_NM).
Proof. unfold bulls_to_uv; cbn [fst snd]; split; ring. Qed.

(** C6, as the code has it: the bearing is rounded to whole degrees before
    it is given back (at most half a degree off the true bearing), so the
    reconstruction keeps the range from the origin and lies on the rounded
    bearing: read from the origin it has the same whole bearing and the
    same range as the target.  It is the target itself when the bearing
    from the origin to the target is a whole number of degrees. *)
Theorem bearing_range_round_trip :
  forall (ou ov tu tv : R),
    let brg := fst (brg_rng_from_xy ou ov tu tv) in
    let rng := snd (brg_rng_from_xy ou ov tu tv) in
    let p := bulls_to_uv ou ov (IZR brg) rng in
    hypot (fst p - ou) (snd p - ov) = hypot (tu - ou) (tv - ov)
    /\ rng = hypot (tu - ou) (tv - ov) / EARTH_M_PER_NM
    /\ brg = (py_round (bearing_deg (tu - ou) (tv - ov)) mod 360)%Z
    /\ ((exists k : Z, bearing_deg (tu - ou) (tv - ov) = IZR k) -> p = (tu, tv))
    /\ (0 <= brg < 360)%Z
    /\ (brg = py_round (bearing_deg (tu - ou) (tv - ov))
        \/ (brg = 0%Z /\ py_round (bearing_deg (tu - ou) (tv - ov)) = 360%Z))
    /\ Rabs (IZR (py_round (bearing_deg (tu - ou) (tv - ov)))
             - bearing_deg (tu - ou) (tv - ov)) <= 1 / 2
    /\ (tu <> ou \/ tv <> ov -> bearing_deg (fst p - ou) (snd p - ov) = IZR brg)
    /\ brg_rng_from_xy ou ov (fst p) (snd p) = (brg, rng).
Proof.
  intros ou ov tu tv brg rng p.
  assert (Hrng : rng = hypot (tu - ou) (tv - ov) / EARTH_M_PER_NM) by reflexivity.
  assert (Hr0 : 0 <= rng).
  { rewrite Hrng; pose proof (hypot_nonneg (tu - ou) (tv - ov)); unfold EARTH_M_PER_NM.
    apply Rmult_le_pos; [assumption|lra]. }
  assert (Hdist : hypot (fst p - ou) (snd p - ov) = hypot (tu - ou) (tv - ov)).
  { unfold p; rewrite bulls_to_uv_hypot by exact Hr0.
    rewrite Hrng; unfold EARTH_M_PER_NM; lra. }
  assert (Hbrg : (0 <= brg < 360)%Z) by (apply Z.mod_pos_bound; lia).
  pose proof (py_round_close (bearing_deg (tu - ou) (tv - ov))) as Hclose.
  assert (Hon : tu <> ou \/ tv <> ov -> bearing_deg (fst p - ou) (snd p - ov) = IZR brg).
  { intros Hne.
    destruct (bulls_to_uv_offset ou ov (IZR brg) rng) as [E1 E2].
    unfold p; rewrite E1, E2.
    apply bearing_of_direction.
    - split; [apply IZR_le; lia|apply IZR_lt; lia].
    - assert (H0 : hypot (tu - ou) (tv - ov) <> 0).
      { intros H0; apply hypot_zero in H0; lra. }
      pose proof (hypot_nonneg (tu - ou) (tv - ov)).
      rewrite Hrng; unfold EARTH_M_PER_NM; lra. }
  split; [exact Hdist|].
  split; [exact Hrng|].
  split; [reflexivity|].
  split.
  { intros [k Hk].
    assert (Hb : IZR brg = bearing_deg (tu - ou) (tv - ov)).
    { unfold brg, brg_rng_from_xy; cbn [fst]; rewrite Hk, py_round_IZR.
      pose proof (bearing_deg_range (tu - ou) (tv - ov)) as [H1 H2]; rewrite Hk in H1, H2.
      apply le_IZR in H1; apply lt_IZR in H2.
      rewrite Z.mod_small by lia; reflexivity. }
    destruct (radians_bearing (tu - ou) (tv - ov)) as [m Hm].
    destruct (atan2_direction (tu - ou) (tv - ov)) as [Hs Hc].
    unfold p, bulls_to_uv; rewrite Hb, Hm, sin_period_Z, cos_period_Z.
    replace (rng * EARTH_M_PER_NM) with (hypot (tu - ou) (tv - ov))
      by (rewrite Hrng; unfold EARTH_M_PER_NM; lra).
    rewrite Hs, Hc; f_equal; ring. }
  split; [exact Hbrg|].
  split.
  { pose proof (bearing_deg_range (tu - ou) (tv - ov)) as [H1 H2].
    pose proof (py_round_bounds (bearing_deg (tu - ou) (tv - ov))) as Hb2.
    assert (Hlo : (0 <= py_round (bearing_deg (tu - ou) (tv - ov)))%Z).
    { apply Z.lt_succ_r, lt_IZR; rewrite succ_IZR; lra. }
    assert (Hhi : (py_round (bearing_deg (tu - ou) (tv - ov)) <= 360)%Z).
    { apply Z.lt_succ_r, lt_IZR; rewrite succ_IZR; lra. }
    change brg with (py_round (bearing_deg (tu - ou) (tv - ov)) mod 360)%Z.
    destruct (Z.eq_dec (py_round (bearing_deg (tu - ou) (tv - ov))) 360) as [E|E].
    - right; rewrite E; split; reflexivity.
    - left; apply Z.mod_small; lia. }
  split; [exact Hclose|].
  split; [exact Hon|].
  destruct (Req_dec tu ou) as [Eu|Nu]; [destruct (Req_dec tv ov) as [Ev|Nv]|].
  - assert (E : brg_rng_from_xy ou ov tu tv = (0%Z, 0))
      by (rewrite Eu, Ev; apply brg_rng_same_point).
    unfold p, brg, rng; rewrite E; cbn [fst snd].
    unfold bulls_to_uv; cbn [fst snd].
    replace (ou + sin (radians 0) * (0 * EARTH_M_PER_NM)) with ou by ring.
    replace (ov + cos (radians 0) * (0 * EARTH_M_PER_NM)) with ov by ring.
    apply brg_rng_same_point.
  - unfold brg_rng_from_xy at 1; rewrite (Hon (or_intror Nv)), py_round_IZR, Hdist.
    rewrite Z.mod_small by lia; reflexivity.
  - unfold brg_rng_from_xy at 1; rewrite (Hon (or_introl Nu)), py_round_IZR, Hdist.
    rewrite Z.mod_small by lia; reflexivity.
Qed.

Lemma round_trip_witness :
  bulls_to_uv 5 7 (IZR (fst (brg_rng_from_xy 5 7 (5 + 1852) 7)))
    (snd (brg_rng_from_xy 5 7 (5 + 1852) 7))
  = (5 + 1852, 7).
Proof.
  apply (proj1 (proj2 (proj2 (proj2 (bearing_range_round_trip 5 7 (5 + 1852) 7))))).
  exists 90%Z.
  replace (5 + 1852 - 5) with 1852 by ring; replace (7 - 7) with 0 by ring.
  apply bearing_deg_east; lra.
Defined.

End Rebuilt.

(** ** Groups are the classes of the closure *)

Section Closure.
Local Open Scope R_scope.
Local Open Scope string_scope.

Lemma linked_has_items (rng_nm alt_ft : R) (items : list Item.t) (i j : nat) :
  linked rng_nm alt_ft items i j ->
  i = j \/ exists a b, nth_error items i = Some a /\ nth_error items j = Some b.
Proof.
  induction 1 as [i j (a & b & Ha & Hb & _)|i|i j _ IH|i j k _ IH1 _ IH2].
  - right; eauto.
  - left; reflexivity.
  - destruct IH as [->|(a & b & Ha & Hb)]; [left; reflexivity|right; eauto].
  - destruct IH1 as [->|(a & b & Ha & Hb)]; [exact IH2|].
    destruct IH2 as [<-|(b' & c & Hb' & Hc)]; right; eauto.
Qed.

(** A chain of positions is a chain of the contacts at these positions. *)
Lemma linked_chain (rng_nm alt_ft : R) (items : list Item.t) (i j : nat) :
  linked rng_nm alt_ft items i j ->
  forall A B, nth_error items i = Some A -> nth_error items j = Some B ->
              chain rng_nm alt_ft items A B.
Proof.
  induction 1 as [i j (a & b & Ha & Hb & Hc)|i|i j Hl IH|i j k Hij IH1 Hjk IH2];
    intros A B HA HB.
  - apply rst_step; rewrite Ha in HA; rewrite Hb in HB.
    injection HA as <-; injection HB as <-.
    split; [eapply nth_error_In; exact Ha|]; split; [eapply nth_error_In; exact Hb|exact Hc].
  - rewrite HA in HB; injection HB as <-; apply rst_refl.
  - apply rst_sym, IH; assumption.
  - destruct (linked_has_items _ _ _ _ _ Hij) as [->|(a & b & Ha & Hb)]; [apply IH2; assumption|].
    apply rst_trans with b; [apply IH1|apply IH2]; assumption.
Qed.

(** C8: grouping is the transitive closure of closeness.  If A is close to
    B and B is close to C, one group holds all three, whatever the distance
    between A and C; more generally the contacts linked by a chain of close
    pairs share a group, the members of a group are joined by chains of
    close contacts, and every contact with a planar position is in one
    group: the groups that [group_contacts] returns are the classes of the
    closure. *)
Theorem grouping_is_transitive :
  forall (contacts : list ACMIObject.t) (rng_nm alt_ft : R),
    let items := items_of contacts in
    let groups := group_contacts contacts rng_nm alt_ft in
    (forall ia ib ic A B C,
        nth_error items ia = Some A ->
        nth_error items ib = Some B ->
        nth_error items ic = Some C ->
        close rng_nm alt_ft A B = true ->
        close rng_nm alt_ft B C = true ->
        exists g, In g groups /\ In A g /\ In B g /\ In C g)
    /\ (forall i j A B,
          nth_error items i = Some A -> nth_error items j = Some B ->
          linked rng_nm alt_ft items i j ->
          exists g, In g groups /\ In A g /\ In B g)
    /\ (forall g A B, In g groups -> In A g -> In B g -> chain rng_nm alt_ft items A B)
    /\ Permutation (List.concat groups) items
    /\ (NoDup items -> forall g h A, In g groups -> In h groups ->
                                    In A g -> In A h -> g = h)
    /\ (forall i j, (i < List.length items)%nat -> linked rng_nm alt_ft items i j ->
          exists cluster, In cluster (clusters rng_nm alt_ft items)
                          /\ In i cluster /\ In j cluster)
    /\ (forall cluster i j, In cluster (clusters rng_nm alt_ft items) ->
          In i cluster -> In j cluster -> linked rng_nm alt_ft items i j).
Proof.
  intros contacts rng_nm alt_ft items groups.
  assert (Hlink : forall i j, (i < List.length items)%nat -> linked rng_nm alt_ft items i j ->
            exists cluster, In cluster (clusters rng_nm alt_ft items)
                            /\ In i cluster /\ In j cluster).
  { intros i j Hi Hl.
    destruct (clusters_cover rng_nm alt_ft items i Hi) as [g [Hg Hin]].
    exists g; repeat split; auto.
    destruct (clusters_closed_chained rng_nm alt_ft items g Hg) as [Hc _].
    apply (closed_linked rng_nm alt_ft items g Hc i j Hl); exact Hin. }
  assert (Hshare : forall i j A B,
            nth_error items i = Some A -> nth_error items j = Some B ->
            linked rng_nm alt_ft items i j ->
            exists g, In g groups /\ In A g /\ In B g).
  { intros i j A B HA HB Hl.
    assert (Hi : (i < List.length items)%nat) by (apply nth_error_Some; congruence).
    destruct (Hlink i j Hi Hl) as (cluster & Hc & Hic & Hjc).
    exists (members items cluster); split; [unfold groups, group_contacts; apply in_map; exact Hc|].
    split; [exact (members_In items cluster i A Hic HA)|exact (members_In items cluster j B Hjc HB)]. }
  pose proof (groups_permutation contacts rng_nm alt_ft) as Hperm.
  fold items groups in Hperm.
  split.
  { intros ia ib ic A B C HA HB HC HAB HBC.
    assert (Hb : (ib < List.length items)%nat) by (apply nth_error_Some; congruence).
    destruct (clusters_cover rng_nm alt_ft items ib Hb) as [g [Hg Hin]].
    destruct (clusters_closed_chained rng_nm alt_ft items g Hg) as [Hc _].
    assert (Ha : In ia g).
    { apply (closed_linked rng_nm alt_ft items g Hc ib ia); auto.
      apply rst_sym, rst_step; exists A, B; auto. }
    assert (Hc' : In ic g).
    { apply (closed_linked rng_nm alt_ft items g Hc ib ic); auto.
      apply rst_step; exists B, C; auto. }
    exists (members items g); split.
    + unfold groups, group_contacts; apply in_map; exact Hg.
    + split; [exact (members_In items g ia A Ha HA)|].
      split; [exact (members_In items g ib B Hin HB)|exact (members_In items g ic C Hc' HC)]. }
  split; [exact Hshare|].
  split.
  { intros g A B Hg HA HB.
    unfold groups, group_contacts in Hg; apply in_map_iff in Hg.
    destruct Hg as (cluster & <- & Hc).
    apply members_In_inv in HA; destruct HA as (i & Hi & HA).
    apply members_In_inv in HB; destruct HB as (j & Hj & HB).
    destruct (clusters_closed_chained rng_nm alt_ft items cluster Hc) as [_ Hch].
    exact (linked_chain _ _ _ _ _ (Hch i j Hi Hj) A B HA HB). }
  split; [exact Hperm|].
  split.
  { intros Hnd g h A Hg Hh HAg HAh.
    apply (Permutation_NoDup (Permutation_sym Hperm)) in Hnd.
    exact (NoDup_concat_unique groups Hnd g h A Hg Hh HAg HAh). }
  split; [exact Hlink|].
  intros cluster i j Hg Hi Hj.
  destruct (clusters_closed_chained rng_nm alt_ft items cluster Hg) as [_ Hch].
  apply Hch; auto.
Qed.

Lemma items_far_pair : items_of far_pair = [item_a; item_d].
Proof.
  unfold far_pair, items_of.
  rewrite (item_of_uv (bandit "a" 1000 1000 7000) _ 1000 1000 eq_refl eq_refl eq_refl) by lra.
  rewrite (item_of_uv (bandit "d" 100000 1000 7000) _ 100000 1000 eq_refl eq_refl eq_refl) by lra.
  reflexivity.
Qed.

Lemma far_pair_apart : close 5 2000 item_a item_d = false /\ close 5 2000 item_d item_a = false.
Proof.
  unfold item_a, item_d; rewrite !close_in_line; split.
  - rewrite Rabs_of_neg by lra; unfold EARTH_M_PER_NM; apply Rleb_false; lra.
  - rewrite Rabs_of_pos by lra; unfold EARTH_M_PER_NM; apply Rleb_false; lra.
Qed.

Lemma far_pair_chain (x y : Item.t) : chain 5 2000 [item_a; item_d] x y -> x = y.
Proof.
  destruct far_pair_apart as [Had Hda].
  induction 1 as [x y (Hx & Hy & Hc)|x|x y _ IH|x y z _ IH1 _ IH2]; try congruence.
  destruct Hx as [<-|[<-|[]]]; destruct Hy as [<-|[<-|[]]]; congruence.
Qed.

Lemma grouping_witness :
  close 5 2000 item_a item_c = false
  /\ (exists g, In g (group_contacts line_of_three 5 2000)
                /\ In item_a g /\ In item_b g /\ In item_c g)
  /\ (forall g, In g (group_contacts far_pair 5 2000) -> ~ (In item_a g /\ In item_d g)).
Proof.
  split; [|split].
  - unfold item_a, item_c; rewrite close_in_line.
    rewrite Rabs_of_neg by lra; unfold EARTH_M_PER_NM.
    apply Rleb_false; lra.
  - apply (proj1 (grouping_is_transitive line_of_three 5 2000) 0%nat 1%nat 2%nat);
      try (rewrite items_line_of_three; reflexivity).
    + unfold item_a, item_b; rewrite close_in_line.
      rewrite Rabs_of_neg by lra; unfold EARTH_M_PER_NM.
      apply Rleb_true; lra.
    + unfold item_b, item_c; rewrite close_in_line.
      rewrite Rabs_of_neg by lra; unfold EARTH_M_PER_NM.
      apply Rleb_true; lra.
  - intros g Hg [Ha Hd].
    pose proof (proj1 (proj2 (proj2 (grouping_is_transitive far_pair 5 2000))) g
                  item_a item_d Hg Ha Hd) as Hch.
    rewrite items_far_pair in Hch; apply far_pair_chain in Hch.
    apply (f_equal Item.u) in Hch; cbn [Item.u item_a item_d] in Hch; lra.
Defined.

End Closure.
